(* ===== verification/_CoqProject ===== *)
-Q . S2P
Prelude.v
WrappingIntegers.v
ByteStream.v
StreamReassembler.v
Buffer.v
Parser.v
InternetChecksum.v
Address.v
FileDescriptor.v
Descriptors.v
EventLoop.v
TCPHeader.v
TCPSegment.v
IPv4Header.v
IPv4Datagram.v
Text.v
TCPConfig.v
FdAdapter.v
Socket.v
StreamCopy.v
Doctests.v
UdpTcpdump.v
CommandLine.v
Programs.v
Webget.v
SegmentSpec.v
AdapterLink.v
TCPReceiver.v
TCPSendingWindow.v
TCPSender.v
SenderSegments.v
TCPState.v
TCPConnection.v
ConnectionParts.v
Encodable.v
EndToEnd.v
ConnectionInvariant.v
Handshake.v
Conversation.v
SessionHalves.v
SessionPoints.v
Session.v
ConnectionStreams.v
TCPSpongeSocket.v
SpongeSide.v
FrontEnds.v
Benchmark.v
Owners.v
