(* ===== verification/Prelude.v ===== *)
(** * A verification library for the Sponge TCP implementation

    Sponge ([src/libsponge]) is a user-level TCP.  An application writes bytes to
    and reads bytes from a [TCPConnection]; the connection turns them into
    segments and takes segments from the peer; an adapter carries the segments in
    UDP payloads or IPv4 datagrams.  From the bottom up:

    - [wrapping_integers]: 32-bit sequence numbers and their absolute values;
    - [byte_stream]: the bounded in-order stream between application and TCP;
    - [stream_reassembler]: puts substrings that arrive in any order together;
    - [util/buffer], [util/parser], [util/util]: shared strings, network byte
      order, the Internet checksum;
    - [tcp_helpers/tcp_header], [tcp_segment], [ipv4_header], [ipv4_datagram]: the
      wire formats;
    - [tcp_receiver]: from segments to the reassembler, acknowledgment, window;
    - [tcp_sending_window], [tcp_sender]: from the outgoing stream to segments,
      outstanding segments, retransmission;
    - [tcp_helpers/tcp_state], [tcp_connection]: the two halves together, the
      dispatch on the official TCP state, opening, closing, resetting;
    - [util/address], [tcp_helpers/tcp_config], [fd_adapter], [lossy_fd_adapter],
      [tcp_over_ip], [tuntap_adapter]: addresses and the adapters below TCP;
    - [util/file_descriptor], [util/eventloop], [util/socket], [util/tun]:
      descriptors, sockets, devices and the loop over them;
    - [tcp_helpers/tcp_sponge_socket]: the thread that runs a connection over an
      adapter and hands its streams to the owner;
    - [src/apps]: the copy between terminal and socket, the benchmark, a packet
      dumper, command lines and small clients.

    ** How the code is modelled

    Every class is a record with the source's member names and every method a
    function on it; a loop is a [Fixpoint] or [while_] (below), a call that can
    fail returns an [outcome]: a value, an exception, or [UB] for undefined
    behaviour.  Machine integers are [Z] with the wrap-around written out ([u8],
    [u16], [u32], [u64]); a string, vector or deque is a list.  A reference that
    the source returns ([stream_out()], [segments_out()]) is an accessor and a
    setter.  What the C library, the kernel and the random number generator
    yield is an argument or the parameter of a type class.

    - [Prelude]: outcomes, integers, vectors, loops, tactics, hints.
    - [WrappingIntegers]: [wrap], [unwrap].  [unwrap_closest] is the contract of
      [unwrap]; the guard in the source is one too strict, so the contract holds
      outside [2^32, 2^33) only ([unwrap_guard_off_by_2_32]).
    - [ByteStream]: the ring buffer.  [byte_stream_refines]: any sequence of
      calls behaves as on an abstract queue, by the relation [rep].
    - [StreamReassembler]: [push_substring] and its loops.  [reach] is
      reachability by pushes of parts of one stream and by reads.  What a read
      past the end of [_count] yields is the class [OverRead]; it happens exactly
      when the window is full ([reassembler_over_read_iff]).
      [reassembler_safe], [reassembler_progress] and [reassembler_complete] give
      prefix, progress and order independence.
    - [Buffer], [Parser], [InternetChecksum], [TCPHeader], [TCPSegment],
      [IPv4Header], [IPv4Datagram]: parsers and printers, with round trips,
      totality of the parsers and detection of a changed byte;
      [tcp_segment_parse_typed] compares [TCPSegment::parse] with the layout of the
      header ([header_of]).  Segments are compared by [≡], which looks through the
      storage of the payload.
    - [SegmentSpec]: what it means for a segment to carry a part of a stream; it
      is the contract between sender and receiver.
    - [TCPReceiver]: [rreach] is reachability by segments of the peer and reads;
      acknowledgments, window and state of every reachable receiver.
    - [TCPSendingWindow], [TCPSender]: the invariant [winv] (a gapless chain of
      outstanding segments) and [sinv]; [sreach] is reachability by writes,
      [fill_window], acknowledgments and ticks.  [sender_segments_valid] is what
      the receiver's theorems assume.
    - [TCPState], [TCPConnection]: summaries, official states, every branch of
      [segment_received], [tick], [connect], [write], shutdown and destructor;
      opening from both sides, data on an established connection, reset, linger,
      giving up.  [close_wait_ignores_acks] and [fin_wait_2_ignores_data] state
      two branches that lose what they receive.
    - [Address], [TCPConfig], [FdAdapter]: addresses over a name service (class
      [Resolver], laws [ResolverOk], instance [numeric_resolver]); the adapter
      interface is the class [FdAdapter] with the laws [FdAdapterOk], which the
      UDP, the IPv4 and the lossy adapter satisfy; [adapter_handshake] is proved
      from them for each of these adapters.
    - [FileDescriptor], [EventLoop]: the shared object behind a descriptor, the
      write loop over a kernel that takes portions (class [WritevOk]), and both
      loops of [wait_next_event] over callbacks on a shared world (class [Fds]).
      [event_loop_step] is proved for rules that keep the contract [rule_ok],
      which the documentation of the function asks for: a round is then the
      reference round [serve].  For rules that may throw, the record [contract] has one invariant for the loop that cancels and one for
      the loop that calls back, and what a rule may rely on when its turn comes
      ([armed]); [round_ends] is what a round then does.
    - [EndToEnd]: a sender, a network that loses, repeats and reorders, and a
      receiver: the reader always sees a prefix of what was written.
    - [ConnectionInvariant]: what every operation of a connection keeps, both
      halves together.  [Handshake]: two connections open through their three
      segments.  [Conversation]: two connections and a network that loses, repeats
      and reorders in both directions; [conversation] is safety of both streams,
      [conversation_total] that no operation fails.
    - [SessionHalves], [SessionPoints], [Session]: progress.  A point of a session
      says what each half has sent and received; the steps from point to point
      lead from two fresh connections to two closed ones, and
      [session_completes] says that every pair of streams can be delivered whole.
    - [ConnectionParts]: what holds of both halves and of the queue holds of a
      connection after any call, for every property the class [Halves] admits;
      [SenderSegments] is the same for the segments a sender keeps and queues.
      [ConnectionStreams] (what the calls do to the two streams the application
      sees) and [Encodable] (every segment fits a datagram, [every_segment_fits])
      are instances.
    - [Descriptors]: the handles on these objects with their reference counts, over a
      heap and the kernel's table of numbers; [descriptors_owned] says that no number
      is leaked, closed twice or closed under a handle.  The discipline it
      asks for is needed: [second_close_hits_another], [failed_close_is_repeated].
    - [Text]: output streams with their manipulators, [hexdump] and the texts of the
      two headers; [hexdump_layout] compares the loop with a definition by
      lines, [header_text_unambiguous] says that the text determines the header.
    - [Socket]: every operation of the sockets and of the TUN device over a kernel
      (class [Kernel]) that answers the calls with the arguments the code passes.
    - [TCPSpongeSocket]: the four rules of the TCP thread, its loop by rounds,
      opening, shutting down and destruction, over any adapter; what others do
      between two rounds is part of the round.  [sponge_conduit] says that the
      owner gets and gives exactly the bytes of the connection's streams, and which
      call in which world ([call_fails]) has failed when the loop fails.
    - [AdapterLink]: what two adapters that have each other as peer never do wrong,
      also while one still listens and whatever they drop (class [FdAdapterLink]).
    - [SpongeSide], [Owners]: two sockets, from owner to owner.  [SpongeSide] relates
      the thread of a socket to a side of a [Conversation] (the record [sim]): each
      callback is a run of calls and deliveries.  [Owners] puts the callbacks into
      the contract of the event loop and lets the two threads take rounds in any
      order; [owners_conversation] and [owners_undisturbed] are [conversation] and
      [conversation_total] for what the owners see and what a thread may throw.
    - [StreamCopy]: the event loop of the applications, with the faithfulness of
      the copy in both directions.
    - [Benchmark]: two connections in one process; [benchmark_loses_data] shows
      what the branch for [FIN_WAIT_2] does to it.
    - [UdpTcpdump], [CommandLine], [FrontEnds], [Programs], [Webget]: the other
      applications, with the bounds of their reads, their command lines as the
      inverse of a printer, their usage texts, their [main] and what they print.
    - [Doctests]: the compiled examples of the documentation ([src/doctests]).

    ** Bounds and fuel

    [while_] runs at most [2 ^ 64] iterations, by doubling, and is [UB] beyond;
    [while_rule] asks for a measure below [2 ^ 64], so a theorem with [Ok] proves
    termination.  [assemble_loop] has one unit of fuel per cell up to the end of
    the buffer, where the source's loop stops; [fold_loop] of the checksum has
    two, which is enough for a 32-bit sum ([fold_loop_stops]).  Streams are
    shorter than [2 ^ 63], as the counters of the code require, and for sender
    and receiver shorter than [2 ^ 31] or [2 ^ 32] where the hypotheses say so,
    because [unwrap] is wrong beyond; [window_ack_crosses_2_32] shows what
    happens there.

    A computation may be shown to return ([returns]), to be right if it returns
    ([sat]), or to return something right or throw, but never to be undefined and
    never to go on for ever ([sound]).  The event loop and what runs on it is shown
    to return something right or to fail, by an exception or undefined behaviour,
    only as the calls it makes fail ([ends], over a predicate on [fault]s).

    ** What is not modelled

    Messages on [cerr] and what the packet dumper and the packet printer say about a
    packet; the measurements of the benchmark; the text on which a [main] ends.  The
    two threads of a [TCPSpongeSocket] are interleaved at the rounds of the event
    loops, not at single instructions: [_abort] is atomic and the rest is
    handed over through sockets.  The C library, [pcap] and the standard library's
    generators and clocks are parameters.  [SystemCall] takes an [int]: the results of
    [read] and [writev] are narrowed to it in the source and kept as they are here,
    which is the same below 2^31.  The parts of the system that only configure the
    build, and the tests, are not modelled.

    Under which schedules of a fair network a conversation completes is not stated:
    [close_wait_ignores_acks] and [fin_wait_2_ignores_data] show that it is not all of
    them, and [session_completes] that there is one.  In [Conversation] and [Owners]
    the network delivers only segments the code is right for ([deliverable]): inside the
    window, not shrinking the sender's window, a bare FIN not before the data; what
    happens otherwise is in [receiver_acks_discarded], [window_shrink_wraps],
    [receiver_early_fin_loses] and [conversation_early_fin].  In [Owners] a descriptor
    polled for reading does not hang up before it is readable (a hang-up would end the
    outbound stream early), and an owner that listens writes only after the SYN. *)

From stdpp Require Export base tactics numbers list strings relations.
From coqutil Require Export Byte.
From Stdlib Require Export ZArith Lia.

#[global] Open Scope Z_scope.

(** ** Outcomes of a C++ computation

    A call returns a value, throws one of the exceptions the sources throw, or
    has undefined behaviour (an out-of-range [operator[]], an iterator past the
    end).  The monad is an instance of stdpp's [MRet]/[MBind] classes, so that
    code in sequence is written [x ← c; k]. *)

Inductive exn :=
  | runtime_error (what : string)
  | tagged_error (attempt : string) (error_code : Z)
  | unix_error (attempt : string) (error : Z)
  | invalid_argument (what : string)
  | out_of_range (what : string)
  | length_error (what : string)
  | bad_optional_access.

Inductive outcome (A : Type) :=
  | Ok (a : A)
  | Throw (e : exn)
  | UB.
Arguments Ok {A} a.
Arguments Throw {A} e.
Arguments UB {A}.

#[global] Instance outcome_ret : MRet outcome := fun A a => Ok a.
#[global] Instance outcome_bind : MBind outcome := fun A B k c =>
  match c with
  | Ok a => k a
  | Throw e => Throw e
  | UB => UB
  end.

(** How a program goes on: with [exit] or [return], or with a value. *)
Inductive flow (A : Type) := Leave (code : Z) | Go (a : A).
Arguments Leave {A} code.
Arguments Go {A} a.

(** How a call fails to return a value *)
Inductive fault := Thrown (e : exn) | Undefined.

Definition fails {A} (c : outcome A) (f : fault) : Prop :=
  match c with
  | Ok _ => False
  | Throw e => f = Thrown e
  | UB => f = Undefined
  end.

Lemma fails_thrown {A} (c : outcome A) e : fails c (Thrown e) -> c = Throw e.
Proof. destruct c; simpl; [done|by intros [= ->]|done]. Qed.

(** Only exceptions, and only these. *)
Definition thrown (P : exn -> Prop) (f : fault) : Prop :=
  match f with Thrown e => P e | Undefined => False end.

#[global] Instance exn_eq_dec : EqDecision exn.
Proof. solve_decision. Defined.
#[global] Instance outcome_eq_dec {A} `{EqDecision A} : EqDecision (outcome A).
Proof. solve_decision. Defined.

#[global] Instance byte_eq_decision : EqDecision byte := Stdlib.Strings.Byte.byte_eq_dec.

Lemma bind_ok {A B} (c : outcome A) (f : A -> outcome B) a : c = Ok a -> (c ≫= f) = f a.
Proof. by intros ->. Qed.

Lemma outcome_bind_ok {A B} (c : outcome A) (k : A -> outcome B) (b : B) :
  (c ≫= k) = Ok b <-> exists a, c = Ok a /\ k a = Ok b.
Proof. destruct c; simpl; naive_solver. Qed.

Lemma outcome_bind_assoc {A B C} (c : outcome A) (f : A -> outcome B) (g : B -> outcome C) :
  ((c ≫= f) ≫= g) = (c ≫= fun a => f a ≫= g).
Proof. by destruct c. Qed.

(** ** Fixed-width integers

    Machine integers are [Z] with the wrap-around written out.  [size_t] and
    [uint64_t] are the same type on the target (LP64). *)

Definition u8 (z : Z) : Z := z mod 2 ^ 8.
Definition u16 (z : Z) : Z := z mod 2 ^ 16.
Definition u32 (z : Z) : Z := z mod 2 ^ 32.
Definition u64 (z : Z) : Z := z mod 2 ^ 64.
(** Conversion to [int32_t]: the representative of [z] modulo 2^32 in [-2^31, 2^31). *)
Definition i32 (z : Z) : Z := (z + 2 ^ 31) mod 2 ^ 32 - 2 ^ 31.

Lemma u8_range z : 0 <= u8 z < 2 ^ 8.
Proof. by apply Z.mod_pos_bound. Qed.
Lemma u16_range z : 0 <= u16 z < 2 ^ 16.
Proof. by apply Z.mod_pos_bound. Qed.
Lemma u32_range z : 0 <= u32 z < 2 ^ 32.
Proof. by apply Z.mod_pos_bound. Qed.
Lemma u64_range z : 0 <= u64 z < 2 ^ 64.
Proof. by apply Z.mod_pos_bound. Qed.

Lemma u8_small z : 0 <= z < 2 ^ 8 -> u8 z = z.
Proof. apply Z.mod_small. Qed.
Lemma u16_small z : 0 <= z < 2 ^ 16 -> u16 z = z.
Proof. apply Z.mod_small. Qed.
Lemma u32_small z : 0 <= z < 2 ^ 32 -> u32 z = z.
Proof. apply Z.mod_small. Qed.
Lemma u64_small z : 0 <= z < 2 ^ 64 -> u64 z = z.
Proof. apply Z.mod_small. Qed.

Lemma u64_u64_add x y : u64 (u64 x + y) = u64 (x + y).
Proof. unfold u64. by rewrite Zplus_mod_idemp_l. Qed.

(** Linear arithmetic over wrapped integers: turn every [mod] by a constant
    into its Euclidean equation first. *)
Ltac wrap_lia := unfold u8, u16, u32, u64, i32 in *; Z.to_euclidean_division_equations; lia.

(** Discharge the range side condition of the [_small] lemmas and rewrite. *)
Ltac drop_wrap := rewrite ?u64_small, ?u32_small, ?u16_small, ?u8_small by lia.

(** Indices of a ring of [N] cells. *)
Lemma ring_add_inj N r j k :
  0 <= j < N -> 0 <= k < N -> (r + j) mod N = (r + k) mod N -> j = k.
Proof.
  intros Hj Hk E. rewrite <- (Z.mod_small j N), <- (Z.mod_small k N) by lia.
  replace j with (r + j - r) by lia. replace k with (r + k - r) by lia.
  by rewrite <- (Zminus_mod_idemp_l (r + j)), E, Zminus_mod_idemp_l.
Qed.

Lemma ring_next N r k : ((r + k) mod N + 1) mod N = (r + (k + 1)) mod N.
Proof. rewrite Zplus_mod_idemp_l. f_equal. lia. Qed.

(** ** Vectors and strings

    [std::vector<T>] and [std::deque<T>] are lists; [operator[]] out of range
    is undefined behaviour.  [std::string] is a list of bytes. *)

Abbreviation len l := (Z.of_nat (length l)).

Definition vec_get {A} (v : list A) (i : Z) : outcome A :=
  if 0 <=? i then match v !! Z.to_nat i with Some a => Ok a | None => UB end else UB.

Definition vec_set {A} (v : list A) (i : Z) (a : A) : outcome (list A) :=
  if (0 <=? i) && (i <? len v) then Ok (<[Z.to_nat i := a]> v) else UB.

(** [v.resize(n, a)]: cut or extend with copies of [a]. *)
Definition vec_resize {A} (v : list A) (n : Z) (a : A) : list A := resize (Z.to_nat n) a v.

Lemma vec_get_ok {A} (v : list A) i a :
  0 <= i -> v !! Z.to_nat i = Some a -> vec_get v i = Ok a.
Proof. intros ? E. unfold vec_get. destruct (Z.leb_spec 0 i); [by rewrite E | lia]. Qed.

Lemma vec_get_in {A} (v : list A) i : 0 <= i < len v -> exists a, vec_get v i = Ok a.
Proof.
  intros Hi. destruct (lookup_lt_is_Some_2 v (Z.to_nat i)) as [a E]; [lia|].
  exists a. by apply vec_get_ok; [lia|].
Qed.

Lemma vec_get_out {A} (v : list A) i : len v <= i -> vec_get v i = UB.
Proof.
  intros ?. unfold vec_get. destruct (Z.leb_spec 0 i); [|done].
  by rewrite lookup_ge_None_2 by lia.
Qed.

Lemma vec_set_ok {A} (v : list A) i a :
  0 <= i < len v -> vec_set v i a = Ok (<[Z.to_nat i := a]> v).
Proof.
  intros ?. unfold vec_set.
  destruct (Z.leb_spec 0 i), (Z.ltb_spec i (len v)); simpl; (done || lia).
Qed.

(** [s.substr]-like views, with [Z] lengths. *)
Definition ztake {A} (n : Z) (l : list A) : list A := take (Z.to_nat n) l.
Definition zdrop {A} (n : Z) (l : list A) : list A := drop (Z.to_nat n) l.

Lemma ztake_zdrop {A} n (l : list A) : ztake n l ++ zdrop n l = l.
Proof. apply take_drop. Qed.

Lemma len_ztake {A} n (l : list A) : 0 <= n -> len (ztake n l) = Z.min n (len l).
Proof. intros. unfold ztake. rewrite length_take. lia. Qed.

Lemma ztake_all {A} n (l : list A) : len l <= n -> ztake n l = l.
Proof. intros. apply take_ge. lia. Qed.

Lemma ztake_min {A} n (l : list A) : ztake (Z.min (len l) n) l = ztake n l.
Proof.
  destruct (Z.le_ge_cases (len l) n); [|by rewrite Z.min_r by lia].
  rewrite Z.min_l by lia. by rewrite !ztake_all by lia.
Qed.

Lemma zdrop_min {A} n (l : list A) : zdrop (Z.min n (len l)) l = zdrop n l.
Proof.
  destruct (Z.le_ge_cases n (len l)); [by rewrite Z.min_l by lia|].
  rewrite Z.min_r by lia. unfold zdrop. by rewrite !drop_ge by lia.
Qed.

Lemma len_zdrop {A} n (l : list A) : 0 <= n <= len l -> len (zdrop n l) = len l - n.
Proof. intros. unfold zdrop. rewrite length_drop. lia. Qed.

(** Case analysis on a boolean test of the goal or of a hypothesis, reflected
    into the order when it is a comparison of integers. *)
Ltac case_cond b :=
  lazymatch b with
  | (?x <? ?y) => destruct (Z.ltb_spec x y)
  | (?x <=? ?y) => destruct (Z.leb_spec x y)
  | (?x =? ?y) => destruct (Z.eqb_spec x y)
  | (?x >? ?y) => rewrite (Z.gtb_ltb x y) in *; destruct (Z.ltb_spec y x)
  | (?x >=? ?y) => rewrite (Z.geb_leb x y) in *; destruct (Z.leb_spec y x)
  | _ => destruct b eqn:?
  end.

Ltac case_bool :=
  match goal with
  | |- context [if ?b then _ else _] => case_cond b
  | H : context [if ?b then _ else _] |- _ => case_cond b
  end.

(** Case analysis on every integer comparison of the goal, dropping the
    impossible cases as it goes. *)
Ltac case_cmp :=
  repeat match goal with
  | |- context [?x <? ?y] => destruct (Z.ltb_spec x y); try (exfalso; lia)
  | |- context [?x <=? ?y] => destruct (Z.leb_spec x y); try (exfalso; lia)
  | |- context [?x =? ?y] => destruct (Z.eqb_spec x y); try (exfalso; lia)
  | |- context [?x >? ?y] => rewrite (Z.gtb_ltb x y)
  | |- context [?x >=? ?y] => rewrite (Z.geb_leb x y)
  end; cbn [andb orb negb].

(** ** Loops

    [while_ body a] runs [body] until it leaves the loop with [inr].  The fuel
    is binary: [iterate n] runs at most [2 ^ n] times, so that 64 levels are more
    than any loop bounded by a machine integer needs, and an evaluation stops
    with the loop.  Running out of fuel is [UB], so a theorem that gives [Ok]
    shows that the loop ends. *)
Section loops.
  Context {A B : Type} (body : A -> outcome (A + B)).

Fixpoint iterate (n : nat) (a : A) : outcome (A + B) :=
  match n with
  | O => body a
  | S n =>
      x ← iterate n a;
      match x with
      | inl a' => iterate n a'
      | inr b => mret (inr b)
      end
  end.

Definition while_ (a : A) : outcome B :=
  x ← iterate 64 a;
  match x with
  | inl _ => UB
  | inr b => mret b
  end.

Lemma iterate_exit n a b : body a = Ok (inr b) -> iterate n a = Ok (inr b).
Proof. intros E. induction n as [|n IH]; cbn [iterate]; [done|]. by rewrite IH. Qed.

Lemma while_exit a b : body a = Ok (inr b) -> while_ a = Ok b.
Proof. intros E. unfold while_. by rewrite (iterate_exit _ _ b E). Qed.

(** A loop that is left in its first round, by any exit. *)
Lemma while_once a :
  (forall a', body a <> Ok (inl a')) ->
  while_ a = (x ← body a; match x with inl _ => UB | inr b => mret b end).
Proof.
  intros Hb. assert (E : forall n, iterate n a = body a).
  { induction n as [|n IH]; cbn [iterate]; [done|]. rewrite IH.
    destruct (body a) as [[a'|b]| |] eqn:Ea; try done. by destruct (Hb a'). }
  unfold while_. by rewrite E.
Qed.

(** The rule for loops: an invariant, a measure that every iteration that stays
    in the loop decreases, and what holds of an exception that leaves it. *)
Lemma iterate_rule (I : A -> Prop) (Q : B -> Prop) (E : exn -> Prop) (m : A -> Z) :
  (forall a, I a ->
     match body a with
     | Ok (inl a') => I a' /\ 0 <= m a' < m a
     | Ok (inr b) => Q b
     | Throw e => E e
     | UB => False
     end) ->
  forall n a, I a ->
    match iterate n a with
    | Ok (inl a') => I a' /\ 0 <= m a' <= m a - 2 ^ Z.of_nat n
    | Ok (inr b) => Q b
    | Throw e => E e
    | UB => False
    end.
Proof.
  intros Hb. induction n as [|n IH]; intros a Ha; cbn [iterate].
  - specialize (Hb a Ha). destruct (body a) as [[a'|b]| |]; try done.
    split; [tauto|]. change (2 ^ Z.of_nat 0) with 1. lia.
  - pose proof (IH a Ha) as H1. destruct (iterate n a) as [[a'|b]| |]; cbn [mbind outcome_bind]; try done.
    destruct H1 as [Ha' Hm]. specialize (IH a' Ha').
    destruct (iterate n a') as [[a''|b]| |]; try done. split; [tauto|].
    rewrite Nat2Z.inj_succ, Z.pow_succ_r by lia. lia.
Qed.

Lemma while_rule_exn (I : A -> Prop) (Q : B -> Prop) (E : exn -> Prop) (m : A -> Z) a :
  (forall a, I a ->
     match body a with
     | Ok (inl a') => I a' /\ 0 <= m a' < m a
     | Ok (inr b) => Q b
     | Throw e => E e
     | UB => False
     end) ->
  I a -> m a < 2 ^ 64 ->
  match while_ a with Ok b => Q b | Throw e => E e | UB => False end.
Proof.
  intros Hb Ha Hm. pose proof (iterate_rule I Q E m Hb 64 a Ha) as H. unfold while_.
  destruct (iterate 64 a) as [[a'|b]| |]; try done.
  destruct H as [_ H]. change (Z.of_nat 64) with 64 in H. lia.
Qed.

Lemma while_rule (I : A -> Prop) (Q : B -> Prop) (m : A -> Z) a :
  (forall a, I a ->
     match body a with
     | Ok (inl a') => I a' /\ 0 <= m a' < m a
     | Ok (inr b) => Q b
     | _ => False
     end) ->
  I a -> m a < 2 ^ 64 -> exists b, while_ a = Ok b /\ Q b.
Proof.
  intros Hb Ha Hm. pose proof (while_rule_exn I Q (fun _ => False) m a Hb Ha Hm) as H.
  destruct (while_ a) as [b| |]; [by exists b|done..].
Qed.
End loops.

(** ** Reasoning about computations

    [returns c Q]: the computation ends with a value, and the value satisfies
    [Q].  [sat c Q]: if it ends with a value, the value satisfies [Q]; nothing is
    said when it throws. *)
Definition returns {A} (c : outcome A) (Q : A -> Prop) : Prop := exists a, c = Ok a /\ Q a.
Definition sat {A} (c : outcome A) (Q : A -> Prop) : Prop := forall a, c = Ok a -> Q a.

Lemma returns_ok {A} (a : A) (Q : A -> Prop) : Q a -> returns (Ok a) Q.
Proof. intros. by exists a. Qed.

Lemma returns_bind {A B} (c : outcome A) (f : A -> outcome B) (P : A -> Prop) (Q : B -> Prop) :
  returns c P -> (forall a, P a -> returns (f a) Q) -> returns (c ≫= f) Q.
Proof. intros (a & -> & Ha) Hf. by apply Hf. Qed.

Lemma returns_mono {A} (c : outcome A) (P Q : A -> Prop) :
  returns c P -> (forall a, P a -> Q a) -> returns c Q.
Proof. intros (a & -> & Ha) HPQ. exists a. auto. Qed.

Lemma returns_eq {A} (c : outcome A) (Q : A -> Prop) a : returns c Q -> c = Ok a -> Q a.
Proof. by intros (a' & -> & Ha) [= ->]. Qed.

Lemma sat_ok {A} (a : A) (Q : A -> Prop) : Q a -> sat (Ok a) Q.
Proof. by intros Ha a' [= <-]. Qed.

Lemma sat_bind {A B} (c : outcome A) (f : A -> outcome B) (P : A -> Prop) (Q : B -> Prop) :
  sat c P -> (forall a, P a -> sat (f a) Q) -> sat (c ≫= f) Q.
Proof. intros Hc Hf b E. destruct c as [a| |]; [|done..]. eapply Hf; [by apply Hc|done]. Qed.

Lemma sat_mono {A} (c : outcome A) (P Q : A -> Prop) :
  sat c P -> (forall a, P a -> Q a) -> sat c Q.
Proof. intros Hc HPQ a E. auto. Qed.

Lemma sat_returns {A} (c : outcome A) (P Q : A -> Prop) :
  returns c P -> sat c Q -> returns c (fun a => P a /\ Q a).
Proof. intros (a & E & Ha) Hs. exists a. auto. Qed.

(** [sound c Q]: [c] may throw, but is never undefined, and a value satisfies [Q]. *)
Definition sound {A} (c : outcome A) (Q : A -> Prop) : Prop :=
  match c with Ok a => Q a | Throw _ => True | UB => False end.

Lemma sound_bind {A B} (c : outcome A) (f : A -> outcome B) (P : A -> Prop) (Q : B -> Prop) :
  sound c P -> (forall a, P a -> sound (f a) Q) -> sound (c ≫= f) Q.
Proof. intros Hc Hf. destruct c; [by apply Hf|done|done]. Qed.

Lemma sound_sat {A} (c : outcome A) (Q : A -> Prop) : sound c Q -> sat c Q.
Proof. by intros H a ->. Qed.

Lemma sound_defined {A} (c : outcome A) (Q : A -> Prop) : sound c Q -> c <> UB.
Proof. by intros H ->. Qed.

Lemma sound_mono {A} (c : outcome A) (P Q : A -> Prop) :
  sound c P -> (forall a, P a -> Q a) -> sound c Q.
Proof. destruct c; simpl; auto. Qed.

(** The partial rule for loops needs only an invariant. *)
Lemma while_sat {A B} (body : A -> outcome (A + B)) (I : A -> Prop) (Q : B -> Prop) a :
  (forall a, I a -> sat (body a) (fun x => match x with inl a' => I a' | inr b => Q b end)) ->
  I a -> sat (while_ body a) Q.
Proof.
  intros Hb Ha.
  assert (Hn : forall n a, I a ->
    sat (iterate body n a) (fun x => match x with inl a' => I a' | inr b => Q b end)).
  { induction n as [|n IH]; intros a' Ha'; cbn [iterate]; [by apply Hb|].
    eapply sat_bind; [by apply IH|]. intros [a''|b] Hx; [by apply IH|by apply sat_ok]. }
  eapply sat_bind; [by apply Hn|]. intros [a'|b] Hx; [done|by apply sat_ok].
Qed.

(** ** Hints shared by the components *)
Create HintDb sponge.
#[export] Hint Resolve u8_range u16_range u32_range u64_range : sponge.
