(* ===== verification/WrappingIntegers.v ===== *)
(** * 32-bit wrapping sequence numbers

    Model of [libsponge/wrapping_integers.hh] and [.cc]: the raw 32-bit value,
    its operators, and [wrap]/[unwrap] between 64-bit absolute sequence numbers
    and the 32-bit numbers of a TCP header. *)

From S2P Require Import Prelude.

Record WrappingInt32 := mkWrappingInt32 { raw_value : Z }.

#[global] Instance WrappingInt32_eq_dec : EqDecision WrappingInt32.
Proof. solve_decision. Defined.

(** The type's width: every value a program can hold has a 32-bit raw value. *)
Definition wi_valid (a : WrappingInt32) : Prop := 0 <= raw_value a < 2 ^ 32.

(** [int32_t operator-(WrappingInt32 a, WrappingInt32 b)] *)
Definition wi_sub (a b : WrappingInt32) : Z := i32 (u32 (raw_value a - raw_value b)).

(** [bool operator==] *)
Definition wi_eqb (a b : WrappingInt32) : bool := raw_value a =? raw_value b.

(** [WrappingInt32 operator+(WrappingInt32 a, uint32_t b)] *)
Definition wi_add (a : WrappingInt32) (b : Z) : WrappingInt32 :=
  mkWrappingInt32 (u32 (raw_value a + u32 b)).

(** [WrappingInt32 operator-(WrappingInt32 a, uint32_t b)], i.e. [a + -b] *)
Definition wi_minus (a : WrappingInt32) (b : Z) : WrappingInt32 := wi_add a (u32 (- u32 b)).

Definition wrap (n : Z) (isn : WrappingInt32) : WrappingInt32 :=
  mkWrappingInt32 (u32 (u64 (n + raw_value isn))).

Definition unwrap (n isn : WrappingInt32) (checkpoint : Z) : Z :=
  let out := u64 (u32 (wi_sub n isn)) in
  let out := u64 (out + u64 (Z.shiftl (Z.shiftr checkpoint 32) 32)) in
  if out <? checkpoint then
    if (u64 (checkpoint - out) >? Z.shiftl 1 31) &&
       (Z.shiftr checkpoint 32 <? u64 (Z.shiftl 1 32 - 1))
    then u64 (out + Z.shiftl 1 32)
    else out
  else
    if (u64 (out - checkpoint) >? Z.shiftl 1 31) && (Z.shiftr checkpoint 32 >? 1)
    then u64 (out - Z.shiftl 1 32)
    else out.

(** ** Elementary facts *)

Lemma wi_eqb_eq a b : wi_eqb a b = true <-> a = b.
Proof. unfold wi_eqb. destruct a, b; simpl. rewrite Z.eqb_eq. naive_solver. Qed.

Lemma wrap_valid n isn : wi_valid (wrap n isn).
Proof. apply u32_range. Qed.

Lemma wi_sub_u32 a b : u32 (wi_sub a b) = u32 (raw_value a - raw_value b).
Proof. unfold wi_sub. wrap_lia. Qed.

Lemma u32_u64 z : u32 (u64 z) = u32 z.
Proof. wrap_lia. Qed.

(** The arithmetic content of [unwrap]: the low word is the offset from the
    ISN, the high word is the checkpoint's, then one correction of 2^32 in the
    direction of the checkpoint unless a guard on its high word forbids it. *)
Lemma unwrap_eq n isn c :
  0 <= c < 2 ^ 64 ->
  unwrap n isn c =
    (let base := c / 2 ^ 32 * 2 ^ 32 in
     let out := base + (raw_value n - raw_value isn) mod 2 ^ 32 in
     if (out <? c) && (c - out >? 2 ^ 31) && (c / 2 ^ 32 <? 2 ^ 32 - 1) then out + 2 ^ 32
     else if (c <=? out) && (out - c >? 2 ^ 31) && (c / 2 ^ 32 >? 1) then out - 2 ^ 32
     else out).
Proof.
  intros Hc. unfold unwrap. rewrite wi_sub_u32, Z.shiftr_div_pow2, Z.shiftl_mul_pow2 by lia.
  change (Z.shiftl 1 31) with (2 ^ 31). change (Z.shiftl 1 32) with (2 ^ 32).
  rewrite (u64_small (2 ^ 32 - 1)) by lia. unfold u32.
  set (d := (raw_value n - raw_value isn) mod 2 ^ 32).
  assert (0 <= d < 2 ^ 32) by (by apply Z.mod_pos_bound).
  pose proof (Z.div_mod c (2 ^ 32)). pose proof (Z.mod_pos_bound c (2 ^ 32)).
  set (q := c / 2 ^ 32) in *. assert (0 <= q < 2 ^ 32) by lia.
  rewrite (u64_small d), (u64_small (q * 2 ^ 32)), Z.add_comm by lia.
  rewrite (u64_small (q * 2 ^ 32 + d)) by lia. simpl.
  destruct (Z.ltb_spec (q * 2 ^ 32 + d) c); simpl.
  - rewrite u64_small by lia.
    destruct (Z.leb_spec c (q * 2 ^ 32 + d)); [lia|]. simpl.
    repeat case_bool; try done; rewrite u64_small; lia.
  - destruct (Z.leb_spec c (q * 2 ^ 32 + d)); [|lia]. simpl. rewrite u64_small by lia.
    repeat case_bool; try done; rewrite u64_small; lia.
Qed.

(** A number congruent to [n - isn] modulo 2^32 wraps to [n]. *)
Lemma wrap_congruent n isn m :
  wi_valid n -> 0 <= m < 2 ^ 64 ->
  (wrap m isn = n <-> m mod 2 ^ 32 = (raw_value n - raw_value isn) mod 2 ^ 32).
Proof.
  intros Hn Hm. unfold wrap. rewrite u32_u64. destruct n as [r], isn as [i].
  unfold wi_valid in Hn; simpl in *. split.
  - intros [= <-]. unfold u32. rewrite Zminus_mod_idemp_l. f_equal. lia.
  - intros E. f_equal. unfold u32. rewrite <- Zplus_mod_idemp_l, E, Zplus_mod_idemp_l.
    rewrite Z.sub_add. by apply Z.mod_small.
Qed.

Lemma unwrap_bounds n isn c : 0 <= c < 2 ^ 64 -> 0 <= unwrap n isn c < 2 ^ 64.
Proof.
  intros Hc. rewrite unwrap_eq by done. simpl.
  pose proof (Z.mod_pos_bound (raw_value n - raw_value isn) (2 ^ 32)).
  pose proof (Z.div_mod c (2 ^ 32)). pose proof (Z.mod_pos_bound c (2 ^ 32)).
  repeat case_bool; lia.
Qed.

Lemma unwrap_congruent n isn c :
  0 <= c < 2 ^ 64 -> unwrap n isn c mod 2 ^ 32 = (raw_value n - raw_value isn) mod 2 ^ 32.
Proof.
  intros Hc. rewrite unwrap_eq by done. simpl.
  pose proof (Z.mod_pos_bound (raw_value n - raw_value isn) (2 ^ 32)).
  set (d := _ mod _) in *. set (q := c / 2 ^ 32).
  assert (0 <= d < 2 ^ 32) by lia.
  repeat case_bool;
    [replace (q * 2 ^ 32 + d + 2 ^ 32) with (d + (q + 1) * 2 ^ 32) by lia
    |replace (q * 2 ^ 32 + d - 2 ^ 32) with (d + (q - 1) * 2 ^ 32) by lia
    |replace (q * 2 ^ 32 + d) with (d + q * 2 ^ 32) by lia];
    rewrite Z.mod_add by lia; by apply Z.mod_small.
Qed.

(** Within less than half the sequence space of the checkpoint [unwrap] is the
    inverse of [wrap], except below 2^32 for a checkpoint in [2^32, 2^33). *)
Lemma unwrap_near n isn c m :
  0 <= c < 2 ^ 64 -> 0 <= m < 2 ^ 64 -> wi_valid n -> wrap m isn = n ->
  Z.abs (m - c) < 2 ^ 31 -> (c < 2 ^ 32 \/ 2 ^ 33 <= c \/ 2 ^ 32 <= m) ->
  unwrap n isn c = m.
Proof.
  intros Hc Hm Hn E Hd Hg. apply wrap_congruent in E; [|done..].
  rewrite unwrap_eq by done. simpl. rewrite <- E.
  pose proof (Z.div_mod c (2 ^ 32)). pose proof (Z.mod_pos_bound c (2 ^ 32)).
  pose proof (Z.div_mod m (2 ^ 32)). pose proof (Z.mod_pos_bound m (2 ^ 32)).
  set (q := c / 2 ^ 32) in *. set (p := m / 2 ^ 32) in *.
  assert (p = q \/ p = q + 1 \/ p = q - 1) by lia.
  repeat case_bool; lia.
Qed.

(** Absolute numbers that [unwrap] finds from [checkpoint]. *)
Definition in_reach (checkpoint pos : Z) : Prop :=
  Z.abs (pos - checkpoint) < 2 ^ 31 /\
  (checkpoint < 2 ^ 32 \/ 2 ^ 33 <= checkpoint \/ 2 ^ 32 <= pos).

Lemma unwrap_in_reach isn c m :
  0 <= c < 2 ^ 64 -> 0 <= m < 2 ^ 64 -> in_reach c m -> unwrap (wrap m isn) isn c = m.
Proof. intros Hc Hm [??]. by apply unwrap_near; auto using wrap_valid. Qed.

Lemma in_reach_refl c : in_reach c c.
Proof. unfold in_reach. lia. Qed.

(** Where the guard of [unwrap] on the high word is one too strict. *)
Lemma unwrap_below_guard isn m checkpoint :
  0 <= m < 2 ^ 32 -> 2 ^ 32 <= checkpoint < 2 ^ 33 -> checkpoint - m < 2 ^ 31 ->
  unwrap (wrap m isn) isn checkpoint = m + 2 ^ 32.
Proof.
  intros Hm Hc Hd. rewrite unwrap_eq by lia. cbv zeta.
  rewrite <- (proj1 (wrap_congruent (wrap m isn) isn m (wrap_valid _ _) ltac:(lia)) eq_refl).
  rewrite (Z.mod_small m) by lia.
  replace (checkpoint / 2 ^ 32) with 1 by (apply Z.div_unique with (checkpoint - 2 ^ 32); lia).
  repeat case_bool; lia.
Qed.

(** ** Properties *)

(** Round trip: whatever the checkpoint, the absolute sequence number
    [unwrap] returns wraps back to the 32-bit number it was given. *)
Theorem wrap_unwrap n isn checkpoint :
  wi_valid n -> 0 <= checkpoint < 2 ^ 64 ->
  wrap (unwrap n isn checkpoint) isn = n.
Proof.
  intros Hn Hc. apply wrap_congruent; auto using unwrap_bounds, unwrap_congruent.
Qed.

Lemma wrap_unwrap_witness :
  wrap (unwrap (mkWrappingInt32 15) (mkWrappingInt32 16) 0) (mkWrappingInt32 16) =
    mkWrappingInt32 15.
Proof. apply wrap_unwrap; [split; vm_compute; congruence | lia]. Defined.

(** The candidates: [unwrap] is at least as close as [m]. *)
Lemma unwrap_distance n isn checkpoint m :
  wi_valid n -> 0 <= checkpoint < 2 ^ 64 -> checkpoint < 2 ^ 32 \/ 2 ^ 33 <= checkpoint ->
  0 <= m < 2 ^ 64 -> wrap m isn = n ->
  Z.abs (unwrap n isn checkpoint - checkpoint) <= Z.abs (m - checkpoint).
Proof.
  intros Hn Hc Hg Hm E. apply wrap_congruent in E; [|done..].
  rewrite unwrap_eq by done. simpl. rewrite <- E.
  pose proof (Z.div_mod checkpoint (2 ^ 32)). pose proof (Z.mod_pos_bound checkpoint (2 ^ 32)).
  pose proof (Z.div_mod m (2 ^ 32)). pose proof (Z.mod_pos_bound m (2 ^ 32)).
  set (q := checkpoint / 2 ^ 32) in *. set (p := m / 2 ^ 32) in *.
  assert (p = q \/ p <= q - 1 \/ q + 1 <= p) by lia.
  repeat case_bool; lia.
Qed.

(** C21. [unwrap] inverts [wrap] near the checkpoint: for every valid [n], every
    initial number and every 64-bit checkpoint the result is a 64-bit absolute
    number that wraps to [n]; for a checkpoint outside [2^32, 2^33) it is the one
    closest to the checkpoint among all 64-bit numbers that wrap to [n], and
    any number less than 2^31 away from the checkpoint comes back from its wrapped
    form as it was. *)
Theorem unwrap_closest n isn checkpoint :
  wi_valid n -> 0 <= checkpoint < 2 ^ 64 ->
  0 <= unwrap n isn checkpoint < 2 ^ 64 /\
  wrap (unwrap n isn checkpoint) isn = n /\
  (checkpoint < 2 ^ 32 \/ 2 ^ 33 <= checkpoint -> forall m, 0 <= m < 2 ^ 64 ->
     (wrap m isn = n -> Z.abs (unwrap n isn checkpoint - checkpoint) <= Z.abs (m - checkpoint)) /\
     (Z.abs (m - checkpoint) < 2 ^ 31 -> unwrap (wrap m isn) isn checkpoint = m)).
Proof.
  intros Hn Hc. split; [by apply unwrap_bounds|].
  split; [apply wrap_congruent; auto using unwrap_bounds, unwrap_congruent|].
  intros Hg m Hm. split; [by apply unwrap_distance|]. intros Hd.
  pose proof (unwrap_distance (wrap m isn) isn checkpoint m (wrap_valid _ _) Hc Hg Hm eq_refl) as Hle.
  pose proof (unwrap_congruent (wrap m isn) isn checkpoint Hc) as E1.
  pose proof (proj1 (wrap_congruent (wrap m isn) isn m (wrap_valid _ _) Hm) eq_refl) as E2.
  rewrite <- E2 in E1. Z.to_euclidean_division_equations. lia.
Qed.

Lemma unwrap_closest_witness :
  let isn := mkWrappingInt32 0 in let c := 3 * 2 ^ 32 - 1 in
  wrap (unwrap (mkWrappingInt32 5) isn c) isn = mkWrappingInt32 5 /\
  Z.abs (unwrap (mkWrappingInt32 5) isn c - c) <= Z.abs (3 * 2 ^ 32 + 5 - c) /\
  unwrap (wrap (3 * 2 ^ 32 + 5) isn) isn c = 3 * 2 ^ 32 + 5.
Proof.
  destruct (unwrap_closest (mkWrappingInt32 5) (mkWrappingInt32 0) (3 * 2 ^ 32 - 1))
    as (_ & E & Hm); [split; vm_compute; congruence | lia |].
  destruct (Hm) with (m := 3 * 2 ^ 32 + 5) as [H1 H2]; [right; lia | lia |].
  split; [exact E|]. split; [by apply H1 | apply H2; lia].
Defined.

(** For a checkpoint in [2^32, 2^33) the guard [(checkpoint>>32) > 1] blocks
    the correction downwards: an absolute number [m] below 2^32, less than 2^31
    before the checkpoint, comes back as [m + 2^32]. *)
Theorem unwrap_guard_off_by_2_32 isn m checkpoint :
  0 <= m < 2 ^ 32 -> 2 ^ 32 <= checkpoint < 2 ^ 33 -> checkpoint - m < 2 ^ 31 ->
  unwrap (wrap m isn) isn checkpoint = m + 2 ^ 32.
Proof. apply unwrap_below_guard. Qed.

Lemma unwrap_guard_off_by_2_32_witness :
  unwrap (wrap (2 ^ 32 - 1) (mkWrappingInt32 7)) (mkWrappingInt32 7) (2 ^ 32)
    = 2 ^ 32 - 1 + 2 ^ 32.
Proof. apply unwrap_guard_off_by_2_32; lia. Defined.
