(* ===== verification/ByteStream.v ===== *)
(** * The in-order byte stream

    Model of [libsponge/byte_stream.hh] and [.cc]: a ring buffer of
    [capacity + 1] cells.  The abstract stream is a queue of bytes with the
    history of what was read; [rep] is the simulation relation, and every
    operation of the ring buffer is shown to implement the queue operation. *)

From S2P Require Import Prelude.

Record ByteStream := mkByteStream {
  _channel : list byte;
  _capacity : Z;
  _read_index : Z;
  _write_index : Z;
  _bytes_read : Z;
  _bytes_written : Z;
  _end_flag : bool;
  _error : bool
}.

#[global] Instance ByteStream_eq_dec : EqDecision ByteStream.
Proof. solve_decision. Defined.

(** [ByteStream::ByteStream(capacity)]: [capacity + 1] zero-initialised cells. *)
Definition new (capacity : Z) : ByteStream :=
  mkByteStream (replicate (Z.to_nat (u64 (capacity + 1))) Byte.x00) capacity 0 0 0 0 false false.

Definition _next_index_of (bs : ByteStream) (index step : Z) : Z :=
  u64 (index + step mod u64 (_capacity bs + 1)) mod u64 (_capacity bs + 1).

Definition _buffer_full (bs : ByteStream) : bool :=
  _next_index_of bs (_write_index bs) 1 =? _read_index bs.

(** One iteration of the [while] loop of [write]: store, advance, count. *)
Definition push_byte (bs : ByteStream) (c : byte) : outcome ByteStream :=
  ch ← vec_set (_channel bs) (_write_index bs) c;
  mret (mkByteStream ch (_capacity bs) (_read_index bs)
          (_next_index_of bs (_write_index bs) 1) (_bytes_read bs)
          (u64 (_bytes_written bs + 1)) (_end_flag bs) (_error bs)).

(** The loop of [write]; [data] is what is left of the argument. *)
Fixpoint write_loop (bs : ByteStream) (data : list byte) (bytes_count : Z) :
    outcome (ByteStream * Z) :=
  match data with
  | [] => mret (bs, bytes_count)
  | c :: rest =>
      if _buffer_full bs then mret (bs, bytes_count)
      else bs' ← push_byte bs c; write_loop bs' rest (bytes_count + 1)
  end.

Definition write (bs : ByteStream) (data : list byte) : outcome (ByteStream * Z) :=
  if _end_flag bs then mret (bs, 0) else write_loop bs data 0.

(** The loop of [peek_output]: at most [fuel = len] iterations from index [i]. *)
Fixpoint peek_loop (bs : ByteStream) (i : Z) (fuel : nat) : outcome (list byte) :=
  match fuel with
  | O => mret []
  | S fuel =>
      if i =? _write_index bs then mret []
      else
        c ← vec_get (_channel bs) i;
        ret ← peek_loop bs (_next_index_of bs i 1) fuel;
        mret (c :: ret)
  end.

Definition peek_output (bs : ByteStream) (length : Z) : outcome (list byte) :=
  peek_loop bs (_read_index bs) (Z.to_nat length).

Definition buffer_size (bs : ByteStream) : Z :=
  u64 (u64 (u64 (_capacity bs + 1) + _write_index bs) - _read_index bs) mod u64 (_capacity bs + 1).

Definition pop_output (bs : ByteStream) (length : Z) : ByteStream :=
  let pop_len := Z.min length (buffer_size bs) in
  mkByteStream (_channel bs) (_capacity bs) (_next_index_of bs (_read_index bs) pop_len)
    (_write_index bs) (u64 (_bytes_read bs + pop_len)) (_bytes_written bs)
    (_end_flag bs) (_error bs).

Definition read (bs : ByteStream) (length : Z) : outcome (ByteStream * list byte) :=
  ret ← peek_output bs length;
  mret (pop_output bs length, ret).

Definition end_input (bs : ByteStream) : ByteStream :=
  mkByteStream (_channel bs) (_capacity bs) (_read_index bs) (_write_index bs)
    (_bytes_read bs) (_bytes_written bs) true (_error bs).

Definition set_error (bs : ByteStream) : ByteStream :=
  mkByteStream (_channel bs) (_capacity bs) (_read_index bs) (_write_index bs)
    (_bytes_read bs) (_bytes_written bs) (_end_flag bs) true.

Definition input_ended (bs : ByteStream) : bool := _end_flag bs.
Definition error (bs : ByteStream) : bool := _error bs.
Definition buffer_empty (bs : ByteStream) : bool := _write_index bs =? _read_index bs.
Definition eof (bs : ByteStream) : bool := _end_flag bs && buffer_empty bs.
Definition bytes_written (bs : ByteStream) : Z := _bytes_written bs.
Definition bytes_read (bs : ByteStream) : Z := _bytes_read bs.
Definition remaining_capacity (bs : ByteStream) : Z := u64 (_capacity bs - buffer_size bs).

(** ** The abstract stream: what was read, what is buffered, and the two flags *)

Record stream := mkStream {
  s_capacity : Z;
  s_read : list byte;
  s_pending : list byte;
  s_ended : bool;
  s_error : bool
}.

Definition spec_new (capacity : Z) : stream := mkStream capacity [] [] false false.

(** How many of the bytes of [data] fit. *)
Definition spec_accepted (s : stream) (data : list byte) : Z :=
  if s_ended s then 0 else Z.min (len data) (s_capacity s - len (s_pending s)).

Definition spec_write (s : stream) (data : list byte) : stream :=
  mkStream (s_capacity s) (s_read s) (s_pending s ++ ztake (spec_accepted s data) data)
    (s_ended s) (s_error s).

Definition spec_pop (s : stream) (n : Z) : stream :=
  mkStream (s_capacity s) (s_read s ++ ztake n (s_pending s)) (zdrop n (s_pending s))
    (s_ended s) (s_error s).

Definition spec_end (s : stream) : stream :=
  mkStream (s_capacity s) (s_read s) (s_pending s) true (s_error s).

Definition spec_set_error (s : stream) : stream :=
  mkStream (s_capacity s) (s_read s) (s_pending s) (s_ended s) true.

(** Everything that ever entered the stream, in order. *)
Definition s_history (s : stream) : list byte := s_read s ++ s_pending s.

(** The simulation relation.  The capacity bound is [std::vector]'s
    [max_size]; for it the index arithmetic never wraps. *)
Record rep (bs : ByteStream) (s : stream) : Prop := {
  rep_capacity : _capacity bs = s_capacity s;
  rep_bound : 0 <= s_capacity s < 2 ^ 63 - 1;
  rep_channel : len (_channel bs) = s_capacity s + 1;
  rep_read_index : 0 <= _read_index bs < s_capacity s + 1;
  rep_fits : len (s_pending s) <= s_capacity s;
  rep_write_index :
    _write_index bs = (_read_index bs + len (s_pending s)) mod (s_capacity s + 1);
  rep_cells : forall k, 0 <= k < len (s_pending s) ->
    _channel bs !! Z.to_nat ((_read_index bs + k) mod (s_capacity s + 1)) =
      s_pending s !! Z.to_nat k;
  rep_bytes_read : _bytes_read bs = u64 (len (s_read s));
  rep_bytes_written : _bytes_written bs = u64 (len (s_history s));
  rep_ended : _end_flag bs = s_ended s;
  rep_error : _error bs = s_error s
}.

(** ** Ring arithmetic under the simulation relation *)

Section ring.
  Context (bs : ByteStream) (s : stream) (R : rep bs s).
  Local Abbreviation N := (s_capacity s + 1).

#[local] Lemma modulus_eq : u64 (_capacity bs + 1) = N.
Proof. destruct R. rewrite rep_capacity0. by drop_wrap. Qed.

Lemma rep_N_pos : 0 < N < 2 ^ 63.
Proof. destruct R. lia. Qed.

Lemma rep_write_range : 0 <= _write_index bs < N.
Proof. rewrite (rep_write_index _ _ R). apply Z.mod_pos_bound. pose proof rep_N_pos. lia. Qed.

Lemma next_index_eq i step : 0 <= i < N -> _next_index_of bs i step = (i + step) mod N.
Proof.
  intros Hi. unfold _next_index_of. rewrite modulus_eq.
  pose proof rep_N_pos. pose proof (Z.mod_pos_bound step N).
  rewrite u64_small by lia. apply Zplus_mod_idemp_r.
Qed.

Lemma buffer_size_eq : buffer_size bs = len (s_pending s).
Proof.
  unfold buffer_size. rewrite modulus_eq. pose proof rep_N_pos. pose proof rep_write_range.
  pose proof (rep_read_index _ _ R). pose proof (rep_fits _ _ R).
  rewrite (u64_small (N + _)), u64_small by lia.
  rewrite (rep_write_index _ _ R).
  replace (N + (_read_index bs + len (s_pending s)) mod N - _read_index bs)
    with ((_read_index bs + len (s_pending s)) mod N + (N - _read_index bs)) by lia.
  rewrite Zplus_mod_idemp_l.
  replace (_read_index bs + _ + _) with (len (s_pending s) + 1 * N) by lia.
  rewrite Z.mod_add by lia. apply Z.mod_small. lia.
Qed.

Lemma remaining_capacity_eq : remaining_capacity bs = s_capacity s - len (s_pending s).
Proof.
  unfold remaining_capacity. rewrite buffer_size_eq, (rep_capacity _ _ R).
  destruct R. by drop_wrap.
Qed.

Lemma buffer_full_eq : _buffer_full bs = (len (s_pending s) =? s_capacity s).
Proof.
  unfold _buffer_full. rewrite next_index_eq by apply rep_write_range.
  rewrite (rep_write_index _ _ R). rewrite ring_next.
  pose proof rep_N_pos. pose proof (rep_fits _ _ R). pose proof (rep_read_index _ _ R).
  apply Bool.eq_iff_eq_true. rewrite !Z.eqb_eq. split.
  - intros E. destruct (decide (len (s_pending s) = s_capacity s)); [done|exfalso].
    assert (len (s_pending s) + 1 = 0); [|lia].
    apply (ring_add_inj N (_read_index bs)); [lia..|].
    by rewrite E, Z.add_0_r, Z.mod_small by lia.
  - intros ->. replace (_read_index bs + (s_capacity s + 1)) with (_read_index bs + 1 * N) by lia.
    rewrite Z.mod_add by lia. apply Z.mod_small. lia.
Qed.

(** The cell [k] places after the read index is the write cell iff all is read. *)
Lemma at_write_index k :
  0 <= k <= len (s_pending s) ->
  ((_read_index bs + k) mod N =? _write_index bs) = (k =? len (s_pending s)).
Proof.
  intros Hk. rewrite (rep_write_index _ _ R). pose proof (rep_fits _ _ R).
  apply Bool.eq_iff_eq_true. rewrite !Z.eqb_eq. split; [|by intros ->].
  apply ring_add_inj; lia.
Qed.

Lemma buffer_empty_eq : buffer_empty bs = (len (s_pending s) =? 0).
Proof.
  unfold buffer_empty. rewrite Z.eqb_sym, (Z.eqb_sym _ 0).
  rewrite <- at_write_index by lia. rewrite Z.add_0_r, Z.mod_small; [done|].
  apply (rep_read_index _ _ R).
Qed.

Lemma eof_eq : eof bs = s_ended s && (len (s_pending s) =? 0).
Proof. unfold eof. by rewrite buffer_empty_eq, (rep_ended _ _ R). Qed.
End ring.

Lemma rep_new capacity : 0 <= capacity < 2 ^ 63 - 1 -> rep (new capacity) (spec_new capacity).
Proof.
  intros Hc. constructor; simpl; try lia; try done.
  rewrite u64_small, length_replicate by lia. lia.
Qed.

(** ** Each operation implements its abstract counterpart *)

Definition spec_append (s : stream) (data : list byte) : stream :=
  mkStream (s_capacity s) (s_read s) (s_pending s ++ data) (s_ended s) (s_error s).

Lemma spec_append_nil s : spec_append s [] = s.
Proof. destruct s. unfold spec_append; simpl. by rewrite app_nil_r. Qed.

Lemma spec_append_app s d1 d2 : spec_append (spec_append s d1) d2 = spec_append s (d1 ++ d2).
Proof. unfold spec_append; simpl. by rewrite app_assoc. Qed.

Lemma push_byte_rep bs s c :
  rep bs s -> len (s_pending s) < s_capacity s ->
  exists bs', push_byte bs c = Ok bs' /\ rep bs' (spec_append s [c]).
Proof.
  intros R Hroom. pose proof (rep_write_range _ _ R) as Hw. pose proof (rep_N_pos _ _ R).
  unfold push_byte. rewrite vec_set_ok by (rewrite (rep_channel _ _ R); lia).
  eexists. split; [reflexivity|]. constructor; simpl; try apply R.
  - rewrite length_insert. apply R.
  - rewrite length_app; simpl. lia.
  - rewrite (next_index_eq _ _ R) by done. rewrite (rep_write_index _ _ R), ring_next.
    rewrite length_app; simpl. do 2 f_equal. lia.
  - intros k Hk. rewrite length_app in Hk; simpl in Hk.
    pose proof (rep_channel _ _ R).
    pose proof (Z.mod_pos_bound (_read_index bs + k) (s_capacity s + 1)).
    rewrite (rep_write_index _ _ R) in *.
    destruct (decide (k = len (s_pending s))) as [->|Hne].
    + rewrite list_lookup_insert_eq by lia. by rewrite Nat2Z.id, lookup_app_r, Nat.sub_diag by lia.
    + rewrite list_lookup_insert_ne.
      * rewrite (rep_cells _ _ R) by lia. by rewrite lookup_app_l by lia.
      * intros E%Z2Nat.inj; [|lia..]. apply ring_add_inj in E; lia.
  - rewrite (rep_bytes_written _ _ R). unfold s_history; simpl.
    rewrite u64_u64_add, !length_app; simpl. f_equal. lia.
Qed.

Lemma write_loop_rep data : forall bs s n,
  rep bs s ->
  exists bs', write_loop bs data n =
      Ok (bs', n + Z.min (len data) (s_capacity s - len (s_pending s))) /\
    rep bs' (spec_append s (ztake (s_capacity s - len (s_pending s)) data)).
Proof.
  induction data as [|c data IH]; intros bs s n R; cbn [write_loop].
  - exists bs. pose proof (rep_fits _ _ R). simpl. split.
    + unfold mret, outcome_ret. do 2 f_equal. lia.
    + unfold ztake. by rewrite take_nil, spec_append_nil.
  - rewrite (buffer_full_eq _ _ R). destruct (Z.eqb_spec (len (s_pending s)) (s_capacity s)) as [E|E].
    + exists bs. rewrite E, Z.sub_diag. split; [|by rewrite spec_append_nil].
      unfold mret, outcome_ret. do 2 f_equal. lia.
    + pose proof (rep_fits _ _ R).
      destruct (push_byte_rep bs s c R) as (bs1 & -> & R1); [lia|]. simpl.
      destruct (IH bs1 _ (n + 1) R1) as (bs2 & -> & R2). exists bs2. simpl in *.
      rewrite length_app in R2 |- *; simpl in *. split; [do 2 f_equal; lia|].
      rewrite spec_append_app in R2. unfold ztake in *.
      replace (Z.to_nat (s_capacity s - len (s_pending s)))
        with (S (Z.to_nat (s_capacity s - Z.of_nat (length (s_pending s) + 1)))) by lia.
      exact R2.
Qed.

Lemma write_rep bs s data :
  rep bs s ->
  exists bs', write bs data = Ok (bs', spec_accepted s data) /\ rep bs' (spec_write s data).
Proof.
  intros R. unfold write, spec_accepted, spec_write. rewrite (rep_ended _ _ R).
  destruct (s_ended s) eqn:Hend.
  - exists bs. split; [done|]. unfold spec_accepted. rewrite Hend. cbn.
    rewrite app_nil_r, <- Hend. by destruct s.
  - destruct (write_loop_rep data bs s 0 R) as (bs' & -> & R').
    exists bs'. split; [done|]. unfold spec_append in R'. unfold spec_accepted. rewrite Hend in *.
    by rewrite ztake_min.
Qed.

Lemma write_nil bs : write bs [] = Ok (bs, 0).
Proof. unfold write. by case_bool. Qed.

Lemma peek_loop_rep bs s fuel : forall k,
  rep bs s -> 0 <= k <= len (s_pending s) ->
  peek_loop bs ((_read_index bs + k) mod (s_capacity s + 1)) fuel =
    Ok (take fuel (zdrop k (s_pending s))).
Proof.
  intros k R. revert k. induction fuel as [|fuel IH]; intros k Hk; [done|]. cbn [peek_loop].
  rewrite (at_write_index _ _ R) by done.
  destruct (Z.eqb_spec k (len (s_pending s))) as [E|E].
  - unfold zdrop. rewrite E, Nat2Z.id, drop_all. done.
  - pose proof (rep_N_pos _ _ R).
    pose proof (Z.mod_pos_bound (_read_index bs + k) (s_capacity s + 1)).
    destruct (lookup_lt_is_Some_2 (s_pending s) (Z.to_nat k)) as [c Hc]; [lia|].
    rewrite (vec_get_ok _ _ c); [|lia|rewrite (rep_cells _ _ R) by lia; done]. simpl.
    rewrite (next_index_eq _ _ R) by lia. rewrite ring_next, IH by lia. simpl.
    unfold zdrop. rewrite (drop_S _ c _ Hc). cbn [take].
    unfold mret, outcome_ret. do 4 f_equal. lia.
Qed.

Lemma peek_rep bs s n : rep bs s -> peek_output bs n = Ok (ztake n (s_pending s)).
Proof.
  intros R. unfold peek_output.
  replace (_read_index bs) with ((_read_index bs + 0) mod (s_capacity s + 1)).
  - rewrite (peek_loop_rep _ _ _ 0 R) by lia. done.
  - rewrite Z.add_0_r. apply Z.mod_small, R.
Qed.

Lemma pop_rep bs s n : rep bs s -> 0 <= n -> rep (pop_output bs n) (spec_pop s n).
Proof.
  intros R Hn. unfold pop_output. rewrite (buffer_size_eq _ _ R).
  set (m := Z.min n (len (s_pending s))).
  pose proof (rep_N_pos _ _ R). pose proof (rep_fits _ _ R).
  pose proof (rep_read_index _ _ R).
  assert (Hd : zdrop n (s_pending s) = zdrop m (s_pending s)) by (by rewrite <- zdrop_min).
  assert (Ht : ztake n (s_pending s) = ztake m (s_pending s))
    by (by rewrite <- ztake_min, Z.min_comm).
  assert (Hl : len (zdrop m (s_pending s)) = len (s_pending s) - m) by (apply len_zdrop; lia).
  constructor; simpl; rewrite ?Hd, ?Ht, ?Hl; try apply R; try lia.
  - rewrite (next_index_eq _ _ R) by done. apply Z.mod_pos_bound. lia.
  - rewrite (next_index_eq _ _ R) by done. rewrite (rep_write_index _ _ R).
    rewrite Zplus_mod_idemp_l. f_equal. lia.
  - intros k Hk. rewrite (next_index_eq _ _ R), Zplus_mod_idemp_l by done.
    replace (_read_index bs + m + k) with (_read_index bs + (m + k)) by lia.
    rewrite (rep_cells _ _ R) by lia. unfold zdrop. rewrite lookup_drop. f_equal. lia.
  - rewrite (rep_bytes_read _ _ R), u64_u64_add, length_app. f_equal.
    pose proof (len_ztake m (s_pending s)). lia.
  - rewrite (rep_bytes_written _ _ R). unfold s_history; simpl.
    by rewrite <- app_assoc, Hd, Ht, ztake_zdrop.
Qed.

Lemma read_rep bs s n :
  rep bs s -> 0 <= n ->
  exists bs', read bs n = Ok (bs', ztake n (s_pending s)) /\ rep bs' (spec_pop s n).
Proof.
  intros R Hn. unfold read. rewrite (peek_rep _ _ _ R). simpl.
  eexists. split; [reflexivity|]. by apply pop_rep.
Qed.

Lemma end_input_rep bs s : rep bs s -> rep (end_input bs) (spec_end s).
Proof. intros []. by constructor. Qed.

Lemma set_error_rep bs s : rep bs s -> rep (set_error bs) (spec_set_error s).
Proof. intros []. by constructor. Qed.

#[export] Hint Resolve rep_new pop_rep end_input_rep set_error_rep : sponge.

(** ** The public interface as a labelled transition system *)

Inductive op :=
  | Write (data : list byte)
  | Peek (n : Z)
  | Pop (n : Z)
  | Read (n : Z)
  | EndInput
  | SetError.

Inductive result :=
  | RUnit
  | RSize (n : Z)
  | RBytes (data : list byte).

#[global] Instance result_eq_dec : EqDecision result.
Proof. solve_decision. Defined.

(** Arguments have type [size_t]. *)
Definition op_valid (o : op) : Prop :=
  match o with
  | Peek n | Pop n | Read n => 0 <= n < 2 ^ 64
  | _ => True
  end.

Definition step (bs : ByteStream) (o : op) : outcome (ByteStream * result) :=
  match o with
  | Write data => '(bs', n) ← write bs data; mret (bs', RSize n)
  | Peek n => data ← peek_output bs n; mret (bs, RBytes data)
  | Pop n => mret (pop_output bs n, RUnit)
  | Read n => '(bs', data) ← read bs n; mret (bs', RBytes data)
  | EndInput => mret (end_input bs, RUnit)
  | SetError => mret (set_error bs, RUnit)
  end.

Fixpoint run (bs : ByteStream) (ops : list op) : outcome (ByteStream * list result) :=
  match ops with
  | [] => mret (bs, [])
  | o :: ops =>
      '(bs1, r) ← step bs o;
      '(bs2, rs) ← run bs1 ops;
      mret (bs2, r :: rs)
  end.

Definition spec_step (s : stream) (o : op) : stream * result :=
  match o with
  | Write data => (spec_write s data, RSize (spec_accepted s data))
  | Peek n => (s, RBytes (ztake n (s_pending s)))
  | Pop n => (spec_pop s n, RUnit)
  | Read n => (spec_pop s n, RBytes (ztake n (s_pending s)))
  | EndInput => (spec_end s, RUnit)
  | SetError => (spec_set_error s, RUnit)
  end.

Fixpoint spec_run (s : stream) (ops : list op) : stream * list result :=
  match ops with
  | [] => (s, [])
  | o :: ops =>
      let '(s1, r) := spec_step s o in
      let '(s2, rs) := spec_run s1 ops in
      (s2, r :: rs)
  end.

Lemma step_rep bs s o :
  rep bs s -> op_valid o ->
  exists bs', step bs o = Ok (bs', (spec_step s o).2) /\ rep bs' (spec_step s o).1.
Proof.
  intros R Ho. destruct o as [data|n|n|n| |]; simpl in *.
  - destruct (write_rep bs s data R) as (bs' & -> & R'). by exists bs'.
  - rewrite (peek_rep _ _ _ R). by exists bs.
  - eexists; split; [done|]. apply pop_rep; [done|lia].
  - destruct (read_rep bs s n R) as (bs' & -> & R'); [lia|]. by exists bs'.
  - eexists; split; [done|]. by apply end_input_rep.
  - eexists; split; [done|]. by apply set_error_rep.
Qed.

Lemma run_rep ops : forall bs s,
  rep bs s -> Forall op_valid ops ->
  exists bs', run bs ops = Ok (bs', (spec_run s ops).2) /\ rep bs' (spec_run s ops).1.
Proof.
  induction ops as [|o ops IH]; intros bs s R Hops; simpl; [by exists bs|].
  inversion Hops as [|?? Ho Hos]; subst.
  destruct (step_rep bs s o R Ho) as (bs1 & -> & R1). simpl.
  destruct (spec_step s o) as [s1 r]; simpl in *.
  destruct (IH bs1 s1 R1 Hos) as (bs2 & -> & R2). simpl.
  destruct (spec_run s1 ops) as [s2 rs]; simpl in *. by exists bs2.
Qed.

(** The accessors, all at once, in terms of the abstract stream. *)
Record view := mkView {
  v_buffer_size : Z; v_remaining : Z; v_empty : bool; v_ended : bool; v_eof : bool;
  v_error : bool; v_written : Z; v_read : Z
}.

Definition observe (bs : ByteStream) : view :=
  mkView (buffer_size bs) (remaining_capacity bs) (buffer_empty bs) (input_ended bs) (eof bs)
    (error bs) (bytes_written bs) (bytes_read bs).

Definition spec_view (s : stream) : view :=
  mkView (len (s_pending s)) (s_capacity s - len (s_pending s)) (len (s_pending s) =? 0)
    (s_ended s) (s_ended s && (len (s_pending s) =? 0)) (s_error s)
    (u64 (len (s_history s))) (u64 (len (s_read s))).

Lemma observe_rep bs s : rep bs s -> observe bs = spec_view s.
Proof.
  intros R. unfold observe, spec_view, input_ended, error, bytes_written, bytes_read.
  rewrite (buffer_size_eq _ _ R), (remaining_capacity_eq _ _ R), (buffer_empty_eq _ _ R).
  rewrite (eof_eq _ _ R), (rep_ended _ _ R), (rep_error _ _ R).
  by rewrite (rep_bytes_written _ _ R), (rep_bytes_read _ _ R).
Qed.

(** ** Properties *)

(** C10. Refinement: every sequence of calls of the public interface on a fresh
    stream runs without undefined behaviour, each call returns what the abstract
    FIFO queue returns, and afterwards every accessor ([buffer_size],
    [remaining_capacity], [buffer_empty], [input_ended], [eof], [error],
    [bytes_written], [bytes_read]) agrees with the queue. *)
Theorem byte_stream_refines capacity ops :
  0 <= capacity < 2 ^ 63 - 1 -> Forall op_valid ops ->
  let '(s, results) := spec_run (spec_new capacity) ops in
  exists bs, run (new capacity) ops = Ok (bs, results) /\ observe bs = spec_view s.
Proof.
  intros Hc Hops.
  destruct (run_rep ops _ _ (rep_new capacity Hc) Hops) as (bs & E & R).
  destruct (spec_run _ _) as [s rs]; simpl in *. exists bs. split; [done|]. by apply observe_rep.
Qed.

Lemma byte_stream_refines_witness :
  exists bs,
    run (new 2) [Write [Byte.x61; Byte.x62; Byte.x63]; Read 1; Write [Byte.x64]; Peek 5; EndInput;
                 Write [Byte.x65]]
      = Ok (bs, [RSize 2; RBytes [Byte.x61]; RSize 1; RBytes [Byte.x62; Byte.x64]; RUnit; RSize 0])
    /\ observe bs = mkView 2 0 false true false false 3 1.
Proof.
  refine (byte_stream_refines 2
    [Write [Byte.x61; Byte.x62; Byte.x63]; Read 1; Write [Byte.x64]; Peek 5; EndInput;
     Write [Byte.x65]] _ _); [lia|].
  repeat constructor; simpl; lia.
Defined.

(** The bytes the calls accepted, and the bytes the reads returned. *)
Fixpoint accepted_bytes (ops : list op) (rs : list result) : list byte :=
  match ops, rs with
  | Write data :: ops, RSize n :: rs => ztake n data ++ accepted_bytes ops rs
  | _ :: ops, _ :: rs => accepted_bytes ops rs
  | _, _ => []
  end.

Fixpoint read_bytes (ops : list op) (rs : list result) : list byte :=
  match ops, rs with
  | Read _ :: ops, RBytes data :: rs => data ++ read_bytes ops rs
  | _ :: ops, _ :: rs => read_bytes ops rs
  | _, _ => []
  end.

Definition is_pop (o : op) : bool := match o with Pop _ => true | _ => false end.

Lemma spec_run_history ops : forall s,
  Forall (fun o => is_pop o = false) ops ->
  let '(s', rs) := spec_run s ops in
  s_history s' = s_history s ++ accepted_bytes ops rs /\
  s_read s' = s_read s ++ read_bytes ops rs.
Proof.
  induction ops as [|o ops IH]; intros s Hops; simpl; [by rewrite !app_nil_r|].
  inversion Hops as [|?? Ho Hos]; subst.
  destruct (spec_step s o) as [s1 r] eqn:E1. specialize (IH s1 Hos).
  destruct (spec_run s1 ops) as [s2 rs] eqn:E2. destruct IH as [-> ->].
  destruct o; simplify_eq/=; unfold s_history; simpl;
    rewrite <- ?app_assoc; try done.
  by rewrite (app_assoc (ztake _ _)), ztake_zdrop.
Qed.

(** In-order delivery: for calls without [pop_output], what the reads
    returned followed by what a final [peek_output] shows is exactly the
    accepted bytes of the writes, in order, with none lost or duplicated. *)
Theorem byte_stream_fifo capacity ops :
  0 <= capacity < 2 ^ 63 - 1 -> Forall op_valid ops -> Forall (fun o => is_pop o = false) ops ->
  exists bs rs buffered,
    run (new capacity) ops = Ok (bs, rs) /\
    peek_output bs (buffer_size bs) = Ok buffered /\
    read_bytes ops rs ++ buffered = accepted_bytes ops rs.
Proof.
  intros Hc Hops Hnp.
  destruct (run_rep ops _ _ (rep_new capacity Hc) Hops) as (bs & E & R).
  pose proof (spec_run_history ops (spec_new capacity) Hnp) as Hh.
  destruct (spec_run _ _) as [s rs]; simpl in *. destruct Hh as [Hh Hr].
  exists bs, rs, (s_pending s). split; [done|]. split.
  - rewrite (buffer_size_eq _ _ R), (peek_rep _ _ _ R). by rewrite ztake_all by lia.
  - unfold s_history in Hh; simpl in Hh. by rewrite <- Hr.
Qed.

Lemma byte_stream_fifo_witness :
  exists bs rs buffered,
    run (new 1) [Write [Byte.x61; Byte.x62]; Read 7; Write [Byte.x63]] = Ok (bs, rs) /\
    peek_output bs (buffer_size bs) = Ok buffered /\
    read_bytes [Write [Byte.x61; Byte.x62]; Read 7; Write [Byte.x63]] rs ++ buffered =
      accepted_bytes [Write [Byte.x61; Byte.x62]; Read 7; Write [Byte.x63]] rs.
Proof. apply byte_stream_fifo; [lia | repeat constructor; simpl; lia | repeat constructor]. Defined.
