(* ===== verification/StreamReassembler.v ===== *)
(** * Reassembly of substrings into the output stream

    Model of [libsponge/stream_reassembler.hh] and [.cc].  The class keeps the
    whole index space of the stream in two vectors, [_buffer] (the bytes) and
    [_count] (how often each index was pushed), and moves the contiguous prefix
    into the output [ByteStream]. *)

From S2P Require Import Prelude ByteStream.

(** [_update_output] tests [_count[_first_unassembled]] before it compares the
    index with the size, so with a full window it reads one element past the end
    of the vector; [unassembled_bytes] can read further.  What such a read
    yields is a parameter: [UB] in the strict reading of the language, an
    unspecified word of memory on the implementations the program runs on. *)
Class OverRead := over_read : Z -> outcome Z.

Definition strict_over_read : OverRead := fun _ => UB.
Definition word_over_read (w : Z) : OverRead := fun _ => Ok w.

(** Reads past the end return some word. *)
Class TotalOverRead (mem : OverRead) := total_over_read : forall i, exists w, over_read i = Ok w.

#[global] Instance word_over_read_total w : TotalOverRead (word_over_read w).
Proof. intros i. by exists w. Defined.

Record StreamReassembler := mkStreamReassembler {
  _output : ByteStream;
  _capacity : Z;
  _eofed : bool;
  _first_unread : Z;
  _first_unassembled : Z;
  _first_unacceptable : Z;
  _buffer : list byte;
  _count : list Z
}.

Definition new (capacity : Z) : StreamReassembler :=
  mkStreamReassembler (ByteStream.new capacity) capacity false 0 0 0
    (replicate (Z.to_nat capacity) Byte.x00) (replicate (Z.to_nat capacity) 0).

Definition set_output (r : StreamReassembler) (bs : ByteStream) : StreamReassembler :=
  mkStreamReassembler bs (_capacity r) (_eofed r) (_first_unread r) (_first_unassembled r)
    (_first_unacceptable r) (_buffer r) (_count r).

Definition _update_size (r : StreamReassembler) : StreamReassembler :=
  let first_unread := bytes_read (_output r) in
  mkStreamReassembler (_output r) (_capacity r) (_eofed r) first_unread (_first_unassembled r)
    (_first_unacceptable r)
    (vec_resize (_buffer r) (u64 (first_unread + _capacity r)) Byte.x00)
    (vec_resize (_count r) (u64 (first_unread + _capacity r)) 0).

Definition set_eofed (r : StreamReassembler) (eof : bool) : StreamReassembler :=
  mkStreamReassembler (_output r) (_capacity r) (_eofed r || eof) (_first_unread r)
    (_first_unassembled r) (_first_unacceptable r) (_buffer r) (_count r).

Definition set_first_unacceptable (r : StreamReassembler) (n : Z) : StreamReassembler :=
  mkStreamReassembler (_output r) (_capacity r) (_eofed r) (_first_unread r)
    (_first_unassembled r) n (_buffer r) (_count r).

Definition set_cells (r : StreamReassembler) (buf : list byte) (cnt : list Z) : StreamReassembler :=
  mkStreamReassembler (_output r) (_capacity r) (_eofed r) (_first_unread r)
    (_first_unassembled r) (_first_unacceptable r) buf cnt.

Definition set_assembled (r : StreamReassembler) (n : Z) : StreamReassembler :=
  mkStreamReassembler (_output r) (_capacity r) (_eofed r) (_first_unread r)
    n (_first_unacceptable r) (_buffer r) (_count r).

(** The [for] loop of [push_substring]; [data] is what is left from position [i]. *)
Fixpoint store_loop (r : StreamReassembler) (data : list byte) (index i : Z) :
    outcome StreamReassembler :=
  match data with
  | [] => mret r
  | c :: rest =>
      let real_index := u64 (index + i) in
      let r := set_first_unacceptable r (Z.max (_first_unacceptable r) (u64 (real_index + 1))) in
      if real_index >=? len (_buffer r) then mret r
      else
        buf ← vec_set (_buffer r) real_index c;
        n ← vec_get (_count r) real_index;
        cnt ← vec_set (_count r) real_index (u64 (n + 1));
        store_loop (set_cells r buf cnt) rest index (i + 1)
  end.

Definition empty (r : StreamReassembler) : bool :=
  _first_unacceptable r =? _first_unassembled r.

Definition left (r : StreamReassembler) : Z := _first_unassembled r.
Definition distance (r : StreamReassembler) : Z :=
  u64 (_first_unacceptable r - _first_unassembled r).
Definition capacity_value (r : StreamReassembler) : Z := _capacity r.
Definition stream_out (r : StreamReassembler) : ByteStream := _output r.

Section code.
  Context {mem : OverRead}.

(** [_count[i]] *)
Definition count_at (r : StreamReassembler) (i : Z) : outcome Z :=
  if i <? len (_count r) then vec_get (_count r) i else over_read i.

(** The [while] loop of [_update_output] from index [i]: the string [s] it
    builds and the final index.  [fuel] is the number of cells from [i] to the
    end of [_buffer]; an iteration that reads a cell has one left. *)
Fixpoint assemble_loop (r : StreamReassembler) (i : Z) (fuel : nat) : outcome (list byte * Z) :=
  n ← count_at r i;
  if n =? 0 then mret ([], i)
  else if i =? len (_buffer r) then mret ([], i)
  else
    c ← vec_get (_buffer r) i;
    match fuel with
    | 0%nat => UB
    | S fuel => '(s, j) ← assemble_loop r (u64 (i + 1)) fuel; mret (c :: s, j)
    end.

Definition _update_output (r : StreamReassembler) : outcome StreamReassembler :=
  '(s, j) ← assemble_loop r (_first_unassembled r)
              (Z.to_nat (len (_buffer r) - _first_unassembled r));
  let r := set_assembled r j in
  '(bs, _) ← write (_output r) s;
  let r := set_output r bs in
  mret (if _eofed r && empty r then set_output r (end_input (_output r)) else r).

Definition push_substring (r : StreamReassembler) (data : list byte) (index : Z) (eof : bool) :
    outcome StreamReassembler :=
  r ← store_loop (set_eofed (_update_size r) eof) data index 0;
  _update_output r.

(** The [for] loop of [unassembled_bytes] over [fuel] indices from [i]. *)
Fixpoint count_loop (r : StreamReassembler) (i : Z) (fuel : nat) : outcome Z :=
  match fuel with
  | 0%nat => mret 0
  | S fuel =>
      n ← count_at r i;
      m ← count_loop r (i + 1) fuel;
      mret ((if n =? 0 then 0 else 1) + m)
  end.

Definition unassembled_bytes (r : StreamReassembler) : outcome Z :=
  count_loop r (_first_unassembled r)
    (Z.to_nat (_first_unacceptable r - _first_unassembled r)).
End code.

(** ** Lengths of covered prefixes

    [nz_prefix cnt] is the first index that was never pushed. *)
Fixpoint nz_prefix (cnt : list Z) : nat :=
  match cnt with
  | [] => 0
  | n :: cnt => if n =? 0 then 0 else S (nz_prefix cnt)
  end.

Lemma nz_prefix_le cnt : (nz_prefix cnt <= length cnt)%nat.
Proof. induction cnt as [|n cnt IH]; simpl; [lia|]. case_bool; lia. Qed.

Lemma nz_prefix_drop n : forall cnt,
  (n <= nz_prefix cnt)%nat -> nz_prefix cnt = (n + nz_prefix (drop n cnt))%nat.
Proof.
  induction n as [|n IH]; intros [|m cnt] Hn; simpl in *; try lia.
  case_bool; [lia|]. rewrite (IH cnt) by lia. lia.
Qed.

Lemma nz_prefix_spec cnt p :
  (p <= length cnt)%nat ->
  (forall i n, (i < p)%nat -> cnt !! i = Some n -> n <> 0) ->
  (p <= nz_prefix cnt)%nat.
Proof.
  revert p. induction cnt as [|m cnt IH]; intros p Hp H; simpl in *; [lia|].
  destruct p as [|p]; [lia|]. destruct (Z.eqb_spec m 0) as [E|E].
  - by destruct (H 0%nat m); [lia|..].
  - apply le_n_S, IH; [lia|]. intros i n Hi. apply (H (S i)). lia.
Qed.

Lemma nz_prefix_covered cnt i : (i < nz_prefix cnt)%nat -> exists n, cnt !! i = Some n /\ n <> 0.
Proof.
  revert i. induction cnt as [|m cnt IH]; intros i Hi; simpl in *; [lia|].
  destruct (Z.eqb_spec m 0); [lia|]. destruct i as [|i]; [by exists m|]. apply IH. lia.
Qed.

Lemma nz_prefix_app_zeros cnt n : nz_prefix (cnt ++ replicate n 0) = nz_prefix cnt.
Proof.
  induction cnt as [|m cnt IH]; simpl; [by destruct n|]. by rewrite IH.
Qed.

(** ** The loops *)

Section loops.
  Context {mem : OverRead}.

(** [_update_output]'s loop stops at the first index never pushed; at the end of
    the vectors it first reads one element past the end. *)
Lemma assemble_loop_eq r : forall fuel i,
  len (_buffer r) = len (_count r) -> 0 <= i <= len (_count r) -> len (_count r) < 2 ^ 64 ->
  fuel = Z.to_nat (len (_buffer r) - i) ->
  assemble_loop r i fuel =
    (let j := i + Z.of_nat (nz_prefix (zdrop i (_count r))) in
     let res := (ztake (j - i) (zdrop i (_buffer r)), j) in
     if j <? len (_count r) then Ok res else _ ← over_read (len (_count r)); Ok res).
Proof.
  intros fuel. induction fuel as [|fuel IH]; intros i Hl Hi Hb Hf; cbn [assemble_loop];
    unfold count_at.
  - assert (i = len (_count r)) as -> by lia. unfold zdrop. rewrite Nat2Z.id, drop_all. simpl.
    rewrite Z.ltb_irrefl, Z.add_0_r, Z.ltb_irrefl, Z.sub_diag, Hl, Z.eqb_refl.
    destruct (over_read _); simpl; [|done..]. by case_bool.
  - destruct (Z.ltb_spec i (len (_count r))); [|lia].
    destruct (lookup_lt_is_Some_2 (_count r) (Z.to_nat i)) as [n Hn]; [lia|].
    destruct (lookup_lt_is_Some_2 (_buffer r) (Z.to_nat i)) as [c Hc]; [lia|].
    rewrite (vec_get_ok _ _ n), (vec_get_ok _ _ c) by (done || lia). simpl.
    unfold zdrop. rewrite (drop_S _ n _ Hn), (drop_S _ c _ Hc). cbn [nz_prefix].
    destruct (Z.eqb_spec n 0) as [E|E].
    + simpl. rewrite Z.add_0_r, Z.sub_diag. by destruct (Z.ltb_spec i (len (_count r))); [|lia].
    + destruct (Z.eqb_spec i (len (_buffer r))); [lia|]. rewrite u64_small by lia.
      rewrite IH by lia. unfold zdrop. replace (Z.to_nat (i + 1)) with (S (Z.to_nat i)) by lia.
      set (m := nz_prefix _). cbv zeta.
      replace (i + 1 + Z.of_nat m) with (i + Z.of_nat (S m)) by lia.
      replace (i + Z.of_nat (S m) - (i + 1)) with (Z.of_nat m) by lia.
      replace (i + Z.of_nat (S m) - i) with (Z.of_nat (S m)) by lia.
      unfold ztake. rewrite !Nat2Z.id. case_bool; [done|].
      by destruct (over_read _).
Qed.
End loops.

(** What the vectors hold, for pushes that are all excerpts of the stream [s],
    after at most [k] pushes ([k + 1] for the indices below [p]). *)
Record cells_ok (s : list byte) (k p : Z) (r : StreamReassembler) : Prop := {
  co_len : len (_buffer r) = len (_count r);
  co_bound : forall i n, _count r !! i = Some n ->
    0 <= n <= k + (if Z.of_nat i <? p then 1 else 0);
  co_byte : forall i n, _count r !! i = Some n -> 0 < n ->
    Z.of_nat i < _first_unacceptable r /\ _buffer r !! i = s !! i;
  co_fu : 0 <= _first_unacceptable r <= len s
}.

(** [data] is the excerpt of [s] at [index]. *)
Definition excerpt (s data : list byte) (index : Z) : Prop :=
  0 <= index /\ index + len data <= len s /\ data = ztake (len data) (zdrop index s).

Lemma excerpt_ztake s data index n : excerpt s data index -> excerpt s (ztake n data) index.
Proof.
  intros (Hi & Hl & E). unfold excerpt, ztake in *. rewrite length_take. split; [done|]. split; [lia|].
  rewrite E at 1. rewrite take_take. f_equal. lia.
Qed.

Lemma excerpt_cons s c data p :
  excerpt s (c :: data) p -> s !! Z.to_nat p = Some c /\ excerpt s data (p + 1).
Proof.
  intros (Hp & Hl & E). simpl length in *. unfold excerpt, ztake, zdrop in *.
  destruct (lookup_lt_is_Some_2 s (Z.to_nat p)) as [b Hb]; [lia|].
  rewrite (drop_S _ b _ Hb), Nat2Z.id in E. cbn [take] in E. injection E as -> E.
  split; [done|]. split_and!; [lia..|]. rewrite Nat2Z.id.
  by replace (Z.to_nat (p + 1)) with (S (Z.to_nat p)) by lia.
Qed.

(** Everything but the cells and [_first_unacceptable] is untouched. *)
Definition same_frame (r r' : StreamReassembler) : Prop :=
  _output r' = _output r /\ _capacity r' = _capacity r /\ _eofed r' = _eofed r /\
  _first_unread r' = _first_unread r /\ _first_unassembled r' = _first_unassembled r /\
  len (_count r') = len (_count r) /\ _first_unacceptable r <= _first_unacceptable r'.

Definition covered (r : StreamReassembler) (i : Z) : Prop :=
  0 <= i /\ exists n, _count r !! Z.to_nat i = Some n /\ 0 < n.

Lemma cells_ok_weaken s k p r : cells_ok s k p r -> cells_ok s (k + 1) 0 r.
Proof.
  intros [H1 H2 H3 H4]. constructor; try done.
  intros i n Hn. specialize (H2 i n Hn). repeat case_bool; lia.
Qed.

(** Storing the next byte of an excerpt keeps the cells right. *)
Lemma store_cell_ok s k p r c n :
  0 <= k < 2 ^ 64 - 1 -> 0 <= p < len (_count r) -> cells_ok s k p r ->
  s !! Z.to_nat p = Some c -> _count r !! Z.to_nat p = Some n ->
  cells_ok s k (p + 1)
    (set_cells (set_first_unacceptable r (Z.max (_first_unacceptable r) (p + 1)))
       (<[Z.to_nat p := c]> (_buffer r)) (<[Z.to_nat p := u64 (n + 1)]> (_count r))).
Proof.
  intros Hk Hp [H1 H2 H3 H4] Hc Hn. pose proof (H2 _ _ Hn) as Hn2.
  rewrite Z2Nat.id, Z.ltb_irrefl in Hn2 by lia.
  pose proof (lookup_lt_Some _ _ _ Hc). rewrite u64_small by lia.
  constructor; simpl.
  - rewrite !length_insert. done.
  - intros i m Hm. destruct (decide (i = Z.to_nat p)) as [->|Hne].
    + rewrite list_lookup_insert_eq in Hm by lia. simplify_eq. repeat case_bool; lia.
    + rewrite list_lookup_insert_ne in Hm by done. specialize (H2 i m Hm).
      repeat case_bool; lia.
  - intros i m Hm Hm0. destruct (decide (i = Z.to_nat p)) as [->|Hne].
    + rewrite list_lookup_insert_eq by lia. split; [lia|done].
    + rewrite list_lookup_insert_ne in Hm by done. rewrite list_lookup_insert_ne by done.
      destruct (H3 i m Hm Hm0). split; [lia|done].
  - lia.
Qed.

Lemma store_loop_ok s k data : forall r index i,
  0 <= k < 2 ^ 64 - 1 -> len s < 2 ^ 64 - 1 ->
  0 <= index -> 0 <= i -> excerpt s data (index + i) -> cells_ok s k (index + i) r ->
  exists r', store_loop r data index i = Ok r' /\ cells_ok s (k + 1) 0 r' /\ same_frame r r' /\
    (forall j, covered r' j <->
       covered r j \/ (index + i <= j < index + i + len data /\ j < len (_count r))) /\
    (data <> [] -> index + i + len data <= len (_count r) ->
       index + i + len data <= _first_unacceptable r').
Proof.
  induction data as [|c data IH]; intros r index i Hk Hs Hi Hi0 He Hc; cbn [store_loop].
  - exists r. split; [done|]. split; [by eapply cells_ok_weaken|].
    split; [by unfold same_frame|]. split; [|done].
    intros j. simpl. split; [by left|]. intros [?|?]; [done|lia].
  - set (p := index + i) in *. destruct (excerpt_cons _ _ _ _ He) as [Hcs He'].
    pose proof (lookup_lt_Some _ _ _ Hcs). destruct He as (He1 & He2 & _). simpl length in *.
    pose proof (co_len _ _ _ _ Hc) as Hlen.
    rewrite (u64_small p), (u64_small (p + 1)) by lia. simpl.
    destruct (Z.geb_spec p (len (_buffer r))) as [Hout|Hin].
    + exists (set_first_unacceptable r (Z.max (_first_unacceptable r) (p + 1))).
      split; [done|]. destruct Hc as [H1 H2 H3 H4]. split; [|split; [|split]].
      * constructor; simpl; [done| |by intros; destruct (H3 i0 n); auto; split; [lia|]|lia].
        intros j n Hn. specialize (H2 j n Hn). repeat case_bool; lia.
      * unfold same_frame; simpl. split_and!; (done || lia).
      * intros j. unfold covered; simpl. split; [tauto|]. intros [?|?]; [done|lia].
      * lia.
    + rewrite vec_set_ok by lia. simpl.
      destruct (lookup_lt_is_Some_2 (_count r) (Z.to_nat p)) as [n Hn]; [lia|].
      rewrite (vec_get_ok _ _ n) by (done || lia). simpl. rewrite vec_set_ok by lia. simpl.
      pose proof (store_cell_ok s k p r c n Hk ltac:(lia) Hc Hcs Hn) as Hc'.
      set (r1 := set_cells _ _ _) in *.
      replace (p + 1) with (index + (i + 1)) in * by lia.
      destruct (IH r1 index (i + 1)) as (r' & E & Hr & Hfr & Hcov & Hfu); [done|lia..|done|done|].
      exists r'. split; [done|]. split; [done|]. split; [|split].
      * unfold same_frame in *. simpl in Hfr. rewrite length_insert in Hfr.
        destruct Hfr as (?&?&?&?&?&?&?). split_and!; (done || lia).
      * intros j. rewrite Hcov. unfold covered; simpl. rewrite length_insert.
        pose proof (co_bound _ _ _ _ Hc _ _ Hn) as Hb. rewrite Z2Nat.id, Z.ltb_irrefl in Hb by lia.
        destruct (decide (j = p)) as [->|Hne].
        { rewrite list_lookup_insert_eq by lia. split; [|intros _; left].
          - intros _. right. lia.
          - split; [lia|]. eexists. split; [done|]. rewrite u64_small; lia. }
        destruct (decide (0 <= j)); [|intuition lia].
        rewrite list_lookup_insert_ne by lia. intuition lia.
      * intros _ Hfit. destruct data as [|c' data]; simpl in *.
        { destruct Hfr as (?&?&?&?&?&?&?). simpl in *. lia. }
        rewrite length_insert in Hfu. lapply Hfu; [|done]. lia.
Qed.

(** ** The invariant

    All pushes so far were excerpts of the stream [s]; [k] bounds their number
    and [a] is the abstract output stream. *)
Record inv (s : list byte) (k : Z) (r : StreamReassembler) (a : stream) : Prop := {
  inv_rep : rep (_output r) a;
  inv_capacity : s_capacity a = _capacity r;
  inv_bound : len s + _capacity r < 2 ^ 63;
  inv_cells : cells_ok s k 0 r;
  inv_size : len (_count r) <= len (s_read a) + _capacity r;
  inv_first : _first_unassembled r = Z.of_nat (nz_prefix (_count r));
  inv_history : s_history a = ztake (_first_unassembled r) s;
  inv_eof : _eofed r = true -> _first_unacceptable r = len s;
  inv_ended : s_ended a = _eofed r && (_first_unacceptable r =? _first_unassembled r)
}.

Lemma frontier_bound s k p r :
  cells_ok s k p r -> Z.of_nat (nz_prefix (_count r)) <= _first_unacceptable r.
Proof.
  intros H. pose proof (co_fu _ _ _ _ H).
  destruct (nz_prefix (_count r)) as [|m] eqn:E; [lia|].
  destruct (nz_prefix_covered (_count r) m) as (n & Hn & Hn0); [lia|].
  pose proof (co_bound _ _ _ _ H _ _ Hn).
  destruct (co_byte _ _ _ _ H _ _ Hn); lia.
Qed.

(** The assembled string is the excerpt of [s] up to the new frontier. *)
Lemma assembled_excerpt s k p r i :
  cells_ok s k p r -> 0 <= i <= Z.of_nat (nz_prefix (_count r)) ->
  ztake (Z.of_nat (nz_prefix (_count r)) - i) (zdrop i (_buffer r)) =
    ztake (Z.of_nat (nz_prefix (_count r)) - i) (zdrop i s).
Proof.
  intros H Hi. set (m := nz_prefix (_count r)) in *. unfold ztake, zdrop.
  apply list_eq. intros j. destruct (decide (j < Z.to_nat (Z.of_nat m - i))%nat).
  - rewrite !lookup_take_lt, !lookup_drop by lia.
    destruct (nz_prefix_covered (_count r) (Z.to_nat i + j)) as (n & Hn & Hn0); [lia|].
    pose proof (co_bound _ _ _ _ H _ _ Hn).
    by destruct (co_byte _ _ _ _ H _ _ Hn); [lia|].
  - by rewrite !lookup_take_ge by lia.
Qed.

Lemma ztake_extend {A} i j (l : list A) :
  0 <= i <= j -> ztake i l ++ ztake (j - i) (zdrop i l) = ztake j l.
Proof.
  intros. unfold ztake, zdrop. rewrite Z2Nat.inj_sub by lia.
  by rewrite take_take_drop, Nat.add_comm, Nat.sub_add by lia.
Qed.

Section push.
  Context {mem : OverRead}.

Lemma update_output_inv s k r a :
  rep (_output r) a -> s_capacity a = _capacity r -> len s + _capacity r < 2 ^ 63 ->
  cells_ok s k 0 r -> len (_count r) = len (s_read a) + _capacity r ->
  0 <= _first_unassembled r <= Z.of_nat (nz_prefix (_count r)) ->
  s_history a = ztake (_first_unassembled r) s ->
  (_eofed r = true -> _first_unacceptable r = len s) ->
  (s_ended a = true -> _eofed r = true /\ _first_unassembled r = len s) ->
  exists r' a',
    _update_output r =
      (if Z.of_nat (nz_prefix (_count r)) <? len (_count r) then Ok r'
       else _ ← over_read (len (_count r)); Ok r') /\
    inv s k r' a' /\ s_read a' = s_read a /\ s_error a' = s_error a /\ _count r' = _count r /\
    _capacity r' = _capacity r /\ _eofed r' = _eofed r /\
    _first_unacceptable r' = _first_unacceptable r.
Proof.
  intros R Hcap Hb Hc Hsz Hfa Hh Heof Hend.
  pose proof (nz_prefix_le (_count r)). pose proof (co_len _ _ _ _ Hc) as Hlen.
  pose proof (frontier_bound _ _ _ _ Hc) as Hfr. pose proof (co_fu _ _ _ _ Hc).
  pose proof (rep_bound _ _ R). pose proof (rep_fits _ _ R).
  assert (Hhl : len (s_read a) + len (s_pending a) = _first_unassembled r).
  { rewrite <- (Z.min_l (_first_unassembled r) (len s)), <- len_ztake, <- Hh by lia.
    unfold s_history. rewrite length_app. lia. }
  unfold _update_output. rewrite assemble_loop_eq by lia.
  set (fa := _first_unassembled r) in *. set (m := Z.of_nat (nz_prefix (_count r))) in *.
  replace (fa + Z.of_nat (nz_prefix (zdrop fa (_count r)))) with m.
  2: { unfold zdrop, m. rewrite (nz_prefix_drop (Z.to_nat fa)) at 1 by lia. lia. }
  cbv zeta. rewrite (assembled_excerpt _ _ _ _ _ Hc) by lia. fold m.
  set (str := ztake (m - fa) (zdrop fa s)).
  assert (Hstr : len str = m - fa).
  { unfold str. rewrite len_ztake, len_zdrop by lia. lia. }
  destruct (write_rep (_output r) a str R) as (bs & Ew & Rw).
  assert (Hw : s_history (spec_write a str) = ztake m s /\ s_read (spec_write a str) = s_read a /\
               s_ended (spec_write a str) = s_ended a).
  { split; [|done]. unfold s_history, spec_write, spec_accepted; simpl.
    rewrite app_assoc. change (s_read a ++ s_pending a) with (s_history a).
    rewrite Hh, (ztake_all _ str); [by apply ztake_extend; lia|]. case_bool; [|lia].
    destruct Hend; [done|]. lia. }
  destruct Hw as (Hw1 & Hw2 & Hw3).
  set (r1 := set_output (set_assembled r m) bs).
  set (r' := if _eofed r1 && empty r1 then set_output r1 (end_input (_output r1)) else r1).
  set (a' := if _eofed r1 && empty r1 then spec_end (spec_write a str) else spec_write a str).
  assert (Hcells : cells_ok s k 0 r1) by (destruct Hc; by constructor).
  exists r', a'. split.
  { case_bool; simpl; [by rewrite Ew|]. destruct (over_read _); simpl; [by rewrite Ew|done..]. }
  unfold r', a', empty; simpl. destruct (_eofed r && (_first_unacceptable r =? m)) eqn:Ee.
  - split; [|done]. constructor; simpl; try done; try lia.
    + by apply end_input_rep.
    + destruct Hcells. by constructor.
  - split; [|done]. constructor; simpl; try done; try lia.
    rewrite Ee. destruct (s_ended a); [|done]. destruct Hend as [E1 E2]; [done|].
    rewrite E1 in Ee. simpl in Ee. specialize (Heof E1). lia.
Qed.

Lemma vec_resize_grow {A} (v : list A) n (x : A) :
  len v <= n -> vec_resize v n x = v ++ replicate (Z.to_nat (n - len v)) x.
Proof.
  intros. unfold vec_resize. rewrite resize_ge by lia. do 2 f_equal. lia.
Qed.

(** [_update_size] extends both vectors to the end of the window and keeps
    every cell. *)
Lemma update_size_ok s k r a :
  inv s k r a -> 0 <= k ->
  cells_ok s k 0 (_update_size r) /\
  len (_count (_update_size r)) = len (s_read a) + _capacity r /\
  nz_prefix (_count (_update_size r)) = nz_prefix (_count r) /\
  (forall j, covered (_update_size r) j <-> covered r j).
Proof.
  intros [R Hcap Hb Hc Hsz Hfa Hh Heof Hend] Hk.
  pose proof (frontier_bound _ _ _ _ Hc) as Hfr. pose proof (rep_bound _ _ R).
  pose proof (co_fu _ _ _ _ Hc). pose proof (co_len _ _ _ _ Hc).
  assert (Hrd : len (s_read a) <= len s).
  { apply (f_equal length) in Hh. unfold s_history in Hh. rewrite length_app in Hh.
    pose proof (len_ztake (_first_unassembled r) s). lia. }
  unfold _update_size, bytes_read. rewrite (rep_bytes_read _ _ R).
  rewrite !(u64_small (len (s_read a))), u64_small by lia. unfold covered; simpl.
  rewrite !vec_resize_grow by lia. split_and!.
  - destruct Hc as [C1 C2 C3 C4]. constructor; simpl.
    + rewrite !length_app, !length_replicate. lia.
    + intros i n [?|[? [-> ?]%lookup_replicate]]%lookup_app_Some; [by apply C2|].
      case_bool; lia.
    + intros i n [Hn|[? [-> ?]%lookup_replicate]]%lookup_app_Some Hn0; [|lia].
      destruct (C3 i n Hn Hn0) as [? <-]. split; [done|].
      apply lookup_lt_Some in Hn. by rewrite lookup_app_l by lia.
    + done.
  - rewrite length_app, length_replicate. lia.
  - apply nz_prefix_app_zeros.
  - intros j. split; intros [Hj (n & Hn & Hn0)]; split; [done| |done|].
    + apply lookup_app_Some in Hn as [?|[? [-> ?]%lookup_replicate]]; [by exists n|lia].
    + exists n. split; [|done]. by apply lookup_app_l_Some.
Qed.

(** A push that is compatible with the stream [s].  The final one carries data
    and fits into the window ([_output.bytes_read() + _capacity]), or comes when
    the whole of [s] is assembled. *)
Definition valid_push (s : list byte) (r : StreamReassembler) (data : list byte) (index : Z)
    (eof : bool) : Prop :=
  excerpt s data index /\
  (eof = true -> index + len data = len s /\
     ((data <> [] /\ len s <= bytes_read (_output r) + _capacity r) \/
      _first_unassembled r = len s)).

Lemma push_inv s k r a data index eof :
  inv s k r a -> 0 <= k < 2 ^ 64 - 1 -> valid_push s r data index eof ->
  let size := len (s_read a) + _capacity r in
  exists r' a',
    push_substring r data index eof =
      (if _first_unassembled r' <? size then Ok r' else _ ← over_read size; Ok r') /\
    inv s (k + 1) r' a' /\ s_read a' = s_read a /\ s_error a' = s_error a /\
    _capacity r' = _capacity r /\ _eofed r' = _eofed r || eof /\ len (_count r') = size /\
    (forall j, covered r' j <-> covered r j \/ (index <= j < index + len data /\ j < size)).
Proof.
  intros Hinv Hk [He Hv]. cbv zeta.
  destruct (update_size_ok s k r a Hinv ltac:(lia)) as (Hc1 & Hl1 & Hz1 & Hcov1).
  destruct Hinv as [R Hcap Hb Hc Hsz Hfa Hh Heof Hend].
  pose proof (rep_bound _ _ R) as Hcb. unfold push_substring.
  set (r1 := set_eofed (_update_size r) eof).
  assert (Hr1 : cells_ok s k 0 r1) by (destruct Hc1; by constructor).
  assert (Hindex : excerpt s data (index + 0)) by (by rewrite Z.add_0_r).
  assert (Hr1' : cells_ok s k (index + 0) r1).
  { destruct Hr1 as [C1 C2 C3 C4]. constructor; try done. intros i n Hn.
    specialize (C2 i n Hn). repeat case_bool; lia. }
  destruct (store_loop_ok s k data r1 index 0) as (r2 & E2 & Hc2 & Hfr2 & Hcov2 & Hfu2);
    [lia|lia|destruct He; lia|lia|done..|].
  rewrite E2. simpl. destruct Hfr2 as (Fo & Fc & Fe & _ & Fa & Fl & Fu). simpl in *.
  rewrite Z.add_0_r in *.
  assert (Hbr : bytes_read (_output r) = len (s_read a)).
  { unfold bytes_read. rewrite (rep_bytes_read _ _ R). apply u64_small.
    apply (f_equal length) in Hh. unfold s_history in Hh. rewrite length_app in Hh.
    pose proof (len_ztake (_first_unassembled r) s). lia. }
  destruct (update_output_inv s (k + 1) r2 a) as (r' & a' & E & Hi & Hrd & Her & Hcnt & Hcp & Heo & Hfu);
    rewrite ?Fo, ?Fc, ?Fe, ?Fa, ?Fl in *; try done; try lia.
  - split; [lia|]. rewrite Hfa. apply inj_le, nz_prefix_spec.
    + pose proof (nz_prefix_le (_count r)). lia.
    + intros i n Hi Hn. destruct (nz_prefix_covered (_count r) i Hi) as (m & Hm & Hm0).
      pose proof (co_bound _ _ _ _ Hc _ _ Hm).
      destruct (proj2 (Hcov2 (Z.of_nat i))) as [_ (n' & Hn' & ?)].
      { left. apply (proj2 (Hcov1 (Z.of_nat i))). split; [lia|]. rewrite Nat2Z.id.
        exists m. split; [done|lia]. }
      rewrite Nat2Z.id in Hn'. simplify_eq. lia.
  - pose proof (co_fu _ _ _ _ Hc2). intros [Ho| ->]%orb_true_iff; [specialize (Heof Ho); lia|].
    pose proof (frontier_bound _ _ _ _ Hc).
    destruct Hv as (Hv1 & [[Hv2 Hv3]|Hv2]); [done| |lia]. specialize (Hfu2 Hv2). lia.
  - rewrite Hend. intros [Ho ?]%andb_true_iff. rewrite Ho. split; [done|].
    specialize (Heof Ho). lia.
  - exists r', a'. rewrite Hcnt, Hl1, (inv_first _ _ _ _ Hi), Hcnt in *. split; [done|].
    split; [done|]. split_and!; try done; try lia.
    intros j. unfold covered. rewrite Hcnt. specialize (Hcov2 j). specialize (Hcov1 j).
    unfold covered in *. simpl in *. tauto.
Qed.

(** The frontier is the first index not covered. *)
Lemma frontier_covered s k r a j : inv s k r a -> 0 <= j < _first_unassembled r -> covered r j.
Proof.
  intros Hi Hj. rewrite (inv_first _ _ _ _ Hi) in Hj.
  destruct (nz_prefix_covered (_count r) (Z.to_nat j)) as (n & Hn & Hn0); [lia|].
  pose proof (co_bound _ _ _ _ (inv_cells _ _ _ _ Hi) _ _ Hn). split; [lia|].
  exists n. split; [done|lia].
Qed.

Lemma covered_frontier s k r a p :
  inv s k r a -> (forall j, 0 <= j < p -> covered r j) -> p <= _first_unassembled r.
Proof.
  intros Hi Hp. rewrite (inv_first _ _ _ _ Hi).
  assert (Z.to_nat p <= nz_prefix (_count r))%nat; [|lia].
  apply nz_prefix_spec.
  - destruct (decide (0 < p)); [|lia].
    destruct (Hp (p - 1)) as [_ (n & Hn%lookup_lt_Some & _)]; lia.
  - intros i n Hin Hn. destruct (Hp (Z.of_nat i)) as [_ (m & Hm & ?)]; [lia|].
    rewrite Nat2Z.id in Hm. simplify_eq. lia.
Qed.

(** A push never moves the frontier back, and moves it over the pushed bytes when
    they start at or before it and fit into the window. *)
Lemma push_frontier s k k' r a r' a' index n size :
  inv s k r a -> inv s k' r' a' -> len (_count r') = size ->
  (forall j, covered r' j <-> covered r j \/ (index <= j < index + n /\ j < size)) ->
  _first_unassembled r <= _first_unassembled r' <= size /\
  (index <= _first_unassembled r -> index + n <= size -> index + n <= _first_unassembled r').
Proof.
  intros Hi Hi' Hsz Hcov. split; [split|].
  - eapply covered_frontier; [done|]. intros j Hj. apply Hcov. left. by eapply frontier_covered.
  - rewrite (inv_first _ _ _ _ Hi'). pose proof (nz_prefix_le (_count r')). lia.
  - intros H1 H2. eapply covered_frontier; [done|]. intros j Hj. apply Hcov.
    destruct (decide (j < _first_unassembled r)); [left|right; lia].
    by eapply frontier_covered; [|lia].
Qed.
End push.

Lemma new_inv s capacity :
  0 <= capacity < 2 ^ 63 - 1 -> len s + capacity < 2 ^ 63 ->
  inv s 0 (new capacity) (spec_new capacity).
Proof.
  intros Hc Hb. constructor; simpl; try done.
  - by apply rep_new.
  - constructor; simpl; try lia; [by rewrite !length_replicate|..].
    + intros i n [-> _]%lookup_replicate. case_bool; lia.
    + intros i n [-> _]%lookup_replicate. lia.
  - rewrite length_replicate. lia.
  - by destruct (Z.to_nat capacity).
Qed.

Lemma read_out_inv s k r a n bs data :
  inv s k r a -> 0 <= n -> read (_output r) n = Ok (bs, data) ->
  inv s k (set_output r bs) (spec_pop a n) /\ data = ztake n (s_pending a).
Proof.
  intros [R Hcap Hb Hc Hsz Hfa Hh Heof Hend] Hn Er.
  destruct (read_rep _ _ n R Hn) as (bs' & E & R'). rewrite E in Er. simplify_eq.
  split; [|done]. constructor; simpl; try done.
  - by destruct Hc.
  - rewrite length_app. lia.
  - unfold s_history; simpl. rewrite <- app_assoc, ztake_zdrop. exact Hh.
Qed.

(** ** Reachable states

    Any interleaving of pushes that are excerpts of [s] and reads of the output
    stream, from a new reassembler; [k] counts the pushes and [out] is what the
    reads returned. *)
Inductive reach `{OverRead} (s : list byte) (capacity : Z) :
    Z -> StreamReassembler -> list byte -> Prop :=
  | reach_new : reach s capacity 0 (new capacity) []
  | reach_push k r out data index eof r' :
      reach s capacity k r out -> valid_push s r data index eof ->
      push_substring r data index eof = Ok r' ->
      reach s capacity (k + 1) r' out
  | reach_read k r out n bs data :
      reach s capacity k r out -> 0 <= n -> read (_output r) n = Ok (bs, data) ->
      reach s capacity k (set_output r bs) (out ++ data).

Section reachable.
  Context {mem : OverRead} (s : list byte) (capacity : Z).
  Context (Hcap : 0 <= capacity < 2 ^ 63 - 1) (Hlen : len s + capacity < 2 ^ 63).

Lemma push_ok_inv k r a data index eof r' :
  inv s k r a -> 0 <= k < 2 ^ 64 - 1 -> valid_push s r data index eof ->
  push_substring r data index eof = Ok r' ->
  exists a', inv s (k + 1) r' a' /\ s_read a' = s_read a /\ _capacity r' = _capacity r /\
    _eofed r' = _eofed r || eof /\
    (forall j, covered r' j <-> covered r j \/
       (index <= j < index + len data /\ j < len (s_read a) + _capacity r)).
Proof.
  intros Hi Hk Hv E.
  destruct (push_inv s k r a data index eof Hi Hk Hv) as (r1 & a' & E1 & Hi1 & Hrd & _ & Hcp & Heo & _ & Hcov).
  assert (r1 = r') as ->.
  { rewrite E in E1. case_bool; [congruence|]. destruct (over_read _); simpl in E1; congruence. }
  by exists a'.
Qed.

Lemma reach_inv k r out :
  reach s capacity k r out -> k < 2 ^ 64 ->
  0 <= k /\ _capacity r = capacity /\ exists a, inv s k r a /\ s_read a = out.
Proof.
  induction 1 as [|k r out data index eof r' Hr IH Hv E|k r out n bs data Hr IH Hn E]; intros Hk.
  - split; [lia|]. split; [done|]. exists (spec_new capacity). split; [|done]. by apply new_inv.
  - destruct IH as (Hk0 & Hc & a & Hi & Ha); [lia|].
    destruct (push_ok_inv k r a data index eof r') as (a' & Hi' & Hrd & Hcp & _); [done|lia|done..|].
    split; [lia|]. split; [congruence|]. exists a'. split; [done|congruence].
  - destruct IH as (Hk0 & Hc & a & Hi & Ha); [done|].
    destruct (read_out_inv s k r a n bs data Hi Hn E) as [Hi' ->].
    split; [done|]. split; [done|]. exists (spec_pop a n). split; [done|]. simpl. by rewrite Ha.
Qed.
End reachable.

(** ** Properties *)

(** C8. Safety of reassembly: for substrings of the sender's stream [s] pushed in
    any order, with overlaps and duplicates, and any interleaving with reads, the bytes
    read so far followed by the bytes buffered in the output stream are exactly
    the first [_first_unassembled] bytes of [s], and the output is ended exactly when the
    final substring was seen and all of [s] is out.  A final substring must be
    non-empty and lie inside the window, or come when all of [s] is assembled
    ([valid_push]): others can end the output early ([reassembler_empty_eof_ends],
    [reassembler_overhanging_eof_ends]). *)
Theorem reassembler_safe `{mem : OverRead} s capacity k r out :
  0 <= capacity < 2 ^ 63 - 1 -> len s + capacity < 2 ^ 63 -> k < 2 ^ 64 ->
  reach s capacity k r out ->
  exists buffered,
    peek_output (_output r) (buffer_size (_output r)) = Ok buffered /\
    out ++ buffered = ztake (_first_unassembled r) s /\
    (input_ended (_output r) = true <-> _eofed r = true /\ _first_unassembled r = len s).
Proof.
  intros Hc Hl Hk Hr. destruct (reach_inv s capacity Hc Hl _ _ _ Hr Hk) as (_ & _ & a & Hi & <-).
  destruct Hi as [R Hcap Hb Hcl Hsz Hfa Hh Heof Hend]. exists (s_pending a).
  rewrite (buffer_size_eq _ _ R), (peek_rep _ _ _ R), ztake_all by lia. split; [done|].
  split; [done|]. unfold input_ended. rewrite (rep_ended _ _ R), Hend.
  rewrite andb_true_iff, Z.eqb_eq. split; intros [E1 E2]; specialize (Heof E1); split; (done || lia).
Qed.

(** A two-push run used by the witnesses: the final byte first, then the gap. *)
Definition demo_stream : list byte := [Byte.x61; Byte.x62].
Definition demo_push (r : StreamReassembler) (data : list byte) (index : Z) (eof : bool) :
    StreamReassembler :=
  match push_substring (mem := strict_over_read) r data index eof with Ok r' => r' | _ => r end.
Definition demo_late : StreamReassembler := demo_push (new 3) [Byte.x62] 1 true.
Definition demo_done : StreamReassembler := demo_push demo_late [Byte.x61] 0 false.

Lemma demo_late_reach : reach (H := strict_over_read) demo_stream 3 1 demo_late [].
Proof.
  apply (reach_push (H := strict_over_read) _ _ 0 (new 3) [] [Byte.x62] 1 true);
    [constructor | | vm_compute; reflexivity].
  split; [by split_and!|]. intros _. split; [done|]. left. by split.
Qed.

Lemma demo_gap_valid : valid_push demo_stream demo_late [Byte.x61] 0 false.
Proof. split; [by split_and!|done]. Qed.

Lemma demo_done_reach : reach (H := strict_over_read) demo_stream 3 2 demo_done [].
Proof.
  apply (reach_push (H := strict_over_read) _ _ 1 demo_late [] [Byte.x61] 0 false);
    [apply demo_late_reach | apply demo_gap_valid | vm_compute; reflexivity].
Qed.

Lemma reassembler_safe_witness :
  exists buffered,
    peek_output (_output demo_done) (buffer_size (_output demo_done)) = Ok buffered /\
    [] ++ buffered = ztake (_first_unassembled demo_done) demo_stream /\
    (input_ended (_output demo_done) = true <->
       _eofed demo_done = true /\ _first_unassembled demo_done = len demo_stream).
Proof.
  apply (reassembler_safe (mem := strict_over_read) demo_stream 3 2 demo_done []);
    [lia | simpl; lia | lia | apply demo_done_reach].
Defined.

(** Progress of reassembly: where a read past the end of [_count] yields
    some word, every push compatible with [s] returns; the new state is
    reachable, its covered indices are the old ones and those of the substring
    that lie below [bytes_read + capacity], and [_first_unassembled] is the
    first index not covered. *)
Theorem reassembler_progress {mem : OverRead} {total : TotalOverRead mem} s capacity k r out data index eof :
  0 <= capacity < 2 ^ 63 - 1 -> len s + capacity < 2 ^ 63 -> k < 2 ^ 64 - 1 ->
  reach s capacity k r out -> valid_push s r data index eof ->
  exists r', push_substring r data index eof = Ok r' /\ reach s capacity (k + 1) r' out /\
    (forall j, covered r' j <-> covered r j \/
       (index <= j < index + len data /\ j < len out + capacity)) /\
    (forall j, 0 <= j < _first_unassembled r' -> covered r' j) /\
    ~ covered r' (_first_unassembled r').
Proof.
  intros Hc Hl Hk Hr Hv.
  destruct (reach_inv s capacity Hc Hl _ _ _ Hr ltac:(lia)) as (Hk0 & Hcap & a & Hi & <-).
  destruct (push_inv s k r a data index eof Hi ltac:(lia) Hv)
    as (r' & a' & E & Hi' & Hrd & _ & Hcp & Heo & Hsz & Hcov).
  assert (Eok : push_substring r data index eof = Ok r').
  { rewrite E. case_bool; [done|]. by destruct (total_over_read (len (s_read a) + _capacity r)) as [w ->]. }
  exists r'. split; [done|]. split; [by eapply reach_push|]. rewrite Hcap in Hcov. split; [done|].
  rewrite (inv_first _ _ _ _ Hi'). pose proof (inv_cells _ _ _ _ Hi') as Hcl. split.
  - intros j Hj. destruct (nz_prefix_covered (_count r') (Z.to_nat j)) as (n & Hn & Hn0); [lia|].
    pose proof (co_bound _ _ _ _ Hcl _ _ Hn). split; [lia|]. exists n. split; [done|lia].
  - intros [_ (n & Hn & Hn0)]. rewrite Nat2Z.id in Hn.
    assert (S (nz_prefix (_count r')) <= nz_prefix (_count r'))%nat; [|lia].
    apply nz_prefix_spec; [by apply lookup_lt_Some in Hn|]. intros i m Him Hm.
    destruct (decide (i = nz_prefix (_count r'))) as [->|]; [simplify_eq; lia|].
    destruct (nz_prefix_covered (_count r') i) as (m' & Hm' & ?); [lia|]. by simplify_eq.
Qed.

Lemma reach_new_word s capacity w : reach (H := word_over_read w) s capacity 0 (new capacity) [].
Proof. constructor. Qed.

Lemma reassembler_progress_witness :
  exists r', push_substring (mem := word_over_read 5) (new 2) demo_stream 0 true = Ok r' /\
    reach (H := word_over_read 5) demo_stream 2 (0 + 1) r' [] /\
    (forall j, covered r' j <-> covered (new 2) j \/
       (0 <= j < 0 + len demo_stream /\ j < len (@nil byte) + 2)) /\
    (forall j, 0 <= j < _first_unassembled r' -> covered r' j) /\
    ~ covered r' (_first_unassembled r').
Proof.
  apply (reassembler_progress (mem := word_over_read 5) demo_stream 2 0 (new 2) [] demo_stream 0 true);
    [lia | simpl; lia | lia | apply reach_new_word |].
  split; [by split_and!|]. intros _. split; [done|]. left. by split.
Defined.

(** C34. The out-of-range read of [_update_output], exactly: with undefined
    behaviour past the end of [_count], a push compatible with [s] is undefined
    behaviour if and only if after it every index of the window
    [0, bytes_read + capacity) has been pushed, i.e. the window is full. *)
Theorem reassembler_over_read_iff s capacity k r out data index eof :
  0 <= capacity < 2 ^ 63 - 1 -> len s + capacity < 2 ^ 63 -> k < 2 ^ 64 - 1 ->
  reach (H := strict_over_read) s capacity k r out -> valid_push s r data index eof ->
  (push_substring (mem := strict_over_read) r data index eof = UB <->
   forall j, 0 <= j < len out + capacity -> covered r j \/ index <= j < index + len data).
Proof.
  intros Hc Hl Hk Hr Hv.
  destruct (reach_inv (mem := strict_over_read) s capacity Hc Hl _ _ _ Hr ltac:(lia))
    as (Hk0 & Hcap & a & Hi & <-).
  destruct (push_inv (mem := strict_over_read) s k r a data index eof Hi ltac:(lia) Hv)
    as (r' & a' & E & Hi' & Hrd & _ & Hcp & Heo & Hsz & Hcov).
  rewrite E, <- Hcap. pose proof (inv_first _ _ _ _ Hi') as Hfa.
  pose proof (nz_prefix_le (_count r')). pose proof (inv_cells _ _ _ _ Hi') as Hcl.
  case_bool; simpl; (split; [intros Hub; try done|]).
  - intros Hall. exfalso.
    assert (length (_count r') <= nz_prefix (_count r'))%nat; [|lia].
    apply nz_prefix_spec; [done|]. intros i n Hin Hn.
    destruct (proj2 (Hcov (Z.of_nat i))) as [_ (n' & Hn' & ?)].
    + destruct (Hall (Z.of_nat i)); [lia|by left|right; lia].
    + rewrite Nat2Z.id in Hn'. simplify_eq. lia.
  - intros j Hj. destruct (nz_prefix_covered (_count r') (Z.to_nat j)) as (n & Hn & Hn0); [lia|].
    pose proof (co_bound _ _ _ _ Hcl _ _ Hn).
    destruct (proj1 (Hcov j)) as [?|?]; [|by left|right; lia].
    split; [lia|]. exists n. split; [done|lia].
  - done.
Qed.

Lemma reassembler_over_read_iff_witness :
  push_substring (mem := strict_over_read) (new 2) demo_stream 0 true = UB <->
  forall j, 0 <= j < len (@nil byte) + 2 -> covered (new 2) j \/ 0 <= j < 0 + len demo_stream.
Proof.
  apply (reassembler_over_read_iff demo_stream 2 0); [lia | simpl; lia | lia | constructor |].
  split; [by split_and!|]. intros _. split; [done|]. left. by split.
Defined.

(** ** Arrival order does not matter *)

(** A push: the substring, its index and the eof flag. *)
Definition push_arg : Type := list byte * Z * bool.

Fixpoint push_all `{OverRead} (r : StreamReassembler) (ps : list push_arg) :
    outcome StreamReassembler :=
  match ps with
  | [] => mret r
  | (data, index, eof) :: ps => r' ← push_substring r data index eof; push_all r' ps
  end.

Definition arg_ok (s : list byte) (p : push_arg) : Prop :=
  let '(data, index, eof) := p in
  excerpt s data index /\ (eof = true -> data <> [] /\ index + len data = len s).

Definition arg_covers (j : Z) (p : push_arg) : Prop :=
  let '(data, index, _) := p in index <= j < index + len data.

Definition arg_eof (p : push_arg) : bool := p.2.

Lemma push_all_inv {mem : OverRead} {total : TotalOverRead mem} s ps : forall k r a,
  inv s k r a -> s_read a = [] -> len s <= _capacity r -> 0 <= k -> k + len ps < 2 ^ 64 ->
  Forall (arg_ok s) ps ->
  exists r' a', push_all r ps = Ok r' /\ inv s (k + len ps) r' a' /\ s_read a' = [] /\
    _eofed r' = _eofed r || existsb arg_eof ps /\
    (forall j, covered r' j <-> covered r j \/ Exists (arg_covers j) ps).
Proof.
  induction ps as [|[[data index] eof] ps IH]; intros k r a Hi Ha Hcap Hk Hb Hps.
  - exists r, a. simpl. rewrite Z.add_0_r, orb_false_r. split_and!; try done.
    intros j. rewrite Exists_nil. tauto.
  - inversion Hps as [|?? Hok Hps']; subst. destruct Hok as [He Hv]. simpl length in Hb.
    assert (valid_push s r data index eof) as Hvp.
    { split; [done|]. intros Heq. destruct (Hv Heq). split; [done|]. left. split; [done|].
      unfold bytes_read. rewrite (rep_bytes_read _ _ (inv_rep _ _ _ _ Hi)), Ha. simpl.
      rewrite u64_small; lia. }
    destruct (push_inv s k r a data index eof Hi ltac:(lia) Hvp)
      as (r1 & a1 & E & Hi1 & Hrd & _ & Hcp & Heo & _ & Hcov).
    assert (push_substring r data index eof = Ok r1) as Eok.
    { rewrite E. case_bool; [done|].
      by destruct (total_over_read (len (s_read a) + _capacity r)) as [w ->]. }
    destruct (IH (k + 1) r1 a1) as (r2 & a2 & E2 & Hi2 & Ha2 & Heo2 & Hcov2);
      [done|congruence|lia..|done|].
    exists r2, a2. cbn [push_all]. rewrite Eok. split; [done|].
    split; [cbn [length]; by replace (k + Z.of_nat (S (length ps))) with (k + 1 + len ps) by lia|].
    split; [done|]. split; [by rewrite Heo2, Heo, <- orb_assoc|].
    intros j. rewrite Hcov2, Hcov, Exists_cons, Ha. simpl. destruct He as (? & ? & _).
    intuition lia.
Qed.

(** C9. Completeness and order independence: a new reassembler that is given,
    in any order and with any overlaps, substrings of [s] that together cover
    [s], which fits into the capacity, delivers exactly [s], and the output has
    ended if and only if one of the substrings was marked final.  The substrings
    marked final are not empty and reach to the end of [s] ([arg_ok]; an empty
    one can end the output early, [reassembler_empty_eof_ends]), and the read past the
    end of [_count] returns some word. *)
Theorem reassembler_complete {mem : OverRead} {total : TotalOverRead mem} s capacity ps :
  0 <= capacity < 2 ^ 63 - 1 -> len s <= capacity -> len s + capacity < 2 ^ 63 ->
  len ps < 2 ^ 64 -> Forall (arg_ok s) ps ->
  (forall j, 0 <= j < len s -> Exists (arg_covers j) ps) ->
  exists r, push_all (new capacity) ps = Ok r /\
    peek_output (_output r) (buffer_size (_output r)) = Ok s /\
    input_ended (_output r) = existsb arg_eof ps.
Proof.
  intros Hc Hs Hb Hn Hps Hcov.
  destruct (push_all_inv s ps 0 _ _ (new_inv s capacity Hc Hb))
    as (r & a & E & Hi & Ha & Heo & Hcv); [done|simpl; lia|lia..|done|].
  exists r. split; [done|]. destruct Hi as [R Hcap Hbd Hcl Hsz Hfa Hh Heof Hend].
  pose proof (frontier_bound _ _ _ _ Hcl). pose proof (co_fu _ _ _ _ Hcl).
  assert (Hall : _first_unassembled r = len s).
  { assert (length s <= nz_prefix (_count r))%nat; [|lia].
    apply nz_prefix_spec.
    - destruct s as [|b s'] eqn:Es; [simpl; lia|rewrite <- Es in *].
      assert (0 < len s) by (subst s; simpl; lia).
      destruct (proj2 (Hcv (len s - 1)) (or_intror (Hcov (len s - 1) ltac:(lia))))
        as [_ (m & Hm%lookup_lt_Some & _)]. lia.
    - intros i n Hi Hin.
      destruct (proj2 (Hcv (Z.of_nat i)) (or_intror (Hcov (Z.of_nat i) ltac:(lia))))
        as [_ (n' & Hn' & ?)]. rewrite Nat2Z.id in Hn'. simplify_eq. lia. }
  unfold s_history in Hh. rewrite Ha, Hall, ztake_all in Hh by lia. simpl in Hh.
  rewrite (buffer_size_eq _ _ R), (peek_rep _ _ _ R), Hh, ztake_all by lia. split; [done|].
  unfold input_ended. rewrite (rep_ended _ _ R), Hend, Heo, Hall. simpl.
  destruct (existsb arg_eof ps) eqn:Eo; [|done]. rewrite Heof by (by rewrite Heo).
  by rewrite Z.eqb_refl.
Qed.

Lemma reassembler_complete_witness :
  exists r,
    push_all (H := word_over_read 1) (new 3)
      [([Byte.x63], 2, true); ([Byte.x62; Byte.x63], 1, false); ([Byte.x61; Byte.x62], 0, false)] =
      Ok r /\
    peek_output (_output r) (buffer_size (_output r)) = Ok [Byte.x61; Byte.x62; Byte.x63] /\
    input_ended (_output r) = true.
Proof.
  apply (reassembler_complete (mem := word_over_read 1) [Byte.x61; Byte.x62; Byte.x63] 3
    [([Byte.x63], 2, true); ([Byte.x62; Byte.x63], 1, false); ([Byte.x61; Byte.x62], 0, false)]);
    [lia | simpl; lia | simpl; lia | simpl; lia | repeat constructor; simpl; try lia; done |].
  intros j Hj. simpl in Hj. destruct (decide (j < 2)).
  - apply Exists_cons_tl, Exists_cons_tl, Exists_cons_hd. simpl. lia.
  - apply Exists_cons_hd. simpl. lia.
Defined.

(** An empty final substring ends the stream wherever it lies: with nothing
    waiting to be assembled, pushing the empty string with [eof] set ends the
    output at once, at whatever [index] it was placed, so also when the bytes
    before [index] have not arrived. *)
Theorem reassembler_empty_eof_ends {mem : OverRead} {total : TotalOverRead mem}
    s capacity k r out index :
  0 <= capacity < 2 ^ 63 - 1 -> len s + capacity < 2 ^ 63 -> k < 2 ^ 64 ->
  reach s capacity k r out -> empty r = true ->
  exists r', push_substring r [] index true = Ok r' /\
    input_ended (_output r') = true /\ _first_unassembled r' = _first_unassembled r.
Proof.
  intros Hc Hl Hk Hr He.
  destruct (reach_inv s capacity Hc Hl _ _ _ Hr Hk) as (Hk0 & Hcap & a & Hi & _).
  destruct (update_size_ok s k r a Hi Hk0) as (Hc1 & Hl1 & Hz1 & _).
  destruct Hi as [R Hcp Hb Hcl Hsz Hfa Hh Heof Hend].
  unfold push_substring. cbn [store_loop mret outcome_ret mbind outcome_bind].
  unfold _update_output. pose proof (co_len _ _ _ _ Hc1) as Hlb.
  pose proof (rep_bound _ _ R). pose proof (frontier_bound _ _ _ _ Hcl).
  pose proof (co_fu _ _ _ _ Hcl). pose proof (nz_prefix_le (_count r)).
  set (r1 := set_eofed (_update_size r) true).
  assert (Hrd : len (s_read a) <= len s).
  { apply (f_equal length) in Hh. unfold s_history in Hh. rewrite length_app in Hh.
    pose proof (len_ztake (_first_unassembled r) s). lia. }
  assert (Hlc : len (_count r1) = len (s_read a) + _capacity r) by apply Hl1.
  rewrite assemble_loop_eq; [|apply Hlb|simpl in *; lia|lia|done].
  replace (nz_prefix (zdrop (_first_unassembled r1) (_count r1))) with 0%nat.
  2: { pose proof (nz_prefix_drop (nz_prefix (_count r)) (_count r1)) as Hd.
       change (_count r1) with (_count (_update_size r)) in *. rewrite Hz1 in Hd.
       unfold zdrop. simpl. rewrite Hfa, Nat2Z.id. simpl in Hd. lia. }
  cbv zeta. rewrite Z.add_0_r, Z.sub_diag. cbn [ztake Z.to_nat take].
  unfold empty in He. exists (set_output (set_output r1 (_output r1)) (end_input (_output r))).
  assert (Hout : forall w : outcome Z, (exists x, w = Ok x) ->
    (w ≫= fun _ => Ok (@nil byte, _first_unassembled r1)) = Ok ([], _first_unassembled r1))
    by (by intros w [x ->]).
  split; [|done]. unfold ztake. cbn [take Z.to_nat]. case_bool; [|rewrite Hout by apply total_over_read];
    cbn [mbind outcome_bind]; rewrite write_nil; cbn [mbind outcome_bind]; unfold empty; simpl;
    by rewrite He, orb_true_r.
Qed.

Lemma reassembler_empty_eof_ends_witness :
  exists r', push_substring (mem := word_over_read 0) (new 10) [] 7 true = Ok r' /\
    input_ended (_output r') = true /\ _first_unassembled r' = _first_unassembled (new 10).
Proof.
  apply (reassembler_empty_eof_ends (mem := word_over_read 0) (replicate 7 Byte.x61) 10 0 (new 10) []);
    [lia | simpl; lia | lia | constructor | reflexivity].
Defined.

(** The end is remembered before the substring is cut to the window, and
    [_first_unacceptable] only moves to the byte that was cut off: with capacity 2 the
    four bytes "abcd", pushed as the whole stream, are cut to "ab"; when the
    reader has taken them and "c" arrives, the output ends with three bytes of
    the four. *)
Example reassembler_overhanging_eof_ends :
  let abcd := [Byte.x61; Byte.x62; Byte.x63; Byte.x64] in
  exists r1 bs r2, push_substring (mem := word_over_read 0) (new 2) abcd 0 true = Ok r1 /\
    read (_output r1) 2 = Ok (bs, [Byte.x61; Byte.x62]) /\
    push_substring (mem := word_over_read 0) (set_output r1 bs) [Byte.x63] 2 false = Ok r2 /\
    peek_output (_output r2) 2 = Ok [Byte.x63] /\ input_ended (_output r2) = true.
Proof. eexists _, _, _. cbv zeta. repeat (split; [vm_compute; reflexivity|]). vm_compute. reflexivity. Qed.

(** ** Counting what waits to be assembled *)

#[global] Instance covered_dec r j : Decision (covered r j).
Proof.
  unfold covered. destruct (decide (0 <= j)) as [Hj|Hj]; [|right; naive_solver].
  destruct (_count r !! Z.to_nat j) as [n|] eqn:E; [|right; naive_solver].
  destruct (decide (0 < n)); [left; naive_solver|right; naive_solver].
Defined.

Lemma count_loop_eq {mem : OverRead} s k p r fuel : forall i,
  cells_ok s k p r -> 0 <= i -> i + Z.of_nat fuel <= len (_count r) ->
  count_loop r i fuel = Ok (len (filter (covered r) (seqZ i (Z.of_nat fuel)))).
Proof.
  induction fuel as [|fuel IH]; intros i Hc Hi Hb; cbn [count_loop]; [done|].
  unfold count_at. case_bool; [|lia].
  destruct (lookup_lt_is_Some_2 (_count r) (Z.to_nat i)) as [n Hn]; [lia|].
  rewrite (vec_get_ok _ _ n) by done. cbn [mbind outcome_bind].
  rewrite IH by (done || lia). cbn [mbind outcome_bind].
  rewrite (seqZ_cons i (Z.of_nat (S fuel))) by lia.
  replace (Z.pred (Z.of_nat (S fuel))) with (Z.of_nat fuel) by lia.
  pose proof (co_bound _ _ _ _ Hc _ _ Hn). unfold mret, outcome_ret. f_equal.
  destruct (Z.eqb_spec n 0) as [->|Hn0].
  - rewrite filter_cons_False; [unfold Z.succ; lia|].
    intros [_ (m & Hm & ?)]. simplify_eq. lia.
  - rewrite filter_cons_True; [cbn [length]; unfold Z.succ; lia|].
    split; [done|]. exists n. split; [done|]. case_bool; lia.
Qed.

(** [unassembled_bytes] counts each waiting index once: when no substring
    reached past the window, it returns the number of distinct indices at or
    after [_first_unassembled] that have been pushed. *)
Theorem unassembled_bytes_counts {mem : OverRead} s capacity k r out :
  0 <= capacity < 2 ^ 63 - 1 -> len s + capacity < 2 ^ 63 -> k < 2 ^ 64 ->
  reach s capacity k r out -> _first_unacceptable r <= len (_count r) ->
  unassembled_bytes r =
    Ok (len (filter (covered r)
      (seqZ (_first_unassembled r) (_first_unacceptable r - _first_unassembled r)))).
Proof.
  intros Hc Hl Hk Hr Hfu.
  destruct (reach_inv s capacity Hc Hl _ _ _ Hr Hk) as (_ & _ & a & Hi & _).
  pose proof (inv_cells _ _ _ _ Hi) as Hcl. pose proof (frontier_bound _ _ _ _ Hcl).
  pose proof (inv_first _ _ _ _ Hi). unfold unassembled_bytes.
  rewrite (count_loop_eq s k 0) by (done || lia). by rewrite Z2Nat.id by lia.
Qed.

Lemma unassembled_bytes_counts_witness :
  unassembled_bytes (mem := strict_over_read) demo_late =
    Ok (len (filter (covered demo_late)
      (seqZ (_first_unassembled demo_late)
         (_first_unacceptable demo_late - _first_unassembled demo_late)))).
Proof.
  apply (unassembled_bytes_counts (mem := strict_over_read) demo_stream 3 1 demo_late []);
    [lia | simpl; lia | lia | apply demo_late_reach | vm_compute; congruence].
Defined.
