(* ===== verification/Buffer.v ===== *)
(** * Read-only strings that discard bytes from the front

    Model of [libsponge/util/buffer.hh] and [.cc]: [Buffer] (a shared string and
    an offset into it), [BufferList] and [BufferViewList].  The shared string is
    never written after construction, so sharing it is modelled by copying the
    value. *)

From S2P Require Import Prelude.

(** ** Buffer *)

Record Buffer := mkBuffer { _storage : option (list byte); _starting_offset : Z }.

(** [Buffer()] and [Buffer(std::string &&)] *)
Definition Buffer_empty : Buffer := mkBuffer None 0.
Definition Buffer_of (s : list byte) : Buffer := mkBuffer (Some s) 0.

Definition str (b : Buffer) : list byte :=
  match _storage b with
  | None => []
  | Some s => zdrop (_starting_offset b) s
  end.

(** [string_view::at] throws when out of range. *)
Definition at_ (b : Buffer) (n : Z) : outcome Z :=
  if (0 <=? n) && (n <? len (str b)) then
    match str b !! Z.to_nat n with
    | Some c => Ok (byte.unsigned c)
    | None => Throw (out_of_range "string_view::at")
    end
  else Throw (out_of_range "string_view::at").

Definition size (b : Buffer) : Z := len (str b).

Definition copy (b : Buffer) : list byte := str b.

Definition remove_prefix (b : Buffer) (n : Z) : outcome Buffer :=
  if n >? len (str b) then Throw (out_of_range "Buffer::remove_prefix")
  else
    let off := u64 (_starting_offset b + n) in
    match _storage b with
    | Some s => if off =? len s then Ok (mkBuffer None off) else Ok (mkBuffer (Some s) off)
    | None => Ok (mkBuffer None off)
    end.

(** ** BufferList *)

Abbreviation BufferList := (list Buffer).

(** [BufferList(Buffer)] and [BufferList(std::string &&)] *)
Definition BufferList_of_Buffer (b : Buffer) : BufferList := [b].

Definition BufferList_append (bl other : BufferList) : BufferList := bl ++ other.

Definition BufferList_of_string (s : list byte) : BufferList :=
  let buf := Buffer_of s in BufferList_append [] (BufferList_of_Buffer buf).

Definition BufferList_to_Buffer (bl : BufferList) : outcome Buffer :=
  match bl with
  | [] => Ok Buffer_empty
  | [b] => Ok b
  | _ => Throw (runtime_error
      "BufferList: please use concatenate() to combine a multi-Buffer BufferList into one Buffer")
  end.

Definition concatenate (bl : BufferList) : list byte :=
  foldl (fun ret b => ret ++ str b) [] bl.

Definition BufferList_size (bl : BufferList) : Z := foldl (fun ret b => u64 (ret + size b)) 0 bl.

(** The loop recurses on the front of the deque, which it pops. *)
Fixpoint BufferList_remove_prefix (bl : BufferList) (n : Z) : outcome BufferList :=
  if n >? 0 then
    match bl with
    | [] => Throw (out_of_range "BufferList::remove_prefix")
    | b :: rest =>
        if n <? len (str b) then b' ← remove_prefix b n; mret (b' :: rest)
        else BufferList_remove_prefix rest (u64 (n - len (str b)))
    end
  else mret bl.

(** ** BufferViewList: a deque of string views *)

Abbreviation BufferViewList := (list (list byte)).

Definition BufferViewList_of_list (bl : BufferList) : BufferViewList := str <$> bl.

Fixpoint BufferViewList_remove_prefix (vs : BufferViewList) (n : Z) : outcome BufferViewList :=
  if n >? 0 then
    match vs with
    | [] => Throw (out_of_range "BufferListView::remove_prefix")
    | v :: rest =>
        if n <? len v then mret (zdrop n v :: rest)
        else BufferViewList_remove_prefix rest (u64 (n - len v))
    end
  else mret vs.

Definition BufferViewList_size (vs : BufferViewList) : Z :=
  foldl (fun ret v => u64 (ret + len v)) 0 vs.

(** [BufferViewList(std::string_view)], also for a string *)
Definition BufferViewList_of_string (s : list byte) : BufferViewList := [s].

(** What [writev(2)] is given: a pointer, here the bytes from it on, and a length *)
Record iovec := mkIovec { iov_base : list byte; iov_len : Z }.

Definition as_iovecs (vs : BufferViewList) : list iovec := (fun x => mkIovec x (len x)) <$> vs.

(** ** Well-formed buffers: the offset lies inside the string *)

Definition buffer_ok (b : Buffer) : Prop :=
  match _storage b with
  | Some s => 0 <= _starting_offset b <= len s /\ len s < 2 ^ 63
  | None => True
  end.

Lemma Buffer_of_ok s : len s < 2 ^ 63 -> buffer_ok (Buffer_of s).
Proof. unfold buffer_ok; simpl. lia. Qed.

Lemma str_Buffer_of s : str (Buffer_of s) = s.
Proof. done. Qed.

Lemma str_bound b : buffer_ok b -> len (str b) < 2 ^ 63.
Proof.
  unfold buffer_ok, str. destruct (_storage b) as [s|]; [|simpl; lia].
  intros [??]. rewrite len_zdrop; lia.
Qed.

Lemma zdrop_zdrop {A} m n (l : list A) : 0 <= m -> 0 <= n -> zdrop n (zdrop m l) = zdrop (m + n) l.
Proof. intros. unfold zdrop. rewrite drop_drop. f_equal. lia. Qed.

(** [remove_prefix] discards exactly [n] bytes, or throws and discards none. *)
Lemma remove_prefix_ok b n :
  buffer_ok b -> 0 <= n <= len (str b) ->
  exists b', remove_prefix b n = Ok b' /\ buffer_ok b' /\ str b' = zdrop n (str b).
Proof.
  intros Hb Hn. unfold remove_prefix. case_bool; [lia|].
  unfold buffer_ok, str in *. destruct (_storage b) as [s|] eqn:E; simpl in *.
  - rewrite len_zdrop in Hn by lia. rewrite u64_small by lia. rewrite zdrop_zdrop by lia.
    case_bool; eexists; (split; [reflexivity|]); simpl.
    + split; [done|]. unfold zdrop. by rewrite drop_ge by lia.
    + split; [lia|done].
  - eexists. split; [reflexivity|]. split; [done|]. simpl. unfold zdrop. by rewrite drop_nil.
Qed.

Lemma remove_prefix_throws b n :
  len (str b) < n -> remove_prefix b n = Throw (out_of_range "Buffer::remove_prefix").
Proof. intros. unfold remove_prefix. case_bool; [done|lia]. Qed.

Lemma at_ok b n c : 0 <= n -> str b !! Z.to_nat n = Some c -> at_ b n = Ok (byte.unsigned c).
Proof.
  intros Hn E. unfold at_. pose proof (lookup_lt_Some _ _ _ E). rewrite E.
  destruct (Z.leb_spec 0 n), (Z.ltb_spec n (len (str b))); simpl; (done || lia).
Qed.

Lemma concatenate_concat bl : concatenate bl = concat (str <$> bl).
Proof.
  unfold concatenate. rewrite <- (app_nil_l (concat _)). generalize (@nil byte) as acc.
  induction bl as [|b bl IH]; intros acc; simpl; [by rewrite app_nil_r|].
  by rewrite IH, app_assoc.
Qed.

Lemma BufferList_size_len_acc bl : forall acc,
  0 <= acc -> acc + len (concat (str <$> bl)) < 2 ^ 64 ->
  foldl (fun ret b => u64 (ret + size b)) acc bl = acc + len (concat (str <$> bl)).
Proof.
  induction bl as [|b bl IH]; intros acc H0 Hb; [simpl; lia|].
  rewrite fmap_cons in *. cbn [concat foldl] in *. rewrite length_app in *.
  change (size b) with (len (str b)). rewrite u64_small by lia. rewrite IH by lia. lia.
Qed.

Lemma BufferList_size_len bl :
  len (concatenate bl) < 2 ^ 64 -> BufferList_size bl = len (concatenate bl).
Proof.
  rewrite concatenate_concat. intros. unfold BufferList_size.
  by rewrite BufferList_size_len_acc by lia.
Qed.

Lemma BufferViewList_size_len vs : len (concat vs) < 2 ^ 64 -> BufferViewList_size vs = len (concat vs).
Proof.
  intros Hl. unfold BufferViewList_size.
  assert (H : forall acc, 0 <= acc -> acc + len (concat vs) < 2 ^ 64 ->
    foldl (fun ret v => u64 (ret + len v)) acc vs = acc + len (concat vs)); [|by rewrite H by lia].
  clear Hl. induction vs as [|v vs IH]; intros acc H0 Hb; [simpl; lia|]. cbn [concat foldl] in *.
  rewrite length_app in *. rewrite u64_small, IH by lia. lia.
Qed.

(** The system call is given exactly the bytes of the list, in their order. *)
Lemma as_iovecs_bytes vs :
  concat ((fun v => ztake (iov_len v) (iov_base v)) <$> as_iovecs vs) = concat vs.
Proof.
  induction vs as [|v vs IH]; [done|]. cbn. rewrite ztake_all by lia. f_equal. exact IH.
Qed.

Lemma BufferViewList_remove_prefix_ok vs n :
  0 <= n <= len (concat vs) -> n < 2 ^ 64 ->
  exists vs', BufferViewList_remove_prefix vs n = Ok vs' /\ concat vs' = zdrop n (concat vs).
Proof.
  revert n. induction vs as [|v vs IH]; intros n Hn H64; cbn [BufferViewList_remove_prefix concat] in *.
  - simpl in Hn. assert (n = 0) as -> by lia. by exists [].
  - rewrite length_app in Hn. destruct (Z.gtb_spec n 0) as [Hp|Hz].
    + destruct (Z.ltb_spec n (len v)) as [Hlt|Hge].
      * eexists. split; [reflexivity|]. simpl. unfold zdrop. by rewrite drop_app_le by lia.
      * rewrite u64_small by lia. destruct (IH (n - len v)) as (vs' & E & Ec); [lia..|].
        exists vs'. split; [done|]. rewrite Ec. unfold zdrop. rewrite drop_app_ge by lia. f_equal. lia.
    + assert (n = 0) as -> by lia. by exists (v :: vs).
Qed.

(** ** Properties *)

(** [BufferList::remove_prefix] discards exactly the first [n] bytes of the
    concatenation, across buffer boundaries, and throws [out_of_range] exactly
    when fewer bytes are there. *)
Theorem buffer_list_remove_prefix bl n :
  Forall buffer_ok bl -> 0 <= n < 2 ^ 64 ->
  if n <=? len (concatenate bl) then
    exists bl', BufferList_remove_prefix bl n = Ok bl' /\ Forall buffer_ok bl' /\
      concatenate bl' = zdrop n (concatenate bl)
  else BufferList_remove_prefix bl n = Throw (out_of_range "BufferList::remove_prefix").
Proof.
  intros Hbl. rewrite concatenate_concat. revert n.
  induction Hbl as [|b bl Hb Hbl IH]; intros n Hn; cbn [BufferList_remove_prefix fmap list_fmap concat].
  - simpl. repeat case_bool; try lia; [|done]. exists []. assert (n = 0) as -> by lia. done.
  - rewrite length_app. destruct (Z.gtb_spec n 0) as [Hpos|Hz].
    + destruct (Z.ltb_spec n (len (str b))) as [Hlt|Hge].
      * case_bool; [|lia]. destruct (remove_prefix_ok b n Hb) as (b' & -> & Hb' & Es); [lia|].
        simpl. eexists. split; [reflexivity|]. split; [by constructor|].
        rewrite concatenate_concat. simpl. rewrite Es. unfold zdrop.
        by rewrite drop_app_le by lia.
      * rewrite u64_small by lia. specialize (IH (n - len (str b)) ltac:(lia)).
        repeat case_bool; try lia; [|done].
        destruct IH as (bl' & E & Hok & Ec). exists bl'. split_and!; [done..|].
        rewrite Ec. unfold zdrop. rewrite drop_app_ge by lia. f_equal. lia.
    + case_bool; [|lia]. assert (n = 0) as -> by lia. eexists. split; [reflexivity|].
      split; [by constructor|]. by rewrite concatenate_concat.
Qed.

Lemma buffer_list_remove_prefix_witness :
  exists bl', BufferList_remove_prefix [Buffer_of [Byte.x61; Byte.x62]; Buffer_of [Byte.x63]] 2 = Ok bl'
    /\ Forall buffer_ok bl' /\
    concatenate bl' = zdrop 2 (concatenate [Buffer_of [Byte.x61; Byte.x62]; Buffer_of [Byte.x63]]).
Proof.
  refine (buffer_list_remove_prefix [Buffer_of [Byte.x61; Byte.x62]; Buffer_of [Byte.x63]] 2 _ _);
    [repeat constructor; simpl; lia | lia].
Defined.
