(* ===== verification/Parser.v ===== *)
(** * Network-byte-order parsing and unparsing

    Model of [libsponge/util/parser.hh] and [.cc]: [ParseResult], [NetParser]
    (a [Buffer] and a sticky error) and [NetUnparser]. *)

From S2P Require Import Prelude Buffer.

Inductive ParseResult :=
  | NoError
  | BadChecksum
  | PacketTooShort
  | WrongIPVersion
  | HeaderTooShort
  | TruncatedPacket
  | Unsupported.

#[global] Instance ParseResult_eq_dec : EqDecision ParseResult.
Proof. solve_decision. Defined.

(** [static_cast<size_t>(r)] *)
Definition ParseResult_index (r : ParseResult) : Z :=
  match r with
  | NoError => 0
  | BadChecksum => 1
  | PacketTooShort => 2
  | WrongIPVersion => 3
  | HeaderTooShort => 4
  | TruncatedPacket => 5
  | Unsupported => 6
  end.

Definition as_string (r : ParseResult) : outcome string :=
  vec_get ["NoError"; "BadChecksum"; "PacketTooShort"; "WrongIPVersion"; "HeaderTooShort";
           "TruncatedPacket"]%string (ParseResult_index r).

Record NetParser := mkNetParser { _buffer : Buffer; _error : ParseResult }.

Definition NetParser_of (b : Buffer) : NetParser := mkNetParser b NoError.

Definition set_error (p : NetParser) (res : ParseResult) : NetParser := mkNetParser (_buffer p) res.
Definition get_error (p : NetParser) : ParseResult := _error p.
Definition error (p : NetParser) : bool := bool_decide (get_error p <> NoError).

Definition _check_size (p : NetParser) (size : Z) : NetParser :=
  if size >? Buffer.size (_buffer p) then set_error p PacketTooShort else p.

(** The loop of [_parse_int<T>] for a [T] of [bits] bits: [fuel] bytes from [i]. *)
Fixpoint parse_int_loop (bits : Z) (b : Buffer) (i : Z) (fuel : nat) (ret : Z) : outcome Z :=
  match fuel with
  | O => mret ret
  | S fuel =>
      let ret := Z.shiftl ret 8 mod 2 ^ bits in
      c ← at_ b i;
      parse_int_loop bits b (i + 1) fuel ((ret + c) mod 2 ^ bits)
  end.

(** [_parse_int<T>] for a [T] of [n] bytes *)
Definition _parse_int (n : nat) (p : NetParser) : outcome (Z * NetParser) :=
  let p := _check_size p (Z.of_nat n) in
  if error p then mret (0, p)
  else
    ret ← parse_int_loop (8 * Z.of_nat n) (_buffer p) 0 n 0;
    b ← Buffer.remove_prefix (_buffer p) (Z.of_nat n);
    mret (ret, mkNetParser b (_error p)).

Definition p_u32 (p : NetParser) : outcome (Z * NetParser) := _parse_int 4 p.
Definition p_u16 (p : NetParser) : outcome (Z * NetParser) := _parse_int 2 p.
Definition p_u8 (p : NetParser) : outcome (Z * NetParser) := _parse_int 1 p.

Definition p_remove_prefix (p : NetParser) (n : Z) : outcome NetParser :=
  let p := _check_size p n in
  if error p then mret p
  else b ← Buffer.remove_prefix (_buffer p) n; mret (mkNetParser b (_error p)).

(** The bytes [_unparse_int<T>] pushes back for a [T] of [n] bytes, most
    significant first. *)
Fixpoint unparse_bytes (n : nat) (val : Z) : list byte :=
  match n with
  | O => []
  | S m => byte.of_Z (Z.land (Z.shiftr val (Z.of_nat m * 8)) 255) :: unparse_bytes m val
  end.

Definition _unparse_int (n : nat) (s : list byte) (val : Z) : list byte := s ++ unparse_bytes n val.

Definition unparse_u32 (s : list byte) (val : Z) : list byte := _unparse_int 4 s val.
Definition unparse_u16 (s : list byte) (val : Z) : list byte := _unparse_int 2 s val.
Definition unparse_u8 (s : list byte) (val : Z) : list byte := _unparse_int 1 s val.

(** ** Big-endian values: the reference definition *)

Definition be_value (bs : list byte) : Z := foldl (fun acc b => acc * 256 + byte.unsigned b) 0 bs.

Lemma be_value_snoc bs b : be_value (bs ++ [b]) = be_value bs * 256 + byte.unsigned b.
Proof. unfold be_value. by rewrite foldl_snoc. Qed.

Lemma be_value_bounds bs : 0 <= be_value bs < 2 ^ (8 * len bs).
Proof.
  induction bs as [|b bs IH] using rev_ind; [by compute|].
  rewrite be_value_snoc, length_app, Nat2Z.inj_add. cbn [length].
  replace (8 * (len bs + Z.of_nat 1)) with (8 * len bs + 8) by lia.
  rewrite Z.pow_add_r by lia. pose proof (byte.unsigned_range b). nia.
Qed.

Lemma len_unparse n v : len (unparse_bytes n v) = Z.of_nat n.
Proof. induction n as [|n IH]; [done|]. cbn [unparse_bytes length]. lia. Qed.

Lemma be_value_acc bs acc :
  foldl (fun acc b => acc * 256 + byte.unsigned b) acc bs = acc * 2 ^ (8 * len bs) + be_value bs.
Proof.
  revert acc. induction bs as [|b bs IH] using rev_ind; intros acc.
  - unfold be_value. simpl. lia.
  - rewrite foldl_snoc, IH, be_value_snoc, length_app, Nat2Z.inj_add. cbn [length].
    replace (8 * (len bs + Z.of_nat 1)) with (8 * len bs + 8) by lia.
    rewrite Z.pow_add_r by lia. lia.
Qed.

Lemma be_value_cons b bs : be_value (b :: bs) = byte.unsigned b * 2 ^ (8 * len bs) + be_value bs.
Proof. unfold be_value at 1. cbn [foldl]. by rewrite be_value_acc. Qed.

Lemma be_value_unparse n v : be_value (unparse_bytes n v) = v mod 2 ^ (8 * Z.of_nat n).
Proof.
  induction n as [|n IH]; [simpl; by rewrite Z.mod_1_r|].
  cbn [unparse_bytes]. rewrite be_value_cons, len_unparse, IH, byte.unsigned_of_Z.
  change 255 with (Z.ones 8). rewrite Z.land_ones, Z.shiftr_div_pow2 by lia.
  unfold byte.wrap. rewrite Z.mod_mod by lia.
  replace (Z.of_nat n * 8) with (8 * Z.of_nat n) by lia.
  replace (8 * Z.of_nat (S n)) with (8 * Z.of_nat n + 8) by lia.
  assert (0 < 2 ^ (8 * Z.of_nat n)) by (apply Z.pow_pos_nonneg; lia).
  rewrite (Z.pow_add_r 2 (8 * Z.of_nat n) 8), Z.rem_mul_r by lia. lia.
Qed.

(** ** What the parser returns *)

Lemma parse_int_loop_eq bits b fuel : forall i ret,
  0 <= i -> i + Z.of_nat fuel <= len (str b) -> 8 * Z.of_nat fuel <= bits ->
  0 <= ret < 2 ^ (bits - 8 * Z.of_nat fuel) ->
  parse_int_loop bits b i fuel ret =
    Ok (foldl (fun acc c => acc * 256 + byte.unsigned c) ret (take fuel (zdrop i (str b)))).
Proof.
  induction fuel as [|fuel IH]; intros i ret Hi Hl Hb Hr; cbn [parse_int_loop]; [done|].
  destruct (lookup_lt_is_Some_2 (str b) (Z.to_nat i)) as [c Hc]; [lia|].
  rewrite (at_ok _ _ c) by done. cbn [mbind outcome_bind].
  unfold zdrop. rewrite (drop_S _ c _ Hc). cbn [take foldl].
  pose proof (byte.unsigned_range c).
  assert (E : 2 ^ (bits - 8 * Z.of_nat fuel) = 2 ^ (bits - 8 * Z.of_nat (S fuel)) * 256).
  { replace (bits - 8 * Z.of_nat fuel) with (bits - 8 * Z.of_nat (S fuel) + 8) by lia.
    by rewrite Z.pow_add_r by lia. }
  assert (2 ^ (bits - 8 * Z.of_nat fuel) <= 2 ^ bits) by (apply Z.pow_le_mono_r; lia).
  rewrite Z.shiftl_mul_pow2, (Z.mod_small (ret * 2 ^ 8)), (Z.mod_small (_ + _)) by lia.
  rewrite IH by lia. unfold zdrop. by replace (Z.to_nat (i + 1)) with (S (Z.to_nat i)) by lia.
Qed.

(** A parser without an error whose unread bytes are [s]. *)
Record parses (p : NetParser) (s : list byte) : Prop := {
  parses_ok : buffer_ok (_buffer p);
  parses_str : str (_buffer p) = s;
  parses_error : _error p = NoError
}.

Lemma parses_no_error p s : parses p s -> error p = false.
Proof. intros [_ _ E]. unfold error, get_error. rewrite E. by vm_compute. Qed.

Lemma check_size_fits p s n : parses p s -> n <= len s -> _check_size p n = p.
Proof.
  intros [_ <- _] Hn. unfold _check_size, Buffer.size. case_bool; [lia|done].
Qed.

(** Enough bytes: the value is the big-endian value of the next [n] bytes. *)
Lemma parse_int_ok n p s :
  parses p s -> Z.of_nat n <= len s ->
  exists p', _parse_int n p = Ok (be_value (take n s), p') /\ parses p' (drop n s).
Proof.
  intros Hp Hn. unfold _parse_int. rewrite (check_size_fits _ _ _ Hp) by done.
  rewrite (parses_no_error _ _ Hp). destruct Hp as [Hok <- He].
  rewrite parse_int_loop_eq by (try lia; rewrite Z.sub_diag; lia). cbn [mbind outcome_bind].
  destruct (remove_prefix_ok (_buffer p) (Z.of_nat n) Hok) as (b & -> & Hb & Es); [lia|].
  cbn [mbind outcome_bind]. eexists. split; [reflexivity|].
  constructor; [done| |done]. simpl. rewrite Es. unfold zdrop. by rewrite Nat2Z.id.
Qed.

(** Too few bytes: the value is 0, the error is [PacketTooShort], nothing is
    consumed. *)
Lemma parse_int_short n p :
  Buffer.size (_buffer p) < Z.of_nat n ->
  _parse_int n p = Ok (0, mkNetParser (_buffer p) PacketTooShort).
Proof.
  intros. unfold _parse_int.
  assert (_check_size p (Z.of_nat n) = set_error p PacketTooShort) as ->; [|done].
  unfold _check_size. case_bool; [done|lia].
Qed.

(** Once an error is set every further read returns 0, consumes nothing and
    leaves an error set. *)
Lemma parse_int_error n p :
  error p = true ->
  exists p', _parse_int n p = Ok (0, p') /\ error p' = true /\ _buffer p' = _buffer p.
Proof.
  intros He. unfold _parse_int.
  assert (error (_check_size p (Z.of_nat n)) = true /\
          _buffer (_check_size p (Z.of_nat n)) = _buffer p) as [He' Hb].
  { unfold _check_size. by case_bool. }
  rewrite He'. by eexists.
Qed.

Lemma remove_prefix_parses p s n :
  parses p s -> 0 <= n <= len s ->
  exists p', p_remove_prefix p n = Ok p' /\ parses p' (zdrop n s).
Proof.
  intros Hp Hn. unfold p_remove_prefix. rewrite (check_size_fits _ _ _ Hp) by lia.
  rewrite (parses_no_error _ _ Hp). destruct Hp as [Hok <- He].
  destruct (remove_prefix_ok (_buffer p) n Hok) as (b & -> & Hb & Es); [lia|].
  cbn [mbind outcome_bind]. eexists. by split; [reflexivity|].
Qed.

(** The bytes of an unparsed integer, followed by anything, parse to it. *)
Lemma parse_unparsed n v p rest :
  parses p (unparse_bytes n v ++ rest) -> 0 <= v < 2 ^ (8 * Z.of_nat n) ->
  exists p', _parse_int n p = Ok (v, p') /\ parses p' rest.
Proof.
  intros Hp Hv. pose proof (len_unparse n v).
  destruct (parse_int_ok n p _ Hp) as (p' & -> & Hp'); [rewrite length_app; lia|].
  rewrite take_app_length' in * by lia. rewrite drop_app_length' in * by lia.
  exists p'. split; [|done]. by rewrite be_value_unparse, Z.mod_small.
Qed.

(** Read one integer that was unparsed at the front of the input. *)
Ltac parse_field :=
  match goal with
  | Hp : parses ?p (unparse_bytes ?n ?v ++ ?rest) |- context [_parse_int ?n ?p] =>
      let p' := fresh "p" in let Hp' := fresh "Hp" in
      destruct (parse_unparsed n v p rest Hp) as (p' & -> & Hp');
      [first [assumption | simpl; lia] | cbn [mbind outcome_bind]; clear Hp]
  end.

(** The parser's state after a read, whatever the input: consumed bytes or an
    error, never an exception. *)
Lemma parse_int_total n p :
  buffer_ok (_buffer p) ->
  exists v p', _parse_int n p = Ok (v, p') /\ buffer_ok (_buffer p') /\
    0 <= v < 2 ^ (8 * Z.of_nat n) /\
    ((error p = true -> error p' = true) /\
     (error p' = false -> Z.of_nat n <= len (str (_buffer p)) /\
        len (str (_buffer p')) = len (str (_buffer p)) - Z.of_nat n)).
Proof.
  intros Hb. assert (0 < 2 ^ (8 * Z.of_nat n)) by (apply Z.pow_pos_nonneg; lia).
  destruct (error p) eqn:He.
  - destruct (parse_int_error n p He) as (p' & -> & He' & Hb'). exists 0, p'.
    rewrite He', Hb'. by split_and!.
  - assert (parses p (str (_buffer p))) as Hp.
    { constructor; [done..|]. unfold error, get_error in He. apply bool_decide_eq_false in He.
      by apply dec_stable. }
    destruct (decide (Z.of_nat n <= len (str (_buffer p)))) as [Hn|Hn].
    + destruct (parse_int_ok n p _ Hp Hn) as (p' & -> & Hp'). exists (be_value (take n (str (_buffer p)))), p'.
      rewrite (parses_no_error _ _ Hp'), (parses_str _ _ Hp'), length_drop.
      pose proof (be_value_bounds (take n (str (_buffer p)))) as Hv.
      rewrite length_take, Nat.min_l in Hv by lia.
      split; [done|]. split; [apply Hp'|]. split; [done|]. split; [done|]. lia.
    + rewrite parse_int_short by (unfold Buffer.size; lia). eexists _, _. split; [done|].
      by split_and!.
Qed.

Lemma p_remove_prefix_total p n :
  buffer_ok (_buffer p) -> 0 <= n ->
  exists p', p_remove_prefix p n = Ok p' /\ buffer_ok (_buffer p') /\
    (error p = true -> error p' = true) /\
    (error p' = false -> n <= len (str (_buffer p)) /\
       str (_buffer p') = zdrop n (str (_buffer p))).
Proof.
  intros Hb Hn. unfold p_remove_prefix, _check_size, Buffer.size.
  destruct (Z.gtb_spec n (len (str (_buffer p)))) as [Hs|Hs].
  - eexists. split; [reflexivity|]. by split_and!.
  - destruct (error p) eqn:He; [exists p; rewrite He; by split_and!|].
    destruct (remove_prefix_ok (_buffer p) n Hb) as (b & -> & Hb' & Es); [lia|].
    cbn [mbind outcome_bind]. eexists. split; [reflexivity|]. split; [done|]. split; [done|].
    intros _. by split; [lia|].
Qed.

(** The only error a parser comes to by itself is [PacketTooShort]. *)
Definition short_or_fine (p : NetParser) : Prop := _error p = NoError \/ _error p = PacketTooShort.

Lemma short_or_fine_error p : short_or_fine p -> error p = true -> get_error p = PacketTooShort.
Proof.
  unfold error, get_error. intros [->| ->] He; [|done]. by vm_compute in He.
Qed.

Lemma check_size_short_or_fine p n : short_or_fine p -> short_or_fine (_check_size p n).
Proof. intros Hp. unfold _check_size. case_bool; [by right|done]. Qed.

Lemma parse_int_short_or_fine n p v p' :
  short_or_fine p -> _parse_int n p = Ok (v, p') -> short_or_fine p'.
Proof.
  intros Hp E. unfold _parse_int in E. apply (check_size_short_or_fine _ (Z.of_nat n)) in Hp.
  destruct (error _); [injection E as _ <-; exact Hp|].
  apply outcome_bind_ok in E as (? & _ & E). apply outcome_bind_ok in E as (? & _ & E).
  injection E as _ <-. exact Hp.
Qed.

Lemma p_remove_prefix_short_or_fine n p p' :
  short_or_fine p -> p_remove_prefix p n = Ok p' -> short_or_fine p'.
Proof.
  intros Hp E. unfold p_remove_prefix in E. apply (check_size_short_or_fine _ n) in Hp.
  destruct (error _); [injection E as <-; exact Hp|].
  apply outcome_bind_ok in E as (? & _ & E). injection E as <-. exact Hp.
Qed.

(** Run the next integer read of a parser about which only [buffer_ok] is known. *)
Ltac total_field :=
  match goal with
  | Hb : buffer_ok (_buffer ?p) |- context [_parse_int ?n ?p] =>
      let v := fresh "v" in let p' := fresh "p" in let H1 := fresh "Hb" in
      let H2 := fresh "He" in let H3 := fresh "Hs" in let H4 := fresh "Hv" in
      destruct (parse_int_total n p Hb) as (v & p' & -> & H1 & H4 & H2 & H3);
      cbn [mbind outcome_bind]
  end.

(** ** Properties *)

(** Integer round trip: for 1-, 2- and 4-byte integers (and any width),
    what [NetUnparser] writes, [NetParser] reads back, and exactly these bytes
    are consumed. *)
Theorem parser_roundtrip n v rest :
  0 <= v < 2 ^ (8 * Z.of_nat n) -> len rest + Z.of_nat n < 2 ^ 63 ->
  exists p', _parse_int n (NetParser_of (Buffer_of (_unparse_int n [] v ++ rest))) = Ok (v, p') /\
    str (_buffer p') = rest /\ get_error p' = NoError.
Proof.
  intros Hv Hl. destruct (parse_unparsed n v (NetParser_of (Buffer_of (_unparse_int n [] v ++ rest))) rest)
    as (p' & E & [_ Hs He]); [|done|by exists p'].
  constructor; [|done..]. apply Buffer_of_ok. unfold _unparse_int. simpl.
  pose proof (len_unparse n v). rewrite length_app. lia.
Qed.

Lemma parser_roundtrip_witness :
  exists p', _parse_int 2 (NetParser_of (Buffer_of (_unparse_int 2 [] 4660 ++ [Byte.x07]))) =
      Ok (4660, p') /\ str (_buffer p') = [Byte.x07] /\ get_error p' = NoError.
Proof. apply (parser_roundtrip 2 4660 [Byte.x07]); simpl; lia. Defined.

(** [as_string] has a name for every result but [Unsupported], for which it
    reads past the end of the table of names. *)
Theorem as_string_total_but_unsupported r :
  as_string r = UB <-> r = Unsupported.
Proof. by destruct r. Qed.
