(* ===== verification/InternetChecksum.v ===== *)
(** * The Internet checksum

    Model of [InternetChecksum] of [libsponge/util/util.hh] and [util.cc]: a
    32-bit running sum of big-endian 16-bit words with the parity of the bytes
    seen, folded to 16 bits and complemented. *)

From S2P Require Import Prelude Buffer Parser.

Record InternetChecksum := mkChecksum { _sum : Z; _parity : bool }.

Definition new (initial_sum : Z) : InternetChecksum := mkChecksum initial_sum false.

(** The body of the loop of [add], for one byte. *)
Definition add_byte (c : InternetChecksum) (b : byte) : InternetChecksum :=
  let val := byte.unsigned b in
  let val := if negb (_parity c) then u16 (Z.shiftl val 8) else val in
  mkChecksum (u32 (_sum c + val)) (negb (_parity c)).

Definition add (c : InternetChecksum) (data : list byte) : InternetChecksum :=
  foldl add_byte c data.

(** [while (ret > 0xffff) ret = (ret >> 16) + (ret & 0xffff)] *)
Fixpoint fold_loop (fuel : nat) (ret : Z) : Z :=
  if ret >? 65535 then
    match fuel with
    | O => ret
    | S fuel => fold_loop fuel (u32 (Z.shiftr ret 16 + Z.land ret 65535))
    end
  else ret.

(** Two iterations always suffice for a 32-bit sum ([fold_loop_stops]). *)
Definition value (c : InternetChecksum) : Z := u16 (Z.lnot (fold_loop 2 (_sum c))).

(** ** The mathematical sum of 16-bit words *)

Fixpoint wsum (odd : bool) (bs : list byte) : Z :=
  match bs with
  | [] => 0
  | b :: bs => (if odd then byte.unsigned b else 256 * byte.unsigned b) + wsum (negb odd) bs
  end.

Fixpoint parity_after (odd : bool) (bs : list byte) : bool :=
  match bs with
  | [] => odd
  | _ :: bs => parity_after (negb odd) bs
  end.

Lemma add_byte_eq c b :
  add_byte c b = mkChecksum (u32 (_sum c + (if _parity c then byte.unsigned b else 256 * byte.unsigned b)))
    (negb (_parity c)).
Proof.
  unfold add_byte. pose proof (byte.unsigned_range b). destruct (_parity c); simpl; [done|].
  rewrite Z.shiftl_mul_pow2, u16_small by lia. do 3 f_equal. lia.
Qed.

Lemma add_eq data : forall c,
  0 <= _sum c < 2 ^ 32 ->
  add c data = mkChecksum (u32 (_sum c + wsum (_parity c) data)) (parity_after (_parity c) data).
Proof.
  induction data as [|b data IH]; intros [sm pr] Hs; simpl in Hs.
  - unfold add; simpl. by rewrite Z.add_0_r, u32_small.
  - unfold add in *. cbn [foldl]. rewrite IH, add_byte_eq by (rewrite add_byte_eq; apply u32_range).
    simpl. unfold u32. rewrite Zplus_mod_idemp_l. do 2 f_equal. lia.
Qed.

Lemma wsum_app odd xs ys : wsum odd (xs ++ ys) = wsum odd xs + wsum (parity_after odd xs) ys.
Proof. revert odd. induction xs as [|x xs IH]; intros odd; simpl; [done|]. rewrite IH. lia. Qed.

Lemma parity_after_app odd xs ys :
  parity_after odd (xs ++ ys) = parity_after (parity_after odd xs) ys.
Proof. revert odd. induction xs as [|x xs IH]; intros odd; simpl; [done|]. apply IH. Qed.

Lemma parity_after_even odd xs : Nat.even (length xs) = true -> parity_after odd xs = odd.
Proof.
  revert odd. induction xs as [xs IH] using (induction_ltof1 _ (@length byte)); unfold ltof in IH.
  intros odd. destruct xs as [|x [|y xs]]; simpl; [done..|].
  intros E. rewrite negb_involutive. apply IH; [simpl; lia|done].
Qed.

Lemma wsum_bounds odd bs : 0 <= wsum odd bs <= 65280 * len bs.
Proof.
  revert odd. induction bs as [|b bs IH]; intros odd; simpl; [lia|].
  pose proof (byte.unsigned_range b). specialize (IH (negb odd)). destruct odd; lia.
Qed.

Lemma wsum_unparse16 v : 0 <= v < 2 ^ 16 -> wsum false (unparse_bytes 2 v) = v.
Proof.
  intros Hv. rewrite <- (Z.mod_small v (2 ^ (8 * Z.of_nat 2))) at 2 by (simpl; lia).
  rewrite <- be_value_unparse. unfold be_value. simpl. lia.
Qed.

(** ** Folding *)

(** One folding step keeps the residue modulo 65535. *)
Lemma fold_step ret :
  0 <= ret < 2 ^ 32 ->
  u32 (Z.shiftr ret 16 + Z.land ret 65535) = ret / 65536 + ret mod 65536.
Proof.
  intros H. rewrite Z.shiftr_div_pow2 by lia. change 65535 with (Z.ones 16).
  rewrite Z.land_ones by lia. change (2 ^ 16) with 65536. rewrite u32_small; [done|].
  Z.to_euclidean_division_equations. lia.
Qed.

(** The C++ loop leaves after at most two iterations. *)
Lemma fold_loop_stops ret : 0 <= ret < 2 ^ 32 -> 0 <= fold_loop 2 ret <= 65535.
Proof.
  intros H. cbn [fold_loop]. case_bool; [|lia]. rewrite fold_step by done.
  set (r1 := ret / 65536 + ret mod 65536).
  assert (0 <= r1 < 131071) by (subst r1; Z.to_euclidean_division_equations; lia).
  case_bool; [|lia]. rewrite fold_step by lia.
  set (r2 := r1 / 65536 + r1 mod 65536).
  assert (0 <= r2 <= 65535) by (subst r2; Z.to_euclidean_division_equations; lia).
  case_bool; lia.
Qed.

Lemma fold_loop_mod fuel : forall ret,
  0 <= ret < 2 ^ 32 -> fold_loop fuel ret mod 65535 = ret mod 65535 /\ (fold_loop fuel ret = 0 -> ret = 0).
Proof.
  induction fuel as [|fuel IH]; intros ret H; cbn [fold_loop]; case_bool; try done.
  rewrite fold_step by done. set (r1 := ret / 65536 + ret mod 65536).
  assert (Hr : 0 < r1 < 2 ^ 32 /\ ret = r1 + 65535 * (ret / 65536))
    by (subst r1; Z.to_euclidean_division_equations; lia).
  destruct (IH r1) as [E E0]; [lia|]. split; [|lia].
  rewrite E. destruct Hr as [_ Hr]. rewrite Hr at 1.
  by rewrite (Z.mul_comm 65535), Z_mod_plus_full.
Qed.

Lemma value_eq sm pr :
  0 <= sm < 2 ^ 32 -> value (mkChecksum sm pr) = 65535 - fold_loop 2 sm.
Proof.
  intros H. unfold value. simpl _sum. pose proof (fold_loop_stops sm H).
  unfold Z.lnot, u16. rewrite <- (Z.mod_small (65535 - fold_loop 2 sm) (2 ^ 16)) by lia.
  replace (Z.pred (- fold_loop 2 sm)) with (65535 - fold_loop 2 sm + (-1) * 2 ^ 16) by lia.
  by rewrite Z_mod_plus_full.
Qed.

(** [value() == 0] says that the sum is a positive multiple of 65535. *)
Lemma value_zero sm pr :
  0 <= sm < 2 ^ 32 -> value (mkChecksum sm pr) = 0 <-> 0 < sm /\ sm mod 65535 = 0.
Proof.
  intros H. rewrite value_eq by done. pose proof (fold_loop_stops sm H).
  destruct (fold_loop_mod 2 sm H) as [E E0]. split.
  - intros E1. replace (fold_loop 2 sm) with 65535 in E by lia. split; [|done].
    destruct (decide (sm = 0)) as [->|]; [|lia]. by vm_compute in E1.
  - intros [Hp Hm]. rewrite Hm in E.
    destruct (decide (fold_loop 2 sm = 65535)); [lia|].
    rewrite Z.mod_small in E by lia. lia.
Qed.

(** Adding the checksum itself makes the sum vanish. *)
Lemma value_cancels sm pr pr' :
  0 <= sm -> sm + 65535 < 2 ^ 32 ->
  value (mkChecksum (sm + value (mkChecksum sm pr)) pr') = 0.
Proof.
  intros H0 H1. rewrite (value_eq sm) by lia. pose proof (fold_loop_stops sm ltac:(lia)).
  destruct (fold_loop_mod 2 sm ltac:(lia)) as [E E0]. apply value_zero; [lia|].
  split; [destruct (decide (sm = 0)) as [->|]; [done|lia]|]. replace (sm + (65535 - fold_loop 2 sm)) with (sm - fold_loop 2 sm + 1 * 65535) by lia.
  rewrite Z_mod_plus_full. rewrite Zminus_mod, E, Z.sub_diag. done.
Qed.

(** A message carries a correct checksum when the 16-bit field, at an even
    offset, holds the checksum computed with the field zero: then the receiver's
    [value()] is 0, whatever initial sum (pseudo-header) both sides use. *)
Lemma checksum_field_verifies initial pre post :
  Nat.even (length pre) = true -> 0 <= initial ->
  initial + 65280 * (len pre + 2 + len post) + 65535 < 2 ^ 32 ->
  let c := value (add (new initial) (pre ++ unparse_bytes 2 0 ++ post)) in
  0 <= c < 2 ^ 16 /\
  value (add (new initial) (pre ++ unparse_bytes 2 c ++ post)) = 0.
Proof.
  intros He Hi Hb c. assert (Hc : 0 <= c < 2 ^ 16) by apply u16_range. split; [done|].
  assert (Hw : forall v, 0 <= v < 2 ^ 16 ->
    add (new initial) (pre ++ unparse_bytes 2 v ++ post) =
      mkChecksum (initial + (wsum false pre + wsum false post) + v)
        (parity_after false post)).
  { intros v Hv. rewrite add_eq by (simpl; lia). cbn [_sum _parity new].
    rewrite !wsum_app, !parity_after_app, parity_after_even by done.
    rewrite wsum_unparse16 by done. cbn [parity_after unparse_bytes negb].
    pose proof (wsum_bounds false pre). pose proof (wsum_bounds false post).
    rewrite u32_small by lia. f_equal. lia. }
  pose proof (wsum_bounds false pre). pose proof (wsum_bounds false post).
  rewrite (Hw c Hc). unfold c. rewrite (Hw 0) by lia. rewrite Z.add_0_r.
  apply value_cancels; lia.
Qed.

(** Error detection: if a message verifies, then the same message with any one
    byte changed, at any position, does not. *)
Lemma changed_byte_detected initial pre b b' post :
  0 <= initial -> initial + 65280 * (len pre + 1 + len post) < 2 ^ 32 -> b <> b' ->
  value (add (new initial) (pre ++ [b] ++ post)) = 0 ->
  value (add (new initial) (pre ++ [b'] ++ post)) <> 0.
Proof.
  intros Hi Hb Hne.
  assert (Hs : forall c, exists sm pr,
    add (new initial) (pre ++ [c] ++ post) = mkChecksum sm pr /\ 0 <= sm < 2 ^ 32 /\
    sm = initial + wsum false pre + wsum (negb (parity_after false pre)) post +
      (if parity_after false pre then byte.unsigned c else 256 * byte.unsigned c)).
  { intros c. rewrite add_eq by (simpl; lia). cbn [_sum _parity new].
    pose proof (wsum_bounds false (pre ++ [c] ++ post)) as Hw.
    rewrite !length_app in Hw. cbn [length] in Hw. rewrite u32_small by lia.
    eexists _, _. split; [reflexivity|]. split; [lia|]. rewrite !wsum_app. simpl. lia. }
  destruct (Hs b) as (s1 & p1 & -> & H1 & E1). destruct (Hs b') as (s2 & p2 & -> & H2 & E2).
  rewrite !value_zero by done. intros [_ M1] [_ M2].
  assert ((s1 - s2) mod 65535 = 0) as M by (by rewrite Zminus_mod, M1, M2).
  apply Z.mod_divide in M as [q Hq]; [|lia].
  pose proof (byte.unsigned_range b). pose proof (byte.unsigned_range b').
  apply Hne, byte.unsigned_inj. destruct (parity_after false pre); lia.
Qed.
