(* ===== verification/Address.v ===== *)
(** * Socket addresses

    Model of [libsponge/util/address.hh] and [.cc]: a [sockaddr_storage] of 128
    bytes and the length of the address in it.  The C library's name service is
    a parameter; [numeric_resolver] is one that knows numeric names only. *)

From S2P Require Import Prelude Buffer Parser.
From stdpp Require Import pretty.
From Stdlib Require Import Ascii.
#[local] Open Scope string_scope.
#[local] Open Scope Z_scope.

(** ** What the class uses of the C and C++ libraries *)

Definition AF_INET : Z := 2.
Definition AI_NUMERICHOST : Z := 4.
Definition AI_NUMERICSERV : Z := 1024.
Definition AI_ALL : Z := 16.
Definition sizeof_sockaddr_storage : Z := 128.
Definition sizeof_sockaddr_in : Z := 16.

(** A [sockaddr_in] in memory: the family in host order, port and address in
    network order, and eight zero bytes. *)
Definition sockaddr_in (ip port : Z) : list byte :=
  [Byte.x02; Byte.x00] ++ unparse_bytes 2 port ++ unparse_bytes 4 ip ++ replicate 8 Byte.x00.

(** [getaddrinfo] returns an error code or the addresses of the result list,
    [getnameinfo] (with [NI_NUMERICHOST | NI_NUMERICSERV]) an error code or host
    and service; [inet_ntoa] takes the four bytes of an [in_addr]. *)
Class Resolver := {
  getaddrinfo : string -> string -> Z -> Z -> Z + list (list byte);
  getnameinfo : list byte -> Z -> Z + string * string;
  inet_ntoa : list byte -> string
}.

(** [std::to_string] of an unsigned number *)
Definition to_dec (n : Z) : string := pretty (Z.to_N n).

Definition digit (c : ascii) : option Z :=
  let n := Z.of_N (Ascii.N_of_ascii c) in
  if (48 <=? n) && (n <=? 57) then Some (n - 48) else None.

Definition is_space (c : ascii) : bool :=
  let n := Z.of_N (Ascii.N_of_ascii c) in (n =? 32) || ((9 <=? n) && (n <=? 13)).

Fixpoint digits (s : string) (acc : Z) : Z :=
  match s with
  | String c s' => match digit c with Some d => digits s' (acc * 10 + d) | None => acc end
  | EmptyString => acc
  end.

Fixpoint skip_spaces (s : string) : string :=
  match s with
  | String c s' => if is_space c then skip_spaces s' else s
  | EmptyString => s
  end.

(** [std::stoi]: white space, a sign, and as many digits as there are. *)
Definition stoi (s : string) : outcome Z :=
  let s := skip_spaces s in
  let '(sign, s) := match s with
                    | String "-" s' => (-1, s')
                    | String "+" s' => (1, s')
                    | _ => (1, s)
                    end in
  match s with
  | String c _ =>
      match digit c with
      | Some _ =>
          let n := sign * digits s 0 in
          if (- 2 ^ 31 <=? n) && (n <? 2 ^ 31) then Ok n else Throw (out_of_range "stoi")
      | None => Throw (invalid_argument "stoi")
      end
  | EmptyString => Throw (invalid_argument "stoi")
  end.

(** ** The class *)

Record Address := mkAddress { _size : Z; _address : list byte }.

#[global] Instance Address_eq_dec : EqDecision Address.
Proof. solve_decision. Defined.

(** [Address(const sockaddr *, size_t)]: reading past [addr] is undefined. *)
Definition of_sockaddr (addr : list byte) (size : Z) : outcome Address :=
  if size >? sizeof_sockaddr_storage then Throw (runtime_error "invalid sockaddr size")
  else if len addr <? size then UB
  else mret (mkAddress size (resize (Z.to_nat sizeof_sockaddr_storage) Byte.x00 (ztake size addr))).

(** The family is read in host order, here little-endian. *)
Definition ss_family (a : Address) : Z := be_value (reverse (take 2 (_address a))).

Definition ipv4_numeric (a : Address) : outcome Z :=
  if negb (ss_family a =? AF_INET) || negb (_size a =? sizeof_sockaddr_in) then
    Throw (runtime_error "ipv4_numeric called on non-IPV4 address")
  else mret (be_value (take 4 (drop 4 (_address a)))).

Definition from_ipv4_numeric (ip_address : Z) : outcome Address :=
  of_sockaddr (sockaddr_in ip_address 0) sizeof_sockaddr_in.

(** [operator==]: [memcmp] of the first [_size] bytes *)
Definition address_eqb (a b : Address) : bool :=
  if negb (_size a =? _size b) then false
  else bool_decide (ztake (_size a) (_address a) = ztake (_size a) (_address b)).

Section code.
  Context `{Resolver}.

Definition resolve (node service : string) (ai_flags ai_family : Z) : outcome Address :=
  match getaddrinfo node service ai_flags ai_family with
  | inl gai_ret => Throw (tagged_error ("getaddrinfo(" +:+ node +:+ ", " +:+ service +:+ ")") gai_ret)
  | inr [] => Throw (runtime_error "getaddrinfo returned successfully but with no results")
  | inr (ai_addr :: _) => of_sockaddr ai_addr (len ai_addr)
  end.

(** [Address(hostname, service)] and [Address(ip, port)] *)
Definition of_names (hostname service : string) : outcome Address :=
  resolve hostname service AI_ALL AF_INET.

Definition of_ip_port (ip : string) (port : Z) : outcome Address :=
  resolve ip (to_dec port) (Z.lor AI_NUMERICHOST AI_NUMERICSERV) AF_INET.

Definition ip_port (a : Address) : outcome (string * Z) :=
  match getnameinfo (_address a) (_size a) with
  | inl gni_ret => Throw (tagged_error "getnameinfo" gni_ret)
  | inr (ip, port) => n ← stoi port; mret (ip, u16 n)
  end.

Definition ip (a : Address) : outcome string := p ← ip_port a; mret (fst p).
Definition port (a : Address) : outcome Z := p ← ip_port a; mret (snd p).

Definition to_string (a : Address) : outcome string :=
  '(ip, port) ← ip_port a; mret (ip +:+ ":" +:+ to_dec port).
End code.

(** Whatever the storage holds and the name service answers, naming an address
    returns or throws. *)
Lemma stoi_defined s : stoi s <> UB.
Proof.
  unfold stoi. destruct (match skip_spaces s with String _ _ => _ | EmptyString => _ end) as [sign [|c s']]; [done|].
  destruct (digit c); [|done]. by destruct (_ && _).
Qed.

Lemma to_string_defined `{Resolver} a : to_string a <> UB.
Proof.
  unfold to_string, ip_port. destruct (getnameinfo _ _) as [e|[ip port]]; [done|].
  pose proof (stoi_defined port). by destruct (stoi port).
Qed.

(** ** What the name service promises about numeric names *)

(** The storage of an [Address] that holds a [sockaddr_in] *)
Definition ipv4_address (ip port : Z) : Address :=
  mkAddress sizeof_sockaddr_in (sockaddr_in ip port ++ replicate 112 Byte.x00).

Class ResolverOk (R : Resolver) := {
  getnameinfo_numeric ip port : 0 <= ip < 2 ^ 32 -> 0 <= port < 2 ^ 16 ->
    exists host, getnameinfo (_address (ipv4_address ip port)) sizeof_sockaddr_in =
      inr (host, to_dec port);
  getaddrinfo_numeric ip port : 0 <= ip < 2 ^ 32 -> 0 <= port < 2 ^ 16 ->
    exists rest, getaddrinfo (inet_ntoa (unparse_bytes 4 ip)) (to_dec port)
      (Z.lor AI_NUMERICHOST AI_NUMERICSERV) AF_INET = inr (sockaddr_in ip port :: rest)
}.

(** ** Decimal numbers *)

(** The ten digits, one by one. *)
Ltac ten_digits d :=
  let H := fresh in
  assert (d = 0 \/ d = 1 \/ d = 2 \/ d = 3 \/ d = 4 \/ d = 5 \/ d = 6 \/ d = 7 \/ d = 8 \/ d = 9)%N
    as H by lia;
  repeat destruct H as [H|H]; subst d.

Lemma digit_char d : (d < 10)%N -> digit (pretty_N_char d) = Some (Z.of_N d).
Proof. intros Hd. by ten_digits d. Qed.

Lemma digits_go n : forall s, digits (pretty_N_go n s) 0 = digits s (Z.of_N n).
Proof.
  induction (N.lt_wf_0 n) as [n _ IH]. intros s.
  destruct (decide (n = 0%N)) as [->|Hn]; [by rewrite pretty_N_go_0|].
  rewrite pretty_N_go_step by lia. rewrite IH by (apply N.div_lt; lia). cbn [digits].
  rewrite digit_char by (apply N.mod_lt; lia). f_equal.
  rewrite N2Z.inj_div, N2Z.inj_mod. pose proof (Z.div_mod (Z.of_N n) 10). lia.
Qed.

Lemma digits_to_dec n : 0 <= n -> digits (to_dec n) 0 = n.
Proof.
  intros Hn. unfold to_dec, pretty, pretty_N. case_decide as E.
  - assert (n = 0) as -> by lia. done.
  - rewrite digits_go. simpl. lia.
Qed.

(** A decimal number starts with a digit. *)
Lemma go_head n : forall s, (0 < n)%N ->
  exists d s', pretty_N_go n s = String (pretty_N_char d) s' /\ (d < 10)%N.
Proof.
  induction (N.lt_wf_0 n) as [n _ IH]. intros s Hn. rewrite pretty_N_go_step by done.
  destruct (decide (n / 10 = 0)%N) as [->|Hq].
  - rewrite pretty_N_go_0. eexists _, _. split; [done|]. apply N.mod_lt. lia.
  - apply IH; [by apply N.div_lt|]. generalize dependent (n / 10)%N. lia.
Qed.

Lemma stoi_to_dec n : 0 <= n < 2 ^ 31 -> stoi (to_dec n) = Ok n.
Proof.
  intros Hn. assert (Hd : exists d s', to_dec n = String (pretty_N_char d) s' /\ (d < 10)%N).
  { unfold to_dec, pretty, pretty_N. case_decide; [by exists 0%N, ""|]. apply go_head. lia. }
  destruct Hd as (d & s' & E & Hd). pose proof (digits_to_dec n ltac:(lia)) as Hv.
  unfold stoi. rewrite E in *.
  assert (skip_spaces (String (pretty_N_char d) s') = String (pretty_N_char d) s') as ->
    by by ten_digits d.
  replace (match String (pretty_N_char d) s' with
           | String "-" s' => (-1, s') | String "+" s' => (1, s') | _ => (1, String (pretty_N_char d) s')
           end) with (1, String (pretty_N_char d) s') by by ten_digits d.
  rewrite digit_char, Hv, Z.mul_1_l by done. case_cmp. done.
Qed.

(** ** Addresses of IPv4 endpoints *)

Lemma of_sockaddr_in ip port :
  of_sockaddr (sockaddr_in ip port) sizeof_sockaddr_in = Ok (ipv4_address ip port).
Proof. done. Qed.

Lemma ipv4_numeric_eq ip port : 0 <= ip < 2 ^ 32 -> ipv4_numeric (ipv4_address ip port) = Ok ip.
Proof.
  intros Hip. change (Ok (be_value (unparse_bytes 4 ip)) = Ok ip).
  by rewrite be_value_unparse, Z.mod_small.
Qed.

Lemma unparse_bytes_inj n v w :
  0 <= v < 2 ^ (8 * Z.of_nat n) -> 0 <= w < 2 ^ (8 * Z.of_nat n) ->
  unparse_bytes n v = unparse_bytes n w -> v = w.
Proof.
  intros Hv Hw E. apply (f_equal be_value) in E. by rewrite !be_value_unparse, !Z.mod_small in E.
Qed.

Lemma address_eqb_eq ip port ip' port' :
  0 <= ip < 2 ^ 32 -> 0 <= ip' < 2 ^ 32 -> 0 <= port < 2 ^ 16 -> 0 <= port' < 2 ^ 16 ->
  address_eqb (ipv4_address ip port) (ipv4_address ip' port') = (ip =? ip') && (port =? port').
Proof.
  intros Hi Hi' Hp Hp'. change (bool_decide (sockaddr_in ip port = sockaddr_in ip' port') =
    (ip =? ip') && (port =? port')).
  case_bool_decide as E.
  - unfold sockaddr_in in E. apply (app_inj_1 _ _ _ _ eq_refl) in E as [_ E].
    apply app_inj_1 in E as [E1 E]; [|done]. apply app_inj_1 in E as [E2 _]; [|done].
    apply unparse_bytes_inj in E1, E2; [|done..]. subst. by rewrite !Z.eqb_refl.
  - destruct (Z.eqb_spec ip ip'), (Z.eqb_spec port port'); [by subst|done..].
Qed.

Section resolver.
  Context `{RO : ResolverOk}.

Lemma port_eq ip p : 0 <= ip < 2 ^ 32 -> 0 <= p < 2 ^ 16 -> port (ipv4_address ip p) = Ok p.
Proof.
  intros Hi Hp. unfold port, ip_port. destruct (getnameinfo_numeric ip p Hi Hp) as [host E].
  change (_size (ipv4_address ip p)) with sizeof_sockaddr_in. rewrite E, stoi_to_dec by lia.
  simpl. by rewrite u16_small.
Qed.

Lemma of_ip_port_eq ip p :
  0 <= ip < 2 ^ 32 -> 0 <= p < 2 ^ 16 ->
  of_ip_port (inet_ntoa (unparse_bytes 4 ip)) p = Ok (ipv4_address ip p).
Proof.
  intros Hi Hp. unfold of_ip_port, resolve.
  destruct (getaddrinfo_numeric ip p Hi Hp) as [rest ->]. apply of_sockaddr_in.
Qed.
End resolver.

(** ** Failures

    Resolution and the port throw or return, whatever the library answers. *)
Section failures.
  Context {rs : Resolver}.

Lemma of_names_sound node service : sound (of_names node service) (fun a => of_names node service = Ok a).
Proof.
  unfold of_names, resolve. destruct (getaddrinfo _ _ _ _) as [|[|ai_addr rest]]; [done..|].
  unfold of_sockaddr. case_bool; [done|]. case_bool; [lia|done].
Qed.

Lemma port_sound a : sound (port a) (fun _ => True).
Proof.
  unfold port, ip_port. destruct (getnameinfo _ _) as [|[host service]]; [done|].
  unfold stoi. destruct (skip_spaces service) as [|c s] eqn:E; [done|].
  repeat first [done | case_match].
Qed.
End failures.

(** ** A resolver of numeric names *)

Definition numeric_resolver : Resolver := {|
  getaddrinfo node service _ family :=
    let ip := digits node 0 in
    let port := digits service 0 in
    if (family =? AF_INET) && bool_decide (to_dec ip = node /\ to_dec port = service)
    then inr [sockaddr_in ip port] else inl (-2);
  getnameinfo addr size :=
    if size =? sizeof_sockaddr_in
    then inr (to_dec (be_value (take 4 (drop 4 addr))), to_dec (be_value (take 2 (drop 2 addr))))
    else inl (-6);
  inet_ntoa bytes := to_dec (be_value bytes)
|}.

#[global] Instance numeric_resolver_ok : ResolverOk numeric_resolver.
Proof.
  split; intros ip port Hi Hp.
  - exists (to_dec (be_value (unparse_bytes 4 ip))). simpl. do 3 f_equal.
    change (be_value (unparse_bytes 2 port) = port). by rewrite be_value_unparse, Z.mod_small.
  - exists []. unfold numeric_resolver; cbn [getaddrinfo inet_ntoa]. rewrite be_value_unparse, Z.mod_small by done.
    rewrite !digits_to_dec by lia. by rewrite bool_decide_eq_true_2.
Qed.
