(* ===== verification/FileDescriptor.v ===== *)
(** * File descriptors

    Model of [libsponge/util/file_descriptor.hh] and [.cc] and of [SystemCall]
    in [util.cc].  The object shared by all duplicates of a [FileDescriptor] is
    an [FDWrapper]; what the kernel returns is an argument, or for the loop of
    [write] the parameter [writev]. *)

From S2P Require Import Prelude Buffer Address.

(** ** System calls *)

(** [return_value] and [errno] after the call *)
Definition SystemCall (attempt : string) (return_value errno errno_mask : Z) : outcome Z :=
  if (return_value >=? 0) || (errno =? errno_mask) then mret return_value
  else Throw (unix_error attempt errno).

(** ** The shared object *)

Record FDWrapper := mkFDWrapper {
  _fd : Z;
  _eof : bool;
  _closed : bool;
  _read_count : Z;
  _write_count : Z
}.

Definition FDWrapper_new (fd : Z) : outcome FDWrapper :=
  if fd <? 0 then Throw (runtime_error ("invalid fd number:-" +:+ to_dec (- fd)))
  else mret (mkFDWrapper fd false false 0 0).

Definition close (w : FDWrapper) (ret errno : Z) : outcome FDWrapper :=
  _ ← SystemCall "close" ret errno 0;
  mret (mkFDWrapper (_fd w) true true (_read_count w) (_write_count w)).

(** The destructor swallows what [close] throws. *)
Definition destroy (w : FDWrapper) (ret errno : Z) : FDWrapper :=
  if _closed w then w else match close w ret errno with Ok w' => w' | _ => w end.

(** The counters are [unsigned]. *)
Definition register_read (w : FDWrapper) : FDWrapper :=
  mkFDWrapper (_fd w) (_eof w) (_closed w) (u32 (_read_count w + 1)) (_write_count w).
Definition register_write (w : FDWrapper) : FDWrapper :=
  mkFDWrapper (_fd w) (_eof w) (_closed w) (_read_count w) (u32 (_write_count w + 1)).
Definition set_eof (w : FDWrapper) : FDWrapper :=
  mkFDWrapper (_fd w) true (_closed w) (_read_count w) (_write_count w).

Definition BUFFER_SIZE : Z := 1024 * 1024.

(** [::read] fails with an errno or stores some bytes. *)
Definition read (w : FDWrapper) (limit : Z) (sys : Z + list byte) : outcome (FDWrapper * list byte) :=
  let size_to_read := Z.min BUFFER_SIZE limit in
  bytes_read ← match sys with
               | inl errno => SystemCall "read" (-1) errno 0
               | inr data => SystemCall "read" (len data) 0 0
               end;
  let w := if (limit >? 0) && (bytes_read =? 0) then set_eof w else w in
  if bytes_read >? size_to_read then Throw (runtime_error "read() read more than requested")
  else mret (register_read w, match sys with inr data => data | inl _ => [] end).

Definition O_NONBLOCK : Z := 2048.

(** The flags [set_blocking] passes to [fcntl] *)
Definition blocking_flags (flags : Z) (blocking_state : bool) : Z :=
  if blocking_state then Z.lxor flags (Z.land flags O_NONBLOCK) else Z.lor flags O_NONBLOCK.

(** ** Writing

    [writev k vs] is the kernel's answer in state [k]: an errno or the number of
    bytes taken from the front of the buffers, and the new state. *)
Section writing.
  Context {K : Type} (writev : K -> BufferViewList -> (Z + Z) * K).

Record write_state := mkWrite { ws_wrapper : FDWrapper; ws_kernel : K; ws_buffer : BufferViewList; ws_total : Z }.

(** One round of the [do]-[while] loop *)
Definition write_body (write_all : bool) (s : write_state) :
    outcome (write_state + (FDWrapper * K * Z)) :=
  let '(sys, k) := writev (ws_kernel s) (ws_buffer s) in
  bytes_written ← match sys with
                  | inl errno => SystemCall "writev" (-1) errno 0
                  | inr n => SystemCall "writev" n 0 0
                  end;
  let size := BufferViewList_size (ws_buffer s) in
  if (bytes_written =? 0) && negb (size =? 0) then
    Throw (runtime_error "write returned 0 given non-empty input buffer")
  else if bytes_written >? size then
    Throw (runtime_error "write wrote more than length of input buffer")
  else
    let w := register_write (ws_wrapper s) in
    buffer ← BufferViewList_remove_prefix (ws_buffer s) bytes_written;
    let total := u64 (ws_total s + bytes_written) in
    if write_all && negb (BufferViewList_size buffer =? 0)
    then mret (inl (mkWrite w k buffer total)) else mret (inr (w, k, total)).

Definition write (w : FDWrapper) (k : K) (buffer : BufferViewList) (write_all : bool) :
    outcome (FDWrapper * K * Z) :=
  while_ (write_body write_all) (mkWrite w k buffer 0).
End writing.
Arguments mkWrite {K} _ _ _ _.
Arguments ws_wrapper {K} _.
Arguments ws_kernel {K} _.
Arguments ws_buffer {K} _.
Arguments ws_total {K} _.

Lemma u32_succ_ne x : u32 (x + 1) <> x.
Proof. wrap_lia. Qed.

(** ** One call

    [read], and [write] without [write_all]. *)
Lemma fd_read_ok d limit sys d' data :
  match sys with inl errno => 0 < errno | inr _ => True end ->
  read d limit sys = Ok (d', data) ->
  sys = inr data /\ _read_count d' = u32 (_read_count d + 1) /\ _closed d' = _closed d /\
  (_eof d = true -> _eof d' = true).
Proof.
  unfold read, SystemCall. destruct sys as [errno|x]; intros He.
  - by case_cmp.
  - rewrite Z.geb_leb, (proj2 (Z.leb_le 0 _)) by lia. cbn [orb mbind outcome_bind mret outcome_ret].
    case_bool; [done|]. intros [= <- <-]. split; [done|]. by case_bool.
Qed.

(** End of file is seen exactly when nothing was read although something was asked for. *)
Lemma fd_read_eof d limit data d' str :
  read d limit (inr data) = Ok (d', str) -> _eof d' = _eof d || ((limit >? 0) && (len data =? 0)).
Proof.
  unfold read, SystemCall. rewrite Z.geb_leb, (proj2 (Z.leb_le 0 _)) by lia.
  cbn [orb mbind outcome_bind mret outcome_ret]. case_bool; [done|]. intros [= <- _].
  destruct ((limit >? 0) && (len data =? 0)); simpl; [by rewrite orb_true_r|by rewrite orb_false_r].
Qed.

(** It throws only when the call fails. *)
Lemma fd_read_faults d limit sys f :
  match sys with inl errno => 0 < errno | inr data => len data <= Z.min BUFFER_SIZE limit end ->
  fails (read d limit sys) f -> exists errno, sys = inl errno /\ f = Thrown (unix_error "read" errno).
Proof.
  unfold read, SystemCall. destruct sys as [errno|data]; intros Hs.
  - rewrite (proj2 (Z.eqb_neq errno 0)) by lia. intros Hf. by exists errno.
  - rewrite Z.geb_leb, (proj2 (Z.leb_le 0 _)) by lia. cbn [orb mbind outcome_bind mret outcome_ret].
    rewrite Z.gtb_ltb, (proj2 (Z.ltb_ge _ _)) by lia. done.
Qed.

(** Without [write_all] the loop's body runs once. *)
Lemma write_once {K} (writev : K -> BufferViewList -> (Z + Z) * K) d k vs :
  write writev d k vs false =
    (x ← write_body writev false (mkWrite d k vs 0); match x with inl _ => UB | inr r => mret r end).
Proof.
  unfold write. apply while_once. intros s. unfold write_body. destruct (writev _ _) as [sys k1]. apply not_eq_sym.
  destruct sys as [errno|m]; unfold SystemCall; intros E; symmetry in E; revert E;
    repeat (case_bool; cbn [mbind outcome_bind mret outcome_ret andb]; try done);
    by destruct (BufferViewList_remove_prefix _ _).
Qed.

Lemma fd_write_part {K} (writev : K -> BufferViewList -> (Z + Z) * K) d k buffer d' k' n :
  (forall sys k1, writev k [buffer] = (sys, k1) ->
     match sys with inl errno => 0 < errno | inr n => 0 <= n end) ->
  len buffer < 2 ^ 63 ->
  write writev d k [buffer] false = Ok (d', k', n) ->
  writev k [buffer] = (inr n, k') /\ 0 <= n <= len buffer /\ d' = register_write d.
Proof.
  intros Hw Hl. rewrite write_once.
  unfold write_body. cbn [ws_kernel ws_buffer ws_wrapper ws_total].
  destruct (writev k [buffer]) as [sys k2] eqn:Ew. specialize (Hw _ _ eq_refl).
  assert (Es : BufferViewList_size [buffer] = len buffer)
    by (rewrite BufferViewList_size_len; simpl; rewrite app_nil_r; (done || lia)).
  rewrite Es. unfold SystemCall. destruct sys as [errno|m].
  { by case_cmp. }
  case_cmp; cbn [orb mbind outcome_bind mret outcome_ret andb negb]; try done.
  all: case_cmp; try done;
    destruct (BufferViewList_remove_prefix [buffer] m) as [vs| |]; try done;
    cbn [mbind outcome_bind mret outcome_ret andb]; intros [= <- <- <-];
    rewrite u64_small by lia; split_and!; (done || lia).
Qed.

(** ** Properties *)

(** What the system call promises: an error and nothing written, or the number
    of bytes taken from the front of the buffers. *)
Class WritevOk {K : Type} (writev : K -> BufferViewList -> (Z + Z) * K) (sink : K -> list byte) :=
  writev_ok k vs sys k' : writev k vs = (sys, k') ->
    match sys with
    | inl errno => 0 < errno /\ sink k' = sink k
    | inr n => 0 <= n <= len (concat vs) /\ sink k' = sink k ++ ztake n (concat vs)
    end.

Lemma ztake_zdrop_extend {A} (l : list A) m n :
  0 <= m -> 0 <= n -> ztake m l ++ ztake n (zdrop m l) = ztake (m + n) l.
Proof.
  intros Hm Hn. unfold ztake, zdrop. rewrite take_take_drop. f_equal. lia.
Qed.

(** How the loop can throw *)
Definition write_fails (e : exn) : Prop :=
  e = runtime_error "write returned 0 given non-empty input buffer" \/
  exists errno, e = unix_error "writev" errno.

Lemma fd_write_faults {K} (writev : K -> BufferViewList -> (Z + Z) * K) d k buffer f :
  (forall sys k1, writev k [buffer] = (sys, k1) ->
     match sys with inl errno => 0 < errno | inr n => 0 <= n <= len buffer end) ->
  len buffer < 2 ^ 63 ->
  fails (write writev d k [buffer] false) f -> exists e, f = Thrown e /\ write_fails e.
Proof.
  intros Hw Hl. rewrite write_once.
  unfold write_body. cbn [ws_kernel ws_buffer ws_wrapper ws_total].
  destruct (writev k [buffer]) as [sys k2] eqn:Ew. specialize (Hw _ _ eq_refl).
  assert (Es : BufferViewList_size [buffer] = len buffer)
    by (rewrite BufferViewList_size_len; simpl; rewrite app_nil_r; (done || lia)).
  rewrite Es. unfold SystemCall. destruct sys as [errno|m].
  { rewrite (proj2 (Z.eqb_neq errno 0)) by lia. intros Hf. eexists. split; [exact Hf|]. right. by eexists. }
  rewrite Z.geb_leb, (proj2 (Z.leb_le 0 m)) by lia. cbn [orb mbind outcome_bind mret outcome_ret].
  case_bool; [intros Hf; eexists; split; [exact Hf|by left]|].
  rewrite Z.gtb_ltb, (proj2 (Z.ltb_ge (len buffer) m)) by lia.
  destruct (BufferViewList_remove_prefix_ok [buffer] m) as (vs & -> & _); [cbn [concat]; rewrite ?app_nil_r; lia..|]. done.
Qed.

Section write_all.
  Context {K : Type} (writev : K -> BufferViewList -> (Z + Z) * K) (sink : K -> list byte).
  Context `{WO : WritevOk K writev sink} (k0 : K) (data : list byte) (Hdata : len data < 2 ^ 63).

(** The first [total] bytes have been handed over. *)
Definition handed_over (k : K) (total : Z) : Prop := sink k = sink k0 ++ ztake total data.

Definition write_inv (s : write_state (K := K)) : Prop :=
  0 <= ws_total s <= len data /\ concat (ws_buffer s) = zdrop (ws_total s) data /\
  handed_over (ws_kernel s) (ws_total s).

Lemma write_body_ok s :
  write_inv s ->
  match write_body writev true s with
  | Ok (inl s') => write_inv s' /\ 0 <= len (concat (ws_buffer s')) < len (concat (ws_buffer s))
  | Ok (inr (w, k, total)) => total = len data /\ handed_over k total
  | Throw e => write_fails e
  | UB => False
  end.
Proof.
  intros (Ht & Hb & Hs). assert (Hl : len (concat (ws_buffer s)) = len data - ws_total s)
    by (rewrite Hb, len_zdrop; lia).
  unfold write_body. destruct (writev (ws_kernel s) (ws_buffer s)) as [sys k] eqn:E.
  apply WO in E. destruct sys as [errno|n]; unfold SystemCall.
  { destruct (Z.eqb_spec errno 0); [lia|]. cbn. right. by eexists. }
  destruct E as [Hn Hk]. rewrite Z.geb_leb, (proj2 (Z.leb_le 0 n)) by lia.
  cbn [orb mbind outcome_bind mret outcome_ret].
  rewrite BufferViewList_size_len by lia.
  destruct (Z.eqb_spec n 0) as [->|Hn0]; cbn [andb].
  { destruct (Z.eqb_spec (len (concat (ws_buffer s))) 0) as [H0|H0]; cbn; [|by left].
    case_cmp. destruct (BufferViewList_remove_prefix_ok (ws_buffer s) 0) as (vs' & -> & Ev); [lia..|].
    assert (H1 : len (concat vs') = 0) by (rewrite Ev, len_zdrop; lia).
    cbn [mbind outcome_bind]. rewrite BufferViewList_size_len, H1 by lia. cbn. rewrite u64_small by lia. split; [lia|]. unfold handed_over. rewrite Hk, Hs, Z.add_0_r.
    change (ztake 0 _) with (@nil byte). by rewrite app_nil_r. }
  case_cmp. destruct (BufferViewList_remove_prefix_ok (ws_buffer s) n) as (vs' & -> & Ev); [lia..|].
  cbn [mbind outcome_bind]. rewrite BufferViewList_size_len by (rewrite Ev, len_zdrop; lia).
  rewrite u64_small by lia.
  assert (Hh : handed_over k (ws_total s + n)).
  { unfold handed_over. rewrite Hk, Hs, Hb, <- app_assoc, ztake_zdrop_extend by lia. done. }
  assert (Hlv : len (concat vs') = len data - (ws_total s + n)) by (rewrite Ev, len_zdrop; lia).
  case_cmp; cbn; [split; [lia|done]|]. split; [|lia]. split_and!; simpl; [lia..| |done].
  rewrite Ev, Hb, zdrop_zdrop by lia. done.
Qed.
End write_all.

(** Writing everything: whatever portions the kernel takes, the loop ends; it
    returns only when all the bytes have been handed over, in order and once,
    and otherwise throws because the kernel reported an error or took nothing. *)
Theorem fd_write_all {K} (writev : K -> BufferViewList -> (Z + Z) * K) sink
    `{WO : WritevOk K writev sink} w k vs :
  len (concat vs) < 2 ^ 63 ->
  match write writev w k vs true with
  | Ok (w', k', total) => total = len (concat vs) /\ sink k' = sink k ++ concat vs
  | Throw e => write_fails e
  | UB => False
  end.
Proof.
  intros Hl. unfold write.
  pose proof (while_rule_exn (write_body writev true) (write_inv sink k (concat vs))
    (fun r => let '(w', k', total) := r in total = len (concat vs) /\ handed_over sink k (concat vs) k' total)
    write_fails (fun s => len (concat (ws_buffer s))) (mkWrite w k vs 0)) as H.
  assert (Hb := write_body_ok writev sink k (concat vs) Hl). specialize (H Hb). clear Hb.
  assert (Hi : write_inv sink k (concat vs) (mkWrite w k vs 0)).
  { split_and!; simpl; [lia..|done|]. unfold handed_over. by rewrite app_nil_r. }
  specialize (H Hi ltac:(cbn [ws_buffer]; lia)).
  destruct (while_ _ _) as [[[w' k'] total]| |]; [|done..]. destruct H as [-> H].
  split; [done|]. unfold handed_over in H. by rewrite ztake_all in H by lia.
Qed.

(** A kernel that takes at most three bytes at a time *)
Definition three_bytes (k : list byte) (vs : BufferViewList) : (Z + Z) * list byte :=
  (inr (Z.min 3 (len (concat vs))), k ++ ztake 3 (concat vs)).

#[global] Instance three_bytes_ok : WritevOk three_bytes (fun k => k).
Proof.
  intros k vs sys k' [= <- <-]. split; [lia|]. f_equal.
  by rewrite Z.min_comm, ztake_min.
Qed.

Lemma fd_write_all_witness :
  let w := mkFDWrapper 3 false false 0 0 in
  let vs := [[Byte.x61; Byte.x62; Byte.x63; Byte.x64]; [Byte.x65]] in
  match write three_bytes w [] vs true with
  | Ok (w', k', total) => total = len (concat vs) /\ k' = [] ++ concat vs
  | Throw e => write_fails e
  | UB => False
  end.
Proof.
  apply (fd_write_all three_bytes (fun k => k) (mkFDWrapper 3 false false 0 0) []
    [[Byte.x61; Byte.x62; Byte.x63; Byte.x64]; [Byte.x65]]). simpl. lia.
Defined.
