(* ===== verification/Descriptors.v ===== *)
(** * Shared ownership of file descriptors

    Model of [FileDescriptor] as a handle on a shared [FDWrapper]
    ([libsponge/util/file_descriptor.hh]): construction, [duplicate], moving,
    destruction and [close], over a heap of wrappers and the table of descriptor
    numbers the kernel has given to the process.  [FileDescriptor.v] has the calls on
    one wrapper. *)

From stdpp Require Import gmap fin_sets.
From S2P Require Import Prelude Buffer Address FileDescriptor.

(** ** The state *)

(** A [FileDescriptor] holds a [shared_ptr], which is null after a move; the
    number of handles on a wrapper is its reference count. *)
Record world := mkWorld {
  heap : gmap positive FDWrapper;
  handles : gmap positive (option positive);
  open_fds : gset Z
}.

Definition set_heap (w : world) (h : gmap positive FDWrapper) : world := mkWorld h (handles w) (open_fds w).
Definition set_handles (w : world) (h : gmap positive (option positive)) : world :=
  mkWorld (heap w) h (open_fds w).
Definition set_open (w : world) (o : gset Z) : world := mkWorld (heap w) (handles w) o.

Definition EBADF : Z := 9.

(** [close(2)]: the number is free afterwards even when an error [err] is reported;
    a number that is not in use gives EBADF. *)
Definition sys_close (w : world) (fd err : Z) : world * Z * Z :=
  if bool_decide (fd ∈ open_fds w) then
    (set_open w (open_fds w ∖ {[fd]}), if err =? 0 then 0 else -1, err)
  else (w, -1, EBADF).

(** The number of [shared_ptr]s on a wrapper *)
Definition use_count (w : world) (p : positive) : nat := base.size (filter (fun x => x.2 = Some p) (handles w)).

(** Dereferencing the [shared_ptr] of a handle *)
Definition deref (w : world) (h : positive) : outcome (positive * FDWrapper) :=
  match handles w !! h with
  | Some (Some p) => match heap w !! p with Some x => Ok (p, x) | None => UB end
  | _ => UB
  end.

(** ** The operations *)

(** [FileDescriptor(int)]: [make_shared] allocates a wrapper. *)
Definition FileDescriptor_new (w : world) (fd : Z) : outcome (world * positive) :=
  x ← FDWrapper_new fd;
  let p := fresh (dom (heap w)) in
  let h := fresh (dom (handles w)) in
  mret (mkWorld (<[p := x]> (heap w)) (<[h := Some p]> (handles w)) (open_fds w), h).

(** [FileDescriptor(shared_ptr)] and [duplicate] *)
Definition FileDescriptor_of (w : world) (p : option positive) : world * positive :=
  let h := fresh (dom (handles w)) in (set_handles w (<[h := p]> (handles w)), h).

Definition duplicate (w : world) (h : positive) : outcome (world * positive) :=
  match handles w !! h with Some p => mret (FileDescriptor_of w p) | None => UB end.

(** The destructor of a wrapper; [err] is what [close(2)] reports if it is called. *)
Definition FDWrapper_destroy (w : world) (p : positive) (x : FDWrapper) (err : Z) : world :=
  let w := set_heap w (delete p (heap w)) in
  if _closed x then w
  else let '(w, ret, errno) := sys_close w (_fd x) err in
       let _ := FileDescriptor.destroy x ret errno in w.

(** A [shared_ptr] lets go of a wrapper: the last one destroys it. *)
Definition release (w : world) (p : option positive) (err : Z) : world :=
  match p with
  | Some p =>
      match heap w !! p with
      | Some x => if bool_decide (use_count w p = 0%nat) then FDWrapper_destroy w p x err else w
      | None => w
      end
  | None => w
  end.

(** [~FileDescriptor] *)
Definition FileDescriptor_destroy (w : world) (h : positive) (err : Z) : outcome world :=
  match handles w !! h with
  | Some p => mret (release (set_handles w (delete h (handles w))) p err)
  | None => UB
  end.

(** [FileDescriptor(FileDescriptor &&)] *)
Definition move_construct (w : world) (src : positive) : outcome (world * positive) :=
  match handles w !! src with
  | Some p => mret (FileDescriptor_of (set_handles w (<[src := None]> (handles w))) p)
  | None => UB
  end.

(** [operator=(FileDescriptor &&)]: what the target held is let go. *)
Definition move_assign (w : world) (dst src : positive) (err : Z) : outcome world :=
  match handles w !! src with
  | Some p =>
      let hs := <[src := None]> (handles w) in
      match hs !! dst with
      | Some old => mret (release (set_handles w (<[dst := p]> hs)) old err)
      | None => UB
      end
  | None => UB
  end.

(** [close] calls [close(2)], whatever the wrapper's flags; when it throws, the
    number is free all the same. *)
Definition close_handle (w : world) (h : positive) (err : Z) : outcome (world * outcome unit) :=
  '(p, x) ← deref w h;
  let '(w, ret, errno) := sys_close w (_fd x) err in
  mret (match FileDescriptor.close x ret errno with
        | Ok x => (set_heap w (<[p := x]> (heap w)), Ok tt)
        | Throw e => (w, Throw e)
        | UB => (w, UB)
        end).

(** A call on the wrapper through a handle: [read], [write], [set_blocking] and what
    sockets add *)
Definition through {A} (w : world) (h : positive) (call : FDWrapper -> outcome (FDWrapper * A)) :
    outcome (world * A) :=
  '(p, x) ← deref w h;
  '(x, a) ← call x;
  mret (set_heap w (<[p := x]> (heap w)), a).

(** The accessors *)
Definition fd_num (w : world) (h : positive) : outcome Z := '(_, x) ← deref w h; mret (_fd x).
Definition eof (w : world) (h : positive) : outcome bool := '(_, x) ← deref w h; mret (_eof x).
Definition closed (w : world) (h : positive) : outcome bool := '(_, x) ← deref w h; mret (_closed x).
Definition read_count (w : world) (h : positive) : outcome Z := '(_, x) ← deref w h; mret (_read_count x).
Definition write_count (w : world) (h : positive) : outcome Z := '(_, x) ← deref w h; mret (_write_count x).

(** ** Runs

    [F] are the numbers that other code of the process has open.  The discipline
    of the callers: [close] is called at most once per wrapper, and [close(2)]
    succeeds then (in a destructor it may report an error). *)

(** What a call may do to a wrapper: everything but change the number or undo a
    [close] *)
Definition keeps (x x' : FDWrapper) : Prop := _fd x' = _fd x /\ _closed x' = _closed x.

Inductive act : gset Z * world -> gset Z * world -> Prop :=
  | act_open F w fd w' h :
      0 <= fd -> fd ∉ open_fds w ->
      FileDescriptor_new (set_open w ({[fd]} ∪ open_fds w)) fd = Ok (w', h) -> act (F, w) (F, w')
  | act_foreign_open F w fd :
      fd ∉ open_fds w -> act (F, w) ({[fd]} ∪ F, set_open w ({[fd]} ∪ open_fds w))
  | act_foreign_close F w fd :
      fd ∈ F -> act (F, w) (F ∖ {[fd]}, set_open w (open_fds w ∖ {[fd]}))
  | act_duplicate F w h w' h' : duplicate w h = Ok (w', h') -> act (F, w) (F, w')
  | act_move F w src w' h' : move_construct w src = Ok (w', h') -> act (F, w) (F, w')
  | act_assign F w dst src err w' : move_assign w dst src err = Ok w' -> act (F, w) (F, w')
  | act_destroy F w h err w' : FileDescriptor_destroy w h err = Ok w' -> act (F, w) (F, w')
  | act_close F w h w' r :
      closed w h = Ok false -> close_handle w h 0 = Ok (w', r) -> act (F, w) (F, w')
  | act_through {A} F w h (call : FDWrapper -> outcome (FDWrapper * A)) w' a :
      (forall x x' a, call x = Ok (x', a) -> keeps x x') ->
      through w h call = Ok (w', a) -> act (F, w) (F, w').

(** The start: no handles, and the numbers [F] are open. *)
Definition start (F : gset Z) : gset Z * world := (F, mkWorld ∅ ∅ F).

Definition reach (x : gset Z * world) : Prop := exists F, rtc act (start F) x.

(** ** The invariant *)

(** Wrapper [p] answers for number [fd]. *)
Definition owns (w : world) (p : positive) (fd : Z) : Prop :=
  exists x, heap w !! p = Some x /\ _closed x = false /\ _fd x = fd.

Record winv (F : gset Z) (w : world) : Prop := {
  wi_target : forall h p, handles w !! h = Some (Some p) -> is_Some (heap w !! p);
  wi_held : forall p, is_Some (heap w !! p) -> exists h, handles w !! h = Some (Some p);
  wi_open : forall fd, fd ∈ open_fds w <-> fd ∈ F \/ exists p, owns w p fd;
  wi_foreign : forall p fd, owns w p fd -> fd ∉ F;
  wi_alone : forall p q fd, owns w p fd -> owns w q fd -> p = q
}.

Lemma start_inv F : winv F (start F).2.
Proof.
  constructor; simpl.
  - intros h p. by rewrite lookup_empty.
  - intros p. rewrite lookup_empty. by intros [? ?].
  - intros fd. split; [by left|]. intros [?|(p & x & Hx & _)]; [done|]. simpl in Hx; by rewrite lookup_empty in Hx.
  - intros p fd (x & Hx & _). simpl in Hx; by rewrite lookup_empty in Hx.
  - intros p q fd (x & Hx & _). simpl in Hx; by rewrite lookup_empty in Hx.
Qed.

Lemma fresh_none {A} (m : gmap positive A) : m !! fresh (dom m) = None.
Proof. apply not_elem_of_dom, is_fresh. Qed.

(** Ownership after the wrapper [p] became [x] *)
Lemma owns_insert w p x hs o q fd :
  owns (mkWorld (<[p := x]> (heap w)) hs o) q fd <->
  (q = p /\ _closed x = false /\ _fd x = fd) \/ (q <> p /\ owns w q fd).
Proof.
  unfold owns. simpl. destruct (decide (q = p)) as [->|Hn].
  - rewrite lookup_insert_eq. split; [intros (y & [= <-] & ?); by left|]. intros [(_ & ? & ?)|[? _]]; [by exists x|done].
  - rewrite lookup_insert_ne by done. split; [by right|]. by intros [[? _]|[_ ?]].
Qed.

Lemma owns_delete w p hs o q fd :
  owns (mkWorld (delete p (heap w)) hs o) q fd <-> q <> p /\ owns w q fd.
Proof.
  unfold owns. simpl. destruct (decide (q = p)) as [->|Hn].
  - rewrite lookup_delete_eq. split; [by intros (y & ? & _)|by intros [? _]].
  - rewrite lookup_delete_ne by done. by split; [|intros [_ ?]].
Qed.

Lemma use_count_zero w p h : use_count w p = 0%nat -> handles w !! h <> Some (Some p).
Proof.
  unfold use_count. rewrite map_size_empty_iff. intros He Hh.
  apply (map_filter_empty_not_lookup (fun x : positive * option positive => x.2 = Some p) _ h (Some p)) in He; [|done].
  done.
Qed.

Lemma use_count_some w p : use_count w p <> 0%nat -> exists h, handles w !! h = Some (Some p).
Proof.
  unfold use_count. rewrite map_size_non_empty_iff. intros (h & q & [H1 H2]%map_lookup_filter_Some)%map_choose.
  simpl in H2. subst q. by exists h.
Qed.

(** The invariant with the exception that no handle need be on [p] *)
Record winv_but (p : positive) (F : gset Z) (w : world) : Prop := {
  wb_target : forall h q, handles w !! h = Some (Some q) -> is_Some (heap w !! q);
  wb_held : forall q, is_Some (heap w !! q) -> q = p \/ exists h, handles w !! h = Some (Some q);
  wb_open : forall fd, fd ∈ open_fds w <-> fd ∈ F \/ exists q, owns w q fd;
  wb_foreign : forall q fd, owns w q fd -> fd ∉ F;
  wb_alone : forall q q' fd, owns w q fd -> owns w q' fd -> q = q'
}.

Lemma FDWrapper_destroy_inv F w p x err :
  winv_but p F w -> heap w !! p = Some x -> use_count w p = 0%nat -> winv F (FDWrapper_destroy w p x err).
Proof.
  intros [Ht Hh Ho Hf Ha] Ep Hc. set (w1 := set_heap w (delete p (heap w))).
  assert (Hown : forall q fd, owns w1 q fd <-> q <> p /\ owns w q fd) by (intros; apply owns_delete).
  assert (H1 : forall h q, handles w1 !! h = Some (Some q) -> is_Some (heap w1 !! q)).
  { intros h q Hq. simpl. rewrite lookup_delete_ne; [by eapply Ht|]. intros ->. by eapply use_count_zero. }
  assert (H2 : forall q, is_Some (heap w1 !! q) -> exists h, handles w1 !! h = Some (Some q)).
  { intros q Hq. simpl in Hq. rewrite lookup_delete_is_Some in Hq. destruct Hq as [Hn Hq].
    by destruct (Hh q Hq) as [->|?]. }
  unfold FDWrapper_destroy. fold w1. destruct (_closed x) eqn:Ex.
  - constructor; [done..| | |].
    + intros fd. change (open_fds w1) with (open_fds w). rewrite Ho. setoid_rewrite Hown. split; (intros [?|(q & Hq)]; [by left|right; exists q]); [|tauto].
      split; [|done]. intros ->. destruct Hq as (y & Hy & Hcl & _). congruence.
    + intros q fd [_ Hq]%Hown. by eapply Hf.
    + intros q q' fd [_ Hq]%Hown [_ Hq']%Hown. by eapply Ha.
  - assert (Hp : owns w p (_fd x)) by (by exists x).
    unfold sys_close. rewrite bool_decide_eq_true_2 by (apply Ho; right; by exists p).
    constructor; [done..| | |].
    + intros fd. simpl. rewrite elem_of_difference, elem_of_singleton, Ho. setoid_rewrite Hown. split.
      * intros [[?|(q & Hq)] Hn]; [by left|]. right. exists q. split; [|done]. intros ->. apply Hn.
        destruct Hq as (y & Hy & _ & Hfd). congruence.
      * intros [HF|(q & Hn & Hq)]; split; [by left| |right; by exists q|].
        -- intros ->. by eapply Hf.
        -- intros ->. apply Hn. by eapply Ha.
    + intros q fd [_ Hq]%Hown. by eapply Hf.
    + intros q q' fd [_ Hq]%Hown [_ Hq']%Hown. by eapply Ha.
Qed.

(** Letting go of a wrapper *)
Lemma release_inv F w p err : winv_but p F w -> winv F (release w (Some p) err).
Proof.
  intros Hb. unfold release. destruct (heap w !! p) as [x|] eqn:Ep.
  - case_bool_decide as Hc; [by apply FDWrapper_destroy_inv|]. destruct Hb as [Ht Hh Ho Hf Ha].
    constructor; try done. intros q Hq. destruct (Hh q Hq) as [->|?]; [by apply use_count_some|done].
  - destruct Hb as [Ht Hh Ho Hf Ha]. constructor; try done. intros q Hq.
    destruct (Hh q Hq) as [->|?]; [rewrite Ep in Hq; by destruct Hq|done].
Qed.

(** Rearranging the handles *)
Lemma winv_but_handles p F w hs :
  winv F w ->
  (forall h q, hs !! h = Some (Some q) -> exists h', handles w !! h' = Some (Some q)) ->
  (forall h q, q <> p -> handles w !! h = Some (Some q) -> exists h', hs !! h' = Some (Some q)) ->
  winv_but p F (set_handles w hs).
Proof.
  intros [Ht Hh Ho Hf Ha] H1 H2. constructor; try done.
  - intros h q Hq. destruct (H1 _ _ Hq) as [h' Hh']. by eapply Ht.
  - intros q Hq. destruct (decide (q = p)) as [->|Hn]; [by left|right].
    destruct (Hh q Hq) as [h Hh']. by eapply H2.
Qed.

Lemma winv_handles F w hs :
  winv F w ->
  (forall h q, hs !! h = Some (Some q) -> exists h', handles w !! h' = Some (Some q)) ->
  (forall h q, handles w !! h = Some (Some q) -> exists h', hs !! h' = Some (Some q)) ->
  winv F (set_handles w hs).
Proof.
  intros [Ht Hh Ho Hf Ha] H1 H2. constructor; try done.
  - intros h q Hq. destruct (H1 _ _ Hq) as [h' Hh']. by eapply Ht.
  - intros q Hq. destruct (Hh q Hq) as [h Hh']. by eapply H2.
Qed.

(** What held [old] before is let go. *)
Lemma let_go_inv F w hs old err :
  winv F w ->
  (forall h q, hs !! h = Some (Some q) -> exists h', handles w !! h' = Some (Some q)) ->
  (forall h q, Some q <> old -> handles w !! h = Some (Some q) -> exists h', hs !! h' = Some (Some q)) ->
  winv F (release (set_handles w hs) old err).
Proof.
  intros Hw H1 H2. destruct old as [p|].
  - apply release_inv, winv_but_handles; [done..|]. intros h q Hn. apply H2. congruence.
  - apply winv_handles; [done..|]. intros h q. by apply H2.
Qed.

(** A call that keeps number and state of the wrapper *)
Lemma winv_keeps F w p x x' :
  winv F w -> heap w !! p = Some x -> keeps x x' -> winv F (set_heap w (<[p := x']> (heap w))).
Proof.
  intros [Ht Hh Ho Hf Ha] Ep [Ek1 Ek2].
  assert (Hown : forall q fd, owns (set_heap w (<[p := x']> (heap w))) q fd <-> owns w q fd).
  { intros q fd. unfold set_heap. rewrite owns_insert, Ek1, Ek2. split.
    - intros [(-> & ? & ?)|[_ ?]]; [by exists x|done].
    - intros Hq. destruct (decide (q = p)) as [->|]; [left|by right]. destruct Hq as (y & Hy & ? & ?).
      rewrite Ep in Hy. by simplify_eq. }
  constructor.
  - intros h q Hq. simpl. rewrite lookup_insert_is_Some'. right. by eapply Ht.
  - intros q Hq. simpl in Hq. apply lookup_insert_is_Some' in Hq as [<-|Hq]; apply Hh; [by eexists|done].
  - intros fd. setoid_rewrite Hown. apply Ho.
  - intros q fd Hq%Hown. by eapply Hf.
  - intros q q' fd Hq%Hown Hq'%Hown. by eapply Ha.
Qed.

Lemma deref_spec w h p x :
  deref w h = Ok (p, x) <-> handles w !! h = Some (Some p) /\ heap w !! p = Some x.
Proof.
  unfold deref. destruct (handles w !! h) as [[q|]|]; [|naive_solver..].
  destruct (heap w !! q) as [y|] eqn:E; naive_solver.
Qed.

Lemma open_inv F w fd w' h :
  winv F w -> 0 <= fd -> fd ∉ open_fds w ->
  FileDescriptor_new (set_open w ({[fd]} ∪ open_fds w)) fd = Ok (w', h) -> winv F w'.
Proof.
  intros [Ht Hh Ho Hf Ha] H0 Hfd. unfold FileDescriptor_new, FDWrapper_new.
  rewrite (proj2 (Z.ltb_ge _ _)) by lia. cbn [mbind outcome_bind mret outcome_ret]. cbv zeta. intros [= <- _].
  simpl. set (p := fresh (dom (heap w))). set (h' := fresh (dom (handles w))).
  assert (Ep : heap w !! p = None) by apply fresh_none. assert (Eh : handles w !! h' = None) by apply fresh_none.
  set (x := mkFDWrapper fd false false 0 0). set (hs := <[h' := Some p]> (handles w)).
  assert (Hown : forall q fd', owns (mkWorld (<[p := x]> (heap w)) hs ({[fd]} ∪ open_fds w)) q fd' <->
    (q = p /\ fd = fd') \/ owns w q fd').
  { intros q fd'. rewrite owns_insert. simpl. split; [naive_solver|]. intros [[-> ->]|Hq]; [by left|right].
    split; [|done]. intros ->. destruct Hq as (y & Hy & _). congruence. }
  constructor; cbn [heap handles open_fds].
  - intros h0 q. unfold hs. rewrite lookup_insert_is_Some', lookup_insert_Some. naive_solver.
  - intros q [<-|Hq]%lookup_insert_is_Some'; [exists h'; by apply lookup_insert_eq|].
    destruct (Hh q Hq) as [h0 Hh0]. exists h0. unfold hs. rewrite lookup_insert_ne; [done|]. intros <-. congruence.
  - intros fd'. rewrite elem_of_union, elem_of_singleton, Ho. setoid_rewrite Hown. naive_solver.
  - intros q fd' [[-> <-]|Hq]%Hown; [|by eapply Hf]. intros HF. apply Hfd, Ho. by left.
  - intros q q' fd' [[-> <-]|Hq]%Hown [[-> E]|Hq']%Hown; [done| | |by eapply Ha].
    + destruct Hfd. apply Ho. right. by exists q'.
    + subst fd'. destruct Hfd. apply Ho. right. by exists q.
Qed.

Lemma close_inv F w h w' r :
  winv F w -> closed w h = Ok false -> close_handle w h 0 = Ok (w', r) -> winv F w'.
Proof.
  intros [Ht Hh Ho Hf Ha]. unfold closed, close_handle. destruct (deref w h) as [[p x]| |] eqn:E; [|done..].
  apply deref_spec in E as [Eh Ep]. cbn [mbind outcome_bind mret outcome_ret]. intros [= Ex].
  assert (Hp : owns w p (_fd x)) by (by exists x).
  unfold sys_close. rewrite bool_decide_eq_true_2 by (apply Ho; right; by exists p). cbn. intros [= <- _].
  set (x' := mkFDWrapper _ _ _ _ _).
  assert (Hown : forall q fd', owns (mkWorld (<[p := x']> (heap w)) (handles w) (open_fds w ∖ {[_fd x]})) q fd' <->
    q <> p /\ owns w q fd') by (intros q fd'; rewrite owns_insert; simpl; naive_solver).
  unfold set_heap. cbn [heap handles open_fds set_open].
  constructor; cbn [heap handles open_fds].
  - intros h0 q Hq. rewrite lookup_insert_is_Some'. right. by eapply Ht.
  - intros q [<-|Hq]%lookup_insert_is_Some'; [by exists h|by apply Hh].
  - intros fd. rewrite elem_of_difference, elem_of_singleton, Ho. setoid_rewrite Hown. split.
    + intros [[?|(q & Hq)] Hn]; [by left|]. right. exists q. split; [|done]. intros ->. apply Hn.
      destruct Hq as (y & Hy & _ & Hfd). congruence.
    + intros [HF|(q & Hn & Hq)]; split; [by left| |right; by exists q|].
      * intros ->. by eapply Hf.
      * intros ->. apply Hn. by eapply Ha.
  - intros q fd [_ Hq]%Hown. by eapply Hf.
  - intros q q' fd [_ Hq]%Hown [_ Hq']%Hown. by eapply Ha.
Qed.

Lemma world_act_inv x y : act x y -> winv x.1 x.2 -> winv y.1 y.2.
Proof.
  intros Hact Hw. destruct Hact as [F w fd w' h H0 Hfd E|F w fd Hfd|F w fd Hfd|F w h w' h' E|F w src w' h' E
    |F w dst src err w' E|F w h err w' E|F w h w' r Hcl E|A F w h call w' a Hk E]; simpl in *.
  - by eapply open_inv.
  - destruct Hw as [Ht Hh Ho Hf Ha]. constructor; try done; simpl.
    + intros f. rewrite !elem_of_union, Ho. change (exists p, owns (set_open w _) p f) with (exists p, owns w p f). tauto.
    + intros p f Hp [->%elem_of_singleton|HF]%elem_of_union; [|by eapply Hf]. apply Hfd, Ho. right. by exists p.
  - destruct Hw as [Ht Hh Ho Hf Ha]. constructor; try done; simpl.
    + intros f. rewrite !elem_of_difference, Ho, elem_of_singleton. split.
      * intros [[?|?] ?]; [by left|by right].
      * intros [[? ?]|(p & Hp)]; [by split; [left|]|]. split; [right; by exists p|]. intros ->. by eapply Hf.
    + intros p f Hp [HF _]%elem_of_difference. by eapply Hf.
  - unfold duplicate in E. destruct (handles w !! h) as [p|] eqn:Eh; [|done]. injection E as <- _.
    pose proof (fresh_none (handles w)) as Hn. set (h1 := fresh _) in *. apply winv_handles; [done|..].
    + intros h0 q. rewrite lookup_insert_Some. intros [[_ ->]|[_ ?]]; eauto.
    + intros h0 q Hq. exists h0. rewrite lookup_insert_ne; [done|]. intros <-. congruence.
  - unfold move_construct in E. destruct (handles w !! src) as [p|] eqn:Eh; [|done]. injection E as <- _.
    unfold set_handles. cbn [heap handles open_fds]. set (hs := <[src := None]> (handles w)).
    pose proof (fresh_none hs) as Hn. set (h1 := fresh _) in *. apply winv_handles; [done|..].
    + intros h0 q. unfold hs. rewrite !lookup_insert_Some. intros [[_ ->]|[_ [[_ ?]|[_ ?]]]]; eauto; done.
    + intros h0 q Hq. destruct (decide (h0 = src)) as [->|Hs].
      * exists h1. rewrite lookup_insert_eq. congruence.
      * exists h0. rewrite lookup_insert_ne; unfold hs; [by rewrite lookup_insert_ne|].
        intros <-. unfold hs in Hn. rewrite lookup_insert_ne in Hn by done. congruence.
  - unfold move_assign in E. destruct (handles w !! src) as [p|] eqn:Es; [|done]. cbv zeta in E.
    set (hs := <[src := None]> (handles w)) in *. destruct (hs !! dst) as [old|] eqn:Ed; [|done]. injection E as <-.
    apply let_go_inv; [done|..].
    + intros h0 q. unfold hs. rewrite !lookup_insert_Some. intros [[_ ->]|[_ [[_ ?]|[_ ?]]]]; eauto; done.
    + intros h0 q Hold Hq. destruct (decide (h0 = src)) as [->|Hs]; [exists dst; rewrite lookup_insert_eq; congruence|].
      exists h0. rewrite lookup_insert_ne; unfold hs; [by rewrite lookup_insert_ne|].
      intros <-. unfold hs in Ed. rewrite lookup_insert_ne in Ed by done. congruence.
  - unfold FileDescriptor_destroy in E. destruct (handles w !! h) as [p|] eqn:Eh; [|done]. injection E as <-.
    apply let_go_inv; [done|..].
    + intros h0 q. rewrite lookup_delete_Some. intros [_ ?]. eauto.
    + intros h0 q Hold Hq. exists h0. rewrite lookup_delete_ne; [done|]. intros <-. congruence.
  - by eapply close_inv.
  - unfold through in E. destruct (deref w h) as [[p x]| |] eqn:Ed; [|done..]. cbn [mbind outcome_bind] in E.
    destruct (call x) as [[x' a']| |] eqn:Ec; [|done..]. injection E as <- _.
    apply deref_spec in Ed as [_ Ep]. by eapply winv_keeps; [..|eapply Hk].
Qed.

Lemma world_reach_inv F w : reach (F, w) -> winv F w.
Proof.
  intros [F0 Hr]. apply (rtc_ind_r (fun x => winv x.1 x.2)) in Hr; [done|apply start_inv|].
  intros x y _ Ha Hx. by eapply world_act_inv.
Qed.

(** ** Properties *)

(** Handle [h] is on a wrapper that is not closed and whose number is [fd]. *)
Definition holds (w : world) (h : positive) (fd : Z) : Prop :=
  exists p, handles w !! h = Some (Some p) /\ owns w p fd.

(** C18. Descriptors are owned: however handles are made, duplicated, moved, assigned,
    closed and destroyed, where [close] is called at most once for a number and
    its [close(2)] succeeds, the numbers the process has open are at every moment those of
    other code and those some handle holds, with no number in both sets and none under
    two wrappers.  So a number is never closed while a handle is on it, never closed
    twice, and never leaks: without handles only the other code's numbers are open.
    After a call that failed the number is closed again ([failed_close_is_repeated]),
    and a second call may hit another's ([second_close_hits_another]). *)
Theorem descriptors_owned F w :
  reach (F, w) ->
  (forall fd, fd ∈ open_fds w <-> fd ∈ F \/ exists h, holds w h fd) /\
  (forall h fd, holds w h fd -> fd ∉ F) /\
  (forall h h' fd, holds w h fd -> holds w h' fd -> handles w !! h = handles w !! h').
Proof.
  intros [Ht Hh Ho Hf Ha]%world_reach_inv. split_and!.
  - intros fd. rewrite Ho. split; (intros [?|Hp]; [by left|right]).
    + destruct Hp as (p & Hp). destruct (Hh p) as [h Hh']; [destruct Hp as (x & ? & _); by exists x|].
      exists h, p. done.
    + destruct Hp as (h & p & _ & Hp). by exists p.
  - intros h fd (p & _ & Hp). by eapply Hf.
  - intros h h' fd (p & -> & Hp) (q & -> & Hq). by rewrite (Ha p q fd).
Qed.

(** [close] does not look at its own flag: called again, it closes whatever has the
    number by then, here the wrapper of another handle. *)
Theorem second_close_hits_another w h p x h' fd :
  handles w !! h = Some (Some p) -> heap w !! p = Some x -> _closed x = true -> _fd x = fd ->
  holds w h' fd -> fd ∈ open_fds w ->
  exists w', close_handle w h 0 = Ok (w', Ok tt) /\ holds w' h' fd /\ fd ∉ open_fds w'.
Proof.
  intros Hh Hp Hc Hfd (q & Hq & y & Hy & Hyc & Hyf) Hin. unfold close_handle.
  rewrite (proj2 (deref_spec w h p x)) by done. cbn [mbind outcome_bind].
  unfold sys_close. rewrite Hfd, bool_decide_eq_true_2 by done. cbn. eexists. split; [done|]. split.
  - exists q. split; [done|]. exists y. cbn. rewrite lookup_insert_ne; [done|]. intros ->. congruence.
  - cbn. set_solver.
Qed.

(** After a [close] that reported an error (the number is free then) the destructor
    closes the number again. *)
Theorem failed_close_is_repeated w h p x err :
  handles w !! h = Some (Some p) -> heap w !! p = Some x -> _closed x = false -> _fd x ∈ open_fds w -> err <> 0 ->
  exists w', close_handle w h err = Ok (w', Throw (unix_error "close" err)) /\ (_fd x ∉ open_fds w') /\
    closed w' h = Ok false.
Proof.
  intros Hh Hp Hc Hin Herr. unfold close_handle. rewrite (proj2 (deref_spec w h p x)) by done. cbn [mbind outcome_bind].
  assert (E : (err =? 0) = false) by lia. unfold sys_close. rewrite bool_decide_eq_true_2, E by done.
  unfold FileDescriptor.close, SystemCall. rewrite E. cbn. eexists. split; [done|]. split; [cbn; set_solver|].
  unfold closed. change (deref (set_open w _) h) with (deref w h). rewrite (proj2 (deref_spec w h p x)) by done.
  cbn. by rewrite Hc.
Qed.

(** ** A small run

    Descriptor 3 is opened and duplicated, and the first handle destroyed. *)
Definition run0 : gset Z * world := start {[0]}.
Definition or_else {A} (a : A) (o : outcome A) : A := match o with Ok a => a | _ => a end.
Definition run1 : world := Eval vm_compute in
  (or_else (run0.2, 1%positive) (FileDescriptor_new (set_open run0.2 ({[3]} ∪ open_fds run0.2)) 3)).1.
Definition run2 : world := Eval vm_compute in (or_else (run1, 1%positive) (duplicate run1 1)).1.
Definition run3 : world := Eval vm_compute in or_else run2 (FileDescriptor_destroy run2 1 0).

Lemma small_run : reach ({[0]}, run3).
Proof.
  exists {[0]}. eapply (rtc_l _ _ ({[0]}, run1)).
  { eapply (act_open _ _ 3); [lia|set_solver|vm_compute; reflexivity]. }
  eapply (rtc_l _ _ ({[0]}, run2)); [eapply (act_duplicate _ _ 1); vm_compute; reflexivity|].
  eapply (rtc_l _ _ ({[0]}, run3)); [eapply (act_destroy _ _ 1 0); vm_compute; reflexivity|apply rtc_refl].
Qed.

Lemma descriptors_owned_witness :
  (forall fd, fd ∈ open_fds run3 <-> fd ∈ ({[0]} : gset Z) \/ exists h, holds run3 h fd) /\
  (forall h fd, holds run3 h fd -> fd ∉ ({[0]} : gset Z)) /\
  (forall h h' fd, holds run3 h fd -> holds run3 h' fd -> handles run3 !! h = handles run3 !! h').
Proof. apply (descriptors_owned {[0]} run3 small_run). Defined.

(** The duplicate still holds number 3. *)
Example shared_until_the_end : 3 ∈ open_fds run3 /\ closed run3 2 = Ok false.
Proof. split; [by apply (bool_decide_unpack _); vm_compute|by vm_compute]. Qed.
