(* ===== verification/EventLoop.v ===== *)
(** * The event loop

    Model of [libsponge/util/eventloop.hh] and [.cc].  The callbacks of the rules
    work on a shared world [W], which holds the file descriptors: [fd_state w n]
    is the object behind descriptor [n].  The answer of [::poll] is an argument. *)

From S2P Require Import Prelude Buffer Address FileDescriptor.

Inductive Direction := In | Out.

Definition POLLIN : Z := 1.
Definition POLLOUT : Z := 4.
Definition POLLERR : Z := 8.
Definition POLLHUP : Z := 16.
Definition POLLNVAL : Z := 32.
Definition EINTR : Z := 4.

(** The enumerators' values *)
Definition direction_events (d : Direction) : Z := match d with In => POLLIN | Out => POLLOUT end.

#[global] Instance Direction_eq_dec : EqDecision Direction.
Proof. solve_decision. Defined.

Inductive Result := Success | Timeout | Exit.

Record pollfd := mkPollfd { pfd : Z; events : Z; revents : Z }.

Class Fds (W : Type) := fd_state : W -> nat -> FDWrapper.

(** Callbacks may throw; an [interest] only looks at the world. *)
Record Rule (W : Type) := mkRule {
  fd : nat;
  direction : Direction;
  callback : W -> outcome W;
  interest : W -> bool;
  cancel : W -> outcome W
}.
Arguments mkRule {W} _ _ _ _ _.
Arguments fd {W} _.
Arguments direction {W} _.
Arguments callback {W} _ _.
Arguments interest {W} _ _.
Arguments cancel {W} _ _.

Section code.
  Context {W : Type} `{Fds W}.

Definition service_count (r : Rule W) (w : W) : Z :=
  if bool_decide (direction r = In) then _read_count (fd_state w (fd r))
  else _write_count (fd_state w (fd r)).

(** [fd.duplicate()] shares the object, so the rule refers to the same number. *)
Definition add_rule (rules : list (Rule W)) (r : Rule W) : list (Rule W) := rules ++ [r].

(** The first loop of [wait_next_event]: defunct rules are cancelled and erased,
    the others get an entry for [poll]. *)
Fixpoint setup (rules : list (Rule W)) (w : W) : outcome (list (Rule W) * list pollfd * bool * W) :=
  match rules with
  | [] => mret ([], [], false, w)
  | r :: rest =>
      if bool_decide (direction r = In) && _eof (fd_state w (fd r)) then
        w ← cancel r w; setup rest w
      else if _closed (fd_state w (fd r)) then
        w ← cancel r w; setup rest w
      else
        let interested := interest r w in
        let p := mkPollfd (_fd (fd_state w (fd r)))
                   (if interested then direction_events (direction r) else 0) 0 in
        '(rest, ps, something, w) ← setup rest w;
        mret (r :: rest, p :: ps, interested || something, w)
  end.

Definition has (flags mask : Z) : bool := negb (Z.land flags mask =? 0).

(** The second loop, over the rules and the entries side by side; an entry that
    is not there is read past the end of the vector. *)
Fixpoint results (rules : list (Rule W)) (ps : list pollfd) (w : W) : outcome (list (Rule W) * W) :=
  match rules, ps with
  | [], _ => mret ([], w)
  | _ :: _, [] => UB
  | r :: rest, p :: ps =>
      if has (revents p) (Z.lor POLLERR POLLNVAL) then
        Throw (runtime_error "EventLoop: error on polled file descriptor")
      else
        let poll_ready := has (revents p) (events p) in
        let poll_hup := has (revents p) POLLHUP in
        if poll_hup && negb (events p =? 0) && negb poll_ready then
          w ← cancel r w; results rest ps w
        else
          w ← (if poll_ready then
                 let count_before := service_count r w in
                 w ← callback r w;
                 if (count_before =? service_count r w) && interest r w then
                   Throw (runtime_error
                     "EventLoop: busy wait detected: callback did not read/write fd and is still interested")
                 else mret w
               else mret w);
          '(rest, w) ← results rest ps w;
          mret (r :: rest, w)
  end.

(** The answer of [poll]: an errno, or its return value and what it stored in
    the [revents] members. *)
Definition set_revents (ps : list pollfd) (rs : list Z) : list pollfd :=
  zip_with (fun p r => mkPollfd (pfd p) (events p) r) ps rs.

Definition wait_next_event (rules : list (Rule W)) (w : W) (poll : list pollfd -> Z + Z * list Z) :
    outcome (Result * list (Rule W) * W) :=
  '(rules, ps, something_to_poll, w) ← setup rules w;
  if negb something_to_poll then mret (Exit, rules, w)
  else
    match poll ps with
    | inl errno =>
        match SystemCall "poll" (-1) errno 0 with
        | Ok _ => '(rules, w) ← results rules ps w; mret (Success, rules, w)
        | Throw (unix_error _ e) =>
            if e =? EINTR then mret (Exit, rules, w)
            else '(rules, w) ← results rules ps w; mret (Success, rules, w)
        | Throw e => Throw e
        | UB => UB
        end
    | inr (n, rs) =>
        if n =? 0 then mret (Timeout, rules, w)
        else '(rules, w) ← results rules (set_revents ps rs) w; mret (Success, rules, w)
    end.
End code.

Lemma sublist_Forall {A} (P : A -> Prop) l k : l `sublist_of` k -> Forall P k -> Forall P l.
Proof. induction 1; intros Hk; inversion Hk; subst; auto. Qed.

Lemma elem_of_sublist {A} (x : A) l k : l `sublist_of` k -> x ∈ l -> x ∈ k.
Proof. induction 1; rewrite ?elem_of_cons; tauto. Qed.

Lemma set_revents_Forall (P : Z -> Prop) ps : forall rs,
  Forall P rs -> Forall (fun p => P (revents p)) (set_revents ps rs).
Proof.
  induction ps as [|p ps IH]; intros [|r rs] Hr; constructor; inversion Hr; subst; [done|by apply IH].
Qed.

(** ** Rules that keep the contract

    [Inv] holds of the world between callbacks.  The documentation of
    [wait_next_event] asks every callback to read or write its descriptor or to
    lose interest. *)
Section contract.
  Context {W : Type} `{Fds W} (Inv : W -> Prop).

Record rule_ok (r : Rule W) : Prop := {
  ro_callback w : Inv w -> exists w', callback r w = Ok w' /\ Inv w' /\
    (service_count r w' <> service_count r w \/ interest r w' = false);
  ro_cancel w : Inv w -> exists w', cancel r w = Ok w' /\ Inv w'
}.

(** [poll] fills in one entry per descriptor and reports no error on any. *)
Definition no_poll_error (poll : list pollfd -> Z + Z * list Z) : Prop :=
  forall ps, match poll ps with
             | inl errno => 0 < errno
             | inr (n, rs) => length rs = length ps /\
                 Forall (fun r => has r (Z.lor POLLERR POLLNVAL) = false) rs
             end.

Lemma setup_ok rules : forall w,
  Forall rule_ok rules -> Inv w ->
  exists rules' ps something w', setup rules w = Ok (rules', ps, something, w') /\ Inv w' /\
    rules' `sublist_of` rules /\ length ps = length rules' /\
    Forall (fun p => revents p = 0) ps /\
    something = existsb (fun p => negb (events p =? 0)) ps.
Proof.
  induction rules as [|r rest IH]; intros w Hr Hw; cbn [setup].
  { by eexists [], [], false, w. }
  inversion Hr as [|? ? Hro Hrest]; subst.
  assert (Hcancel : exists rules' ps something w',
    (w ← cancel r w; setup rest w) = Ok (rules', ps, something, w') /\ Inv w' /\
    rules' `sublist_of` r :: rest /\ length ps = length rules' /\
    Forall (fun p => revents p = 0) ps /\ something = existsb (fun p => negb (events p =? 0)) ps).
  { destruct (ro_cancel _ Hro w Hw) as (w1 & -> & Hw1). cbn [mbind outcome_bind].
    destruct (IH w1 Hrest Hw1) as (rules' & ps & b & w' & -> & Hw' & Hs & Hl).
    exists rules', ps, b, w'. split; [done|]. split; [done|]. split; [by apply sublist_cons|done]. }
  case_bool; [done|]. case_bool; [done|].
  destruct (IH w Hrest Hw) as (rules' & ps & b & w' & -> & Hw' & Hs & Hl & Hp & ->). cbn [mbind outcome_bind].
  eexists _, _, _, w'. split; [reflexivity|]. split_and!; try done.
  - by apply sublist_skip.
  - simpl. by rewrite Hl.
  - by constructor.
  - simpl. by destruct (interest r w), (direction r).
Qed.

Lemma results_ok rules : forall ps w,
  Forall rule_ok rules -> Inv w -> length ps = length rules ->
  Forall (fun p => has (revents p) (Z.lor POLLERR POLLNVAL) = false) ps ->
  exists rules' w', results rules ps w = Ok (rules', w') /\ Inv w' /\ rules' `sublist_of` rules.
Proof.
  induction rules as [|r rest IH]; intros ps w Hr Hw Hl Hp; cbn [results].
  { by exists [], w. }
  destruct ps as [|p ps]; [done|]. inversion Hr as [|? ? Hro Hrest]; subst.
  inversion Hp as [|? ? Hpe Hps]; subst. rewrite Hpe. simpl in Hl. simplify_eq.
  case_bool.
  { destruct (ro_cancel _ Hro w Hw) as (w1 & -> & Hw1). cbn [mbind outcome_bind].
    destruct (IH ps w1 Hrest Hw1) as (rules' & w' & -> & Hw' & Hs); [done..|].
    exists rules', w'. split_and!; [done..|]. by apply sublist_cons. }
  set (c := if has _ _ then _ else _).
  assert (exists w1, c = Ok w1 /\ Inv w1) as (w1 & -> & Hw1).
  { unfold c. case_bool; [|by exists w].
    destruct (ro_callback _ Hro w Hw) as (w1 & -> & Hw1 & Hs). cbn [mbind outcome_bind].
    exists w1. split; [|done]. destruct Hs as [Hs|Hs].
    - by rewrite (proj2 (Z.eqb_neq _ _)) by done.
    - by rewrite Hs, andb_false_r. }
  cbn [mbind outcome_bind]. destruct (IH ps w1 Hrest Hw1) as (rules' & w' & -> & Hw' & Hs); [done..|].
  exists (r :: rules'), w'. split_and!; [done..|]. by apply sublist_skip.
Qed.
End contract.

Ltac in_app := rewrite ?elem_of_app, ?elem_of_cons, ?elem_of_nil; tauto.

(** ** Rules that may fail

    For rules whose callbacks may throw.  [Inv0 l w] holds of the world [w] while
    the first loop looks at the rules [l], [Inv l w] in the second.  [armed l r w] is
    what the callback of [r] may rely on beside the invariant: it holds when the rule
    is interested, and what the other rules do before its turn keeps it.  [may_hup] are the
    rules whose descriptor may hang up without being ready. *)
Section phases.
  Context {W : Type} `{Fds W} (Inv0 Inv : list (Rule W) -> W -> Prop)
    (armed : list (Rule W) -> Rule W -> W -> Prop) (may_hup : Rule W -> Prop) (E : fault -> Prop).

Definition ends {A} (c : outcome A) (Q : A -> Prop) : Prop :=
  match c with Ok a => Q a | Throw e => E (Thrown e) | UB => E Undefined end.

Lemma ends_bind {A B} (c : outcome A) (f : A -> outcome B) (P : A -> Prop) (Q : B -> Prop) :
  ends c P -> (forall a, P a -> ends (f a) Q) -> ends (c ≫= f) Q.
Proof. destruct c; simpl; auto. Qed.

Lemma ends_mono {A} (c : outcome A) (P Q : A -> Prop) :
  ends c P -> (forall a, P a -> Q a) -> ends c Q.
Proof. destruct c; simpl; auto. Qed.

(** A call that fails only as [E] allows, with what is known of its value. *)
Lemma ends_step {A B} (c : outcome A) (f : A -> outcome B) (Q : B -> Prop) :
  (forall e, fails c e -> E e) -> (forall a, c = Ok a -> ends (f a) Q) -> ends (c ≫= f) Q.
Proof. intros Ht Hf. destruct c as [a|e|]; [by apply Hf|by apply Ht|by apply Ht]. Qed.

Lemma ends_eq {A} (c : outcome A) (Q : A -> Prop) a : ends c Q -> c = Ok a -> Q a.
Proof. by intros Hc ->. Qed.

(** What makes the first loop erase a rule *)
Definition defunct (r : Rule W) (w : W) : bool :=
  bool_decide (direction r = In) && _eof (fd_state w (fd r)) || _closed (fd_state w (fd r)).

(** What a rule owes to the first loop, and to the second *)
Record polled (r : Rule W) : Prop := {
  po_interest l w : r ∈ l -> Inv0 l w -> defunct r w = false -> interest r w = true -> armed l r w;
  po_cancel pre post w : Inv0 (pre ++ r :: post) w -> defunct r w = true -> ends (cancel r w) (Inv0 (pre ++ post))
}.

Record served (r : Rule W) : Prop := {
  se_callback l w : r ∈ l -> Inv l w -> armed l r w ->
    ends (callback r w) (fun w' => Inv l w' /\
      (service_count r w' <> service_count r w \/ interest r w' = false));
  se_cancel pre post w : may_hup r -> Inv (pre ++ r :: post) w -> ends (cancel r w) (Inv (pre ++ post))
}.

(** A rule stays armed when a later one is cancelled in the first loop, and whatever
    an earlier one does in the second. *)
Definition steady (r r' : Rule W) : Prop :=
  forall pre post w w', r ∈ pre ++ post -> Inv0 (pre ++ r' :: post) w -> defunct r' w = true ->
    armed (pre ++ r' :: post) r w -> cancel r' w = Ok w' -> armed (pre ++ post) r w'.

Record awaits (r r' : Rule W) : Prop := {
  aw_callback l w w' : r ∈ l -> r' ∈ l -> Inv l w -> armed l r w -> armed l r' w ->
    callback r' w = Ok w' -> armed l r w';
  aw_cancel pre post w w' : r ∈ pre ++ post -> may_hup r' -> Inv (pre ++ r' :: post) w ->
    armed (pre ++ r' :: post) r w -> cancel r' w = Ok w' -> armed (pre ++ post) r w'
}.

Record contract (rules : list (Rule W)) : Prop := {
  co_polled : Forall polled rules;
  co_served : Forall served rules;
  co_steady : ForallOrdPairs steady rules;
  co_awaits : ForallOrdPairs (fun r r' => awaits r' r) rules
}.

Lemma pairs_sublist {A} (R : A -> A -> Prop) l k : l `sublist_of` k -> ForallOrdPairs R k -> ForallOrdPairs R l.
Proof.
  induction 1 as [|r l k Hs IH|r l k Hs IH]; intros Hc; [done|..]; inversion Hc; subst; [|by apply IH].
  constructor; [by eapply sublist_Forall|by apply IH].
Qed.

Lemma contract_sublist l k : l `sublist_of` k -> contract k -> contract l.
Proof.
  intros Hs [? ? ? ?]. constructor; try (by eapply sublist_Forall); by eapply pairs_sublist.
Qed.

(** The rules that are polled are armed, and polled for their direction. *)
Definition all_armed (l : list (Rule W)) (w : W) : list (Rule W) -> list pollfd -> Prop :=
  Forall2 (fun r p => events p <> 0 -> events p = direction_events (direction r) /\ armed l r w).

Lemma all_armed_mono l l' w w' rules ps :
  all_armed l w rules ps -> (forall r, r ∈ rules -> armed l r w -> armed l' r w') ->
  all_armed l' w' rules ps.
Proof.
  unfold all_armed. induction 1 as [|r p rules ps Hp Hps IH]; intros Hst; constructor.
  - intros He. destruct (Hp He) as [? ?]. split; [done|]. apply Hst; [by left|done].
  - apply IH. intros r0 Hin. apply Hst. by right.
Qed.

(** [pre] are the rules the loop has passed and kept. *)
Lemma setup_ends rules : forall pre w,
  Forall polled rules -> ForallOrdPairs steady rules -> Inv0 (pre ++ rules) w ->
  ends (setup rules w) (fun x => let '(rules', ps, something, w') := x in
    Inv0 (pre ++ rules') w' /\ rules' `sublist_of` rules /\ all_armed (pre ++ rules') w' rules' ps /\
    Forall (fun p => revents p = 0) ps /\
    (forall r, r ∈ pre -> Forall (steady r) rules -> armed (pre ++ rules) r w ->
       armed (pre ++ rules') r w')).
Proof.
  induction rules as [|r rest IH]; intros pre w Hr Hc Hw; cbn [setup].
  { simpl. split_and!; (done || constructor). }
  inversion Hr as [|? ? Hro Hrest]; subst. inversion Hc as [|? ? Hcr Hcrest]; subst.
  assert (Hcancel : defunct r w = true ->
    ends (w ← cancel r w; setup rest w) (fun x => let '(rules', ps, something, w') := x in
    Inv0 (pre ++ rules') w' /\ rules' `sublist_of` r :: rest /\ all_armed (pre ++ rules') w' rules' ps /\
    Forall (fun p => revents p = 0) ps /\
    (forall r0, r0 ∈ pre -> Forall (steady r0) (r :: rest) -> armed (pre ++ r :: rest) r0 w ->
       armed (pre ++ rules') r0 w'))).
  { intros Hd. pose proof (po_cancel _ Hro pre rest w Hw Hd) as Hcan.
    destruct (cancel r w) as [w1| |] eqn:Ecan; try done.
    simpl in Hcan. cbn [mbind outcome_bind]. eapply ends_mono; [by apply IH|].
    intros [[[rules' ps] b] w'] (Hw' & Hs & Har & Hz & Hk). split_and!; try done; [by apply sublist_cons|].
    intros r0 Hin Hu Ha. inversion Hu as [|? ? Hur Hur']; subst. apply Hk; [done..|].
    eapply Hur; [|exact Hw|exact Hd|exact Ha|exact Ecan]. apply elem_of_app. by left. }
  unfold defunct in Hcancel. case_bool; [by apply Hcancel|]. case_bool; [by apply Hcancel|]. clear Hcancel.
  assert (Hpre : forall l, pre ++ r :: l = (pre ++ [r]) ++ l) by (intros; by rewrite <- app_assoc).
  eapply ends_bind; [apply (IH (pre ++ [r])); try done; by rewrite <- Hpre|].
  intros [[[rules' ps] b] w'] (Hw' & Hs & Har & Hz & Hk). simpl. rewrite (Hpre rules'), (Hpre rest). split_and!; try done.
  - by apply sublist_skip.
  - constructor; [|done]. simpl. intros He. split; [by destruct (interest r w)|]. apply Hk; [in_app|done|].
    apply (po_interest _ Hro); [in_app|by rewrite <- Hpre| |by destruct (interest r w)].
    unfold defunct. by apply orb_false_iff.
  - by constructor.
  - intros r0 Hin Hu. inversion Hu; subst. apply Hk; [in_app|done].
Qed.

(** What the second loop takes for a descriptor that has hung up *)
Definition hung_up (p : pollfd) : bool :=
  has (revents p) POLLHUP && negb (events p =? 0) && negb (has (revents p) (events p)).

(** Only rules in [may_hup] hang up. *)
Definition hup_ok (p : pollfd) : Prop :=
  forall r, events p = direction_events (direction r) -> hung_up p = true -> may_hup r.

Context (Hpoll_error : E (Thrown (runtime_error "EventLoop: error on polled file descriptor"))).

Lemma results_ends rules : forall pre ps w,
  Forall served rules -> ForallOrdPairs (fun r r' => awaits r' r) rules -> Inv (pre ++ rules) w ->
  all_armed (pre ++ rules) w rules ps -> Forall hup_ok ps ->
  ends (results rules ps w) (fun x => Inv (pre ++ x.1) x.2 /\ x.1 `sublist_of` rules).
Proof.
  induction rules as [|r rest IH]; intros pre ps w Hr Hc Hw Har Hhup; cbn [results]; [done|].
  inversion Har as [|? p ? ps' Hp Hps]; subst. inversion Hr as [|? ? Hro Hrest]; subst.
  inversion Hc as [|? ? Hcr Hcrest]; subst. inversion Hhup as [|? ? Hh Hhups]; subst. case_bool; [done|].
  assert (Hpre : forall l, pre ++ r :: l = (pre ++ [r]) ++ l) by (intros; by rewrite <- app_assoc).
  assert (Hin : forall l, r ∈ pre ++ r :: l) by (intros; in_app).
  assert (Hkeep : forall l' w1, (forall r0, r0 ∈ rest -> awaits r0 r -> armed (pre ++ r :: rest) r0 w ->
    armed l' r0 w1) -> all_armed l' w1 rest ps').
  { intros l' w1 Hst. eapply all_armed_mono; [exact Hps|]. intros r0 Hin0. apply Hst; [done|].
    by apply (proj1 (list.Forall_forall _ _) Hcr). }
  case_bool.
  { assert (Hm : may_hup r).
    { assert (events p <> 0) as Hne by (intros Ez; rewrite Ez in *; by rewrite andb_false_r in *).
      apply Hh; [by apply Hp|done]. }
    pose proof (se_cancel _ Hro pre rest w Hm Hw) as Hcan. destruct (cancel r w) as [w1| |] eqn:Ecan; try done.
    cbn [mbind outcome_bind]. eapply ends_mono; [apply (IH pre); try done|].
    - apply Hkeep. intros r0 Hr0 Hu Ha. eapply (aw_cancel _ _ Hu); [|exact Hm|exact Hw|exact Ha|exact Ecan]. in_app.
    - intros [rules' w'] [? ?]. split; [done|]. by apply sublist_cons. }
  assert (Hnext : forall w1, Inv (pre ++ r :: rest) w1 -> all_armed (pre ++ r :: rest) w1 rest ps' ->
    ends ('(rest, w) ← results rest ps' w1; mret (r :: rest, w))
      (fun x => Inv (pre ++ x.1) x.2 /\ x.1 `sublist_of` r :: rest)).
  { intros w1 Hw1 Ha1. rewrite Hpre in Hw1, Ha1. eapply ends_bind; [by apply (IH (pre ++ [r]))|].
    intros [rules' w'] [? ?]. simpl in *. rewrite Hpre. split; [done|]. by apply sublist_skip. }
  case_bool; cbn [mbind outcome_bind mret outcome_ret]; [|by apply Hnext].
  assert (Ha : armed (pre ++ r :: rest) r w).
  { apply Hp. intros Ez. unfold has in *. rewrite Ez, Z.land_0_r in *. done. }
  pose proof (se_callback _ Hro _ w (Hin rest) Hw Ha) as Hcb. destruct (callback r w) as [w1| |] eqn:Ecb; try done.
  simpl in Hcb. destruct Hcb as [Hw1 Hs]. cbn [mbind outcome_bind].
  replace ((service_count r w =? service_count r w1) && interest r w1) with false.
  - apply Hnext; [done|]. apply Hkeep. intros r0 Hr0 Hu Ha0.
    eapply (aw_callback _ _ Hu); [|apply Hin|exact Hw|exact Ha0|exact Ha|exact Ecb]. in_app.
  - symmetry. apply andb_false_iff. destruct Hs as [Hs|Hs]; [left|by right]. by apply Z.eqb_neq.
Qed.

(** [poll] fills in one entry per descriptor. *)
Definition poll_fills (poll : list pollfd -> Z + Z * list Z) : Prop :=
  forall ps, match poll ps with
             | inl errno => 0 < errno
             | inr (n, rs) => length rs = length ps /\ Forall hup_ok (set_revents ps rs)
             end.

(** One round with rules that may fail: the loop itself adds only the error of a
    polled descriptor. *)
Lemma round_ends rules w poll :
  contract rules -> (forall l w, Inv0 l w -> Inv l w) -> Inv0 rules w -> poll_fills poll ->
  ends (wait_next_event rules w poll) (fun x => let '(res, rules', w') := x in
    Inv rules' w' /\ rules' `sublist_of` rules).
Proof.
  intros Hr Hinv Hw Hpoll. unfold wait_next_event. eapply ends_bind; [by apply (setup_ends rules []), Hw; apply Hr|].
  intros [[[rules1 ps] b] w1] (Hw1%Hinv & Hs & Har & Hz & _). simpl in Hw1, Har. case_bool; [done|].
  pose proof (contract_sublist _ _ Hs Hr) as Hr1.
  assert (Hdone : forall ps', all_armed rules1 w1 rules1 ps' -> Forall hup_ok ps' ->
    ends ('(rules, w) ← results rules1 ps' w1; mret (Success, rules, w))
      (fun x => let '(res, rules', w') := x in Inv rules' w' /\ rules' `sublist_of` rules)).
  { intros ps' Ha Hh. eapply ends_bind; [by apply (results_ends rules1 []); try apply Hr1|]. intros [rules' w'] [? ?].
    split; [done|]. by etrans. }
  specialize (Hpoll ps). destruct (poll ps) as [errno|[n rs]].
  - unfold SystemCall. rewrite (proj2 (Z.eqb_neq errno 0)) by lia. change (-1 >=? 0) with false.
    cbn [orb]. case_bool; [done|]. apply Hdone; [done|]. eapply Forall_impl; [exact Hz|].
    intros p E0 r _. unfold hung_up, has. rewrite E0, Z.land_0_l. done.
  - destruct Hpoll as [Hpoll Hh]. case_bool; [done|]. apply Hdone; [|done]. clear Hh. unfold all_armed, set_revents in *.
    revert rs Hpoll. clear -Har. revert Har. generalize (armed rules1) as P. intros P Har.
    induction Har as [|r p l k Hp Har IH]; intros [|e rs] Hl; try done.
    constructor; [done|]. apply IH. simpl in Hl. lia.
Qed.
End phases.

(** *** One invariant for both loops

    For rules that do not need to know in which loop and before whom they run. *)
Section partial.
  Context {W : Type} `{Fds W} (Inv : list (Rule W) -> W -> Prop)
    (armed : list (Rule W) -> Rule W -> W -> Prop) (E : fault -> Prop).

Record rule_sat (r : Rule W) : Prop := {
  rs_interest l w : r ∈ l -> Inv l w -> defunct r w = false -> interest r w = true -> armed l r w;
  rs_callback l w : r ∈ l -> Inv l w -> armed l r w ->
    ends E (callback r w) (fun w' => Inv l w' /\
      (service_count r w' <> service_count r w \/ interest r w' = false));
  rs_cancel pre post w : Inv (pre ++ r :: post) w -> ends E (cancel r w) (Inv (pre ++ post))
}.

(** What [r'] does leaves [r] armed. *)
Record undisturbed (r r' : Rule W) : Prop := {
  ud_callback l w w' : r ∈ l -> r' ∈ l -> Inv l w -> armed l r w -> armed l r' w ->
    callback r' w = Ok w' -> armed l r w';
  ud_cancel pre post w w' : r ∈ pre ++ post -> Inv (pre ++ r' :: post) w ->
    armed (pre ++ r' :: post) r w -> cancel r' w = Ok w' -> armed (pre ++ post) r w'
}.

Definition compatible : list (Rule W) -> Prop :=
  ForallOrdPairs (fun r r' => undisturbed r r' /\ undisturbed r' r).

Lemma compatible_sublist rules rules' :
  rules' `sublist_of` rules -> compatible rules -> compatible rules'.
Proof. apply pairs_sublist. Qed.

Lemma pairs_impl {A} (R R' : A -> A -> Prop) l :
  (forall x y, R x y -> R' x y) -> ForallOrdPairs R l -> ForallOrdPairs R' l.
Proof.
  intros HR. induction 1 as [|x l Hx Hl IH]; [constructor|]. constructor; [by eapply Forall_impl; [|apply HR]|done].
Qed.

Lemma compatible_contract rules :
  Forall rule_sat rules -> compatible rules -> contract Inv Inv armed (fun _ => True) E rules.
Proof.
  intros Hr Hc. constructor.
  - eapply Forall_impl; [exact Hr|]. intros r [? ? ?]. constructor; [done|]. intros. by auto.
  - eapply Forall_impl; [exact Hr|]. intros r [? ? ?]. constructor; [done|]. intros. by auto.
  - eapply pairs_impl; [|exact Hc]. intros r r' [[_ Hu] _] pre post w w' Hin Hw _. by apply Hu.
  - eapply pairs_impl; [|exact Hc]. intros r r' [_ [Hu1 Hu2]]. constructor; [done|]. intros; by eapply Hu2.
Qed.

Lemma wait_next_event_ends rules w poll :
  E (Thrown (runtime_error "EventLoop: error on polled file descriptor")) ->
  Forall rule_sat rules -> compatible rules -> Inv rules w ->
  (forall ps, match poll ps with inl errno => 0 < errno | inr (n, rs) => length rs = length ps end) ->
  ends E (wait_next_event rules w poll) (fun x => let '(res, rules', w') := x in
    Inv rules' w' /\ rules' `sublist_of` rules).
Proof.
  intros He Hr Hc Hw Hpoll. apply (round_ends Inv Inv armed (fun _ => True)); [done|by apply compatible_contract|done..|].
  intros ps. specialize (Hpoll ps). destruct (poll ps) as [|[n rs]]; [done|]. split; [done|]. by apply Forall_true.
Qed.
End partial.

(** ** Leaving the loop *)

Section idle.
  Context {W : Type} `{Fds W}.

(** The cancellation of a later rule does not touch the interest of an earlier one. *)
Definition interests_kept : list (Rule W) -> Prop :=
  ForallOrdPairs (fun r r' => forall w w', cancel r' w = Ok w' -> interest r w' = interest r w).

Lemma setup_idle rules : forall w rules' ps w',
  interests_kept rules -> setup rules w = Ok (rules', ps, false, w') ->
  rules' `sublist_of` rules /\ Forall (fun r => interest r w' = false) rules' /\
  (forall r, Forall (fun r' => forall w w', cancel r' w = Ok w' -> interest r w' = interest r w) rules ->
     interest r w' = interest r w).
Proof.
  induction rules as [|r rest IH]; intros w rules' ps w' Hk; cbn [setup].
  { by intros [= <- <- <-]. }
  inversion Hk as [|? ? Hkr Hkrest]; subst.
  assert (Hcancel : (w ← cancel r w; setup rest w) = Ok (rules', ps, false, w') ->
    rules' `sublist_of` r :: rest /\ Forall (fun r => interest r w' = false) rules' /\
    (forall r0, Forall (fun r' => forall w w', cancel r' w = Ok w' -> interest r0 w' = interest r0 w)
        (r :: rest) -> interest r0 w' = interest r0 w)).
  { destruct (cancel r w) as [w1| |] eqn:Ec; [|done..]. cbn [mbind outcome_bind]. intros E.
    apply IH in E as (Hs & Hi & Hst); [|done]. split_and!; [by apply sublist_cons|done|].
    intros r0 Hr0. inversion Hr0 as [|? ? H0 H1]; subst. rewrite <- (H0 _ _ Ec). by apply Hst. }
  case_bool; [done|]. case_bool; [done|].
  destruct (setup rest w) as [[[[rest' ps'] b] w1]| |] eqn:Es; [|done..].
  cbn [mbind outcome_bind mret outcome_ret]. intros [= <- _ Hb <-].
  apply orb_false_iff in Hb as [Hi ->]. apply IH in Es as (Hs & Hf & Hst); [|done].
  split_and!; [by apply sublist_skip| |].
  - constructor; [by rewrite Hst|done].
  - intros r0 Hr0. inversion Hr0; subst. by apply Hst.
Qed.

(** [Exit] without an interrupted [poll]: no rule is interested any more. *)
Lemma wait_next_event_exit rules w poll rules' w' :
  interests_kept rules -> (forall ps, poll ps <> inl EINTR) ->
  wait_next_event rules w poll = Ok (Exit, rules', w') -> Forall (fun r => interest r w' = false) rules'.
Proof.
  intros Hk Hp. unfold wait_next_event. destruct (setup rules w) as [[[[l ps] b] w1]| |] eqn:Es; [|done..].
  cbn [mbind outcome_bind]. destruct b; cbn [negb].
  - specialize (Hp ps). destruct (poll ps) as [errno|[n rs]].
    + unfold SystemCall. change (-1 >=? 0) with false. cbn [orb].
      assert (errno <> EINTR) by congruence.
      case_bool; [|rewrite (proj2 (Z.eqb_neq errno EINTR)) by done];
        destruct (results l ps w1) as [[? ?]| |]; done.
    + case_bool; [done|]. destruct (results _ _ _) as [[? ?]| |]; done.
  - intros [= <- <-]. by apply setup_idle in Es as (_ & Hi & _).
Qed.
End idle.

(** ** The reference round

    What a round means, without the checks of the code: of the rules that are
    left and their entries, the callback of a rule runs once if its descriptor
    is ready for it, in the order of the rules; a rule that waits for a
    descriptor which only hung up is cancelled and dropped. *)
Section reference.
  Context {W : Type} `{Fds W}.

Fixpoint serve (rules : list (Rule W)) (ps : list pollfd) (rs : list Z) (w : W) :
    outcome (list (Rule W) * W) :=
  match rules, ps, rs with
  | r :: rest, p :: ps, answer :: rs =>
      if has answer (events p) then
        w ← callback r w; '(rest, w) ← serve rest ps rs w; mret (r :: rest, w)
      else if negb (events p =? 0) && has answer POLLHUP then
        w ← cancel r w; serve rest ps rs w
      else '(rest, w) ← serve rest ps rs w; mret (r :: rest, w)
  | _, _, _ => mret ([], w)
  end.

(** The entry of a rule: its descriptor, and its direction if it is interested *)
Definition poll_entry (w : W) (r : Rule W) : pollfd :=
  mkPollfd (_fd (fd_state w (fd r))) (if interest r w then direction_events (direction r) else 0) 0.

Definition asks (p : pollfd) : bool := negb (events p =? 0).

Lemma setup_live rules w :
  Forall (fun r => defunct r w = false) rules ->
  setup rules w = Ok (rules, map (poll_entry w) rules, existsb asks (map (poll_entry w) rules), w).
Proof.
  induction 1 as [|r rest Hr _ IH]; cbn [setup map existsb]; [done|].
  apply orb_false_iff in Hr as [-> ->]. rewrite IH. cbn [mbind outcome_bind].
  change (asks (poll_entry w r)) with (negb ((if interest r w then direction_events (direction r) else 0) =? 0)).
  replace (poll_entry w r) with (mkPollfd (_fd (fd_state w (fd r)))
    (if interest r w then direction_events (direction r) else 0) 0) by done.
  by destruct (interest r w), (direction r).
Qed.

Lemma setup_entries rules : forall w rules' ps b w',
  setup rules w = Ok (rules', ps, b, w') ->
  Forall2 (fun r p => events p = 0 \/ events p = direction_events (direction r)) rules' ps.
Proof.
  induction rules as [|r rest IH]; intros w rules' ps b w'; cbn [setup]; [by intros [= <- <- _ _]|].
  destruct (_ && _); [intros (? & _ & E)%outcome_bind_ok; by eapply IH|].
  destruct (_closed _); [intros (? & _ & E)%outcome_bind_ok; by eapply IH|].
  intros ([[[l ps1] b1] w1] & E & [= <- <- _ _])%outcome_bind_ok. constructor; [|by eapply IH].
  simpl. destruct (interest r w); [by right|by left].
Qed.

Lemma results_idle rules : forall ps w,
  length ps = length rules -> Forall (fun p => revents p = 0) ps -> results rules ps w = Ok (rules, w).
Proof.
  induction rules as [|r rest IH]; intros [|p ps] w Hl Hp; try done. inversion Hp as [|? ? Hr Hps]; subst.
  simpl in Hl. cbn [results]. unfold has. rewrite Hr, !Z.land_0_l.
  cbn [Z.eqb negb andb mbind outcome_bind mret outcome_ret]. by rewrite IH by (done || lia).
Qed.

(** Rules that keep the contract pass the checks. *)
Lemma results_serve (Inv : W -> Prop) rules : forall ps rs w,
  Forall (rule_ok Inv) rules -> Inv w -> length ps = length rules -> length rs = length ps ->
  Forall (fun r => has r (Z.lor POLLERR POLLNVAL) = false) rs ->
  results rules (set_revents ps rs) w = serve rules ps rs w.
Proof.
  induction rules as [|r rest IH]; intros [|p ps] [|a rs] w Hr Hw Hl Hl' Hp; try done.
  inversion Hr as [|? ? Hro Hrest]; subst. inversion Hp as [|? ? Ha Hps]; subst.
  simpl in Hl, Hl'. simplify_eq.
  change (set_revents (p :: ps) (a :: rs)) with (mkPollfd (pfd p) (events p) a :: set_revents ps rs).
  cbn [results serve revents events]. rewrite Ha.
  destruct (has a (events p)) eqn:Hready; cbn [negb].
  - rewrite !andb_false_r. destruct (ro_callback _ _ Hro w Hw) as (w1 & -> & Hw1 & Hs). cbn [mbind outcome_bind].
    assert ((service_count r w =? service_count r w1) && interest r w1 = false) as ->.
    { destruct Hs as [Hs| ->]; [by rewrite (proj2 (Z.eqb_neq _ _)) by done|by rewrite andb_false_r]. }
    cbn [mbind outcome_bind mret outcome_ret]. by rewrite IH.
  - rewrite andb_true_r, andb_comm. case_bool.
    + destruct (ro_cancel _ _ Hro w Hw) as (w1 & -> & Hw1). cbn [mbind outcome_bind]. by apply IH.
    + cbn [mbind outcome_bind mret outcome_ret]. by rewrite IH.
Qed.

Lemma serve_ok (Inv : W -> Prop) rules : forall ps rs w,
  Forall (rule_ok Inv) rules -> Inv w ->
  exists rules' w', serve rules ps rs w = Ok (rules', w') /\ Inv w' /\ rules' `sublist_of` rules.
Proof.
  induction rules as [|r rest IH]; intros [|p ps] [|a rs] w Hr Hw; cbn [serve];
    try (eexists [], w; split; [reflexivity|]; split; [done|apply sublist_nil_l]).
  inversion Hr as [|? ? Hro Hrest]; subst. case_bool; [|case_bool].
  - destruct (ro_callback _ _ Hro w Hw) as (w1 & -> & Hw1 & _). cbn [mbind outcome_bind].
    destruct (IH ps rs w1 Hrest Hw1) as (l & w' & -> & Hw' & Hs). cbn [mbind outcome_bind].
    eexists _, w'. split; [reflexivity|]. split; [done|by apply sublist_skip].
  - destruct (ro_cancel _ _ Hro w Hw) as (w1 & -> & Hw1). cbn [mbind outcome_bind].
    destruct (IH ps rs w1 Hrest Hw1) as (l & w' & -> & Hw' & Hs). exists l, w'. split; [done|].
    split; [done|by apply sublist_cons].
  - destruct (IH ps rs w Hrest Hw) as (l & w' & -> & Hw' & Hs). cbn [mbind outcome_bind].
    eexists _, w'. split; [reflexivity|]. split; [done|by apply sublist_skip].
Qed.
End reference.

(** ** Properties *)

(** C33. One round of the loop, for rules that keep the contract of
    [wait_next_event] (every callback returns, and has read or written its descriptor
    or lost interest; cancellations return) and a [poll] that reports neither
    POLLERR nor POLLNVAL: the call returns and keeps the invariant of the
    world.  The entries ask for the direction of the interested rules, and when no
    descriptor is closed or at its end, all rules are polled in order.
    [Exit] is returned when no entry asks for anything or a signal
    interrupts [poll], any other error of [poll] is taken for a success in which
    nothing is ready, [Timeout] is returned when [poll] returns 0, and in these
    cases no callback runs; otherwise the second loop does exactly what the
    reference round does, its index never out of range and its check for a busy
    wait never failing. *)
Theorem event_loop_step {W} `{Fds W} (Inv : W -> Prop) rules w poll :
  Forall (rule_ok Inv) rules -> Inv w -> no_poll_error poll ->
  exists rules1 ps w1 res rules' w', wait_next_event rules w poll = Ok (res, rules', w') /\
    rules1 `sublist_of` rules /\ rules' `sublist_of` rules1 /\ Inv w1 /\ Inv w' /\
    Forall2 (fun r p => events p = 0 \/ events p = direction_events (direction r)) rules1 ps /\
    (Forall (fun r => defunct r w = false) rules ->
       rules1 = rules /\ w1 = w /\ ps = map (poll_entry w) rules) /\
    if existsb asks ps then
      match poll ps with
      | inl errno => res = (if errno =? EINTR then Exit else Success) /\ rules' = rules1 /\ w' = w1
      | inr (n, rs) =>
          if n =? 0 then res = Timeout /\ rules' = rules1 /\ w' = w1
          else res = Success /\ serve rules1 ps rs w1 = Ok (rules', w')
      end
    else res = Exit /\ rules' = rules1 /\ w' = w1.
Proof.
  intros Hr Hw Hpoll. unfold wait_next_event.
  destruct (setup_ok Inv rules w Hr Hw) as (rules1 & ps & b & w1 & E & Hw1 & Hs & Hl & Hp & Hb). rewrite E.
  assert (Hlive : Forall (fun r => defunct r w = false) rules ->
    rules1 = rules /\ w1 = w /\ ps = map (poll_entry w) rules).
  { intros Hd. rewrite (setup_live _ _ Hd) in E. by simplify_eq. }
  pose proof (setup_entries _ _ _ _ _ _ E) as Hev. subst b. fold asks.
  assert (Hr1 : Forall (rule_ok Inv) rules1) by (by eapply sublist_Forall).
  cbn [mbind outcome_bind]. exists rules1, ps, w1. destruct (existsb asks ps); cbn [negb].
  2: { exists Exit, rules1, w1. by split_and!. }
  specialize (Hpoll ps). destruct (poll ps) as [errno|[n rs]].
  - unfold SystemCall. rewrite (proj2 (Z.eqb_neq errno 0)) by lia. change (-1 >=? 0) with false. cbn [orb].
    rewrite results_idle by done. exists (if errno =? EINTR then Exit else Success), rules1, w1.
    case_bool; by split_and!.
  - destruct Hpoll as [Hlr Hrs]. case_bool; [by exists Timeout, rules1, w1; split_and!|].
    rewrite (results_serve Inv) by done.
    destruct (serve_ok Inv rules1 ps rs w1 Hr1 Hw1) as (rules' & w' & -> & Hw' & Hs').
    exists Success, rules', w'. by split_and!.
Qed.

(** ** A sample world: one descriptor and the bytes waiting on it *)

Record sample := mkSample { sample_fd : FDWrapper; waiting : list byte }.

#[global] Instance sample_fds : Fds sample := fun w _ => sample_fd w.

Definition sample_read (w : sample) : outcome sample :=
  '(d, _) ← FileDescriptor.read (sample_fd w) 10 (inr (take 10 (waiting w)));
  mret (mkSample d (drop 10 (waiting w))).

Definition sample_rule : Rule sample :=
  mkRule 0 In sample_read (fun _ => true) mret.

Lemma sample_rule_ok :
  rule_ok (fun w => 0 <= _read_count (sample_fd w) < 2 ^ 32) sample_rule.
Proof.
  split; intros w Hw; [|by exists w]. cbn [callback sample_rule]. unfold sample_read, FileDescriptor.read.
  assert (Hl : len (take 10 (waiting w)) <= 10) by (rewrite length_take; lia).
  unfold SystemCall. rewrite Z.geb_leb, (proj2 (Z.leb_le 0 _)) by lia. cbn [orb mbind outcome_bind mret outcome_ret].
  change (Z.min BUFFER_SIZE 10) with 10. change (10 >? 0) with true. rewrite Z.gtb_ltb, (proj2 (Z.ltb_ge 10 _)) by lia.
  cbn [mbind outcome_bind mret outcome_ret]. eexists. split; [reflexivity|]. cbn [sample_fd register_read _read_count].
  split; [apply u32_range|]. left. unfold service_count. cbn [direction sample_rule fd].
  rewrite bool_decide_eq_true_2 by done. unfold fd_state, sample_fds.
  cbn [sample_fd register_read _read_count]. destruct (_ && _); cbn [set_eof _read_count]; wrap_lia.
Qed.

Lemma event_loop_step_witness :
  let w := mkSample (mkFDWrapper 3 false false 0 0) [Byte.x61] in
  let poll := fun ps : list pollfd => inr (1, (fun _ => POLLIN) <$> ps) in
  exists rules' w', wait_next_event [sample_rule] w poll = Ok (Success, rules', w') /\
    0 <= _read_count (sample_fd w') < 2 ^ 32 /\
    serve [sample_rule] (map (poll_entry w) [sample_rule]) [POLLIN] w = Ok (rules', w').
Proof.
  destruct (event_loop_step (fun w => 0 <= _read_count (sample_fd w) < 2 ^ 32) [sample_rule]
    (mkSample (mkFDWrapper 3 false false 0 0) [Byte.x61])
    (fun ps => inr (1, (fun _ => POLLIN) <$> ps)))
    as (rules1 & ps & w1 & res & rules' & w' & E & _ & _ & _ & Hw' & _ & Hd & H).
  - constructor; [apply sample_rule_ok|constructor].
  - simpl. lia.
  - intros ps. rewrite length_fmap. split; [done|]. apply Forall_fmap, Forall_true. by intros.
  - destruct Hd as (-> & -> & ->); [by repeat constructor|]. destruct H as [-> Es].
    exists rules', w'. split; [exact E|]. split; [exact Hw'|exact Es].
Defined.
