(* ===== verification/TCPHeader.v ===== *)
(** * TCP segment headers

    Model of [libsponge/tcp_helpers/tcp_header.hh] and [.cc]: the header's
    fields, [parse] from a [NetParser] and [serialize] to a string. *)

From S2P Require Import Prelude WrappingIntegers Buffer Parser.

Definition LENGTH : Z := 20.

Record TCPHeader := mkTCPHeader {
  sport : Z;
  dport : Z;
  seqno : WrappingInt32;
  ackno : WrappingInt32;
  doff : Z;
  urg : bool;
  ack : bool;
  psh : bool;
  rst : bool;
  syn : bool;
  fin : bool;
  win : Z;
  cksum : Z;
  uptr : Z
}.

#[global] Instance TCPHeader_eq_dec : EqDecision TCPHeader.
Proof. solve_decision. Defined.

(** The default member initialisers. *)
Definition TCPHeader_default : TCPHeader :=
  mkTCPHeader 0 0 (mkWrappingInt32 0) (mkWrappingInt32 0) (LENGTH / 4)
    false false false false false false 0 0 0.

Definition flag (fl_b mask : Z) : bool := negb (Z.land fl_b mask =? 0).

Definition parse (p : NetParser) : outcome (ParseResult * TCPHeader * NetParser) :=
  '(sport, p) ← p_u16 p;
  '(dport, p) ← p_u16 p;
  '(seqno, p) ← p_u32 p;
  '(ackno, p) ← p_u32 p;
  '(off, p) ← p_u8 p;
  let doff := Z.shiftr off 4 in
  '(fl_b, p) ← p_u8 p;
  let urg := flag fl_b 32 in
  let ack := flag fl_b 16 in
  let psh := flag fl_b 8 in
  let rst := flag fl_b 4 in
  let syn := flag fl_b 2 in
  let fin := flag fl_b 1 in
  '(win, p) ← p_u16 p;
  '(cksum, p) ← p_u16 p;
  '(uptr, p) ← p_u16 p;
  let h := mkTCPHeader sport dport (mkWrappingInt32 seqno) (mkWrappingInt32 ackno) doff
             urg ack psh rst syn fin win cksum uptr in
  if doff <? 5 then mret (HeaderTooShort, h, p)
  else
    p ← p_remove_prefix p (u64 (doff * 4 - LENGTH));
    if error p then mret (get_error p, h, p) else mret (NoError, h, p).

Definition flag_byte (h : TCPHeader) : Z :=
  Z.lor (Z.lor (Z.lor (Z.lor (Z.lor (if urg h then 32 else 0) (if ack h then 16 else 0))
    (if psh h then 8 else 0)) (if rst h then 4 else 0)) (if syn h then 2 else 0))
    (if fin h then 1 else 0).

(** The calls of [NetUnparser] in [serialize], in order. *)
Definition unparse_fields (h : TCPHeader) : list byte :=
  let ret := [] in
  let ret := unparse_u16 ret (sport h) in
  let ret := unparse_u16 ret (dport h) in
  let ret := unparse_u32 ret (raw_value (seqno h)) in
  let ret := unparse_u32 ret (raw_value (ackno h)) in
  let ret := unparse_u8 ret (u8 (Z.shiftl (doff h) 4)) in
  let ret := unparse_u8 ret (flag_byte h) in
  let ret := unparse_u16 ret (win h) in
  let ret := unparse_u16 ret (cksum h) in
  unparse_u16 ret (uptr h).

Definition serialize (h : TCPHeader) : outcome (list byte) :=
  if doff h <? 5 then Throw (runtime_error "TCP header too short")
  else mret (vec_resize (unparse_fields h) (4 * doff h) Byte.x00).

(** [TCPHeader::operator==]: ports and checksum are left out. *)
Definition header_eqb (a b : TCPHeader) : bool :=
  wi_eqb (seqno a) (seqno b) && wi_eqb (ackno a) (ackno b) && (doff a =? doff b) &&
  Bool.eqb (urg a) (urg b) && Bool.eqb (ack a) (ack b) && Bool.eqb (psh a) (psh b) &&
  Bool.eqb (rst a) (rst b) && Bool.eqb (syn a) (syn b) && Bool.eqb (fin a) (fin b) &&
  (win a =? win b) && (uptr a =? uptr b).

(** The field widths, with a data offset that fits its four bits. *)
Record header_valid (h : TCPHeader) : Prop := {
  hv_sport : 0 <= sport h < 2 ^ 16;
  hv_dport : 0 <= dport h < 2 ^ 16;
  hv_seqno : wi_valid (seqno h);
  hv_ackno : wi_valid (ackno h);
  hv_doff : 0 <= doff h < 2 ^ 4;
  hv_win : 0 <= win h < 2 ^ 16;
  hv_cksum : 0 <= cksum h < 2 ^ 16;
  hv_uptr : 0 <= uptr h < 2 ^ 16
}.

Lemma header_default_valid : header_valid TCPHeader_default.
Proof. constructor; vm_compute; split; congruence. Qed.

Lemma flags_roundtrip h :
  flag (flag_byte h) 32 = urg h /\ flag (flag_byte h) 16 = ack h /\ flag (flag_byte h) 8 = psh h /\
  flag (flag_byte h) 4 = rst h /\ flag (flag_byte h) 2 = syn h /\ flag (flag_byte h) 1 = fin h /\
  0 <= flag_byte h < 2 ^ 8.
Proof.
  unfold flag_byte. destruct (urg h), (ack h), (psh h), (rst h), (syn h), (fin h);
    vm_compute; (split_and!; congruence).
Qed.

Lemma doff_roundtrip d : 0 <= d < 2 ^ 4 -> 0 <= u8 (Z.shiftl d 4) < 2 ^ 8 /\ Z.shiftr (u8 (Z.shiftl d 4)) 4 = d.
Proof.
  intros Hd. rewrite Z.shiftl_mul_pow2, u8_small, Z.shiftr_div_pow2 by lia.
  split; [lia|]. by apply Z.div_mul.
Qed.

Lemma unparse_fields_eq h :
  unparse_fields h =
    unparse_bytes 2 (sport h) ++ unparse_bytes 2 (dport h) ++
    unparse_bytes 4 (raw_value (seqno h)) ++ unparse_bytes 4 (raw_value (ackno h)) ++
    unparse_bytes 1 (u8 (Z.shiftl (doff h) 4)) ++ unparse_bytes 1 (flag_byte h) ++
    unparse_bytes 2 (win h) ++ unparse_bytes 2 (cksum h) ++ unparse_bytes 2 (uptr h).
Proof.
  unfold unparse_fields, unparse_u16, unparse_u32, unparse_u8, _unparse_int.
  by rewrite <- !app_assoc.
Qed.

Lemma len_unparse_fields h : len (unparse_fields h) = 20.
Proof. done. Qed.

(** The fixed part parses back to the header; then the options are skipped. *)
Lemma parse_fields h p rest :
  header_valid h -> parses p (unparse_fields h ++ rest) ->
  exists p1, parses p1 rest /\
    parse p =
      (if doff h <? 5 then Ok (HeaderTooShort, h, p1)
       else
         p2 ← p_remove_prefix p1 (u64 (doff h * 4 - LENGTH));
         if error p2 then Ok (get_error p2, h, p2) else Ok (NoError, h, p2)).
Proof.
  intros [] Hp. destruct (flags_roundtrip h) as (E1 & E2 & E3 & E4 & E5 & E6 & Hfl).
  destruct (doff_roundtrip (doff h)) as [Hd1 Hd2]; [done|].
  rewrite unparse_fields_eq, <- !app_assoc in Hp.
  unfold parse, p_u16, p_u32, p_u8. repeat parse_field.
  rewrite E1, E2, E3, E4, E5, E6, Hd2. eexists. split; [eassumption|].
  destruct h as [? ? [?] [?]]; simpl. done.
Qed.

(** [serialize] pads the fixed part with zeros up to the advertised size. *)
Lemma serialize_eq h :
  header_valid h -> 5 <= doff h ->
  serialize h = Ok (unparse_fields h ++ replicate (Z.to_nat (4 * doff h - 20)) Byte.x00).
Proof.
  intros Hv Hd. unfold serialize. case_bool; [lia|]. unfold vec_resize.
  pose proof (len_unparse_fields h). rewrite resize_ge by lia.
  unfold mret, outcome_ret. do 3 f_equal. lia.
Qed.

Lemma parse_serialized h p rest :
  header_valid h -> 5 <= doff h ->
  parses p (unparse_fields h ++ replicate (Z.to_nat (4 * doff h - 20)) Byte.x00 ++ rest) ->
  exists p', parse p = Ok (NoError, h, p') /\ parses p' rest.
Proof.
  intros Hv Hd Hp. pose proof (hv_doff h Hv).
  destruct (parse_fields h p _ Hv Hp) as (p1 & Hp1 & ->). case_bool; [lia|].
  unfold LENGTH. rewrite u64_small by lia.
  destruct (remove_prefix_parses p1 _ (doff h * 4 - 20) Hp1) as (p2 & -> & Hp2).
  { rewrite length_app, length_replicate. lia. }
  cbn [mbind outcome_bind]. rewrite (parses_no_error _ _ Hp2). exists p2. split; [done|].
  unfold zdrop in Hp2. rewrite drop_app_length' in Hp2; [done|].
  rewrite length_replicate. lia.
Qed.

(** Whatever the input, the parsed fields have their widths. *)
Lemma parse_in_range p :
  buffer_ok (_buffer p) ->
  exists res h p', parse p = Ok (res, h, p') /\ header_valid h /\ buffer_ok (_buffer p').
Proof.
  intros Hb. unfold parse, p_u16, p_u32, p_u8. repeat total_field.
  change (8 * Z.of_nat 1) with 8 in *.
  assert (0 <= Z.shiftr v3 4 < 2 ^ 4).
  { rewrite Z.shiftr_div_pow2 by lia. split; [apply Z.div_pos|apply Z.div_lt_upper_bound]; lia. }
  case_bool; [eexists _, _, _; split; [reflexivity|]; split; [|done]; by constructor|].
  match goal with |- context [p_remove_prefix ?q ?n] =>
    destruct (p_remove_prefix_total q n) as (q' & -> & Hq & _); [done|apply u64_range|]
  end.
  cbn [mbind outcome_bind]. case_bool; (eexists _, _, _; split; [reflexivity|]; split; [|done]); by constructor.
Qed.

(** ** The layout of a header: RFC 793, figure 3, read off the bytes

    [field s i n] is the big-endian value of the [n] bytes from [i]. *)
Definition field (s : list byte) (i n : nat) : Z := be_value (take n (drop i s)).

Definition header_of (s : list byte) : TCPHeader :=
  mkTCPHeader (field s 0 2) (field s 2 2) (mkWrappingInt32 (field s 4 4)) (mkWrappingInt32 (field s 8 4))
    (field s 12 1 / 16)
    (Z.testbit (field s 13 1) 5) (Z.testbit (field s 13 1) 4) (Z.testbit (field s 13 1) 3)
    (Z.testbit (field s 13 1) 2) (Z.testbit (field s 13 1) 1) (Z.testbit (field s 13 1) 0)
    (field s 14 2) (field s 16 2) (field s 18 2).

(** Where the payload starts. *)
Definition header_length (s : list byte) : Z := 4 * Z.max 5 (doff (header_of s)).

Lemma flag_testbit v k : 0 <= k -> flag v (2 ^ k) = Z.testbit v k.
Proof.
  intros Hk. unfold flag.
  assert (Z.land v (2 ^ k) = if Z.testbit v k then 2 ^ k else 0) as ->.
  { apply Z.bits_inj'. intros i Hi. rewrite Z.land_spec, Z.pow2_bits_eqb by done.
    destruct (Z.eqb_spec k i) as [<-|Hne].
    - destruct (Z.testbit v k); [by rewrite Z.pow2_bits_true|by rewrite Z.bits_0].
    - rewrite andb_false_r. destruct (Z.testbit v k); [by rewrite Z.pow2_bits_false|by rewrite Z.bits_0]. }
  assert (0 < 2 ^ k) by (apply Z.pow_pos_nonneg; lia).
  destruct (Z.testbit v k); [|done]. destruct (Z.eqb_spec (2 ^ k) 0); [lia|done].
Qed.

(** Read the next [n] bytes of an input known to be long enough. *)
Ltac layout_field :=
  match goal with
  | Hp : parses ?p ?s |- context [_parse_int ?n ?p] =>
      let p' := fresh "p" in let Hp' := fresh "Hp" in
      destruct (parse_int_ok n p s Hp) as (p' & -> & Hp');
      [rewrite ?length_drop; lia | cbn [mbind outcome_bind]; clear Hp; rewrite ?drop_drop in Hp']
  end.

(** Enough bytes for the fixed part: the fields are read, the options skipped. *)
Lemma parse_long p s :
  parses p s -> 20 <= len s ->
  exists p1, parses p1 (drop 20 s) /\
    parse p =
      (if doff (header_of s) <? 5 then Ok (HeaderTooShort, header_of s, p1)
       else
         p2 ← p_remove_prefix p1 (u64 (doff (header_of s) * 4 - LENGTH));
         if error p2 then Ok (get_error p2, header_of s, p2) else Ok (NoError, header_of s, p2)).
Proof.
  intros Hp Hl. unfold parse, p_u16, p_u32, p_u8. repeat layout_field.
  change 32 with (2 ^ 5). change 16 with (2 ^ 4). change 8 with (2 ^ 3). change 4 with (2 ^ 2).
  eexists. split; [eassumption|].
  rewrite !(flag_testbit _ 5), !(flag_testbit _ 4), !(flag_testbit _ 3), !(flag_testbit _ 2) by lia.
  change (flag (be_value (take 1 (drop 13 s))) 2) with (flag (be_value (take 1 (drop 13 s))) (2 ^ 1)).
  change (flag (be_value (take 1 (drop 13 s))) 1) with (flag (be_value (take 1 (drop 13 s))) (2 ^ 0)).
  rewrite !(flag_testbit _ 1), !(flag_testbit _ 0) by lia.
  rewrite Z.shiftr_div_pow2 by lia. reflexivity.
Qed.

(** Fewer than the 20 bytes of the fixed part: the parser ends with an error. *)
Lemma parse_short p :
  buffer_ok (_buffer p) -> len (str (_buffer p)) < 20 ->
  exists res h p', parse p = Ok (res, h, p') /\ error p' = true.
Proof.
  intros Hb Hl. unfold parse, p_u16, p_u32, p_u8. repeat total_field.
  assert (Ep : error p8 = true).
  { destruct (error p8) eqn:E8; [done|]. exfalso.
    repeat match goal with
    | H : error ?a = true -> error ?b = true |- _ =>
        destruct (error a); [rewrite (H eq_refl) in *; discriminate|clear H]
    | H : error ?a = true -> false = true |- _ => destruct (error a); [by discriminate H|clear H]
    | H : false = false -> _ |- _ => specialize (H eq_refl); destruct H
    end. lia. }
  case_bool; [by eexists _, _, _|].
  match goal with |- context [p_remove_prefix ?q ?n] =>
    destruct (p_remove_prefix_total q n) as (q' & -> & _ & Hq & _); [done|apply u64_range|] end.
  cbn [mbind outcome_bind]. apply Hq in Ep. rewrite Ep. by eexists _, _, _.
Qed.

Lemma parse_short_or_fine p res h p' :
  short_or_fine p -> parse p = Ok (res, h, p') -> short_or_fine p'.
Proof.
  intros Hp E. unfold parse, p_u16, p_u32, p_u8 in E.
  repeat (apply outcome_bind_ok in E as ([? ?] & Ef & E);
          apply (parse_int_short_or_fine _ _ _ _ Hp) in Ef; clear Hp; rename Ef into Hp).
  destruct (_ <? _); [injection E as _ _ <-; exact Hp|].
  apply outcome_bind_ok in E as (q & Eq & E). apply (p_remove_prefix_short_or_fine _ _ _ Hp) in Eq.
  destruct (error q); injection E as _ _ <-; exact Eq.
Qed.

Lemma doff_range s : 14 <= len s -> 0 <= doff (header_of s) < 2 ^ 4.
Proof.
  intros Hl. simpl. unfold field. pose proof (be_value_bounds (take 1 (drop 12 s))) as Hv.
  rewrite length_take, length_drop, Nat.min_l in Hv by lia.
  change (2 ^ (8 * Z.of_nat 1)) with 256 in Hv.
  split; [apply Z.div_pos|apply Z.div_lt_upper_bound]; lia.
Qed.

(** What [parse] makes of any input, by its layout. *)
Lemma parse_layout p s :
  parses p s ->
  exists res h p', parse p = Ok (res, h, p') /\ header_valid h /\ buffer_ok (_buffer p') /\
    (header_length s <= len s ->
       h = header_of s /\ get_error p' = NoError /\ str (_buffer p') = zdrop (header_length s) s) /\
    (len s < header_length s -> get_error p' = PacketTooShort).
Proof.
  intros Hp. destruct (parse_in_range p (parses_ok _ _ Hp)) as (res & h & p' & E & Hh & Hb).
  exists res, h, p'. do 3 (split; [done|]). assert (Hsf : short_or_fine p') by
    (apply (parse_short_or_fine p res h p'); [left; apply Hp|done]).
  destruct (decide (20 <= len s)) as [Hl|Hl].
  - destruct (parse_long p s Hp Hl) as (p1 & Hp1 & E1). rewrite E in E1. clear E.
    unfold header_length. pose proof (doff_range s) as Hd. set (d := doff (header_of s)) in *.
    revert E1. case_bool.
    + intros [= -> -> ->]. rewrite Z.max_l by lia. split; [|lia]. intros _. split; [done|].
      split; [apply Hp1|]. apply Hp1.
    + rewrite Z.max_r, u64_small by (unfold LENGTH; lia). unfold LENGTH. intros E1.
      destruct (decide (4 * d <= len s)) as [Hf|Hf].
      * destruct (remove_prefix_parses p1 _ (d * 4 - 20) Hp1) as (p2 & E2 & Hp2); [rewrite length_drop; lia|].
        rewrite E2 in E1. cbn [mbind outcome_bind] in E1. rewrite (parses_no_error _ _ Hp2) in E1.
        injection E1 as -> -> ->. split; [|lia]. intros _. split; [done|]. split; [apply Hp2|].
        rewrite (parses_str _ _ Hp2). unfold zdrop. rewrite drop_drop. f_equal. lia.
      * split; [lia|]. intros _. apply short_or_fine_error; [done|].
        destruct (p_remove_prefix_total p1 (d * 4 - 20)) as (p2 & E2 & _ & _ & Hq); [apply Hp1|lia|].
        rewrite E2 in E1. cbn [mbind outcome_bind] in E1. destruct (error p2) eqn:Ep.
        -- by injection E1 as _ _ <-.
        -- rewrite (parses_str _ _ Hp1), length_drop in Hq. lia.
  - split; [unfold header_length; lia|]. intros _.
    destruct (parse_short p (parses_ok _ _ Hp)) as (res' & h' & q & E' & Hq);
      [rewrite (parses_str _ _ Hp); lia|].
    rewrite E in E'. injection E' as -> -> ->. by apply short_or_fine_error.
Qed.

(** ** Properties *)

(** Header round trip: a header with a data offset between 5 and 15
    serializes to [4 * doff] bytes, and parsing these bytes returns [NoError]
    and the same header, leaving what follows. *)
Theorem tcp_header_roundtrip h rest :
  header_valid h -> 5 <= doff h -> len rest < 2 ^ 62 ->
  exists bytes p', serialize h = Ok bytes /\ len bytes = 4 * doff h /\
    parse (NetParser_of (Buffer_of (bytes ++ rest))) = Ok (NoError, h, p') /\
    str (_buffer p') = rest.
Proof.
  intros Hv Hd Hl. pose proof (hv_doff h Hv). pose proof (len_unparse_fields h).
  rewrite (serialize_eq h Hv Hd). set (z := replicate _ _).
  assert (len z = 4 * doff h - 20) by (unfold z; rewrite length_replicate; lia).
  destruct (parse_serialized h (NetParser_of (Buffer_of ((unparse_fields h ++ z) ++ rest))) rest Hv Hd)
    as (p' & E & Hp').
  { constructor; [|by rewrite <- app_assoc|done]. apply Buffer_of_ok.
    rewrite !length_app. lia. }
  exists (unparse_fields h ++ z), p'. split; [done|]. split; [rewrite length_app; lia|].
  split; [done|]. apply Hp'.
Qed.

Lemma tcp_header_roundtrip_witness :
  exists bytes p', serialize TCPHeader_default = Ok bytes /\
    len bytes = 4 * doff TCPHeader_default /\
    parse (NetParser_of (Buffer_of (bytes ++ [Byte.x41]))) = Ok (NoError, TCPHeader_default, p') /\
    str (_buffer p') = [Byte.x41].
Proof.
  apply (tcp_header_roundtrip TCPHeader_default [Byte.x41]);
    [apply header_default_valid | vm_compute; congruence | simpl; lia].
Defined.

(** Parsing is total and checks the lengths: on every input [parse] returns
    without an exception, and it returns [NoError] only when the data offset is at
    least 5 and the input holds all [4 * doff] header bytes, which are consumed. *)
Theorem tcp_header_parse_total p :
  buffer_ok (_buffer p) ->
  exists res h p', parse p = Ok (res, h, p') /\
    (res = NoError -> 5 <= doff h /\ 4 * doff h <= len (str (_buffer p)) /\
       len (str (_buffer p')) = len (str (_buffer p)) - 4 * doff h /\ error p' = false) /\
    (error p = false -> 20 <= len (str (_buffer p)) -> doff h < 5 -> res = HeaderTooShort).
Proof.
  intros Hb. unfold parse, p_u16, p_u32, p_u8. repeat total_field. case_bool.
  { eexists _, _, _. split; [reflexivity|]. simpl. split; [done|]. done. }
  match goal with |- context [p_remove_prefix ?q ?n] =>
    destruct (p_remove_prefix_total q n) as (q' & -> & Hq1 & Hq2 & Hq3);
      [done | apply u64_range |]
  end.
  cbn [mbind outcome_bind]. destruct (error q') eqn:Eq.
  - eexists _, _, _. split; [reflexivity|]. simpl. split; [|lia]. intros Hn.
    unfold error in Eq. apply bool_decide_eq_true in Eq. done.
  - eexists _, _, _. split; [reflexivity|]. simpl. split; [|lia]. intros _.
    destruct Hq3 as [Hq3 Hq4]; [done|]. rewrite Hq4. clear Hq4.
    repeat match goal with
    | H : error ?a = true -> false = true |- _ => destruct (error a); [by discriminate H|clear H]
    | H : false = false -> _ |- _ => specialize (H eq_refl); destruct H
    end.
    change (8 * Z.of_nat 1) with 8 in *.
    assert (Z.shiftr v3 4 < 2 ^ 4)
      by (rewrite Z.shiftr_div_pow2 by lia; apply Z.div_lt_upper_bound; lia).
    unfold LENGTH in *. rewrite u64_small in Hq3 by lia. rewrite u64_small by lia.
    rewrite len_zdrop by lia. split_and!; (done || lia).
Qed.

Lemma tcp_header_parse_total_witness :
  let p := NetParser_of (Buffer_of (replicate 24 Byte.x60)) in
  exists res h p', parse p = Ok (res, h, p') /\
    (res = NoError -> 5 <= doff h /\ 4 * doff h <= len (str (_buffer p)) /\
       len (str (_buffer p')) = len (str (_buffer p)) - 4 * doff h /\ error p' = false) /\
    (error p = false -> 20 <= len (str (_buffer p)) -> doff h < 5 -> res = HeaderTooShort).
Proof.
  apply (tcp_header_parse_total (NetParser_of (Buffer_of (replicate 24 Byte.x60)))).
  apply Buffer_of_ok. simpl. lia.
Defined.
