(* ===== verification/TCPSegment.v ===== *)
(** * TCP segments

    Model of [libsponge/tcp_helpers/tcp_segment.hh] and [.cc]: a header and a
    payload buffer, with the checksum over the whole segment. *)

From S2P Require Import Prelude WrappingIntegers Buffer Parser InternetChecksum TCPHeader.

Record TCPSegment := mkTCPSegment { header : TCPHeader; payload : Buffer }.

Definition TCPSegment_default : TCPSegment := mkTCPSegment TCPHeader_default Buffer_empty.

Definition length_in_sequence_space (seg : TCPSegment) : Z :=
  u64 (len (str (payload seg)) + (if syn (header seg) then 1 else 0) +
       (if fin (header seg) then 1 else 0)).

(** The setters of the class. *)
Definition set_payload (seg : TCPSegment) (b : Buffer) : TCPSegment := mkTCPSegment (header seg) b.

Definition on_header (f : TCPHeader -> TCPHeader) (seg : TCPSegment) : TCPSegment :=
  mkTCPSegment (f (header seg)) (payload seg).

Definition set_ack (b : bool) : TCPSegment -> TCPSegment := on_header (fun h =>
  mkTCPHeader (sport h) (dport h) (seqno h) (ackno h) (doff h) (urg h) b (psh h) (rst h) (syn h)
    (fin h) (win h) (cksum h) (uptr h)).
Definition set_syn (b : bool) : TCPSegment -> TCPSegment := on_header (fun h =>
  mkTCPHeader (sport h) (dport h) (seqno h) (ackno h) (doff h) (urg h) (ack h) (psh h) (rst h) b
    (fin h) (win h) (cksum h) (uptr h)).
Definition set_fin (b : bool) : TCPSegment -> TCPSegment := on_header (fun h =>
  mkTCPHeader (sport h) (dport h) (seqno h) (ackno h) (doff h) (urg h) (ack h) (psh h) (rst h)
    (syn h) b (win h) (cksum h) (uptr h)).
Definition set_rst (b : bool) : TCPSegment -> TCPSegment := on_header (fun h =>
  mkTCPHeader (sport h) (dport h) (seqno h) (ackno h) (doff h) (urg h) (ack h) (psh h) b (syn h)
    (fin h) (win h) (cksum h) (uptr h)).
Definition set_psh (b : bool) : TCPSegment -> TCPSegment := on_header (fun h =>
  mkTCPHeader (sport h) (dport h) (seqno h) (ackno h) (doff h) (urg h) (ack h) b (rst h) (syn h)
    (fin h) (win h) (cksum h) (uptr h)).
Definition set_urg (b : bool) : TCPSegment -> TCPSegment := on_header (fun h =>
  mkTCPHeader (sport h) (dport h) (seqno h) (ackno h) (doff h) b (ack h) (psh h) (rst h) (syn h)
    (fin h) (win h) (cksum h) (uptr h)).
Definition set_seqno (n : WrappingInt32) : TCPSegment -> TCPSegment := on_header (fun h =>
  mkTCPHeader (sport h) (dport h) n (ackno h) (doff h) (urg h) (ack h) (psh h) (rst h) (syn h)
    (fin h) (win h) (cksum h) (uptr h)).
Definition set_ackno (n : WrappingInt32) : TCPSegment -> TCPSegment := on_header (fun h =>
  mkTCPHeader (sport h) (dport h) (seqno h) n (doff h) (urg h) (ack h) (psh h) (rst h) (syn h)
    (fin h) (win h) (cksum h) (uptr h)).
(** The parameter has type [uint16_t]: a [size_t] argument is truncated. *)
Definition set_window_size (n : Z) : TCPSegment -> TCPSegment := on_header (fun h =>
  mkTCPHeader (sport h) (dport h) (seqno h) (ackno h) (doff h) (urg h) (ack h) (psh h) (rst h)
    (syn h) (fin h) (u16 n) (cksum h) (uptr h)).
Definition set_urgptr (n : Z) : TCPSegment -> TCPSegment := on_header (fun h =>
  mkTCPHeader (sport h) (dport h) (seqno h) (ackno h) (doff h) (urg h) (ack h) (psh h) (rst h)
    (syn h) (fin h) (win h) (cksum h) (u16 n)).
Definition with_cksum (n : Z) (h : TCPHeader) : TCPHeader :=
  mkTCPHeader (sport h) (dport h) (seqno h) (ackno h) (doff h) (urg h) (ack h) (psh h) (rst h)
    (syn h) (fin h) (win h) n (uptr h).

Definition set_cksum (n : Z) : TCPSegment -> TCPSegment := on_header (with_cksum (u16 n)).

(** On a bad checksum the segment is left as it was; the result of
    [TCPHeader::parse] is discarded and the parser's own error is returned. *)
Definition parse (seg : TCPSegment) (buffer : Buffer) (datagram_layer_checksum : Z) :
    outcome (ParseResult * TCPSegment) :=
  let check := add (new datagram_layer_checksum) (str buffer) in
  if negb (value check =? 0) then mret (BadChecksum, seg)
  else
    '(_, h, p) ← TCPHeader.parse (NetParser_of buffer);
    mret (get_error p, mkTCPSegment h (_buffer p)).

Definition serialize (seg : TCPSegment) (datagram_layer_checksum : Z) : outcome BufferList :=
  let header_out := with_cksum 0 (header seg) in
  zero_checksum ← TCPHeader.serialize header_out;
  let check := add (new datagram_layer_checksum) zero_checksum in
  let check := add check (str (payload seg)) in
  let header_out := with_cksum (value check) header_out in
  out ← TCPHeader.serialize header_out;
  mret (BufferList_append (BufferList_append [] [Buffer_of out]) [payload seg]).

(** ** Checksums of serialized segments *)

Lemma add_app c xs ys : add (add c xs) ys = add c (xs ++ ys).
Proof. unfold add. by rewrite foldl_app. Qed.

(** The serialized header around its checksum field. *)
Definition before_cksum (h : TCPHeader) : list byte :=
  unparse_bytes 2 (sport h) ++ unparse_bytes 2 (dport h) ++
  unparse_bytes 4 (raw_value (seqno h)) ++ unparse_bytes 4 (raw_value (ackno h)) ++
  unparse_bytes 1 (u8 (Z.shiftl (doff h) 4)) ++ unparse_bytes 1 (flag_byte h) ++
  unparse_bytes 2 (win h).

Lemma fields_around_cksum h c :
  unparse_fields (with_cksum c h) =
    before_cksum h ++ unparse_bytes 2 c ++ unparse_bytes 2 (uptr h).
Proof.
  rewrite unparse_fields_eq. unfold before_cksum. rewrite <- !app_assoc. done.
Qed.

Lemma with_cksum_valid c h : header_valid h -> 0 <= c < 2 ^ 16 -> header_valid (with_cksum c h).
Proof. intros [] ?. by constructor. Qed.

Definition segment_valid (seg : TCPSegment) : Prop :=
  header_valid (header seg) /\ 5 <= doff (header seg) /\ buffer_ok (payload seg) /\
  len (str (payload seg)) < 2 ^ 16 - 60.

(** The bytes of a serialized segment, and that its checksum verifies. *)
Lemma serialize_bytes seg c0 :
  segment_valid seg -> 0 <= c0 < 2 ^ 20 ->
  exists bl ck,
    serialize seg c0 = Ok bl /\ 0 <= ck < 2 ^ 16 /\
    concatenate bl = unparse_fields (with_cksum ck (header seg)) ++
      replicate (Z.to_nat (4 * doff (header seg) - 20)) Byte.x00 ++ str (payload seg) /\
    value (add (new c0) (concatenate bl)) = 0 /\ len (concatenate bl) < 2 ^ 16.
Proof.
  intros (Hv & Hd & Hb & Hl) Hc0. pose proof (hv_doff _ Hv).
  set (h := header seg) in *. unfold serialize. fold h.
  rewrite serialize_eq by (done || by apply with_cksum_valid). cbn [mbind outcome_bind].
  set (z := replicate _ _). rewrite add_app. set (ck := value _).
  assert (Hck : 0 <= ck < 2 ^ 16) by apply u16_range.
  rewrite serialize_eq by (done || by repeat apply with_cksum_valid). cbn [mbind outcome_bind].
  change (with_cksum ck (with_cksum 0 h)) with (with_cksum ck h).
  assert (Hz : len z = 4 * doff h - 20) by (unfold z; simpl; rewrite length_replicate; lia).
  eexists _, ck. split; [reflexivity|]. split; [done|].
  change (doff (with_cksum ck h)) with (doff h). change (doff (with_cksum 0 h)) with (doff h) in *.
  fold z. rewrite concatenate_concat. cbn [BufferList_append app fmap list_fmap concat].
  rewrite str_Buffer_of, app_nil_r, <- app_assoc. split; [done|].
  rewrite fields_around_cksum, <- !app_assoc.
  set (post := unparse_bytes 2 (uptr h) ++ z ++ str (payload seg)).
  assert (Hpost : len post = 2 + len z + len (str (payload seg)))
    by (unfold post; rewrite !length_app, !Nat2Z.inj_add, len_unparse; lia).
  assert (Hpre : len (before_cksum h) = 16) by done.
  destruct (checksum_field_verifies c0 (before_cksum h) post) as [_ Hok]; [done|lia|lia|].
  split.
  - unfold ck. rewrite fields_around_cksum, <- !app_assoc. exact Hok.
  - rewrite !length_app, !Nat2Z.inj_add, len_unparse. lia.
Qed.

(** ** Segments up to the representation of the payload

    Two segments are equivalent when their headers agree and their payloads
    show the same bytes: a payload cut out of a datagram and one built from a
    string differ only in storage and offset. *)
#[global] Instance segment_equiv : Equiv TCPSegment := fun a b =>
  header a = header b /\ str (payload a) = str (payload b).

#[global] Instance segment_equivalence : Equivalence (≡@{TCPSegment}).
Proof.
  split; [by intros [] | by intros [] [] [] |].
  intros [] [] [] [E1 E2] [E3 E4]. split; etransitivity; eauto.
Qed.

#[global] Instance length_in_sequence_space_proper :
  Proper ((≡) ==> (=)) length_in_sequence_space.
Proof. intros a b [E1 E2]. unfold length_in_sequence_space. by rewrite E1, E2. Qed.

#[global] Instance header_proper : Proper ((≡) ==> (=)) header.
Proof. by intros a b [E _]. Qed.

#[global] Instance on_header_proper f : Proper ((≡) ==> (≡)) (on_header f).
Proof. intros a b [E1 E2]. split; simpl; [by rewrite E1|done]. Qed.

(** [serialize] depends on the payload's bytes only. *)
Lemma serialize_proper a b c0 :
  a ≡ b ->
  concatenate <$> (match serialize a c0 with Ok l => Some l | _ => None end) =
  concatenate <$> (match serialize b c0 with Ok l => Some l | _ => None end).
Proof.
  intros [E1 E2]. unfold serialize. rewrite E1, E2.
  destruct (TCPHeader.serialize _); simpl; [|done..].
  destruct (TCPHeader.serialize _); simpl; [|done..].
  by rewrite !concatenate_concat; simpl; rewrite E2.
Qed.

Lemma parse_serialized_segment old seg c0 b ck :
  segment_valid seg -> 0 <= ck < 2 ^ 16 -> buffer_ok b ->
  str b = unparse_fields (with_cksum ck (header seg)) ++
    replicate (Z.to_nat (4 * doff (header seg) - 20)) Byte.x00 ++ str (payload seg) ->
  value (add (new c0) (str b)) = 0 ->
  exists seg', parse old b c0 = Ok (NoError, seg') /\
    seg' ≡ mkTCPSegment (with_cksum ck (header seg)) (payload seg).
Proof.
  intros (Hv & Hd & Hb & Hl) Hck Hok Eb Ec. unfold parse. rewrite Ec. cbn [negb Z.eqb].
  destruct (parse_serialized (with_cksum ck (header seg)) (NetParser_of b)
    (str (payload seg))) as (p' & -> & Hp'); [by apply with_cksum_valid|done| |].
  { constructor; done. }
  cbn [mbind outcome_bind]. unfold get_error. rewrite (parses_error _ _ Hp').
  eexists. split; [reflexivity|]. split; [done|]. simpl. apply Hp'.
Qed.

(** Whatever the input, [parse] returns and the fields have their widths. *)
Lemma parse_segment_in_range old b c0 :
  buffer_ok b -> header_valid (header old) ->
  exists res seg, parse old b c0 = Ok (res, seg) /\ header_valid (header seg) /\
    (res = NoError -> value (add (new c0) (str b)) = 0).
Proof.
  intros Hb Hold. unfold parse. case_bool; [by eexists _, _|].
  destruct (parse_in_range (NetParser_of b) Hb) as (res & h & p' & -> & Hh & _).
  cbn [mbind outcome_bind]. eexists _, _. split; [reflexivity|]. split; [done|]. intros _.
  by apply negb_false_iff, Z.eqb_eq in Heqb0.
Qed.

(** ** Properties *)

(** C28. What a segment parses to: on any bytes, with any pseudo-header sum and
    into any segment, [parse] returns without an exception.  A segment that
    fails the checksum is reported as [BadChecksum] and changes nothing.  One
    that passes is [PacketTooShort] when the bytes do not hold the header up to
    its data offset (counted as 5 when it is less) and [NoError] when they do: then every
    field is the big-endian value, or the bit, at its place in the bytes
    (figure 3 of RFC 793), within its width, and the payload is exactly the
    bytes after the header. *)
Theorem tcp_segment_parse_typed old b pseudo :
  buffer_ok b ->
  let s := str b in
  (value (add (new pseudo) s) <> 0 -> parse old b pseudo = Ok (BadChecksum, old)) /\
  (value (add (new pseudo) s) = 0 ->
   exists seg, header_valid (header seg) /\ buffer_ok (payload seg) /\
     (header_length s <= len s ->
        parse old b pseudo = Ok (NoError, seg) /\
        header seg = header_of s /\ str (payload seg) = zdrop (header_length s) s) /\
     (len s < header_length s -> parse old b pseudo = Ok (PacketTooShort, seg))).
Proof.
  intros Hb s. unfold parse. fold s. case_bool.
  { apply negb_true_iff, Z.eqb_neq in Heqb0. by split. }
  apply negb_false_iff, Z.eqb_eq in Heqb0. split; [done|]. intros _.
  destruct (parse_layout (NetParser_of b) s) as (res & h & p' & -> & Hh & Hp & Hlong & Hshort);
    [by constructor|].
  cbn [mbind outcome_bind]. exists (mkTCPSegment h (_buffer p')). do 2 (split; [done|]). split.
  - intros Hl. destruct (Hlong Hl) as (-> & -> & ?). done.
  - intros Hl. by rewrite (Hshort Hl).
Qed.

(** 24 bytes that verify: a header of 20 bytes with a data offset of 5 and four
    bytes of payload. *)
Definition sample_bytes : list byte :=
  match serialize (mkTCPSegment TCPHeader_default (Buffer_of [Byte.x61; Byte.x62; Byte.x63; Byte.x64])) 0 with
  | Ok bl => concatenate bl | _ => [] end.

Lemma tcp_segment_parse_typed_witness :
  exists seg, parse TCPSegment_default (Buffer_of sample_bytes) 0 = Ok (NoError, seg) /\
    header seg = header_of sample_bytes /\ str (payload seg) = zdrop 20 sample_bytes.
Proof.
  destruct (tcp_segment_parse_typed TCPSegment_default (Buffer_of sample_bytes) 0) as [_ H];
    [apply Buffer_of_ok; vm_compute; done|].
  destruct (H ltac:(vm_compute; reflexivity)) as (seg & _ & _ & H1 & _). exists seg.
  apply H1. vm_compute. discriminate.
Defined.

(** C19. Segment round trip: a valid segment serializes (with any pseudo-header
    sum), the bytes pass the checksum test of the parser under the same
    pseudo-header sum, and parse to the same segment with the checksum filled in. *)
Theorem tcp_segment_roundtrip old seg pseudo :
  segment_valid seg -> 0 <= pseudo < 2 ^ 20 ->
  exists bl ck seg', serialize seg pseudo = Ok bl /\
    parse old (Buffer_of (concatenate bl)) pseudo = Ok (NoError, seg') /\
    seg' ≡ mkTCPSegment (with_cksum ck (header seg)) (payload seg).
Proof.
  intros Hv Hp. destruct (serialize_bytes seg pseudo Hv Hp) as (bl & ck & Es & Hck & Eb & Ec & Hl).
  destruct (parse_serialized_segment old seg pseudo (Buffer_of (concatenate bl)) ck Hv Hck)
    as (seg' & E & Heq); [apply Buffer_of_ok; lia|done..|].
  by exists bl, ck, seg'.
Qed.

Lemma tcp_segment_roundtrip_witness :
  let seg := mkTCPSegment TCPHeader_default (Buffer_of [Byte.x68; Byte.x69; Byte.x21]) in
  exists bl ck seg', serialize seg 1234 = Ok bl /\
    parse TCPSegment_default (Buffer_of (concatenate bl)) 1234 = Ok (NoError, seg') /\
    seg' ≡ mkTCPSegment (with_cksum ck (header seg)) (payload seg).
Proof.
  apply (tcp_segment_roundtrip TCPSegment_default
    (mkTCPSegment TCPHeader_default (Buffer_of [Byte.x68; Byte.x69; Byte.x21])) 1234); [|lia].
  split_and!; [apply header_default_valid | vm_compute; congruence |..]; unfold buffer_ok; simpl; try lia; done.
Defined.

(** C20. A corrupted segment is rejected: change any one byte of a serialized
    segment and the parser reports [BadChecksum] and leaves its segment alone. *)
Theorem tcp_segment_corruption old seg pseudo pre b b' post :
  segment_valid seg -> 0 <= pseudo < 2 ^ 20 -> b <> b' ->
  (exists bl, serialize seg pseudo = Ok bl /\ concatenate bl = pre ++ [b] ++ post) ->
  parse old (Buffer_of (pre ++ [b'] ++ post)) pseudo = Ok (BadChecksum, old).
Proof.
  intros Hv Hp Hne (bl & Es & Eb).
  destruct (serialize_bytes seg pseudo Hv Hp) as (bl' & ck & Es' & _ & _ & Ec & Hl).
  rewrite Es in Es'. simplify_eq. rewrite Eb in Ec, Hl.
  rewrite !length_app in Hl. cbn [length] in Hl.
  unfold parse. rewrite str_Buffer_of.
  assert (value (add (new pseudo) (pre ++ [b'] ++ post)) <> 0) as Hnz.
  { apply (changed_byte_detected pseudo pre b b' post); [lia| |done..]. lia. }
  by destruct (Z.eqb_spec (value (add (new pseudo) (pre ++ [b'] ++ post))) 0).
Qed.

Lemma tcp_segment_corruption_witness :
  parse TCPSegment_default
    (Buffer_of ([] ++ [Byte.xff] ++
       [Byte.x00; Byte.x00; Byte.x00; Byte.x00; Byte.x00; Byte.x00; Byte.x00; Byte.x00; Byte.x00;
        Byte.x00; Byte.x00; Byte.x50; Byte.x00; Byte.x00; Byte.x00; Byte.xaf; Byte.xff; Byte.x00;
        Byte.x00])) 0 = Ok (BadChecksum, TCPSegment_default).
Proof.
  apply (tcp_segment_corruption TCPSegment_default TCPSegment_default 0 [] Byte.x00);
    [|lia|discriminate|].
  - split_and!; [apply header_default_valid | vm_compute; congruence |..]; unfold buffer_ok; simpl; try lia; done.
  - eexists. split; vm_compute; reflexivity.
Defined.

(** The parser discards what [TCPHeader::parse] returned: a segment whose
    checksum verifies but whose data offset is below the minimum of 5 is accepted
    with [NoError], options and payload boundary unchecked. *)
Theorem tcp_segment_short_doff_accepted old h rest pseudo :
  header_valid h -> doff h < 5 -> len rest < 2 ^ 16 ->
  value (add (new pseudo) (unparse_fields h ++ rest)) = 0 ->
  exists seg', parse old (Buffer_of (unparse_fields h ++ rest)) pseudo = Ok (NoError, seg') /\
    header seg' = h /\ str (payload seg') = rest.
Proof.
  intros Hv Hd Hl Ec. unfold parse. rewrite str_Buffer_of, Ec. cbn [negb Z.eqb].
  destruct (parse_fields h (NetParser_of (Buffer_of (unparse_fields h ++ rest))) rest Hv)
    as (p1 & Hp1 & ->).
  { constructor; [|done..]. apply Buffer_of_ok. pose proof (len_unparse_fields h).
    rewrite length_app. lia. }
  case_bool; [|lia]. cbn [mbind outcome_bind]. unfold get_error. rewrite (parses_error _ _ Hp1).
  eexists. split; [reflexivity|]. split; [done|]. apply Hp1.
Qed.

Lemma tcp_segment_short_doff_accepted_witness :
  let h := mkTCPHeader 0 0 (mkWrappingInt32 0) (mkWrappingInt32 0) 0
             false false false false false false 0 65535 0 in
  exists seg', parse TCPSegment_default (Buffer_of (unparse_fields h ++ [])) 0 = Ok (NoError, seg') /\
    header seg' = h /\ str (payload seg') = [].
Proof.
  apply (tcp_segment_short_doff_accepted TCPSegment_default
    (mkTCPHeader 0 0 (mkWrappingInt32 0) (mkWrappingInt32 0) 0
       false false false false false false 0 65535 0) [] 0);
    [constructor; vm_compute; split; congruence | simpl; lia | simpl; lia | vm_compute; reflexivity].
Defined.
