(* ===== verification/IPv4Header.v ===== *)
(** * IPv4 headers

    Model of [libsponge/tcp_helpers/ipv4_header.hh] and [.cc]. *)

From S2P Require Import Prelude Buffer Parser InternetChecksum.

Definition LENGTH : Z := 20.
Definition DEFAULT_TTL : Z := 128.
Definition PROTO_TCP : Z := 6.

Record IPv4Header := mkIPv4Header {
  ver : Z;
  hlen : Z;
  tos : Z;
  tlen : Z;  (* the field [len] *)
  id : Z;
  df : bool;
  mf : bool;
  offset : Z;
  ttl : Z;
  proto : Z;
  cksum : Z;
  src : Z;
  dst : Z
}.

#[global] Instance IPv4Header_eq_dec : EqDecision IPv4Header.
Proof. solve_decision. Defined.

Definition IPv4Header_default : IPv4Header :=
  mkIPv4Header 4 (LENGTH / 4) 0 0 0 true false 0 DEFAULT_TTL PROTO_TCP 0 0 0.

(** [old] is the header before the call: it stays when the input is shorter than
    20 bytes. *)
Definition parse (old : IPv4Header) (p : NetParser) :
    outcome (ParseResult * IPv4Header * NetParser) :=
  let original := str (_buffer p) in
  let data_size := Buffer.size (_buffer p) in
  if data_size <? LENGTH then mret (PacketTooShort, old, p)
  else
    '(first_byte, p) ← p_u8 p;
    let ver := Z.shiftr first_byte 4 in
    let hlen := Z.land first_byte 15 in
    '(tos, p) ← p_u8 p;
    '(tlen, p) ← p_u16 p;
    '(id, p) ← p_u16 p;
    '(fo_val, p) ← p_u16 p;
    let df := negb (Z.land fo_val 16384 =? 0) in
    let mf := negb (Z.land fo_val 8192 =? 0) in
    let offset := Z.land fo_val 8191 in
    '(ttl, p) ← p_u8 p;
    '(proto, p) ← p_u8 p;
    '(cksum, p) ← p_u16 p;
    '(src, p) ← p_u32 p;
    '(dst, p) ← p_u32 p;
    let h := mkIPv4Header ver hlen tos tlen id df mf offset ttl proto cksum src dst in
    if data_size <? 4 * hlen then mret (PacketTooShort, h, p)
    else if negb (ver =? 4) then mret (WrongIPVersion, h, p)
    else if hlen <? 5 then mret (HeaderTooShort, h, p)
    else if negb (data_size =? tlen) then mret (TruncatedPacket, h, p)
    else
      p ← p_remove_prefix p (u64 (hlen * 4 - LENGTH));
      if error p then mret (get_error p, h, p)
      else
        let check := add (new 0) (ztake (4 * hlen) original) in
        if negb (value check =? 0) then mret (BadChecksum, h, p) else mret (NoError, h, p).

Definition flags_offset (h : IPv4Header) : Z :=
  Z.lor (Z.lor (if df h then 16384 else 0) (if mf h then 8192 else 0)) (Z.land (offset h) 8191).

(** The calls of [NetUnparser] in [serialize], in order. *)
Definition unparse_fields (h : IPv4Header) : list byte :=
  let ret := [] in
  let ret := unparse_u8 ret (u8 (Z.lor (Z.shiftl (ver h) 4) (Z.land (hlen h) 15))) in
  let ret := unparse_u8 ret (tos h) in
  let ret := unparse_u16 ret (tlen h) in
  let ret := unparse_u16 ret (id h) in
  let ret := unparse_u16 ret (u16 (flags_offset h)) in
  let ret := unparse_u8 ret (ttl h) in
  let ret := unparse_u8 ret (proto h) in
  let ret := unparse_u16 ret (cksum h) in
  let ret := unparse_u32 ret (src h) in
  unparse_u32 ret (dst h).

Definition serialize (h : IPv4Header) : outcome (list byte) :=
  if negb (ver h =? 4) then Throw (runtime_error "wrong IP version")
  else if 4 * hlen h <? LENGTH then Throw (runtime_error "IP header too short")
  else mret (vec_resize (unparse_fields h) (4 * hlen h) Byte.x00).

Definition payload_length (h : IPv4Header) : Z := u16 (tlen h - 4 * hlen h).

Definition pseudo_cksum (h : IPv4Header) : Z :=
  let pcksum := u32 (Z.shiftr (src h) 16 + Z.land (src h) 65535) in
  let pcksum := u32 (pcksum + u32 (Z.shiftr (dst h) 16 + Z.land (dst h) 65535)) in
  let pcksum := u32 (pcksum + proto h) in
  u32 (pcksum + payload_length h).

(** The widths of the fields. *)
Record header_valid (h : IPv4Header) : Prop := {
  iv_ver : 0 <= ver h < 2 ^ 4;
  iv_hlen : 0 <= hlen h < 2 ^ 4;
  iv_tos : 0 <= tos h < 2 ^ 8;
  iv_tlen : 0 <= tlen h < 2 ^ 16;
  iv_id : 0 <= id h < 2 ^ 16;
  iv_offset : 0 <= offset h < 2 ^ 13;
  iv_ttl : 0 <= ttl h < 2 ^ 8;
  iv_proto : 0 <= proto h < 2 ^ 8;
  iv_cksum : 0 <= cksum h < 2 ^ 16;
  iv_src : 0 <= src h < 2 ^ 32;
  iv_dst : 0 <= dst h < 2 ^ 32
}.

Lemma ipv4_default_valid : header_valid IPv4Header_default.
Proof. constructor; vm_compute; split; congruence. Qed.

Lemma pseudo_cksum_bound h : header_valid h -> 0 <= pseudo_cksum h < 2 ^ 20.
Proof.
  intros []. unfold pseudo_cksum. pose proof (u16_range (tlen h - 4 * hlen h)).
  change 65535 with (Z.ones 16). rewrite !Z.land_ones, !Z.shiftr_div_pow2 by lia.
  fold (payload_length h) in *.
  assert (0 <= src h / 2 ^ 16 + src h mod 2 ^ 16 < 2 ^ 17 /\
          0 <= dst h / 2 ^ 16 + dst h mod 2 ^ 16 < 2 ^ 17)
    by (Z.to_euclidean_division_equations; lia).
  rewrite (u32_small (src h / _ + _)), (u32_small (dst h / _ + _)) by lia.
  rewrite (u32_small (_ + _ + (dst h / _ + _))) by lia.
  rewrite (u32_small (_ + proto h)), u32_small by lia. lia.
Qed.

(** Two bit fields side by side. *)
Lemma lor_disjoint_add a b n : 0 <= n -> 0 <= b < 2 ^ n -> Z.lor (Z.shiftl a n) b = a * 2 ^ n + b.
Proof.
  intros Hn Hb. rewrite <- Z.shiftl_mul_pow2 by done. symmetry. apply Z.add_nocarry_lor.
  apply Z.bits_inj'. intros i Hi. rewrite Z.land_spec, Z.bits_0.
  destruct (Z.lt_ge_cases i n).
  - by rewrite Z.shiftl_spec_low.
  - rewrite <- (Z.mod_small b (2 ^ n)), Z.mod_pow2_bits_high, andb_false_r by lia. done.
Qed.

Lemma first_byte_roundtrip v l :
  0 <= v < 2 ^ 4 -> 0 <= l < 2 ^ 4 ->
  let b := u8 (Z.lor (Z.shiftl v 4) (Z.land l 15)) in
  0 <= b < 2 ^ 8 /\ Z.shiftr b 4 = v /\ Z.land b 15 = l.
Proof.
  intros Hv Hl b. split; [apply u8_range|].
  assert (b = v * 16 + l) as ->.
  { unfold b. change 15 with (Z.ones 4). rewrite Z.land_ones, Z.mod_small by lia.
    rewrite lor_disjoint_add by lia. apply u8_small. lia. }
  change 15 with (Z.ones 4). rewrite Z.land_ones, Z.shiftr_div_pow2 by lia.
  split; Z.to_euclidean_division_equations; lia.
Qed.

Lemma fragment_roundtrip h :
  0 <= offset h < 2 ^ 13 ->
  let f := u16 (flags_offset h) in
  0 <= f < 2 ^ 16 /\ negb (Z.land f 16384 =? 0) = df h /\ negb (Z.land f 8192 =? 0) = mf h /\
  Z.land f 8191 = offset h.
Proof.
  intros Ho f. split; [apply u16_range|].
  set (a := (if df h then 2 else 0) + (if mf h then 1 else 0)).
  assert (f = a * 2 ^ 13 + offset h) as ->.
  { unfold f, flags_offset. change 8191 with (Z.ones 13). rewrite Z.land_ones, Z.mod_small by lia.
    replace (Z.lor (if df h then 16384 else 0) (if mf h then 8192 else 0)) with (Z.shiftl a 13)
      by (unfold a; by destruct (df h), (mf h)).
    rewrite lor_disjoint_add by lia. apply u16_small. unfold a. destruct (df h), (mf h); lia. }
  assert (Hb : forall k, 13 <= k -> Z.land (a * 2 ^ 13 + offset h) (2 ^ k) = Z.land (a * 2 ^ 13) (2 ^ k)).
  { intros k Hk. rewrite <- lor_disjoint_add, Z.land_lor_distr_l, Z.shiftl_mul_pow2 by lia.
    replace (Z.land (offset h) (2 ^ k)) with 0; [apply Z.lor_0_r|].
    symmetry. rewrite <- (Z.mod_small (offset h) (2 ^ 13)), <- Z.land_ones, <- Z.land_assoc by lia.
    rewrite (Z.land_comm (Z.ones 13)), Z.land_ones by lia.
    replace (2 ^ k) with (2 ^ (k - 13) * 2 ^ 13) by (rewrite <- Z.pow_add_r by lia; f_equal; lia).
    rewrite Z.mod_mul by lia. apply Z.land_0_r. }
  change 16384 with (2 ^ 14). change 8192 with (2 ^ 13). rewrite !Hb by lia.
  change 8191 with (Z.ones 13). rewrite Z.land_ones, Z.add_comm, Z_mod_plus_full, Z.mod_small by lia.
  unfold a. by destruct (df h), (mf h).
Qed.

Lemma ipv4_fields_eq h :
  unparse_fields h =
    unparse_bytes 1 (u8 (Z.lor (Z.shiftl (ver h) 4) (Z.land (hlen h) 15))) ++
    unparse_bytes 1 (tos h) ++ unparse_bytes 2 (tlen h) ++ unparse_bytes 2 (id h) ++
    unparse_bytes 2 (u16 (flags_offset h)) ++ unparse_bytes 1 (ttl h) ++
    unparse_bytes 1 (proto h) ++ unparse_bytes 2 (cksum h) ++ unparse_bytes 4 (src h) ++
    unparse_bytes 4 (dst h).
Proof.
  unfold unparse_fields, unparse_u16, unparse_u32, unparse_u8, _unparse_int.
  by rewrite <- !app_assoc.
Qed.

Lemma ipv4_len_fields h : len (unparse_fields h) = 20.
Proof. done. Qed.

(** The fixed part parses back to the header; then come the checks. *)
Lemma ipv4_parse_fields old h p rest :
  header_valid h -> parses p (unparse_fields h ++ rest) ->
  exists p1, parses p1 rest /\
    parse old p =
      (let data_size := 20 + len rest in
       if data_size <? 4 * hlen h then Ok (PacketTooShort, h, p1)
       else if negb (ver h =? 4) then Ok (WrongIPVersion, h, p1)
       else if hlen h <? 5 then Ok (HeaderTooShort, h, p1)
       else if negb (data_size =? tlen h) then Ok (TruncatedPacket, h, p1)
       else
         p2 ← p_remove_prefix p1 (u64 (hlen h * 4 - LENGTH));
         if error p2 then Ok (get_error p2, h, p2)
         else if negb (value (add (new 0) (ztake (4 * hlen h) (unparse_fields h ++ rest))) =? 0)
         then Ok (BadChecksum, h, p2) else Ok (NoError, h, p2)).
Proof.
  intros [] Hp. pose proof (parses_str _ _ Hp) as Hs.
  assert (Hsz : Buffer.size (_buffer p) = 20 + len rest).
  { unfold Buffer.size. rewrite Hs, length_app. pose proof (ipv4_len_fields h). lia. }
  destruct (first_byte_roundtrip (ver h) (hlen h)) as (Hfb & Hfv & Hfl); [done..|].
  destruct (fragment_roundtrip h) as (Hfr & Hdf & Hmf & Hof); [done|].
  unfold parse. rewrite Hsz, Hs. unfold LENGTH at 1. case_bool; [lia|].
  rewrite ipv4_fields_eq in Hp at 1. rewrite <- !app_assoc in Hp.
  unfold p_u16, p_u32, p_u8. repeat parse_field.
  rewrite Hfv, Hfl, Hdf, Hmf, Hof. eexists. split; [eassumption|]. by destruct h.
Qed.

Lemma ipv4_serialize_eq h :
  header_valid h -> ver h = 4 -> 5 <= hlen h ->
  serialize h = Ok (unparse_fields h ++ replicate (Z.to_nat (4 * hlen h - 20)) Byte.x00).
Proof.
  intros Hv H4 H5. unfold serialize, LENGTH. rewrite H4. cbn [Z.eqb negb].
  case_bool; [done|]. case_bool; [lia|]. unfold vec_resize.
  pose proof (ipv4_len_fields h). rewrite resize_ge by lia.
  unfold mret, outcome_ret. do 3 f_equal. lia.
Qed.

(** The serialized header around its checksum field. *)
Definition with_cksum (c : Z) (h : IPv4Header) : IPv4Header :=
  mkIPv4Header (ver h) (hlen h) (tos h) (tlen h) (id h) (df h) (mf h) (offset h) (ttl h) (proto h)
    c (src h) (dst h).

Definition before_cksum (h : IPv4Header) : list byte :=
  unparse_bytes 1 (u8 (Z.lor (Z.shiftl (ver h) 4) (Z.land (hlen h) 15))) ++
  unparse_bytes 1 (tos h) ++ unparse_bytes 2 (tlen h) ++ unparse_bytes 2 (id h) ++
  unparse_bytes 2 (u16 (flags_offset h)) ++ unparse_bytes 1 (ttl h) ++ unparse_bytes 1 (proto h).

Lemma ipv4_fields_around_cksum h c :
  unparse_fields (with_cksum c h) =
    before_cksum h ++ unparse_bytes 2 c ++ unparse_bytes 4 (src h) ++ unparse_bytes 4 (dst h).
Proof. rewrite ipv4_fields_eq. unfold before_cksum. by rewrite <- !app_assoc. Qed.

Lemma ipv4_with_cksum_valid c h :
  header_valid h -> 0 <= c < 2 ^ 16 -> header_valid (with_cksum c h).
Proof. intros [] ?. by constructor. Qed.

(** A header with a correct checksum, followed by as many bytes as its length
    field says, parses without error. *)
Lemma ipv4_parse_serialized old h p rest :
  header_valid h -> ver h = 4 -> 5 <= hlen h ->
  tlen h = 4 * hlen h + len rest ->
  let bytes := unparse_fields h ++ replicate (Z.to_nat (4 * hlen h - 20)) Byte.x00 in
  value (add (new 0) bytes) = 0 -> parses p (bytes ++ rest) ->
  exists p', parse old p = Ok (NoError, h, p') /\ parses p' rest.
Proof.
  intros Hv H4 H5 Hl bytes Hc Hp. pose proof (iv_hlen h Hv). unfold bytes in *. clear bytes.
  set (z := replicate _ _) in *.
  assert (Hz : len z = 4 * hlen h - 20) by (unfold z; rewrite length_replicate; lia).
  rewrite <- app_assoc in Hp. pose proof (ipv4_len_fields h) as Hf.
  destruct (ipv4_parse_fields old h p _ Hv Hp) as (p1 & Hp1 & ->). cbv zeta.
  rewrite length_app. case_bool; [lia|]. rewrite H4. case_bool; [done|]. case_bool; [lia|].
  replace (20 + Z.of_nat (length z + length rest) =? tlen h) with true
    by (symmetry; apply Z.eqb_eq; lia).
  cbn [negb]. unfold LENGTH. rewrite u64_small by lia.
  destruct (remove_prefix_parses p1 _ (hlen h * 4 - 20) Hp1) as (p2 & -> & Hp2).
  { rewrite length_app. lia. }
  cbn [mbind outcome_bind]. rewrite (parses_no_error _ _ Hp2).
  replace (ztake (4 * hlen h) (unparse_fields h ++ z ++ rest)) with (unparse_fields h ++ z).
  2: { rewrite (app_assoc (unparse_fields h)). unfold ztake. rewrite take_app_length'; [done|].
       rewrite length_app. lia. }
  rewrite Hc. exists p2. split; [done|].
  unfold zdrop in Hp2. rewrite drop_app_length' in Hp2; [done|lia].
Qed.

(** Whatever the input, the parsed fields have their widths. *)
Lemma ipv4_parse_in_range old p :
  buffer_ok (_buffer p) -> header_valid old ->
  exists res h p', parse old p = Ok (res, h, p') /\ header_valid h /\ buffer_ok (_buffer p').
Proof.
  intros Hb Hold. unfold parse. case_bool; [by eexists _, _, _|].
  unfold p_u16, p_u32, p_u8. repeat total_field. change (8 * Z.of_nat 1) with 8 in *.
  assert (0 <= Z.shiftr v 4 < 2 ^ 4).
  { rewrite Z.shiftr_div_pow2 by lia. split; [apply Z.div_pos|apply Z.div_lt_upper_bound]; lia. }
  assert (0 <= Z.land v 15 < 2 ^ 4 /\ 0 <= Z.land v3 8191 < 2 ^ 13) as [? ?].
  { change 15 with (Z.ones 4). change 8191 with (Z.ones 13). rewrite !Z.land_ones by lia.
    split; apply Z.mod_pos_bound; lia. }
  match goal with |- context [mkIPv4Header ?a ?b ?c ?d ?e ?f ?g ?h ?i ?j ?k ?l ?m] =>
    assert (header_valid (mkIPv4Header a b c d e f g h i j k l m)) by by constructor
  end.
  repeat (case_bool; [by eexists _, _, _|]).
  match goal with |- context [p_remove_prefix ?q ?n] =>
    destruct (p_remove_prefix_total q n) as (q' & -> & Hq & _); [done|apply u64_range|]
  end.
  cbn [mbind outcome_bind]. repeat case_bool; by eexists _, _, _.
Qed.

(** ** Properties *)

(** [IPv4Header::parse] is total and does the checks its comment lists: it
    never throws, and it returns [NoError] only for version 4, a header of at
    least five words, a length field equal to the data size and a header whose
    checksum verifies; the parser is then left after the options. *)
Theorem ipv4_header_parse_checks old p :
  buffer_ok (_buffer p) -> error p = false ->
  exists res h p', parse old p = Ok (res, h, p') /\
    (res = NoError ->
       ver h = 4 /\ 5 <= hlen h /\ tlen h = len (str (_buffer p)) /\ 4 * hlen h <= tlen h /\
       value (add (new 0) (ztake (4 * hlen h) (str (_buffer p)))) = 0 /\
       len (str (_buffer p')) = tlen h - 4 * hlen h /\ error p' = false).
Proof.
  intros Hb Hp. unfold parse, Buffer.size. case_bool.
  { by eexists _, _, _. }
  unfold p_u16, p_u32, p_u8. repeat total_field.
  repeat (case_bool; [eexists _, _, _; split; [reflexivity|done]|]).
  match goal with |- context [p_remove_prefix ?q ?n] =>
    destruct (p_remove_prefix_total q n) as (q' & -> & Hq1 & Hq2 & Hq3);
      [done | apply u64_range |]
  end.
  cbn [mbind outcome_bind]. destruct (error q') eqn:Eq.
  { eexists _, _, _. split; [reflexivity|]. intros Hn. unfold error in Eq.
    by apply bool_decide_eq_true in Eq. }
  case_bool; [by eexists _, _, _|]. eexists _, _, _. split; [reflexivity|]. intros _. simpl.
  destruct Hq3 as [Hq3 Hq4]; [done|]. rewrite Hq4.
  repeat match goal with
  | H : error ?a = true -> false = true |- _ => destruct (error a); [by discriminate H|clear H]
  | H : false = false -> _ |- _ => specialize (H eq_refl); destruct H
  | H : negb _ = false |- _ => apply negb_false_iff, Z.eqb_eq in H
  end.
  assert (0 <= Z.land v 15 < 2 ^ 4)
    by (change 15 with (Z.ones 4); rewrite Z.land_ones by lia; apply Z.mod_pos_bound; lia).
  unfold LENGTH in *. rewrite u64_small in Hq3 by lia. rewrite u64_small, len_zdrop by lia.
  split_and!; (done || lia).
Qed.

Lemma ipv4_header_parse_checks_witness :
  let p := NetParser_of (Buffer_of (replicate 24 Byte.x45)) in
  exists res h p', parse IPv4Header_default p = Ok (res, h, p') /\
    (res = NoError ->
       ver h = 4 /\ 5 <= hlen h /\ tlen h = len (str (_buffer p)) /\ 4 * hlen h <= tlen h /\
       value (add (new 0) (ztake (4 * hlen h) (str (_buffer p)))) = 0 /\
       len (str (_buffer p')) = tlen h - 4 * hlen h /\ error p' = false).
Proof.
  apply (ipv4_header_parse_checks IPv4Header_default
    (NetParser_of (Buffer_of (replicate 24 Byte.x45)))); [|done].
  apply Buffer_of_ok. simpl. lia.
Defined.
