(* ===== verification/IPv4Datagram.v ===== *)
(** * IPv4 datagrams

    Model of [libsponge/tcp_helpers/ipv4_datagram.hh] and [.cc]: a header and a
    payload, whose parser does not look at what [IPv4Header::parse] returned. *)

From S2P Require Import Prelude Buffer Parser InternetChecksum IPv4Header.

Record IPv4Datagram := mkIPv4Datagram { _header : IPv4Header; _payload : BufferList }.

Definition IPv4Datagram_default : IPv4Datagram := mkIPv4Datagram IPv4Header_default [].

Definition parse (d : IPv4Datagram) (buffer : Buffer) : outcome (ParseResult * IPv4Datagram) :=
  '(_, h, p) ← IPv4Header.parse (_header d) (NetParser_of buffer);
  let d := mkIPv4Datagram h [Parser._buffer p] in
  if negb (BufferList_size (_payload d) =? payload_length (_header d)) then
    mret (PacketTooShort, d)
  else mret (get_error p, d).

Definition serialize (d : IPv4Datagram) : outcome BufferList :=
  if negb (BufferList_size (_payload d) =? payload_length (_header d)) then
    Throw (runtime_error "IPv4Datagram::serialize: payload is wrong size")
  else
    let header_out := with_cksum 0 (_header d) in
    header_zero_checksum ← IPv4Header.serialize header_out;
    let check := add (new 0) header_zero_checksum in
    let header_out := with_cksum (value check) header_out in
    out ← IPv4Header.serialize header_out;
    mret (BufferList_append (BufferList_append [] [Buffer_of out]) (_payload d)).

(** A datagram whose length field is the size of header and payload together. *)
Record datagram_valid (d : IPv4Datagram) : Prop := {
  dv_header : header_valid (_header d);
  dv_ver : ver (_header d) = 4;
  dv_hlen : 5 <= hlen (_header d);
  dv_len : tlen (_header d) = 4 * hlen (_header d) + len (concatenate (_payload d))
}.

Lemma datagram_valid_size d :
  datagram_valid d -> BufferList_size (_payload d) = payload_length (_header d).
Proof.
  intros [[] _ _ Hl]. unfold payload_length. rewrite BufferList_size_len by lia.
  rewrite u16_small; lia.
Qed.

(** The bytes of a serialized datagram, and that its header checksum verifies. *)
Lemma datagram_serialize_bytes d :
  datagram_valid d ->
  exists bl ck,
    let h := with_cksum ck (_header d) in
    let hdr := unparse_fields h ++ replicate (Z.to_nat (4 * hlen h - 20)) Byte.x00 in
    serialize d = Ok bl /\ 0 <= ck < 2 ^ 16 /\
    concatenate bl = hdr ++ concatenate (_payload d) /\ value (add (new 0) hdr) = 0.
Proof.
  intros Hd. pose proof (datagram_valid_size d Hd) as Hs. destruct Hd as [Hv H4 H5 Hl].
  pose proof (iv_hlen _ Hv). unfold serialize. rewrite Hs, Z.eqb_refl. cbn [negb].
  set (h := _header d) in *.
  rewrite ipv4_serialize_eq by (done || by apply ipv4_with_cksum_valid). cbn [mbind outcome_bind].
  set (ck := value _). assert (Hck : 0 <= ck < 2 ^ 16) by apply u16_range.
  rewrite ipv4_serialize_eq by (done || by repeat apply ipv4_with_cksum_valid).
  cbn [mbind outcome_bind]. exists (BufferList_append (BufferList_append []
    [Buffer_of (unparse_fields (with_cksum ck h) ++
                replicate (Z.to_nat (4 * hlen h - 20)) Byte.x00)]) (_payload d)), ck.
  cbv zeta. split; [done|]. split; [done|]. split.
  { rewrite !concatenate_concat. done. }
  change (hlen (with_cksum ck h)) with (hlen h).
  change (hlen (with_cksum 0 h)) with (hlen h) in ck.
  set (z := replicate (Z.to_nat (4 * hlen h - 20)) Byte.x00) in *.
  assert (len z <= 40) by (unfold z; rewrite length_replicate; lia).
  rewrite ipv4_fields_around_cksum, <- !app_assoc. unfold ck.
  rewrite ipv4_fields_around_cksum, <- !app_assoc.
  set (post := unparse_bytes 4 (src h) ++ unparse_bytes 4 (dst h) ++ z).
  assert (len post <= 48) by (unfold post; rewrite !length_app; cbn [unparse_bytes length]; lia).
  apply (checksum_field_verifies 0 (before_cksum h) post); [done|lia|].
  change (len (before_cksum h)) with 10. lia.
Qed.

(** The size test of [parse] passes on a datagram header of five words. *)
Lemma datagram_parse_short_header d h rest :
  header_valid h -> hlen h = 5 -> tlen h = 20 + len rest ->
  exists res p', parses p' rest /\
    IPv4Header.parse (_header d) (NetParser_of (Buffer_of (unparse_fields h ++ rest)))
      = Ok (res, h, p') /\
    res = (if negb (ver h =? 4) then WrongIPVersion
           else if negb (value (add (new 0) (unparse_fields h)) =? 0) then BadChecksum
           else NoError) /\
    parse d (Buffer_of (unparse_fields h ++ rest)) = Ok (NoError, mkIPv4Datagram h [Parser._buffer p']).
Proof.
  intros Hv H5 Hl. pose proof (ipv4_len_fields h) as Hf. pose proof (iv_tlen h Hv).
  set (p := NetParser_of _).
  assert (Hp : parses p (unparse_fields h ++ rest)).
  { constructor; [|done..]. apply Buffer_of_ok. rewrite length_app. lia. }
  destruct (ipv4_parse_fields (_header d) h p rest Hv Hp) as (p1 & Hp1 & E).
  cbv zeta in E. rewrite H5, Hl in E. change (4 * 5) with 20 in E.
  change (5 <? 5) with false in E. rewrite Z.eqb_refl in E. cbn [negb] in E.
  replace (20 + len rest <? 20) with false in E by (symmetry; apply Z.ltb_ge; lia).
  destruct (remove_prefix_parses p1 rest 0 Hp1) as (p2 & Er & Hp2); [lia|].
  change (u64 (5 * 4 - LENGTH)) with 0 in E. rewrite Er in E. cbn [mbind outcome_bind] in E.
  rewrite (parses_no_error _ _ Hp2) in E. change (zdrop 0 rest) with rest in Hp2.
  replace (ztake 20 (unparse_fields h ++ rest)) with (unparse_fields h) in E
    by (unfold ztake; rewrite take_app_length'; [done|lia]).
  set (res := if negb _ then _ else _).
  exists res, (if negb (ver h =? 4) then p1 else p2).
  assert (Hp' : parses (if negb (ver h =? 4) then p1 else p2) rest) by by case_bool.
  split; [done|].
  assert (E1 : IPv4Header.parse (_header d) p = Ok (res, h, if negb (ver h =? 4) then p1 else p2))
    by (rewrite E; unfold res; by repeat case_bool).
  split; [done|]. split; [done|]. unfold parse. fold p. rewrite E1.
  cbn [mbind outcome_bind _payload _header]. set (p' := if negb _ then p1 else p2) in *.
  assert (Hsz : concatenate [Parser._buffer p'] = rest)
    by (rewrite concatenate_concat; simpl; rewrite app_nil_r; apply Hp').
  rewrite BufferList_size_len by (rewrite Hsz; lia). rewrite Hsz.
  unfold payload_length. rewrite H5, Hl, u16_small by lia.
  replace (len rest =? 20 + len rest - 4 * 5) with true by (symmetry; apply Z.eqb_eq; lia).
  cbn [negb]. unfold get_error. by rewrite (parses_error _ _ Hp').
Qed.

(** The bytes of a serialized datagram parse back. *)
Lemma datagram_parse_serialized old d :
  datagram_valid d ->
  exists bl ck d' p', serialize d = Ok bl /\
    IPv4Header.parse (_header old) (NetParser_of (Buffer_of (concatenate bl)))
      = Ok (NoError, with_cksum ck (_header d), p') /\
    parse old (Buffer_of (concatenate bl)) = Ok (NoError, d') /\
    d' = mkIPv4Datagram (with_cksum ck (_header d)) [Parser._buffer p'] /\
    parses p' (concatenate (_payload d)).
Proof.
  intros Hd. destruct (datagram_serialize_bytes d Hd) as (bl & ck & Es & Hck & Eb & Ec).
  destruct Hd as [Hv H4 H5 Hl]. pose proof (iv_tlen _ Hv). pose proof (iv_hlen _ Hv).
  set (h := with_cksum ck (_header d)) in *.
  destruct (ipv4_parse_serialized (_header old) h (NetParser_of (Buffer_of (concatenate bl)))
    (concatenate (_payload d))) as (p' & E & Hp'); [by apply ipv4_with_cksum_valid|done..| |].
  { constructor; [|done..]. apply Buffer_of_ok. rewrite Eb, !length_app, length_replicate.
    pose proof (ipv4_len_fields h). change (hlen h) with (hlen (_header d)). lia. }
  assert (Hsz : concatenate [Parser._buffer p'] = concatenate (_payload d))
    by (rewrite concatenate_concat; simpl; rewrite app_nil_r; apply Hp').
  exists bl, ck, (mkIPv4Datagram h [Parser._buffer p']), p'. split; [done|]. split; [done|].
  split; [|by split]. unfold parse. rewrite E. cbn [mbind outcome_bind _payload _header].
  rewrite BufferList_size_len by (rewrite Hsz; lia). rewrite Hsz. unfold payload_length.
  change (tlen h) with (tlen (_header d)). change (hlen h) with (hlen (_header d)).
  rewrite u16_small by lia. case_cond (len (concatenate (_payload d)) =? tlen (_header d) - 4 * hlen (_header d)); [|lia].
  cbn [negb]. unfold get_error. by rewrite (parses_error _ _ Hp').
Qed.

(** Whatever the input, [parse] returns one buffer of payload and a header whose
    fields have their widths. *)
Lemma datagram_parse_in_range old b :
  buffer_ok b -> header_valid (_header old) ->
  exists res h pl, parse old b = Ok (res, mkIPv4Datagram h [pl]) /\ header_valid h /\ buffer_ok pl.
Proof.
  intros Hb Hold. unfold parse.
  destruct (ipv4_parse_in_range (_header old) (NetParser_of b) Hb Hold) as (res & h & p' & -> & Hh & Hp).
  cbn [mbind outcome_bind]. case_bool; by eexists _, _, _.
Qed.

(** ** Properties *)

(** C35. Datagram round trip: a datagram whose length field matches its payload
    serializes with a header checksum that verifies, and the bytes parse back to
    the same header (checksum filled in) and the same payload, both by
    [IPv4Header::parse] and by [IPv4Datagram::parse], which return [NoError]. *)
Theorem ipv4_datagram_roundtrip old d :
  datagram_valid d ->
  exists bl ck d' p', serialize d = Ok bl /\
    IPv4Header.parse (_header old) (NetParser_of (Buffer_of (concatenate bl)))
      = Ok (NoError, with_cksum ck (_header d), p') /\
    parse old (Buffer_of (concatenate bl)) = Ok (NoError, d') /\
    _header d' = with_cksum ck (_header d) /\
    concatenate (_payload d') = concatenate (_payload d).
Proof.
  intros Hd. destruct (datagram_parse_serialized old d Hd) as (bl & ck & d' & p' & E1 & E2 & E3 & -> & Hp').
  exists bl, ck, (mkIPv4Datagram (with_cksum ck (_header d)) [Parser._buffer p']), p'.
  split_and!; [done..|]. rewrite concatenate_concat. simpl. rewrite app_nil_r. apply Hp'.
Qed.

Definition example_datagram : IPv4Datagram :=
  mkIPv4Datagram (mkIPv4Header 4 6 0 27 7 true false 0 64 6 0 2130706433 2130706434)
    [Buffer_of [Byte.x68; Byte.x69]; Buffer_of [Byte.x21]].

Lemma ipv4_datagram_roundtrip_witness :
  exists bl ck d' p', serialize example_datagram = Ok bl /\
    IPv4Header.parse IPv4Header_default (NetParser_of (Buffer_of (concatenate bl)))
      = Ok (NoError, with_cksum ck (_header example_datagram), p') /\
    parse IPv4Datagram_default (Buffer_of (concatenate bl)) = Ok (NoError, d') /\
    _header d' = with_cksum ck (_header example_datagram) /\
    concatenate (_payload d') = concatenate (_payload example_datagram).
Proof.
  apply (ipv4_datagram_roundtrip IPv4Datagram_default example_datagram).
  constructor; [constructor; simpl; lia | reflexivity | simpl; lia | reflexivity].
Defined.

(** [IPv4Datagram::parse] discards what [IPv4Header::parse] returned: a
    datagram with a header of five words and a correct length field is accepted
    with [NoError] also when the header's version is wrong or its checksum does
    not verify, which [IPv4Header::parse] did report. *)
Theorem ipv4_datagram_ignores_header_errors d h rest :
  header_valid h -> hlen h = 5 -> tlen h = 20 + len rest ->
  (ver h <> 4 \/ value (add (new 0) (unparse_fields h)) <> 0) ->
  let bytes := Buffer_of (unparse_fields h ++ rest) in
  (exists d', parse d bytes = Ok (NoError, d') /\ _header d' = h) /\
    (exists res p', IPv4Header.parse (_header d) (NetParser_of bytes) = Ok (res, h, p') /\
     (res = WrongIPVersion \/ res = BadChecksum)).
Proof.
  intros Hv H5 Hl Hbad bytes.
  destruct (datagram_parse_short_header d h rest Hv H5 Hl) as (res & p' & _ & E & Hr & Ed).
  split; [by eexists; split|]. exists res, p'. split; [done|]. rewrite Hr.
  destruct (Z.eqb_spec (ver h) 4), (Z.eqb_spec (value (add (new 0) (unparse_fields h))) 0);
    simpl; naive_solver.
Qed.

Lemma ipv4_datagram_ignores_header_errors_witness :
  let h := mkIPv4Header 6 5 0 21 7 true false 0 64 6 0 1 2 in
  let bytes := Buffer_of (unparse_fields h ++ [Byte.x21]) in
  (exists d', parse IPv4Datagram_default bytes = Ok (NoError, d') /\ _header d' = h) /\
    (exists res p', IPv4Header.parse IPv4Header_default (NetParser_of bytes) = Ok (res, h, p') /\
     (res = WrongIPVersion \/ res = BadChecksum)).
Proof.
  apply (ipv4_datagram_ignores_header_errors IPv4Datagram_default
    (mkIPv4Header 6 5 0 21 7 true false 0 64 6 0 1 2) [Byte.x21]);
    [constructor; simpl; lia | reflexivity | reflexivity | left; discriminate].
Defined.
