(* ===== verification/Text.v ===== *)
(** * Text output

    Model of the text the program prints about packets: [std::ostream] with its
    format flags, [hexdump] of [libsponge/util/util.cc] and the [to_string] and
    [summary] of the two headers, and the other functions of [util.cc] about time
    and randomness. *)

From stdpp Require Import pretty.
From Stdlib Require Import Ascii.
From S2P Require Import Prelude WrappingIntegers Parser Address TCPHeader IPv4Header.
#[local] Open Scope string_scope.
#[local] Open Scope list_scope.
#[local] Open Scope Z_scope.

Declare Scope text_scope.
Delimit Scope text_scope with text.

(** ** Streams *)

(** A number in lower-case hexadecimal, by 64-bit fuel *)
Definition hex_digit (d : Z) : ascii :=
  match String.get (Z.to_nat d) "0123456789abcdef" with Some c => c | None => "?"%char end.

Fixpoint hex_go (fuel : nat) (n : Z) (s : string) : string :=
  match fuel with
  | O => s
  | S fuel =>
      let s := String (hex_digit (n mod 16)) s in
      if n <? 16 then s else hex_go fuel (n / 16) s
  end.

Definition to_hex (n : Z) : string := hex_go 16 n "".
#[global] Arguments to_hex : simpl never.

(** The state of a [std::ostream] that the program uses, and what was written *)
Record ostream := mkOstream {
  os_hex : bool;
  os_boolalpha : bool;
  os_fill : ascii;
  os_width : nat;
  os_text : string
}.

(** [stringstream ss{}] *)
Definition ostream_new : ostream := mkOstream false false " "%char 0 "".

Fixpoint spaces (c : ascii) (n : nat) : string :=
  match n with O => "" | S n => String c (spaces c n) end.

(** Formatted output: padded on the left to the width, which is then reset *)
Definition emit (s : string) (o : ostream) : ostream :=
  mkOstream (os_hex o) (os_boolalpha o) (os_fill o) 0
    (os_text o +:+ spaces (os_fill o) (os_width o - String.length s) +:+ s).

(** The manipulators *)
Inductive manip := hex | boolalpha | setfill (c : ascii) | setw (n : nat).

Definition manipulate (m : manip) (o : ostream) : ostream :=
  match m with
  | hex => mkOstream true (os_boolalpha o) (os_fill o) (os_width o) (os_text o)
  | boolalpha => mkOstream (os_hex o) true (os_fill o) (os_width o) (os_text o)
  | setfill c => mkOstream (os_hex o) (os_boolalpha o) c (os_width o) (os_text o)
  | setw n => mkOstream (os_hex o) (os_boolalpha o) (os_fill o) n (os_text o)
  end.

(** [operator<<], overloaded by the type of its right operand; the numbers printed
    are not negative. *)
Class Put (A : Type) := put : ostream -> A -> ostream.
#[global] Instance put_string : Put string := fun o s => emit s o.
#[global] Instance put_char : Put ascii := fun o c => emit (String c "") o.
#[global] Instance put_int : Put Z := fun o n => emit (if os_hex o then to_hex n else to_dec n) o.
#[global] Instance put_bool : Put bool := fun o b =>
  emit (if os_boolalpha o then (if b then "true" else "false") else (if b then "1" else "0")) o.
#[global] Instance put_manip : Put manip := fun o m => manipulate m o.

(** [operator<<] of [WrappingInt32] *)
#[global] Instance put_wrapping : Put WrappingInt32 := fun o a => put o (raw_value a).

Notation "o << a" := (put o a) (at level 50, left associativity) : text_scope.
#[local] Open Scope text_scope.

Definition nl : ascii := "010"%char.

(** A [stringstream] made of a string: it is written from the start, over what is
    there. *)
Record stringbuf := mkStringbuf { sb_text : list ascii; sb_pos : nat }.

Definition sb_new (s : string) : stringbuf := mkStringbuf (String.list_ascii_of_string s) 0.
Definition sb_str (b : stringbuf) : string := String.string_of_list_ascii (sb_text b).
Definition sb_putc (b : stringbuf) (c : ascii) : stringbuf :=
  mkStringbuf (take (sb_pos b) (sb_text b) ++ c :: drop (S (sb_pos b)) (sb_text b)) (S (sb_pos b)).

(** ** [hexdump] *)

(** [isprint] in the C locale *)
Definition isprint (b : byte) : bool := let n := byte.unsigned b in (32 <=? n) && (n <=? 126).
Definition dump_char (b : byte) : ascii :=
  if isprint b then Ascii.ascii_of_byte b else "."%char.

Record dump := mkDump { du_cout : ostream; du_printed : Z; du_pchars : stringbuf }.

(** One round of the [for] loop; [printed] is an [int]. *)
Definition hexdump_step (indent_string : string) (s : dump) (b : byte) : outcome dump :=
  let '(mkDump cout printed pchars) := s in
  let '(cout, pchars) :=
    if Z.land printed 15 =? 0 then
      let '(cout, pchars) :=
        if negb (printed =? 0) then (cout << "    " << sb_str pchars << String nl "", sb_new " ")
        else (cout, pchars) in
      (cout << indent_string << setw 8 << printed << ":    ", pchars)
    else if Z.land printed 1 =? 0 then (cout << " "%char, pchars)
    else (cout, pchars) in
  let cout := cout << setw 2 << byte.unsigned b in
  let pchars := sb_putc pchars (dump_char b) in
  if printed + 1 <? 2 ^ 31 then mret (mkDump cout (printed + 1) pchars) else UB.

Fixpoint hexdump_loop (indent_string : string) (s : dump) (data : list byte) : outcome dump :=
  match data with
  | [] => mret s
  | b :: data => s ← hexdump_step indent_string s b; hexdump_loop indent_string s data
  end.

(** [cout.flags(flags)] restores [hex] and [boolalpha], not the fill character. *)
Definition hexdump (cout : ostream) (data : list byte) (indent : nat) : outcome ostream :=
  let indent_string := spaces " "%char indent in
  '(mkDump out printed pchars) ←
    hexdump_loop indent_string (mkDump (cout << hex << setfill "0"%char) 0 (sb_new " ")) data;
  let print_rem := Z.rem (16 - Z.land printed 15) 16 in
  let out := out << spaces " "%char (Z.to_nat (2 * print_rem + Z.quot print_rem 2 + 4)) << sb_str pchars in
  let out := out << nl << String nl "" in
  mret (mkOstream (os_hex cout) (os_boolalpha cout) (os_fill out) (os_width out) (os_text out)).

(** ** Headers *)

Definition TCPHeader_to_string (h : TCPHeader) : string :=
  let n := String nl "" in
  os_text (ostream_new << hex << boolalpha << "TCP source port: " << sport h << n
    << "TCP dest port: " << dport h << n
    << "TCP seqno: " << seqno h << n
    << "TCP ackno: " << ackno h << n
    << "TCP doff: " << doff h << n
    << "Flags: urg: " << urg h << " ack: " << ack h << " psh: " << psh h << " rst: " << rst h
    << " syn: " << syn h << " fin: " << fin h << n
    << "TCP winsize: " << win h << n
    << "TCP cksum: " << TCPHeader.cksum h << n
    << "TCP uptr: " << uptr h << n).

Definition TCPHeader_summary (h : TCPHeader) : string :=
  let letter (b : bool) (s : string) := if b then s else "" in
  os_text (ostream_new << "Header(flags=" << letter (syn h) "S" << letter (ack h) "A"
    << letter (rst h) "R" << letter (fin h) "F" << ",seqno=" << seqno h << ",ack=" << ackno h
    << ",win=" << win h << ")").

Definition IPv4Header_to_string (h : IPv4Header) : string :=
  let n := String nl "" in
  os_text (ostream_new << hex << boolalpha << "IP version: " << ver h << n
    << "IP hdr len: " << hlen h << n
    << "IP tos: " << tos h << n
    << "IP dgram len: " << tlen h << n
    << "IP id: " << id h << n
    << "Flags: df: " << df h << " mf: " << mf h << n
    << "Offset: " << offset h << n
    << "TTL: " << ttl h << n
    << "Protocol: " << proto h << n
    << "Checksum: " << IPv4Header.cksum h << n
    << "Src addr: " << src h << n
    << "Dst addr: " << dst h << n).

(** [::to_string(ttl)] is decimal. *)
Definition IPv4Header_summary {rs : Resolver} (h : IPv4Header) : string :=
  os_text (ostream_new << hex << boolalpha << "IPv" << ver h << ", " << "len=" << tlen h << ", "
    << "protocol=" << proto h << ", "
    << (if ttl h >=? 10 then "" else "ttl=" +:+ to_dec (ttl h) +:+ ", ")
    << "src=" << inet_ntoa (unparse_bytes 4 (src h)) << ", "
    << "dst=" << inet_ntoa (unparse_bytes 4 (dst h))).

(** ** Time and randomness *)

(** [timestamp_ms]: the static [program_start] is set by the first call, from a reading
    [first] of the clock (in nanoseconds) before the reading [now]. *)
Definition timestamp_ms (program_start : option Z) (first now : Z) : Z * Z :=
  let start := match program_start with Some s => s | None => first end in
  (start, u64 (Z.quot (now - start) 1000000)).

(** [get_random_generator] seeds an [mt19937] with one word of entropy per word of its
    state; [rd k] is the [k]th answer of [random_device]. *)
Definition get_random_generator {generator : Type} (mt19937 : list Z -> generator) (rd : nat -> Z) : generator :=
  mt19937 (rd <$> seq 0 624).

Example dump_small :
  option_map os_text (match hexdump ostream_new (String.list_byte_of_string "Hi!") 2 with Ok o => Some o | _ => None end) =
  Some ("  00000000:    4869 21                                    Hi!" +:+ String nl (String nl "")).
Proof. by vm_compute. Qed.

(** ** The layout of a dump

    What [hexdump] is to print: a line for every 16 bytes with the offset, the bytes
    in groups of two, and the printable characters in a column of their own. *)

Definition hex_byte (b : byte) : string :=
  let n := byte.unsigned b in String (hex_digit (n / 16)) (String (hex_digit (n mod 16)) "").

Fixpoint hex_columns (bs : list byte) : string :=
  match bs with
  | [] => ""
  | [a] => hex_byte a
  | a :: b :: rest => hex_byte a +:+ hex_byte b +:+ (match rest with [] => "" | _ => " " +:+ hex_columns rest end)
  end.

Definition chars (bs : list byte) : string := String.string_of_list_ascii (dump_char <$> bs).

(** Eight digits, more when the offset needs them *)
Definition offset8 (n : Z) : string := spaces "0"%char (8 - String.length (to_hex n)) +:+ to_hex n.

Definition line_head (indent : nat) (k : Z) : string := spaces " "%char indent +:+ offset8 (16 * k) +:+ ":    ".

Definition dump_line (indent : nat) (k : Z) (bs : list byte) : string :=
  line_head indent k +:+ hex_columns bs +:+ spaces " "%char (39 - String.length (hex_columns bs)) +:+ "    " +:+ chars bs.

Fixpoint lines_of (fuel : nat) (indent : nat) (k : Z) (data : list byte) : list string :=
  match fuel, data with
  | S fuel, _ :: _ => dump_line indent k (take 16 data) :: lines_of fuel indent (k + 1) (drop 16 data)
  | _, _ => []
  end.

(** Line [k], and those after it *)
Definition dump_lines (indent : nat) (k : Z) (data : list byte) : list string :=
  lines_of (length data) indent k data.

Lemma lines_of_fuel indent fuel fuel' : forall k data,
  (length data <= fuel)%nat -> (length data <= fuel')%nat -> lines_of fuel indent k data = lines_of fuel' indent k data.
Proof.
  revert fuel'. induction fuel as [|fuel IH]; intros [|fuel'] k [|b data] H1 H2; simpl in *; try lia; try done.
  f_equal. apply IH; rewrite length_drop; lia.
Qed.

Lemma dump_lines_cons indent k b data :
  dump_lines indent k (b :: data) = dump_line indent k (b :: take 15 data) :: dump_lines indent (k + 1) (drop 15 data).
Proof.
  unfold dump_lines. cbn [length lines_of]. f_equal. apply lines_of_fuel; rewrite ?length_drop; simpl; lia.
Qed.

Fixpoint join (sep : string) (ls : list string) : string :=
  match ls with
  | [] => ""
  | [l] => l
  | l :: ls => l +:+ sep +:+ join sep ls
  end.

Lemma app_assoc_s (a b c : string) : (a +:+ b) +:+ c = a +:+ b +:+ c.
Proof. induction a as [|x a IH]; [done|exact (f_equal (String x) IH)]. Qed.

Lemma app_nil_s (a : string) : a +:+ "" = a.
Proof. induction a as [|x a IH]; [done|exact (f_equal (String x) IH)]. Qed.

Lemma length_app_s (a b : string) : String.length (a +:+ b) = (String.length a + String.length b)%nat.
Proof. induction a as [|x a IH]; [done|exact (f_equal S IH)]. Qed.

(** One more byte in a line *)
Lemma hex_columns_snoc bs b :
  hex_columns (bs ++ [b]) =
    hex_columns bs +:+ (if negb (length bs =? 0)%nat && Nat.even (length bs) then " " else "") +:+ hex_byte b.
Proof.
  remember (length bs) as n eqn:En. revert bs En. induction (lt_wf n) as [n _ IH]. intros bs ->.
  destruct bs as [|a [|a' bs]]; [done|exact (f_equal (String.app (hex_byte a)) (app_nil_s (hex_byte b)))|].
  destruct bs as [|c bs]; [done|].
  specialize (IH (length (c :: bs)) ltac:(simpl; lia) (c :: bs) eq_refl).
  assert (E : hex_columns ((a :: a' :: c :: bs) ++ [b]) = hex_byte a +:+ hex_byte a' +:+ " " +:+ hex_columns ((c :: bs) ++ [b])) by done.
  rewrite E, IH. change (hex_columns (a :: a' :: c :: bs)) with (hex_byte a +:+ hex_byte a' +:+ " " +:+ hex_columns (c :: bs)).
  rewrite !app_assoc_s. done.
Qed.

Lemma hex_columns_length bs :
  (length bs <= 16)%nat -> (String.length (hex_columns bs) + (2 * (16 - length bs) + (16 - length bs) / 2) = 39 \/ bs = [])%nat.
Proof.
  intros Hl. do 17 (destruct bs as [|? bs]; [by auto|]). simpl in Hl. lia.
Qed.

Lemma put_byte b : spaces "0"%char (2 - String.length (to_hex (byte.unsigned b))) +:+ to_hex (byte.unsigned b) = hex_byte b.
Proof. by destruct b. Qed.

(** ** The loop prints that layout *)
Section loop.
  Context (indent : nat) (ba : bool).

Notation pad := (spaces " "%char indent).

(** [cout] inside [hexdump] *)
Definition dumping (t : string) : ostream := mkOstream true ba "0"%char 0 t.

(** Line [k] has been begun and holds [bs]. *)
Definition begun (base : string) (k : Z) (bs : list byte) : dump :=
  mkDump (dumping (base +:+ line_head indent k +:+ hex_columns bs)) (16 * k + len bs)
    (mkStringbuf (dump_char <$> bs) (length bs)).

(** The text once the line is finished *)
Definition finish (s : dump) : string :=
  let print_rem := Z.rem (16 - Z.land (du_printed s) 15) 16 in
  os_text (du_cout s) +:+ spaces " "%char (Z.to_nat (2 * print_rem + Z.quot print_rem 2 + 4)) +:+ sb_str (du_pchars s).

Lemma land_15 n : Z.land n 15 = n mod 16.
Proof. change 15 with (Z.ones 4). by apply Z.land_ones. Qed.

Lemma land_1 n : Z.land n 1 = n mod 2.
Proof. change 1 with (Z.ones 1) at 1. by apply Z.land_ones. Qed.

Lemma spaces_app c m n : spaces c (m + n) = spaces c m +:+ spaces c n.
Proof. induction m as [|m IH]; [done|exact (f_equal (String c) IH)]. Qed.

Lemma finish_begun base k bs :
  (1 <= length bs <= 16)%nat -> finish (begun base k bs) = base +:+ dump_line indent k bs.
Proof.
  intros Hl. unfold finish, begun, dump_line. cbn [du_printed du_cout du_pchars os_text dumping].
  destruct (hex_columns_length bs) as [Hc| ->]; [lia| |simpl in Hl; lia].
  change (sb_str _) with (chars bs). rewrite land_15.
  set (r := (16 - length bs)%nat) in *.
  assert (E : Z.rem (16 - (16 * k + len bs) mod 16) 16 = Z.of_nat r).
  { replace (16 * k + len bs) with (len bs + k * 16) by lia. rewrite Z.mod_add by lia.
    destruct (decide (length bs = 16)%nat) as [E|Hn].
    - assert (r = 0%nat) as -> by (unfold r; lia). by rewrite E.
    - rewrite Z.mod_small, Z.rem_small by lia. unfold r. lia. }
  rewrite E. replace (Z.to_nat (2 * Z.of_nat r + Z.quot (Z.of_nat r) 2 + 4)) with (39 - String.length (hex_columns bs) + 4)%nat.
  - rewrite spaces_app, !app_assoc_s. done.
  - rewrite Z.quot_div_nonneg by lia. change 2 with (Z.of_nat 2) at 2. rewrite <- Nat2Z.inj_div. lia.
Qed.

Lemma emit_byte t b :
  (dumping t << setw 2 << byte.unsigned b)%text = dumping (t +:+ hex_byte b).
Proof. by rewrite <- put_byte. Qed.

(** A byte inside a line *)
Lemma step_inside base k bs b :
  (1 <= length bs < 16)%nat -> 0 <= k -> 16 * k + len bs + 1 < 2 ^ 31 ->
  hexdump_step pad (begun base k bs) b = Ok (begun base k (bs ++ [b])).
Proof.
  intros Hl Hk Hb. unfold hexdump_step, begun.
  replace (16 * k + len bs) with (len bs + k * 16) by lia. rewrite land_15, Z.mod_add, Z.mod_small by lia.
  rewrite (proj2 (Z.eqb_neq _ _)) by lia. rewrite land_1.
  replace (len bs + k * 16) with (len bs + (8 * k) * 2) by lia. rewrite Z.mod_add by lia.
  replace (len bs + (8 * k) * 2 + 1) with (16 * k + len (bs ++ [b])) by (rewrite length_app; simpl; lia).
  assert (Eb : (16 * k + len (bs ++ [b]) <? 2 ^ 31) = true) by (apply Z.ltb_lt; rewrite length_app; cbn [length]; lia).
  assert (Ec : sb_putc (mkStringbuf (dump_char <$> bs) (length bs)) (dump_char b) =
    mkStringbuf (dump_char <$> bs ++ [b]) (length (bs ++ [b]))).
  { unfold sb_putc. cbn [sb_pos sb_text]. rewrite fmap_app, length_app.
    rewrite take_ge, drop_ge by (rewrite length_fmap; lia). f_equal. simpl. lia. }
  assert (Eh : hex_columns (bs ++ [b]) = hex_columns bs +:+ (if len bs mod 2 =? 0 then " " else "") +:+ hex_byte b).
  { rewrite hex_columns_snoc. f_equal. f_equal. rewrite (proj2 (Nat.eqb_neq _ _)) by lia. cbn [negb andb].
    destruct (Nat.even (length bs)) eqn:Ev; [apply Nat.even_spec in Ev as [m Em]|].
    - rewrite Em. replace (Z.of_nat (2 * m)) with (Z.of_nat m * 2) by lia. by rewrite Z.mod_mul by lia.
    - rewrite <- Nat.negb_odd, negb_false_iff in Ev. apply Nat.odd_spec in Ev as [m Em].
      rewrite Em. replace (Z.of_nat (2 * m + 1)) with (1 + Z.of_nat m * 2) by lia. by rewrite Z.mod_add by lia. }
  rewrite Eh. destruct (len bs mod 2 =? 0); cbv zeta beta iota.
  all: change (put (dumping ?t) " "%char) with (dumping (t +:+ " ")); rewrite ?emit_byte, Ec, Eb, !app_assoc_s; done.
Qed.

Lemma emit_head t k : (dumping t << pad << setw 8 << 16 * k << ":    ")%text = dumping (t +:+ line_head indent k).
Proof.
  change (dumping (((t +:+ pad) +:+ offset8 (16 * k)) +:+ ":    ") = dumping (t +:+ line_head indent k)).
  unfold line_head. by rewrite !app_assoc_s.
Qed.

(** A byte that begins a line: the one before is finished first. *)
Lemma step_wraps base k bs b :
  length bs = 16%nat -> 0 <= k -> 16 * (k + 1) + 1 < 2 ^ 31 ->
  hexdump_step pad (begun base k bs) b =
    Ok (begun (base +:+ dump_line indent k bs +:+ String nl "") (k + 1) [b]).
Proof.
  intros Hl Hk Hb. unfold hexdump_step, begun. rewrite Hl. replace (16 * k + Z.of_nat 16) with (16 * (k + 1)) by lia.
  rewrite land_15, (Z.mul_comm 16), Z.mod_mul, Z.eqb_refl by lia. rewrite (proj2 (Z.eqb_neq _ _)) by lia. cbn [negb].
  assert (El : dump_line indent k bs = line_head indent k +:+ hex_columns bs +:+ "    " +:+ chars bs).
  { unfold dump_line. destruct (hex_columns_length bs) as [Hc| ->]; [lia| |done]. rewrite Hl in Hc.
    by replace (39 - String.length (hex_columns bs))%nat with 0%nat by (simpl in Hc; lia). }
  change (sb_str _) with (chars bs).
  change (dumping ?t << "    " << chars bs << String nl "")%text with (dumping (((t +:+ "    ") +:+ chars bs) +:+ String nl "")).
  cbv iota beta zeta. rewrite (Z.mul_comm (k + 1)), (emit_head _ (k + 1)), (emit_byte _ b).
  rewrite (proj2 (Z.ltb_lt _ _)) by lia. rewrite El, !app_assoc_s. done.
Qed.

Lemma step_first base b :
  hexdump_step pad (mkDump (dumping base) 0 (sb_new " ")) b = Ok (begun base 0 [b]).
Proof.
  unfold hexdump_step. change (negb (0 =? 0)) with false. cbv iota beta.
  change (dumping base << pad << setw 8 << 0 << ":    ")%text with (dumping base << pad << setw 8 << 16 * 0 << ":    ")%text.
  rewrite (emit_head base 0). change (Z.land 0 15 =? 0) with true. cbv iota beta.
  by rewrite (emit_byte _ b), !app_assoc_s.
Qed.

Lemma loop_chunk base k data rest : forall bs,
  (1 <= length bs)%nat -> (length bs + length data <= 16)%nat -> 0 <= k -> 16 * k + len bs + len data < 2 ^ 31 ->
  hexdump_loop pad (begun base k bs) (data ++ rest) = hexdump_loop pad (begun base k (bs ++ data)) rest.
Proof.
  induction data as [|b data IH]; intros bs H1 H2 Hk Hb; [by rewrite app_nil_r|]. simpl in H2, Hb.
  cbn [app hexdump_loop]. rewrite step_inside by lia. cbn [mbind outcome_bind].
  rewrite IH by (rewrite ?length_app; simpl; lia). by rewrite <- app_assoc.
Qed.

Notation lines k bs data :=
  (join (String nl "") (dump_line indent k (bs ++ take (16 - length bs) data) ::
     dump_lines indent (k + 1) (drop (16 - length bs) data))).

Lemma loop_lines n : forall data base k bs,
  (length data <= n)%nat -> (1 <= length bs <= 16)%nat -> 0 <= k -> 16 * k + len bs + len data < 2 ^ 31 ->
  exists t n pchars, let s := mkDump (dumping t) n pchars in
    hexdump_loop pad (begun base k bs) data = Ok s /\ finish s = base +:+ lines k bs data.
Proof.
  induction n as [|n IH]; intros data base k bs Hn H1 Hk Hb.
  all: destruct (decide (length data <= 16 - length bs)%nat) as [Hle|Hgt]; [|try lia].
  1, 2: rewrite take_ge, drop_ge by done; pose proof (loop_chunk base k data [] bs) as Hc;
    rewrite app_nil_r in Hc; cbv zeta; rewrite Hc by lia; eexists _, _, _; split; [done|];
    apply (finish_begun base k (bs ++ data)); rewrite length_app; lia.
  set (m := (16 - length bs)%nat) in *.
  assert (Hlt : length (take m data) = m) by (rewrite length_take; lia).
  pose proof (loop_chunk base k (take m data) (drop m data) bs) as Hc. rewrite take_drop in Hc.
  cbv zeta. rewrite Hc by (rewrite ?Hlt; lia). clear Hc.
  destruct (drop m data) as [|b rest] eqn:Ed.
  { apply (f_equal length) in Ed. rewrite length_drop in Ed. simpl in Ed. lia. }
  assert (Hr : (length data = m + S (length rest))%nat)
    by (rewrite <- (take_drop m data), length_app, Hlt, Ed; done).
  cbn [hexdump_loop]. rewrite step_wraps by (rewrite ?length_app, ?Hlt; lia). cbn [mbind outcome_bind].
  destruct (IH rest (base +:+ dump_line indent k (bs ++ take m data) +:+ String nl "") (k + 1) [b])
    as (t & i & cs & E & Ef); [lia|simpl; lia|lia|simpl; lia|].
  exists t, i, cs. split; [done|]. rewrite Ef, dump_lines_cons, !app_assoc_s. done.
Qed.
End loop.

(** ** Reading the text back *)

Definition hex_of (c : ascii) : option Z :=
  let n := Z.of_N (Ascii.N_of_ascii c) in
  if (48 <=? n) && (n <=? 57) then Some (n - 48)
  else if (97 <=? n) && (n <=? 102) then Some (n - 87) else None.

Fixpoint hex_value (s : string) (acc : Z) : Z :=
  match s with
  | String c s => match hex_of c with Some d => hex_value s (acc * 16 + d) | None => acc end
  | EmptyString => acc
  end.

Lemma digit_cases (P : Z -> Prop) : Forall P (seqZ 0 16) -> forall d, 0 <= d < 16 -> P d.
Proof. rewrite Forall_forall. intros H d Hd. apply H, elem_of_seqZ. lia. Qed.

Lemma hex_digit_of d : 0 <= d < 16 -> hex_of (hex_digit d) = Some d.
Proof. revert d. apply digit_cases. by repeat constructor. Qed.

Lemma hex_value_go fuel : forall n s, 0 <= n < 16 ^ Z.of_nat fuel -> (0 < fuel)%nat ->
  hex_value (hex_go fuel n s) 0 = hex_value s n.
Proof.
  induction fuel as [|fuel IH]; intros n s Hn Hf; [lia|]. cbn [hex_go].
  pose proof (Z.mod_pos_bound n 16 ltac:(lia)) as Hm. pose proof (Z.div_mod n 16 ltac:(lia)) as Hd.
  case_cmp.
  - cbn [hex_value]. rewrite hex_digit_of by done. f_equal. rewrite Z.mod_small; lia.
  - rewrite Nat2Z.inj_succ, Z.pow_succ_r in Hn by lia. destruct fuel as [|fuel]; [simpl in Hn; lia|].
    rewrite IH; [|split; [apply Z.div_pos; lia|apply Z.div_lt_upper_bound; lia]|lia].
    cbn [hex_value]. rewrite hex_digit_of by done. f_equal. lia.
Qed.

(** The digits of a number give the number. *)
Lemma hex_value_to_hex n : 0 <= n < 2 ^ 64 -> hex_value (to_hex n) 0 = n.
Proof. intros Hn. unfold to_hex. by rewrite hex_value_go by (simpl; lia). Qed.

Lemma to_hex_inj m n : 0 <= m < 2 ^ 64 -> 0 <= n < 2 ^ 64 -> to_hex m = to_hex n -> m = n.
Proof. intros Hm Hn E. by rewrite <- (hex_value_to_hex m), <- (hex_value_to_hex n), E by done. Qed.

(** A text without an end of line *)
Fixpoint one_line (s : string) : Prop :=
  match s with "" => True | String c s => c <> nl /\ one_line s end.

Lemma one_line_app a b : one_line a -> one_line b -> one_line (a +:+ b).
Proof. induction a as [|c a IH]; intros Ha Hb; [done|]. destruct Ha as [Hc Ha]. by split; [|apply IH]. Qed.

Lemma one_line_go fuel : forall n s, 0 <= n -> one_line s -> one_line (hex_go fuel n s).
Proof.
  induction fuel as [|fuel IH]; intros n s Hn Hs; [done|]. cbn [hex_go].
  assert (Hd : one_line (String (hex_digit (n mod 16)) s)).
  { split; [|done]. pose proof (Z.mod_pos_bound n 16 ltac:(lia)) as Hm.
    revert Hm. generalize (n mod 16). apply digit_cases. by repeat constructor. }
  case_cmp; [done|]. apply IH; [apply Z.div_pos; lia|done].
Qed.

Lemma one_line_hex n : 0 <= n -> one_line (to_hex n).
Proof. intros Hn. by apply one_line_go. Qed.

(** Lines, each with its end *)
Fixpoint unlines (ls : list string) : string :=
  match ls with [] => "" | l :: ls => l +:+ String nl (unlines ls) end.

Lemma line_inj a b r r' :
  one_line a -> one_line b -> a +:+ String nl r = b +:+ String nl r' -> a = b /\ r = r'.
Proof.
  revert b. induction a as [|c a IH]; intros [|d b] Ha Hb E.
  - by injection E.
  - injection E as <- _. by destruct Hb.
  - injection E as -> _. by destruct Ha.
  - injection E as <- E. destruct Ha as [_ Ha], Hb as [_ Hb]. by destruct (IH b Ha Hb E) as [-> ->].
Qed.

Lemma unlines_inj ls : forall ls',
  length ls = length ls' -> Forall one_line ls -> Forall one_line ls' -> unlines ls = unlines ls' -> ls = ls'.
Proof.
  induction ls as [|a ls IH]; intros [|b ls'] Hl Ha Hb E; try done.
  apply Forall_cons in Ha as [Ha Hls], Hb as [Hb Hls'].
  apply line_inj in E as [-> E]; [|done..]. f_equal. by apply IH; [injection Hl|..].
Qed.

Lemma cons_inj {A} (a b : A) l l' : a :: l = b :: l' -> a = b /\ l = l'.
Proof. by intros [= -> ->]. Qed.

(** What [boolalpha] prints *)
Definition bool_text (b : bool) : string := if b then "true" else "false".
#[global] Arguments bool_text : simpl never.

Lemma bool_text_inj b b' r r' : bool_text b +:+ r = bool_text b' +:+ r' -> b = b' /\ r = r'.
Proof. destruct b, b'; intros E; (split; [done|]) || done; by injection E. Qed.

Lemma one_line_bool b : one_line (bool_text b).
Proof. by destruct b. Qed.

(** The lines of [TCPHeader::to_string] *)
Definition TCPHeader_lines (h : TCPHeader) : list string :=
  ["TCP source port: " +:+ to_hex (sport h);
   "TCP dest port: " +:+ to_hex (dport h);
   "TCP seqno: " +:+ to_hex (raw_value (seqno h));
   "TCP ackno: " +:+ to_hex (raw_value (ackno h));
   "TCP doff: " +:+ to_hex (doff h);
   "Flags: urg: " +:+ bool_text (urg h) +:+ " ack: " +:+ bool_text (ack h) +:+ " psh: " +:+ bool_text (psh h) +:+
     " rst: " +:+ bool_text (rst h) +:+ " syn: " +:+ bool_text (syn h) +:+ " fin: " +:+ bool_text (fin h);
   "TCP winsize: " +:+ to_hex (win h);
   "TCP cksum: " +:+ to_hex (TCPHeader.cksum h);
   "TCP uptr: " +:+ to_hex (uptr h)].

Lemma TCPHeader_to_string_eq h : TCPHeader_to_string h = unlines (TCPHeader_lines h).
Proof.
  unfold TCPHeader_to_string, TCPHeader_lines.
  cbv [put put_string put_int put_bool put_manip put_wrapping emit manipulate os_hex os_boolalpha os_fill os_width
    os_text ostream_new spaces Nat.sub unlines].
  rewrite !app_assoc_s. reflexivity.
Qed.

Ltac solve_one_line := repeat first [apply one_line_app | apply one_line_hex | apply one_line_bool | by repeat split]; try lia.

Lemma TCPHeader_lines_ok h : TCPHeader.header_valid h -> Forall one_line (TCPHeader_lines h).
Proof.
  intros [? ? [? ?] [? ?] ? ? ? ?]. unfold TCPHeader_lines.
  repeat (apply Forall_cons; split); [solve_one_line..|constructor].
Qed.

(** ** Properties *)

(** C32. The loop of [hexdump] agrees with a definition line by line: for bytes not more
    than an [int] can count, lines of 16 bytes each, with the offset, the groups of two bytes,
    and the characters in their own column whatever the length of the last line; it
    restores the flags of the stream and leaves [0] as its fill character. *)
Theorem hexdump_layout cout b data indent :
  len (b :: data) < 2 ^ 31 -> os_width cout = 0%nat ->
  hexdump cout (b :: data) indent =
    Ok (mkOstream (os_hex cout) (os_boolalpha cout) "0"%char 0
      (os_text cout +:+ join (String nl "") (dump_lines indent 0 (b :: data)) +:+ String nl (String nl ""))).
Proof.
  intros Hl Hw. unfold hexdump. cbv zeta.
  replace (cout << hex << setfill "0"%char)%text with (dumping (os_boolalpha cout) (os_text cout))
    by (destruct cout; simpl in Hw; by subst).
  cbn [hexdump_loop]. rewrite step_first. cbn [mbind outcome_bind].
  destruct (loop_lines indent (os_boolalpha cout) (length data) data (os_text cout) 0 [b])
    as (t & i & cs & E & Ef); [lia|simpl; lia|lia|simpl in *; lia|].
  rewrite E. cbn [mbind outcome_bind mret outcome_ret]. rewrite dump_lines_cons, <- app_assoc_s.
  change (_ +:+ join _ _) with (os_text cout +:+ join (String nl "")
    (dump_line indent 0 ([b] ++ take 15 data) :: dump_lines indent (0 + 1) (drop 15 data))).
  change (16 - length [b])%nat with 15%nat in Ef. rewrite <- Ef. unfold finish. cbn. by rewrite !app_assoc_s.
Qed.

Lemma hexdump_layout_witness :
  let data := String.list_byte_of_string "seventeen letters" in
  len data < 2 ^ 31 /\
  hexdump ostream_new data 2 =
    Ok (mkOstream false false "0"%char 0
      ("" +:+ join (String nl "") (dump_lines 2 0 data) +:+ String nl (String nl ""))).
Proof. split; [vm_compute; reflexivity|]. by apply (hexdump_layout ostream_new). Defined.

(** Nothing to dump: only here the blank that [pchars] is made with is seen. *)
Example dump_nothing :
  hexdump ostream_new [] 2 = Ok (mkOstream false false "0"%char 0 ("     " +:+ String nl (String nl ""))).
Proof. by vm_compute. Qed.

(** The printed header determines the header: every field of a valid one is printed,
    and no two print alike. *)
Theorem header_text_unambiguous h h' :
  TCPHeader.header_valid h -> TCPHeader.header_valid h' -> TCPHeader_to_string h = TCPHeader_to_string h' -> h = h'.
Proof.
  intros Hh Hh'. rewrite !TCPHeader_to_string_eq. intros E.
  apply unlines_inj in E; [|done|by apply TCPHeader_lines_ok..]. unfold TCPHeader_lines in E.
  destruct h as [? ? [?] [?] ? ? ? ? ? ? ? ? ? ?], h' as [? ? [?] [?] ? ? ? ? ? ? ? ? ? ?].
  destruct Hh as [? ? [? ?] [? ?] ? ? ? ?], Hh' as [? ? [? ?] [? ?] ? ? ? ?]. cbn in *.
  repeat (let H := fresh in let E' := fresh in
    destruct (cons_inj _ _ _ _ E) as [H E']; clear E; rename E' into E; apply (inj (String.append _)) in H).
  repeat match goal with H : to_hex _ = to_hex _ |- _ => apply to_hex_inj in H; [|lia..] end.
  repeat match goal with
  | H : bool_text _ +:+ _ = bool_text _ +:+ _ |- _ =>
      apply bool_text_inj in H as [? H]; apply (inj (String.append _)) in H
  end.
  assert (fin = fin0) as ->.
  { match goal with H : bool_text fin = _ |- _ => by apply (bool_text_inj fin fin0 "" ""); rewrite !app_nil_s end. }
  congruence.
Qed.

Lemma header_text_unambiguous_witness :
  TCPHeader_to_string TCPHeader_default = TCPHeader_to_string TCPHeader_default /\ TCPHeader_default = TCPHeader_default.
Proof.
  split; [done|]. apply header_text_unambiguous; [apply header_default_valid..|done].
Defined.
