(* ===== verification/TCPConfig.v ===== *)
(** * Configuration constants

    Model of [libsponge/tcp_helpers/tcp_config.hh]: the parameters of a connection
    and of the adapter below it. *)

From S2P Require Import Prelude WrappingIntegers Address.

Definition DEFAULT_CAPACITY : Z := 64000.
Definition MAX_PAYLOAD_SIZE : Z := 1000.
Definition TIMEOUT_DFLT : Z := 1000.
Definition MAX_RETX_ATTEMPTS : Z := 8.

Record TCPConfig := mkTCPConfig {
  rt_timeout : Z;
  recv_capacity : Z;
  send_capacity : Z;
  fixed_isn : option WrappingInt32
}.

Definition TCPConfig_default : TCPConfig :=
  mkTCPConfig TIMEOUT_DFLT DEFAULT_CAPACITY DEFAULT_CAPACITY None.

(** [class FdAdapterConfig] *)
Record FdAdapterConfig := mkFdAdapterConfig {
  source : Address;
  destination : Address;
  loss_rate_dn : Z;
  loss_rate_up : Z
}.

(** The member initialisers construct their addresses from names. *)
Definition FdAdapterConfig_default `{Resolver} : outcome FdAdapterConfig :=
  source ← of_ip_port "0" 0;
  destination ← of_ip_port "0" 0;
  mret (mkFdAdapterConfig source destination 0 0).
