(* ===== verification/FdAdapter.v ===== *)
(** * Adapters between TCP segments and datagrams

    Model of [libsponge/tcp_helpers/fd_adapter.hh] and [.cc],
    [lossy_fd_adapter.hh], [tcp_over_ip.hh] and [.cc] and [tuntap_adapter.hh]:
    segments travel as UDP payloads or in IPv4 datagrams, a lossy adapter drops
    some of them.  What the socket or the device delivers is an argument of
    [read], what is handed to it is a result of [write]. *)

From S2P Require Import Prelude WrappingIntegers Buffer Parser InternetChecksum Address TCPHeader.
From S2P Require Import TCPSegment IPv4Header IPv4Datagram TCPConfig.

(** ** What all adapters share *)

Record FdAdapterBase := mkFdAdapterBase { _cfg : FdAdapterConfig; _listen : bool }.

Definition base_set_listening (l : bool) (a : FdAdapterBase) : FdAdapterBase := mkFdAdapterBase (_cfg a) l.
Definition base_set_config (c : FdAdapterConfig) (a : FdAdapterBase) : FdAdapterBase := mkFdAdapterBase c (_listen a).
Definition base_tick (a : FdAdapterBase) (ms : Z) : FdAdapterBase := a.

Definition set_destination (d : Address) (c : FdAdapterConfig) : FdAdapterConfig :=
  mkFdAdapterConfig (source c) d (loss_rate_dn c) (loss_rate_up c).
Definition set_source (s : Address) (c : FdAdapterConfig) : FdAdapterConfig :=
  mkFdAdapterConfig s (destination c) (loss_rate_dn c) (loss_rate_up c).

(** [seg.header().sport] and [dport] are assigned in place. *)
Definition set_ports (sp dp : Z) : TCPSegment -> TCPSegment := on_header (fun h =>
  mkTCPHeader sp dp (seqno h) (TCPHeader.ackno h) (doff h) (urg h) (ack h) (psh h) (rst h) (syn h)
    (fin h) (win h) (TCPHeader.cksum h) (uptr h)).

Section adapters.
  Context `{R : Resolver}.

(** ** Segments in UDP payloads *)

Record received_datagram := mkReceived { source_address : Address; dgram_payload : list byte }.

Definition udp_read (a : FdAdapterBase) (datagram : received_datagram) :
    outcome (FdAdapterBase * option TCPSegment) :=
  if negb (_listen a) && negb (address_eqb (source_address datagram) (destination (_cfg a))) then
    mret (a, None)
  else
    '(res, seg) ← TCPSegment.parse TCPSegment_default (Buffer_of (dgram_payload datagram)) 0;
    if negb (bool_decide (res = NoError)) then mret (a, None)
    else if _listen a then
      if syn (header seg) && negb (rst (header seg)) then
        mret (mkFdAdapterBase (set_destination (source_address datagram) (_cfg a)) false, Some seg)
      else mret (a, None)
    else mret (a, Some seg).

(** The segment with its ports, and what goes to [sendto]. *)
Definition udp_write (a : FdAdapterBase) (seg : TCPSegment) :
    outcome (TCPSegment * (Address * BufferList)) :=
  sp ← port (source (_cfg a));
  dp ← port (destination (_cfg a));
  let seg := set_ports sp dp seg in
  bl ← TCPSegment.serialize seg 0;
  mret (seg, (destination (_cfg a), bl)).

(** ** Segments in IPv4 datagrams *)

Definition unwrap_tcp_in_ip (a : FdAdapterBase) (ip_dgram : IPv4Datagram) :
    outcome (FdAdapterBase * option TCPSegment) :=
  let h := _header ip_dgram in
  not_for_us ← (if negb (_listen a) then
                  n ← ipv4_numeric (source (_cfg a)); mret (negb (dst h =? n))
                else mret false);
  if (not_for_us : bool) then mret (a, None)
  else
    not_from_peer ← (if negb (_listen a) then
                       n ← ipv4_numeric (destination (_cfg a)); mret (negb (src h =? n))
                     else mret false);
    if (not_from_peer : bool) then mret (a, None)
    else if negb (proto h =? PROTO_TCP) then mret (a, None)
    else
      buffer ← BufferList_to_Buffer (_payload ip_dgram);
      '(res, tcp_seg) ← TCPSegment.parse TCPSegment_default buffer (pseudo_cksum h);
      if negb (bool_decide (res = NoError)) then mret (a, None)
      else
        sp ← port (source (_cfg a));
        if negb (dport (header tcp_seg) =? sp) then mret (a, None)
        else if _listen a && negb (syn (header tcp_seg) && negb (rst (header tcp_seg))) then
          mret (a, None)
        else
          a ← (if _listen a then
                 sp ← port (source (_cfg a));
                 s ← of_ip_port (inet_ntoa (unparse_bytes 4 (dst h))) sp;
                 let a := base_set_config (set_source s (_cfg a)) a in
                 d ← of_ip_port (inet_ntoa (unparse_bytes 4 (src h))) (sport (header tcp_seg));
                 let a := base_set_config (set_destination d (_cfg a)) a in
                 mret (base_set_listening false a)
               else mret a);
          dp ← port (destination (_cfg a));
          if negb (sport (header tcp_seg) =? dp) then mret (a, None) else mret (a, Some tcp_seg).

(** The header of the datagram: addresses and length *)
Definition ip_header_for (s d : Z) (length : Z) : IPv4Header :=
  let h := IPv4Header_default in
  mkIPv4Header (ver h) (hlen h) (tos h) length (id h) (df h) (mf h) (offset h) (ttl h) (proto h)
    (cksum h) s d.

Definition wrap_tcp_in_ip (a : FdAdapterBase) (seg : TCPSegment) : outcome (TCPSegment * IPv4Datagram) :=
  sp ← port (source (_cfg a));
  dp ← port (destination (_cfg a));
  let seg := set_ports sp dp seg in
  s ← ipv4_numeric (source (_cfg a));
  d ← ipv4_numeric (destination (_cfg a));
  let length := u16 (hlen IPv4Header_default * 4 + doff (header seg) * 4 + Buffer.size (payload seg)) in
  let h := ip_header_for s d length in
  bl ← TCPSegment.serialize seg (pseudo_cksum h);
  mret (seg, mkIPv4Datagram h bl).

(** [TCPOverIPv4OverTunFdAdapter]: the device delivers and takes strings. *)
Definition tun_read (a : FdAdapterBase) (bytes : list byte) : outcome (FdAdapterBase * option TCPSegment) :=
  '(res, ip_dgram) ← IPv4Datagram.parse IPv4Datagram_default (Buffer_of bytes);
  if negb (bool_decide (res = NoError)) then mret (a, None)
  else unwrap_tcp_in_ip a ip_dgram.

Definition tun_write (a : FdAdapterBase) (seg : TCPSegment) : outcome (TCPSegment * BufferList) :=
  '(seg, ip_dgram) ← wrap_tcp_in_ip a seg;
  bl ← IPv4Datagram.serialize ip_dgram;
  mret (seg, bl).
End adapters.

(** ** The interface a socket uses

    [I] is what arrives from below, [O] what is handed down; [write] also
    returns the segment, whose ports it assigns in place, and hands nothing down
    when the segment is dropped. *)
Class FdAdapter (A I O : Type) := {
  config : A -> FdAdapterConfig;
  set_config : FdAdapterConfig -> A -> A;
  listening : A -> bool;
  set_listening : bool -> A -> A;
  read : A -> I -> outcome (A * option TCPSegment);
  write : A -> TCPSegment -> outcome (A * TCPSegment * option O);
  tick : A -> Z -> A
}.

(** The two adapters have the same members, so the class instances are told
    apart by wrapping the base object. *)
Record TCPOverUDPSocketAdapter := mkUDPAdapter { udp_base : FdAdapterBase }.
Record TCPOverIPv4OverTunFdAdapter := mkTunAdapter { tun_base : FdAdapterBase }.

#[global] Instance udp_adapter `{Resolver} :
    FdAdapter TCPOverUDPSocketAdapter received_datagram (Address * BufferList) := {
  config a := _cfg (udp_base a);
  set_config c a := mkUDPAdapter (base_set_config c (udp_base a));
  listening a := _listen (udp_base a);
  set_listening l a := mkUDPAdapter (base_set_listening l (udp_base a));
  read a i := '(b, seg) ← udp_read (udp_base a) i; mret (mkUDPAdapter b, seg);
  write a seg := '(seg, o) ← udp_write (udp_base a) seg; mret (a, seg, Some o);
  tick a ms := mkUDPAdapter (base_tick (udp_base a) ms)
}.

#[global] Instance tun_adapter `{Resolver} :
    FdAdapter TCPOverIPv4OverTunFdAdapter (list byte) BufferList := {
  config a := _cfg (tun_base a);
  set_config c a := mkTunAdapter (base_set_config c (tun_base a));
  listening a := _listen (tun_base a);
  set_listening l a := mkTunAdapter (base_set_listening l (tun_base a));
  read a i := '(b, seg) ← tun_read (tun_base a) i; mret (mkTunAdapter b, seg);
  write a seg := '(seg, o) ← tun_write (tun_base a) seg; mret (a, seg, Some o);
  tick a ms := mkTunAdapter (base_tick (tun_base a) ms)
}.

(** ** Losing segments

    [_rand n] is the [n]-th word the random number generator will yield and
    [_drawn] how many were drawn. *)
Record LossyFdAdapter (A : Type) := mkLossy { _rand : nat -> Z; _drawn : nat; _adapter : A }.
Arguments mkLossy {A} _ _ _.
Arguments _rand {A} _.
Arguments _drawn {A} _.
Arguments _adapter {A} _.

Section lossy.
  Context {A I O : Type} `{FdAdapter A I O}.

Definition on_adapter (f : A -> A) (l : LossyFdAdapter A) : LossyFdAdapter A :=
  mkLossy (_rand l) (_drawn l) (f (_adapter l)).

(** A word is drawn only when the loss rate is not zero. *)
Definition _should_drop (uplink : bool) (l : LossyFdAdapter A) : bool * LossyFdAdapter A :=
  let cfg := config (_adapter l) in
  let loss := if uplink then loss_rate_up cfg else loss_rate_dn cfg in
  if loss =? 0 then (false, l)
  else (u16 (_rand l (_drawn l)) <? loss, mkLossy (_rand l) (S (_drawn l)) (_adapter l)).

Definition lossy_read (l : LossyFdAdapter A) (i : I) : outcome (LossyFdAdapter A * option TCPSegment) :=
  '(a, ret) ← read (_adapter l) i;
  let '(drop, l) := _should_drop false (on_adapter (fun _ => a) l) in
  mret (l, if (drop : bool) then None else ret).

Definition lossy_write (l : LossyFdAdapter A) (seg : TCPSegment) :
    outcome (LossyFdAdapter A * TCPSegment * option O) :=
  let '(drop, l) := _should_drop true l in
  if (drop : bool) then mret (l, seg, None)
  else '(a, seg, o) ← write (_adapter l) seg; mret (on_adapter (fun _ => a) l, seg, o).
End lossy.

#[global] Instance lossy_adapter {A I O} `{FdAdapter A I O} : FdAdapter (LossyFdAdapter A) I O := {
  config l := config (_adapter l);
  set_config c := on_adapter (set_config c);
  listening l := listening (_adapter l);
  set_listening b := on_adapter (set_listening b);
  read := lossy_read;
  write := lossy_write;
  tick l ms := on_adapter (fun a => tick a ms) l
}.

(** ** What an adapter promises *)

(** The network carries what a socket at address [from] sent to the peer. *)
Class Transport (I O : Type) := carry : Address -> O -> I.

#[global] Instance udp_transport : Transport received_datagram (Address * BufferList) :=
  fun from o => mkReceived from (concatenate (snd o)).
#[global] Instance tun_transport : Transport (list byte) BufferList := fun _ o => concatenate o.

(** The adapter talks as [sa:sp] to [da:dp]. *)
Record endpoints (c : FdAdapterConfig) (sa sp da dp : Z) : Prop := {
  ep_source : source c = ipv4_address sa sp;
  ep_destination : destination c = ipv4_address da dp;
  ep_sa : 0 <= sa < 2 ^ 32;
  ep_sp : 0 <= sp < 2 ^ 16;
  ep_da : 0 <= da < 2 ^ 32;
  ep_dp : 0 <= dp < 2 ^ 16
}.

(** The segment fits into an IPv4 datagram. *)
Definition fits (seg : TCPSegment) : Prop :=
  segment_valid seg /\ 20 + 4 * doff (header seg) + len (str (payload seg)) < 2 ^ 16.

(** The segment that arrives is the one that was sent, with the ports of the
    conversation and a checksum filled in. *)
Definition arrives (sp dp : Z) (seg seg' : TCPSegment) : Prop :=
  exists ck, seg' ≡ on_header (TCPSegment.with_cksum ck) (set_ports sp dp seg).

Class FdAdapterOk (A I O : Type) `{FdAdapter A I O} `{Transport I O} := {
  (** a connected adapter stays with its peer *)
  fa_connected b i b' r :
    listening b = false -> read b i = Ok (b', r) -> config b' = config b /\ listening b' = false;
  (** a listening one lets only a SYN through, and then listens no more *)
  fa_listening b i b' r :
    listening b = true -> read b i = Ok (b', r) ->
    (listening b' = true -> config b' = config b /\ r = None) /\
    (forall seg, r = Some seg ->
       listening b' = false /\ syn (header seg) = true /\ rst (header seg) = false);
  (** what is written for the peer, the peer reads *)
  fa_delivers a b sa sp da dp seg :
    endpoints (config a) sa sp da dp -> endpoints (config b) da dp sa sp ->
    loss_rate_up (config a) = 0 -> loss_rate_dn (config b) = 0 -> listening b = false -> fits seg ->
    exists a' o b' seg', write a seg = Ok (a', set_ports sp dp seg, Some o) /\
      read b (carry (source (config a)) o) = Ok (b', Some seg') /\ arrives sp dp seg seg' /\
      config a' = config a /\ listening a' = listening a;
  (** and a SYN makes its sender the peer of a listening adapter *)
  fa_accepts a b sa sp da dp seg :
    endpoints (config a) sa sp da dp -> source (config b) = ipv4_address da dp ->
    loss_rate_up (config a) = 0 -> loss_rate_dn (config b) = 0 -> listening b = true -> fits seg ->
    syn (header seg) = true -> rst (header seg) = false ->
    exists a' o b' seg', write a seg = Ok (a', set_ports sp dp seg, Some o) /\
      read b (carry (source (config a)) o) = Ok (b', Some seg') /\ arrives sp dp seg seg' /\
      config a' = config a /\ listening a' = listening a /\
      listening b' = false /\ endpoints (config b') da dp sa sp /\
      loss_rate_up (config b') = loss_rate_up (config b) /\
      loss_rate_dn (config b') = loss_rate_dn (config b)
}.

(** ** Both adapters keep the promise *)

Lemma set_ports_valid sp dp seg :
  0 <= sp < 2 ^ 16 -> 0 <= dp < 2 ^ 16 -> segment_valid seg -> segment_valid (set_ports sp dp seg).
Proof. intros Hs Hd ([] & Hv). by split. Qed.

Section promises.
  Context `{RO : ResolverOk}.

(** A serialized segment with its ports parses to the segment that arrives. *)
Lemma serialized_arrives old sp dp seg c0 :
  0 <= sp < 2 ^ 16 -> 0 <= dp < 2 ^ 16 -> fits seg -> 0 <= c0 < 2 ^ 20 ->
  exists bl, TCPSegment.serialize (set_ports sp dp seg) c0 = Ok bl /\
    len (concatenate bl) = 4 * doff (header seg) + len (str (payload seg)) /\
    forall b, buffer_ok b -> str b = concatenate bl ->
    exists seg', TCPSegment.parse old b c0 = Ok (NoError, seg') /\ arrives sp dp seg seg'.
Proof.
  intros Hs Hd [Hv Hf] Hc. pose proof (set_ports_valid sp dp seg Hs Hd Hv) as Hv'.
  destruct (serialize_bytes _ c0 Hv' Hc) as (bl & ck & E & Hck & Eb & Ec & _).
  exists bl. split; [done|]. split.
  - rewrite Eb, !length_app, length_replicate. cbn [set_ports on_header header payload doff].
    pose proof (len_unparse_fields (TCPSegment.with_cksum ck (header (set_ports sp dp seg)))).
    destruct Hv as (_ & Hdo & _). cbn [set_ports on_header header] in *. lia.
  - intros b Hb Es. destruct (parse_serialized_segment old _ c0 b ck Hv' Hck Hb) as (seg' & E' & Heq);
      [by rewrite Es|by rewrite Es|]. exists seg'. split; [done|]. by exists ck.
Qed.

Lemma udp_writes a sa sp da dp seg :
  endpoints (_cfg a) sa sp da dp -> fits seg ->
  exists bl seg', udp_write a seg = Ok (set_ports sp dp seg, (destination (_cfg a), bl)) /\
    TCPSegment.parse TCPSegment_default (Buffer_of (concatenate bl)) 0 = Ok (NoError, seg') /\
    arrives sp dp seg seg'.
Proof.
  intros [Es Ed Hsa Hsp Hda Hdp] Hf. unfold udp_write. rewrite Es, Ed, !port_eq by done.
  cbn [mbind outcome_bind].
  destruct (serialized_arrives TCPSegment_default sp dp seg 0 Hsp Hdp Hf) as (bl & -> & Hl & Hp); [lia|].
  destruct (Hp (Buffer_of (concatenate bl))) as (seg' & E & Ha); [|done|by exists bl, seg'].
  apply Buffer_of_ok. destruct Hf. lia.
Qed.

Lemma arrives_flags sp dp seg seg' :
  arrives sp dp seg seg' -> syn (header seg') = syn (header seg) /\ rst (header seg') = rst (header seg) /\
  sport (header seg') = sp /\ dport (header seg') = dp.
Proof. intros [ck [E _]]. by rewrite E. Qed.

(** A datagram for the conversation: its addresses, and the segment in it. *)
Lemma tun_writes a sa sp da dp seg :
  endpoints (_cfg a) sa sp da dp -> fits seg ->
  exists bl h pl seg', tun_write a seg = Ok (set_ports sp dp seg, bl) /\
    IPv4Datagram.parse IPv4Datagram_default (Buffer_of (concatenate bl)) =
      Ok (NoError, mkIPv4Datagram h [pl]) /\
    src h = sa /\ dst h = da /\ proto h = PROTO_TCP /\
    TCPSegment.parse TCPSegment_default pl (pseudo_cksum h) = Ok (NoError, seg') /\
    arrives sp dp seg seg'.
Proof.
  intros [Es Ed Hsa Hsp Hda Hdp] Hf. unfold tun_write, wrap_tcp_in_ip.
  rewrite Es, Ed, !port_eq, !ipv4_numeric_eq by done. cbn [mbind outcome_bind].
  set (n := u16 _). set (h := ip_header_for sa da n).
  assert (En : n = 20 + 4 * doff (header seg) + len (str (payload seg))).
  { unfold n. destruct Hf as [(Hv & _) Hf]. pose proof (hv_doff _ Hv).
    change (doff (header (set_ports sp dp seg))) with (doff (header seg)).
    change (Buffer.size (payload (set_ports sp dp seg))) with (len (str (payload seg))).
    change (hlen IPv4Header_default * 4) with 20. rewrite u16_small; lia. }
  assert (Hh : IPv4Header.header_valid h).
  { destruct Hf as [(Hv & _) Hf]. pose proof (hv_doff _ Hv). pose proof ipv4_default_valid as [].
    constructor; try done. simpl. lia. }
  destruct (serialized_arrives TCPSegment_default sp dp seg (pseudo_cksum h) Hsp Hdp Hf)
    as (bl & -> & Hl & Hp); [by apply pseudo_cksum_bound|]. cbn [mbind outcome_bind mret outcome_ret].
  destruct (datagram_parse_serialized IPv4Datagram_default (mkIPv4Datagram h bl))
    as (bl' & ck & d' & p' & -> & _ & E & -> & Hp').
  { constructor; [done|done|vm_compute; congruence|].
    change (n = 20 + len (concatenate bl)). rewrite Hl. lia. }
  destruct (Hp (Parser._buffer p')) as (seg' & E' & Ha); [apply Hp'|by rewrite (parses_str _ _ Hp')|].
  cbn [mbind outcome_bind mret outcome_ret]. eexists bl', _, _, seg'. by split_and!.
Qed.

(** What a connected adapter makes of a datagram that holds a segment. *)
Lemma unwrap_connected a sa sp da dp h pl res seg :
  endpoints (_cfg a) sa sp da dp -> _listen a = false ->
  TCPSegment.parse TCPSegment_default pl (pseudo_cksum h) = Ok (res, seg) ->
  unwrap_tcp_in_ip a (mkIPv4Datagram h [pl]) =
    Ok (a, if (dst h =? sa) && (src h =? da) && (proto h =? PROTO_TCP) && bool_decide (res = NoError) &&
              (dport (header seg) =? sp) && (sport (header seg) =? dp)
           then Some seg else None).
Proof.
  intros [Es Ed Hsa Hsp Hda Hdp] Hl E. unfold unwrap_tcp_in_ip. rewrite Hl, Es, Ed.
  cbn [_header _payload BufferList_to_Buffer negb andb].
  rewrite !ipv4_numeric_eq, !port_eq by done. cbn [mbind outcome_bind mret outcome_ret].
  destruct (dst h =? sa); [|done]. destruct (src h =? da); [|done].
  destruct (proto h =? PROTO_TCP); [|done]. cbn [negb andb mbind outcome_bind]. rewrite E.
  cbn [mbind outcome_bind]. destruct (bool_decide (res = NoError)); [|done]. cbn [negb andb].
  destruct (dport (header seg) =? sp); [|done]. cbn [negb andb]. rewrite Ed, port_eq by done.
  cbn [mbind outcome_bind]. by destruct (sport (header seg) =? dp).
Qed.

(** And a listening one. *)
Lemma unwrap_listening a sa sp h pl res seg :
  source (_cfg a) = ipv4_address sa sp -> 0 <= sa < 2 ^ 32 -> 0 <= sp < 2 ^ 16 -> _listen a = true ->
  0 <= src h < 2 ^ 32 -> 0 <= dst h < 2 ^ 32 -> 0 <= sport (header seg) < 2 ^ 16 ->
  TCPSegment.parse TCPSegment_default pl (pseudo_cksum h) = Ok (res, seg) ->
  unwrap_tcp_in_ip a (mkIPv4Datagram h [pl]) =
    Ok (if (proto h =? PROTO_TCP) && bool_decide (res = NoError) && (dport (header seg) =? sp) &&
           (syn (header seg) && negb (rst (header seg)))
        then (mkFdAdapterBase (mkFdAdapterConfig (ipv4_address (dst h) sp)
                (ipv4_address (src h) (sport (header seg)))
                (loss_rate_dn (_cfg a)) (loss_rate_up (_cfg a))) false, Some seg)
        else (a, None)).
Proof.
  intros Es Hsa Hsp Hl Hs Hd Hv E. unfold unwrap_tcp_in_ip. rewrite Hl, Es.
  cbn [_header _payload BufferList_to_Buffer negb mbind outcome_bind mret outcome_ret].
  destruct (proto h =? PROTO_TCP); [|done]. cbn [negb andb mbind outcome_bind]. rewrite E.
  cbn [mbind outcome_bind]. destruct (bool_decide (res = NoError)); [|done]. cbn [negb andb].
  rewrite !port_eq by done. cbn [mbind outcome_bind].
  destruct (dport (header seg) =? sp); [|done]. cbn [negb andb].
  destruct (syn (header seg) && negb (rst (header seg))); [|done]. cbn [negb].
  rewrite !of_ip_port_eq by done. cbn [mbind outcome_bind mret outcome_ret base_set_listening base_set_config _cfg
    set_destination set_source destination]. rewrite port_eq by done.
  cbn [mbind outcome_bind mret outcome_ret]. by rewrite Z.eqb_refl.
Qed.
End promises.

(** How a call of [read] may change the adapter: not at all, or a listening one
    takes a SYN and listens no more. *)
Definition read_change (a : FdAdapterBase) (r : FdAdapterBase * option TCPSegment) : Prop :=
  (r.1 = a /\ (_listen a = true -> r.2 = None)) \/
  (_listen a = true /\ _listen r.1 = false /\
   forall seg, r.2 = Some seg -> syn (header seg) = true /\ rst (header seg) = false).

Lemma read_change_connected a r : read_change a r -> _listen a = false -> r.1 = a.
Proof. intros [[E _]|[? _]] Hl; [done|congruence]. Qed.

Lemma read_change_listening a r :
  read_change a r -> _listen a = true ->
  (_listen r.1 = true -> r.1 = a /\ r.2 = None) /\
  (forall seg, r.2 = Some seg -> _listen r.1 = false /\ syn (header seg) = true /\ rst (header seg) = false).
Proof.
  intros [[E Hr]|(_ & Hl' & Hs)] Hl.
  - split; [tauto|]. intros seg E'. by rewrite Hr in E'.
  - split; [congruence|]. intros seg E. by split; [|apply Hs].
Qed.

(** Take a successful computation apart. *)
Ltac run_ok :=
  repeat match goal with
  | H : (_ ≫= _) = Ok _ |- _ => apply outcome_bind_ok in H as (? & ? & H)
  | H : Ok _ = Ok _ |- _ => injection H as <-
  | H : mret _ = Ok _ |- _ => injection H as <-
  | H : context [let '(_, _) := ?p in _] |- _ => is_var p; destruct p
  | H : (if ?b then _ else _) = Ok _ |- _ => destruct b eqn:?
  end.

Lemma unwrap_change `{Resolver} a d r : unwrap_tcp_in_ip a d = Ok r -> read_change a r.
Proof.
  unfold unwrap_tcp_in_ip, read_change. intros E. destruct (_listen a) eqn:Hl; cbn [negb andb] in E; run_ok;
    try (left; by split); right; split_and!; try done; intros seg Hs; simplify_eq/=; by destruct (syn _), (rst _).
Qed.

Lemma tun_change `{Resolver} a i r : tun_read a i = Ok r -> read_change a r.
Proof.
  unfold tun_read. intros E. run_ok; [left; by split|]. by eapply unwrap_change.
Qed.

Lemma udp_change `{Resolver} a i r : udp_read a i = Ok r -> read_change a r.
Proof.
  unfold udp_read, read_change. intros E. destruct (_listen a) eqn:Hl; cbn [negb andb] in E; run_ok;
    try (left; by split); right; split_and!; try done; intros seg Hs; simplify_eq/=; by destruct (syn _), (rst _).
Qed.

#[global] Instance udp_adapter_ok `{RO : ResolverOk} :
  FdAdapterOk TCPOverUDPSocketAdapter received_datagram (Address * BufferList).
Proof.
  split.
  - intros [b] i [b'] r Hl E. simpl in *. run_ok.
    apply udp_change, read_change_connected in H; [|done]. simpl in H. by subst.
  - intros [b] i [b'] r Hl E. simpl in *. run_ok.
    apply udp_change, read_change_listening in H as [H1 H2]; [|done]. simpl in *. subst.
    split; [|done]. intros Hl'. destruct (H1 Hl') as [-> ->]. done.
  - intros [a] [b] sa sp da dp seg Ha Hb _ _ Hl Hf. simpl in *.
    destruct (udp_writes a sa sp da dp seg Ha Hf) as (bl & seg' & E & Ep & Har).
    exists (mkUDPAdapter a), (destination (_cfg a), bl), (mkUDPAdapter b), seg'. rewrite E. split; [done|].
    split; [|done]. unfold udp_read. unfold carry, udp_transport. cbn [source_address dgram_payload snd].
    rewrite (ep_source _ _ _ _ _ Ha), (ep_destination _ _ _ _ _ Hb), Hl.
    rewrite address_eqb_eq, !Z.eqb_refl by apply Hb. cbn [negb andb]. by rewrite Ep.
  - intros [a] [b] sa sp da dp seg Ha Hb _ _ Hl Hf Hs Hr. simpl in *.
    destruct (udp_writes a sa sp da dp seg Ha Hf) as (bl & seg' & E & Ep & Har).
    destruct (arrives_flags _ _ _ _ Har) as (Hs' & Hr' & _).
    exists (mkUDPAdapter a), (destination (_cfg a), bl),
      (mkUDPAdapter (mkFdAdapterBase (set_destination (ipv4_address sa sp) (_cfg b)) false)), seg'.
    rewrite E. split; [done|]. split; [|split_and!; try done; constructor; try apply Ha; done].
    unfold udp_read. unfold carry, udp_transport. cbn [source_address dgram_payload snd].
    rewrite (ep_source _ _ _ _ _ Ha), Hl. cbn [negb andb]. rewrite Ep. cbn [mbind outcome_bind].
    by rewrite bool_decide_eq_true_2, Hs', Hr', Hs, Hr.
Qed.

#[global] Instance tun_adapter_ok `{RO : ResolverOk} :
  FdAdapterOk TCPOverIPv4OverTunFdAdapter (list byte) BufferList.
Proof.
  split.
  - intros [b] i [b'] r Hl E. simpl in *. run_ok.
    apply tun_change, read_change_connected in H; [|done]. simpl in H. by subst.
  - intros [b] i [b'] r Hl E. simpl in *. run_ok.
    apply tun_change, read_change_listening in H as [H1 H2]; [|done]. simpl in *. subst.
    split; [|done]. intros Hl'. destruct (H1 Hl') as [-> ->]. done.
  - intros [a] [b] sa sp da dp seg Ha Hb _ _ Hl Hf. simpl in *.
    destruct (tun_writes a sa sp da dp seg Ha Hf) as (bl & h & pl & seg' & E & Ed & Es & Et & Ep & Eseg & Har).
    destruct (arrives_flags _ _ _ _ Har) as (_ & _ & Hsp & Hdp).
    exists (mkTunAdapter a), bl, (mkTunAdapter b), seg'. rewrite E. split; [done|]. split; [|done].
    unfold tun_read. unfold carry, tun_transport. rewrite Ed. cbn [mbind outcome_bind].
    rewrite bool_decide_eq_true_2 by done. cbn [negb].
    by rewrite (unwrap_connected b da dp sa sp _ _ NoError seg'), Es, Et, Ep, Hsp, Hdp, !Z.eqb_refl.
  - intros [a] [b] sa sp da dp seg Ha Hb _ _ Hl Hf Hs Hr. simpl in *.
    destruct (tun_writes a sa sp da dp seg Ha Hf) as (bl & h & pl & seg' & E & Ed & Es & Et & Ep & Eseg & Har).
    destruct (arrives_flags _ _ _ _ Har) as (Hs' & Hr' & Hsp & Hdp).
    eexists (mkTunAdapter a), bl, (mkTunAdapter _), seg'. rewrite E. split; [done|]. split.
    + unfold tun_read. unfold carry, tun_transport. rewrite Ed. cbn [mbind outcome_bind].
      rewrite bool_decide_eq_true_2 by done. cbn [negb].
      rewrite (unwrap_listening b da dp _ _ NoError seg'), Es, Et, Ep, Hsp, Hdp, Hs', Hr', Hs, Hr, !Z.eqb_refl;
        by rewrite ?Es, ?Et, ?Hsp; try apply Ha.
    + split_and!; try done. constructor; rewrite ?Es, ?Et, ?Hsp; simpl; try apply Ha; done.
Qed.

(** A lossy adapter returns what the adapter below it returned, or nothing. *)
Lemma lossy_read_below {A I O} `{FdAdapter A I O} (l l' : LossyFdAdapter A) (i : I) r :
  lossy_read l i = Ok (l', r) ->
  exists ret, read (_adapter l) i = Ok (_adapter l', ret) /\ (r = ret \/ r = None).
Proof.
  unfold lossy_read, _should_drop. intros E. run_ok. exists o. cbn in *.
  unfold mret, outcome_ret in E.
  destruct (_ =? 0); simplify_eq/=; split; [done|by left|done|]. destruct (_ <? _); [by right|by left].
Qed.

(** A lossy adapter keeps the promise as long as its rates are zero. *)
#[global] Instance lossy_adapter_ok {A I O} `{OK : FdAdapterOk A I O} :
  FdAdapterOk (LossyFdAdapter A) I O.
Proof.
  split.
  - intros l i l' r Hl E. apply lossy_read_below in E as (ret & E & _). exact (fa_connected (_adapter l) _ _ _ Hl E).
  - intros l i l' r Hl E. apply lossy_read_below in E as (ret & E & Hr).
    destruct (fa_listening (_adapter l) _ _ _ Hl E) as [H1 H2]. split.
    + intros Hl'. destruct (H1 Hl') as [Hc ->]. by destruct Hr.
    + intros seg ->. destruct Hr as [<-|]; [|done]. by apply H2.
  - intros a b sa sp da dp seg Ha Hb Hu Hd Hl Hf. cbn in *. unfold lossy_write, lossy_read, _should_drop.
    rewrite Hu. cbn.
    destruct (fa_delivers (_adapter a) (_adapter b) sa sp da dp seg Ha Hb Hu Hd Hl Hf)
      as (a' & o & b' & seg' & Ew & Er & Har & Hc & Hla).
    destruct (fa_connected _ _ _ _ Hl Er) as [Hc' _].
    eexists _, o, _, seg'. rewrite Ew. split; [reflexivity|]. rewrite Er. cbn.
    rewrite Hc', Hd. by split_and!.
  - intros a b sa sp da dp seg Ha Hb Hu Hd Hl Hf Hs Hr. cbn in *.
    unfold lossy_write, lossy_read, _should_drop. rewrite Hu. cbn.
    destruct (fa_accepts (_adapter a) (_adapter b) sa sp da dp seg Ha Hb Hu Hd Hl Hf Hs Hr)
      as (a' & o & b' & seg' & Ew & Er & Har & Hc & Hla & Hl' & Hb' & Hu' & Hd').
    eexists _, o, _, seg'. rewrite Ew. split; [reflexivity|]. rewrite Er. cbn.
    rewrite Hd', Hd. split_and!; try done. by rewrite <- Hd, <- Hd'.
Qed.

(** ** Properties *)

(** Connecting through an adapter: [a] connects, [b] listens at its destination,
    nothing is lost at random. *)
Definition handshakes (A I O : Type) `{FdAdapter A I O} `{Transport I O} : Prop :=
  forall (a b : A) sa sp da dp seg,
  endpoints (config a) sa sp da dp -> source (config b) = ipv4_address da dp ->
  listening a = false -> listening b = true ->
  loss_rate_up (config a) = 0 -> loss_rate_dn (config a) = 0 ->
  loss_rate_up (config b) = 0 -> loss_rate_dn (config b) = 0 ->
  fits seg -> syn (header seg) = true -> rst (header seg) = false ->
  exists a' o b' seg', write a seg = Ok (a', set_ports sp dp seg, Some o) /\
    read b (carry (source (config a)) o) = Ok (b', Some seg') /\ arrives sp dp seg seg' /\
    listening b' = false /\ endpoints (config b') da dp sa sp /\
    forall x, fits x ->
      (exists a1 o1 b1 x1, write a' x = Ok (a1, set_ports sp dp x, Some o1) /\
         read b' (carry (source (config a')) o1) = Ok (b1, Some x1) /\ arrives sp dp x x1) /\
      (exists a2 o2 b2 x2, write b' x = Ok (b2, set_ports dp sp x, Some o2) /\
         read a' (carry (source (config b')) o2) = Ok (a2, Some x2) /\ arrives dp sp x x2).

(** The interface is enough for it. *)
Lemma handshake_by_interface {A I O} `{OK : FdAdapterOk A I O} : handshakes A I O.
Proof.
  intros a b sa sp da dp seg Ha Hb Hla Hlb Hua Hda Hub Hdb Hf Hs Hr.
  destruct (fa_accepts a b sa sp da dp seg Ha Hb Hua Hdb Hlb Hf Hs Hr)
    as (a' & o & b' & seg' & Ew & Er & Har & Hc & Hla' & Hlb' & Hb' & Hu' & Hd').
  exists a', o, b', seg'. split_and!; try done. rewrite <- Hc in Ha, Hua, Hda. rewrite <- Hd' in Hdb.
  rewrite <- Hu' in Hub. rewrite <- Hla' in Hla. intros x Hx. split.
  - destruct (fa_delivers a' b' sa sp da dp x Ha Hb' Hua Hdb Hlb' Hx)
      as (a1 & o1 & b1 & x1 & E1 & E2 & E3 & _). by exists a1, o1, b1, x1.
  - destruct (fa_delivers b' a' da dp sa sp x Hb' Ha Hub Hda Hla Hx)
      as (b2 & o2 & a2 & x2 & E1 & E2 & E3 & _). by exists a2, o2, b2, x2.
Qed.


(** A connected IPv4 adapter is total and lets only its peer through: on any
    bytes from the device it returns without an exception and unchanged, and a
    segment only when the datagram parsed, has the addresses of the conversation
    and the protocol TCP, and the segment has the ports and a checksum that
    verifies with the pseudo-header. *)
Theorem ipv4_read_filters `{RO : ResolverOk} a sa sp da dp bytes :
  endpoints (_cfg a) sa sp da dp -> _listen a = false -> len bytes < 2 ^ 63 ->
  exists r, tun_read a bytes = Ok (a, r) /\
    forall seg, r = Some seg -> exists h pl,
      IPv4Datagram.parse IPv4Datagram_default (Buffer_of bytes) = Ok (NoError, mkIPv4Datagram h [pl]) /\
      src h = da /\ dst h = sa /\ proto h = PROTO_TCP /\
      sport (header seg) = dp /\ dport (header seg) = sp /\
      value (add (new (pseudo_cksum h)) (str pl)) = 0.
Proof.
  intros He Hl Hb. unfold tun_read.
  destruct (datagram_parse_in_range IPv4Datagram_default (Buffer_of bytes))
    as (res & h & pl & -> & Hh & Hpl); [by apply Buffer_of_ok|apply ipv4_default_valid|].
  cbn [mbind outcome_bind]. case_bool_decide as Hres; [|by exists None]. subst res. cbn [negb].
  destruct (parse_segment_in_range TCPSegment_default pl (pseudo_cksum h)) as (res & seg & E & _ & Hck);
    [done|apply header_default_valid|].
  rewrite (unwrap_connected a sa sp da dp h pl res seg) by done. eexists. split; [reflexivity|].
  intros seg' Hs. exists h, pl. destruct (_ && _) eqn:Hc; [|done]. simplify_eq.
  rewrite !andb_true_iff, bool_decide_eq_true, !Z.eqb_eq in Hc. naive_solver.
Qed.

(** A listening IPv4 adapter, on any bytes from the device: either nothing
    happens, or a segment for its port with SYN and without RST is returned and
    the adapter, no longer listening, talks from the address the datagram was
    sent to (also when it was bound to any address) to the address and port the
    segment came from. *)
Theorem ipv4_read_listens `{RO : ResolverOk} a sa sp bytes :
  source (_cfg a) = ipv4_address sa sp -> 0 <= sa < 2 ^ 32 -> 0 <= sp < 2 ^ 16 -> _listen a = true ->
  len bytes < 2 ^ 63 ->
  tun_read a bytes = Ok (a, None) \/
  exists b seg da ca, tun_read a bytes = Ok (b, Some seg) /\
    syn (header seg) = true /\ rst (header seg) = false /\ dport (header seg) = sp /\
    _listen b = false /\ endpoints (_cfg b) da sp ca (sport (header seg)).
Proof.
  intros Hs Hsa Hsp Hl Hb. unfold tun_read.
  destruct (datagram_parse_in_range IPv4Datagram_default (Buffer_of bytes))
    as (res & h & pl & -> & Hh & Hpl); [by apply Buffer_of_ok|apply ipv4_default_valid|].
  cbn [mbind outcome_bind]. case_bool_decide as Hres; [|by left]. subst res. cbn [negb].
  destruct (parse_segment_in_range TCPSegment_default pl (pseudo_cksum h)) as (res & seg & E & Hv & _);
    [done|apply header_default_valid|].
  rewrite (unwrap_listening a sa sp h pl res seg) by (done || apply Hh || apply Hv).
  destruct (_ && _ && _ && _) eqn:Hc; [right|by left].
  rewrite !andb_true_iff, bool_decide_eq_true, negb_true_iff, !Z.eqb_eq in Hc.
  destruct Hc as (((_ & _) & Hd) & Hsyn & Hr). eexists _, seg, (dst h), (src h).
  split_and!; try done. constructor; try done; first [apply Hh|apply Hv].
Qed.

(** ** Sample adapters, with numeric names *)
#[local] Existing Instance numeric_resolver.

Definition lo : Z := 2130706433.
Definition tun_client : TCPOverIPv4OverTunFdAdapter := mkTunAdapter
  (mkFdAdapterBase (mkFdAdapterConfig (ipv4_address lo 1024) (ipv4_address (lo + 1) 80) 0 0) false).
Definition tun_server : TCPOverIPv4OverTunFdAdapter := mkTunAdapter
  (mkFdAdapterBase (mkFdAdapterConfig (ipv4_address (lo + 1) 80) (ipv4_address 0 0) 0 0) true).
Definition a_syn : TCPSegment := set_syn true TCPSegment_default.


(** The bytes of the client's SYN on the device *)
Definition syn_bytes : list byte :=
  match tun_write (tun_base tun_client) a_syn with Ok (_, bl) => concatenate bl | _ => [] end.

Lemma ipv4_read_filters_witness :
  exists r, tun_read (mkFdAdapterBase (mkFdAdapterConfig (ipv4_address (lo + 1) 80)
      (ipv4_address lo 1024) 0 0) false) syn_bytes =
    Ok (mkFdAdapterBase (mkFdAdapterConfig (ipv4_address (lo + 1) 80) (ipv4_address lo 1024) 0 0) false, r) /\
    forall seg, r = Some seg -> exists h pl,
      IPv4Datagram.parse IPv4Datagram_default (Buffer_of syn_bytes) = Ok (NoError, mkIPv4Datagram h [pl]) /\
      src h = lo /\ dst h = lo + 1 /\ proto h = PROTO_TCP /\
      sport (header seg) = 1024 /\ dport (header seg) = 80 /\
      value (add (new (pseudo_cksum h)) (str pl)) = 0.
Proof.
  by apply ipv4_read_filters.
Defined.

Lemma ipv4_read_listens_witness :
  tun_read (tun_base tun_server) syn_bytes = Ok (tun_base tun_server, None) \/
  exists b seg da ca, tun_read (tun_base tun_server) syn_bytes = Ok (b, Some seg) /\
    syn (header seg) = true /\ rst (header seg) = false /\ dport (header seg) = 80 /\
    _listen b = false /\ endpoints (_cfg b) da 80 ca (sport (header seg)).
Proof.
  by apply (ipv4_read_listens (tun_base tun_server) (lo + 1)).
Defined.
