(* ===== verification/Socket.v ===== *)
(** * Sockets and devices

    Model of [libsponge/util/socket.hh] and [.cc] and of [libsponge/util/tun.cc].
    A socket is the [FDWrapper] its [FileDescriptor] shares; what the kernel
    answers to each call is given by an instance of [Kernel], with the arguments
    the code passes. *)

From S2P Require Import Prelude Buffer Address FileDescriptor FdAdapter.

Definition AF_UNIX : Z := 1.
Definition SOCK_STREAM : Z := 1.
Definition SOCK_DGRAM : Z := 2.
Definition SOL_SOCKET : Z := 1.
Definition SO_DOMAIN : Z := 39.
Definition SO_TYPE : Z := 3.
Definition SO_REUSEADDR : Z := 2.
Definition SHUT_RD : Z := 0.
Definition SHUT_WR : Z := 1.
Definition SHUT_RDWR : Z := 2.
Definition MSG_TRUNC : Z := 32.
Definition O_RDWR : Z := 2.
Definition F_GETFL : Z := 3.
Definition F_SETFL : Z := 4.
Definition sizeof_int : Z := 4.
Definition IFNAMSIZ : Z := 16.
Definition IFF_TUN : Z := 1.
Definition IFF_TAP : Z := 2.
Definition IFF_NO_PI : Z := 4096.
Definition TUNSETIFF : Z := 1074025674.
Definition CLONEDEV : string := "/dev/net/tun".

(** The answers: an errno, or the return value and what was stored.  [recvfrom]
    returns the length of the datagram, which with [MSG_TRUNC] may be more than
    the bytes it stored, and the address with its length; [getsockname] and
    [getpeername] store at most 128 bytes of an address and its length. *)
Class Kernel := {
  k_socket : Z -> Z -> Z -> Z + Z;
  k_socketpair : Z -> Z -> Z -> Z + (Z * Z);
  k_getsockopt : Z -> Z -> Z -> Z + (Z * Z);
  k_setsockopt : Z -> Z -> Z -> Z -> Z -> Z + Z;
  k_getsockname : Z -> Z + (list byte * Z);
  k_getpeername : Z -> Z + (list byte * Z);
  k_bind : Z -> list byte -> Z -> Z + Z;
  k_connect : Z -> list byte -> Z -> Z + Z;
  k_shutdown : Z -> Z -> Z + Z;
  k_recvfrom : Z -> Z -> Z -> Z + (Z * list byte * list byte * Z);
  k_sendmsg : Z -> option (list byte) -> Z -> BufferViewList -> Z -> Z + Z;
  k_listen : Z -> Z -> Z + Z;
  k_accept : Z -> Z + Z;
  k_open : string -> Z -> Z + Z;
  k_ioctl : Z -> Z -> list byte * Z -> Z + Z;
  k_fcntl : Z -> Z -> Z -> Z + Z
}.

(** [SystemCall] around an answer.  A call that fails sets [errno] to a number
    other than 0, the mask of all these calls. *)
Definition answer {A} (name : string) (a : Z + A) : outcome A :=
  match a with
  | inl errno => Throw (unix_error name errno)
  | inr x => mret x
  end.

Lemma answer_failed name errno :
  errno <> 0 -> SystemCall name (-1) errno 0 = answer (A := Z) name (inl errno).
Proof. intros. unfold SystemCall. by rewrite (proj2 (Z.eqb_neq _ _)). Qed.

Lemma answer_value name n : 0 <= n -> SystemCall name n 0 0 = answer name (inr n).
Proof. intros. unfold SystemCall. by rewrite Z.geb_leb, (proj2 (Z.leb_le _ _)). Qed.

Section code.
  Context {kernel : Kernel}.

(** ** Socket *)

(** [Socket(domain, type)] *)
Definition Socket_new (domain type : Z) : outcome FDWrapper :=
  fd ← answer "socket" (k_socket domain type 0);
  FDWrapper_new fd.

(** [Socket(FileDescriptor &&, domain, type)] *)
Definition Socket_of (w : FDWrapper) (domain type : Z) : outcome FDWrapper :=
  '(n, actual_value) ← answer "getsockopt" (k_getsockopt (_fd w) SOL_SOCKET SO_DOMAIN);
  if negb (n =? sizeof_int) || negb (actual_value =? domain) then
    Throw (runtime_error "socket domain mismatch")
  else
    '(n, actual_value) ← answer "getsockopt" (k_getsockopt (_fd w) SOL_SOCKET SO_TYPE);
    if negb (n =? sizeof_int) || negb (actual_value =? type) then
      Throw (runtime_error "socket type mismatch")
    else mret w.

(** The raw address has the 128 bytes of a [sockaddr_storage]. *)
Definition get_address (name_of_function : string) (function : Z -> Z + (list byte * Z))
    (w : FDWrapper) : outcome Address :=
  '(address, size) ← answer name_of_function (function (_fd w));
  of_sockaddr (resize (Z.to_nat sizeof_sockaddr_storage) Byte.x00 address) size.

Definition local_address (w : FDWrapper) : outcome Address := get_address "getsockname" k_getsockname w.
Definition peer_address (w : FDWrapper) : outcome Address := get_address "getpeername" k_getpeername w.

Definition bind (w : FDWrapper) (a : Address) : outcome unit :=
  _ ← answer "bind" (k_bind (_fd w) (_address a) (_size a)); mret tt.
Definition connect (w : FDWrapper) (a : Address) : outcome unit :=
  _ ← answer "connect" (k_connect (_fd w) (_address a) (_size a)); mret tt.

(** The [switch] after the call *)
Definition shutdown_counts (w : FDWrapper) (how : Z) : outcome FDWrapper :=
  if how =? SHUT_RD then mret (register_read w)
  else if how =? SHUT_WR then mret (register_write w)
  else if how =? SHUT_RDWR then mret (register_write (register_read w))
  else Throw (runtime_error "Socket::shutdown() called with invalid `how`").

Definition shutdown (w : FDWrapper) (how : Z) : outcome FDWrapper :=
  _ ← answer "shutdown" (k_shutdown (_fd w) how);
  shutdown_counts w how.

Definition setsockopt (w : FDWrapper) (level option option_value sizeof_option : Z) : outcome unit :=
  _ ← answer "setsockopt" (k_setsockopt (_fd w) level option option_value sizeof_option); mret tt.

Definition set_reuseaddr (w : FDWrapper) : outcome unit :=
  setsockopt w SOL_SOCKET SO_REUSEADDR 1 sizeof_int.

(** [FileDescriptor::set_blocking] *)
Definition set_blocking (w : FDWrapper) (blocking_state : bool) : outcome unit :=
  flags ← answer "fcntl" (k_fcntl (_fd w) F_GETFL 0);
  _ ← answer "fcntl" (k_fcntl (_fd w) F_SETFL (blocking_flags flags blocking_state));
  mret tt.

(** ** UDPSocket *)

Definition UDPSocket_new : outcome FDWrapper := Socket_new AF_INET SOCK_DGRAM.
Definition UDPSocket_of (w : FDWrapper) : outcome FDWrapper := Socket_of w AF_INET SOCK_DGRAM.

(** The payload is resized to [mtu] before the call and to what was received
    after it. *)
Definition recv (w : FDWrapper) (mtu : Z) : outcome (FDWrapper * received_datagram) :=
  '(recv_len, data, address, fromlen) ←
    answer "recvfrom" (k_recvfrom (_fd w) mtu MSG_TRUNC);
  if recv_len >? mtu then Throw (runtime_error "recvfrom (oversized datagram)")
  else
    let w := register_read w in
    a ← of_sockaddr (resize (Z.to_nat sizeof_sockaddr_storage) Byte.x00 address) fromlen;
    mret (w, mkReceived a (vec_resize (vec_resize data mtu Byte.x00) recv_len Byte.x00)).

Definition sendmsg_helper (fd : Z) (destination_address : option (list byte))
    (destination_address_len : Z) (vs : BufferViewList) : outcome unit :=
  bytes_sent ← answer "sendmsg" (k_sendmsg fd destination_address destination_address_len vs 0);
  if negb (u64 bytes_sent =? BufferViewList_size vs) then
    Throw (runtime_error "datagram payload too big for sendmsg()")
  else mret tt.

Definition sendto (w : FDWrapper) (a : Address) (vs : BufferViewList) : outcome FDWrapper :=
  _ ← sendmsg_helper (_fd w) (Some (_address a)) (_size a) vs;
  mret (register_write w).

Definition send (w : FDWrapper) (vs : BufferViewList) : outcome FDWrapper :=
  _ ← sendmsg_helper (_fd w) None 0 vs;
  mret (register_write w).

(** ** TCPSocket and LocalStreamSocket *)

Definition TCPSocket_new : outcome FDWrapper := Socket_new AF_INET SOCK_STREAM.
Definition TCPSocket_of (w : FDWrapper) : outcome FDWrapper := Socket_of w AF_INET SOCK_STREAM.
Definition LocalStreamSocket_of (w : FDWrapper) : outcome FDWrapper := Socket_of w AF_UNIX SOCK_STREAM.

Definition listen (w : FDWrapper) (backlog : Z) : outcome unit :=
  _ ← answer "listen" (k_listen (_fd w) backlog); mret tt.

(** The listening socket, whose read is registered first, and the new one. *)
Definition accept (w : FDWrapper) : outcome (FDWrapper * FDWrapper) :=
  let w := register_read w in
  fd ← answer "accept" (k_accept (_fd w));
  new ← FDWrapper_new fd;
  new ← TCPSocket_of new;
  mret (w, new).

(** ** TUN and TAP devices *)

(** The bytes before the first NUL *)
Fixpoint c_str (s : list byte) : list byte :=
  match s with
  | [] => []
  | c :: s => if bool_decide (c = Byte.x00) then [] else c :: c_str s
  end.

(** [strncpy] of at most 15 bytes into a zeroed array of 16 *)
Definition tun_req_name (devname : list byte) : list byte :=
  vec_resize (ztake (IFNAMSIZ - 1) (c_str devname)) IFNAMSIZ Byte.x00.

Definition TunTapFD_new (devname : list byte) (is_tun : bool) : outcome FDWrapper :=
  fd ← answer "open" (k_open CLONEDEV O_RDWR);
  w ← FDWrapper_new fd;
  let ifr_flags := Z.lor (if is_tun then IFF_TUN else IFF_TAP) IFF_NO_PI in
  _ ← answer "ioctl" (k_ioctl (_fd w) TUNSETIFF (tun_req_name devname, ifr_flags));
  mret w.

(** [TunFD(devname)] *)
Definition TunFD_new (devname : list byte) : outcome FDWrapper := TunTapFD_new devname true.

(** ** Properties *)

(** Datagrams arrive whole or not at all: when the kernel has a datagram [d]
    (of which it stores what fits and reports the full length), [recv] throws
    when [d] is longer than [mtu], and otherwise returns exactly [d] with the
    address of its sender and registers one read. *)
Theorem udp_recv_whole w mtu d raw fromlen :
  0 <= mtu -> k_recvfrom (_fd w) mtu MSG_TRUNC = inr (len d, ztake mtu d, raw, fromlen) ->
  recv w mtu =
    if len d >? mtu then Throw (runtime_error "recvfrom (oversized datagram)")
    else if fromlen >? sizeof_sockaddr_storage then Throw (runtime_error "invalid sockaddr size")
    else Ok (register_read w,
             mkReceived (mkAddress fromlen (resize 128 Byte.x00 (ztake fromlen (resize 128 Byte.x00 raw)))) d).
Proof.
  intros Hm E. unfold recv. rewrite E. cbn [answer mbind outcome_bind mret outcome_ret].
  case_bool; [done|]. unfold of_sockaddr. change (Z.to_nat sizeof_sockaddr_storage) with 128%nat.
  case_bool; [done|]. rewrite length_resize. unfold sizeof_sockaddr_storage in *. case_cmp.
  cbn [mbind outcome_bind mret outcome_ret]. do 3 f_equal. unfold vec_resize. rewrite ztake_all by lia.
  rewrite (resize_ge d) by lia. rewrite resize_le by (rewrite length_app; lia).
  by rewrite Nat2Z.id, take_app_length.
Qed.

(** Descriptors of the wrong kind are refused: a [Socket] is constructed from a
    descriptor exactly when the kernel reports the domain and the type that the
    subclass asks for. *)
Theorem socket_kind_checked w domain type dom ty :
  k_getsockopt (_fd w) SOL_SOCKET SO_DOMAIN = inr (sizeof_int, dom) ->
  k_getsockopt (_fd w) SOL_SOCKET SO_TYPE = inr (sizeof_int, ty) ->
  Socket_of w domain type =
    if negb (dom =? domain) then Throw (runtime_error "socket domain mismatch")
    else if negb (ty =? type) then Throw (runtime_error "socket type mismatch") else Ok w.
Proof.
  intros E1 E2. unfold Socket_of. rewrite E1. cbn [answer mbind outcome_bind mret outcome_ret].
  rewrite Z.eqb_refl. cbn [negb orb]. case_bool; [done|]. rewrite E2.
  cbn [answer mbind outcome_bind mret outcome_ret]. rewrite Z.eqb_refl. cbn [negb orb]. by case_bool.
Qed.
End code.

(** ** A sample kernel

    Every call succeeds; descriptor 7 is a UDP socket on which a datagram of three
    bytes from 10.0.0.1:80 is waiting. *)
Definition sample_dgram : list byte := [Byte.x68; Byte.x69; Byte.x21].
Definition sample_peer : list byte := sockaddr_in 167772161 80.

Definition sample_kernel : Kernel := {|
  k_socket _ _ _ := inr 7;
  k_socketpair _ _ _ := inr (8, 9);
  k_getsockopt _ _ option := inr (sizeof_int, if option =? SO_DOMAIN then AF_INET else SOCK_DGRAM);
  k_setsockopt _ _ _ _ _ := inr 0;
  k_getsockname _ := inr (sample_peer, 16);
  k_getpeername _ := inr (sample_peer, 16);
  k_bind _ _ _ := inr 0;
  k_connect _ _ _ := inr 0;
  k_shutdown _ _ := inr 0;
  k_recvfrom _ mtu _ := inr (len sample_dgram, ztake mtu sample_dgram, sample_peer, 16);
  k_sendmsg _ _ _ vs _ := inr (BufferViewList_size vs);
  k_listen _ _ := inr 0;
  k_accept _ := inr 10;
  k_open _ _ := inr 11;
  k_ioctl _ _ _ := inr 0;
  k_fcntl _ _ _ := inr 0
|}.

Definition sample_socket : FDWrapper := mkFDWrapper 7 false false 0 0.

Lemma udp_recv_whole_witness :
  recv (kernel := sample_kernel) sample_socket 65536 =
    Ok (register_read sample_socket, mkReceived (ipv4_address 167772161 80) sample_dgram).
Proof.
  apply (udp_recv_whole (kernel := sample_kernel) sample_socket 65536 sample_dgram sample_peer 16);
    [lia | reflexivity].
Defined.

Lemma socket_kind_checked_witness :
  Socket_of (kernel := sample_kernel) sample_socket AF_UNIX SOCK_STREAM =
    Throw (runtime_error "socket domain mismatch").
Proof.
  apply (socket_kind_checked (kernel := sample_kernel) sample_socket AF_UNIX SOCK_STREAM AF_INET SOCK_DGRAM);
    reflexivity.
Defined.
