(* ===== verification/StreamCopy.v ===== *)
(** * Copying between the terminal and a socket

    Model of [apps/bidirectional_stream_copy.cc]: standard input goes through one
    byte stream to a socket, what the socket delivers goes through another to
    standard output, by four rules of an event loop. *)

From S2P Require Import Prelude ByteStream Buffer Address FileDescriptor EventLoop FdAdapter Socket.

(** The calls on the three descriptors.  [K] is the state of the kernel. *)
Class CopyIO (K : Type) := {
  stdin_read : K -> Z -> (Z + list byte) * K;
  stdout_writev : K -> BufferViewList -> (Z + Z) * K;
  stdout_close : K -> (Z + Z) * K;
  socket_read : K -> Z -> (Z + list byte) * K;
  socket_writev : K -> BufferViewList -> (Z + Z) * K;
  socket_shutdown : K -> Z -> (Z + Z) * K
}.

Definition STDIN_FILENO : Z := 0.
Definition STDOUT_FILENO : Z := 1.
Definition max_copy_length : Z := 65536.
Definition buffer_size : Z := 1048576.

(** The local variables the rules share, the socket and the kernel *)
Record Copy (K : Type) := mkCopy {
  _socket : FDWrapper;
  _input : FDWrapper;
  _output : FDWrapper;
  _outbound : ByteStream;
  _inbound : ByteStream;
  _outbound_shutdown : bool;
  _inbound_shutdown : bool;
  kernel : K
}.
Arguments mkCopy {K} _ _ _ _ _ _ _ _.
Arguments _socket {K} _.
Arguments _input {K} _.
Arguments _output {K} _.
Arguments _outbound {K} _.
Arguments _inbound {K} _.
Arguments _outbound_shutdown {K} _.
Arguments _inbound_shutdown {K} _.
Arguments kernel {K} _.

(** Descriptor 0 is the input, 1 the output, 2 the socket. *)
#[global] Instance copy_fds {K} : Fds (Copy K) := fun w n =>
  match n with 0%nat => _input w | 1%nat => _output w | _ => _socket w end.

Section code.
  Context {K : Type} {io : CopyIO K}.

Definition set_outbound (w : Copy K) (bs : ByteStream) : Copy K :=
  mkCopy (_socket w) (_input w) (_output w) bs (_inbound w) (_outbound_shutdown w) (_inbound_shutdown w)
    (kernel w).
Definition set_inbound (w : Copy K) (bs : ByteStream) : Copy K :=
  mkCopy (_socket w) (_input w) (_output w) (_outbound w) bs (_outbound_shutdown w) (_inbound_shutdown w)
    (kernel w).
Definition set_socket (w : Copy K) (d : FDWrapper) (k : K) : Copy K :=
  mkCopy d (_input w) (_output w) (_outbound w) (_inbound w) (_outbound_shutdown w) (_inbound_shutdown w) k.
Definition set_input (w : Copy K) (d : FDWrapper) (k : K) : Copy K :=
  mkCopy (_socket w) d (_output w) (_outbound w) (_inbound w) (_outbound_shutdown w) (_inbound_shutdown w) k.
Definition set_output (w : Copy K) (d : FDWrapper) (k : K) : Copy K :=
  mkCopy (_socket w) (_input w) d (_outbound w) (_inbound w) (_outbound_shutdown w) (_inbound_shutdown w) k.
Definition set_outbound_shutdown (w : Copy K) : Copy K :=
  mkCopy (_socket w) (_input w) (_output w) (_outbound w) (_inbound w) true (_inbound_shutdown w) (kernel w).
Definition set_inbound_shutdown (w : Copy K) : Copy K :=
  mkCopy (_socket w) (_input w) (_output w) (_outbound w) (_inbound w) (_outbound_shutdown w) true (kernel w).
Definition set_kernel (w : Copy K) (k : K) : Copy K :=
  mkCopy (_socket w) (_input w) (_output w) (_outbound w) (_inbound w) (_outbound_shutdown w)
    (_inbound_shutdown w) k.

(** Rule 1: from standard input into the outbound stream *)
Definition rule1_callback (w : Copy K) : outcome (Copy K) :=
  let limit := remaining_capacity (_outbound w) in
  let '(sys, k) := stdin_read (kernel w) (Z.min BUFFER_SIZE limit) in
  '(d, data) ← FileDescriptor.read (_input w) limit sys;
  '(bs, _) ← ByteStream.write (_outbound w) data;
  let w := set_outbound (set_input w d k) bs in
  mret (if _eof (_input w) then set_outbound w (end_input (_outbound w)) else w).

Definition rule1_interest (w : Copy K) : bool :=
  negb (ByteStream.error (_outbound w)) && (remaining_capacity (_outbound w) >? 0) &&
  negb (ByteStream.error (_inbound w)).

(** The cancellation of rules 1 and 2, and of rules 3 and 4 *)
Definition end_outbound (w : Copy K) : outcome (Copy K) := mret (set_outbound w (end_input (_outbound w))).
Definition end_inbound (w : Copy K) : outcome (Copy K) := mret (set_inbound w (end_input (_inbound w))).

(** Rule 2: from the outbound stream into the socket *)
Definition rule2_callback (w : Copy K) : outcome (Copy K) :=
  let bytes_to_write := Z.min max_copy_length (ByteStream.buffer_size (_outbound w)) in
  buffer ← peek_output (_outbound w) bytes_to_write;
  '(d, k, bytes_written) ← FileDescriptor.write socket_writev (_socket w) (kernel w) [buffer] false;
  let w := set_outbound (set_socket w d k) (pop_output (_outbound w) bytes_written) in
  if eof (_outbound w) then
    let '(sys, k) := socket_shutdown (kernel w) SHUT_WR in
    _ ← answer "shutdown" sys;
    d ← shutdown_counts (_socket w) SHUT_WR;
    mret (set_outbound_shutdown (set_socket w d k))
  else mret w.

Definition rule2_interest (w : Copy K) : bool :=
  negb (buffer_empty (_outbound w)) || (eof (_outbound w) && negb (_outbound_shutdown w)).

(** Rule 3: from the socket into the inbound stream *)
Definition rule3_callback (w : Copy K) : outcome (Copy K) :=
  let limit := remaining_capacity (_inbound w) in
  let '(sys, k) := socket_read (kernel w) (Z.min BUFFER_SIZE limit) in
  '(d, data) ← FileDescriptor.read (_socket w) limit sys;
  '(bs, _) ← ByteStream.write (_inbound w) data;
  let w := set_inbound (set_socket w d k) bs in
  mret (if _eof (_socket w) then set_inbound w (end_input (_inbound w)) else w).

Definition rule3_interest (w : Copy K) : bool :=
  negb (ByteStream.error (_inbound w)) && (remaining_capacity (_inbound w) >? 0) &&
  negb (ByteStream.error (_outbound w)).

(** [FDWrapper::close] with the kernel's answer *)
Definition close_answer (d : FDWrapper) (sys : Z + Z) : outcome FDWrapper :=
  match sys with inl errno => close d (-1) errno | inr ret => close d ret 0 end.

(** Rule 4: from the inbound stream to standard output *)
Definition rule4_callback (w : Copy K) : outcome (Copy K) :=
  let bytes_to_write := Z.min max_copy_length (ByteStream.buffer_size (_inbound w)) in
  buffer ← peek_output (_inbound w) bytes_to_write;
  '(d, k, bytes_written) ← FileDescriptor.write stdout_writev (_output w) (kernel w) [buffer] false;
  let w := set_inbound (set_output w d k) (pop_output (_inbound w) bytes_written) in
  if eof (_inbound w) then
    let '(sys, k) := stdout_close (kernel w) in
    d ← close_answer (_output w) sys;
    mret (set_inbound_shutdown (set_output w d k))
  else mret w.

Definition rule4_interest (w : Copy K) : bool :=
  negb (buffer_empty (_inbound w)) || (eof (_inbound w) && negb (_inbound_shutdown w)).

Definition rule1 : Rule (Copy K) := mkRule 0 In rule1_callback rule1_interest end_outbound.
Definition rule2 : Rule (Copy K) := mkRule 2 Out rule2_callback rule2_interest end_outbound.
Definition rule3 : Rule (Copy K) := mkRule 2 In rule3_callback rule3_interest end_inbound.
Definition rule4 : Rule (Copy K) := mkRule 1 Out rule4_callback rule4_interest end_inbound.

(** The beginning, up to the loop *)
Definition copy_start {calls : Kernel} (socket : FDWrapper) (k : K) :
    outcome (list (Rule (Copy K)) * Copy K) :=
  input ← FDWrapper_new STDIN_FILENO;
  output ← FDWrapper_new STDOUT_FILENO;
  let outbound := ByteStream.new buffer_size in
  let inbound := ByteStream.new buffer_size in
  _ ← set_blocking socket false;
  _ ← set_blocking input false;
  _ ← set_blocking output false;
  mret (foldl add_rule [] [rule1; rule2; rule3; rule4],
        mkCopy socket input output outbound inbound false false k).

(** What happens during one round: what others do to the kernel before it, and
    the answer of [poll]. *)
Record round := mkRound {
  r_env : K -> K;
  r_poll : list pollfd -> Z + Z * list Z
}.

(** The final loop, for as many rounds as are given; [true] when the function
    has returned. *)
Fixpoint copy_loop (rules : list (Rule (Copy K))) (w : Copy K) (rounds : list round) :
    outcome (list (Rule (Copy K)) * Copy K * bool) :=
  match rounds with
  | [] => mret (rules, w, false)
  | rd :: rounds =>
      '(ret, rules, w) ← wait_next_event rules (set_kernel w (r_env rd (kernel w))) (r_poll rd);
      if (match ret with Exit => true | _ => false end) then mret (rules, w, true)
      else copy_loop rules w rounds
  end.

Definition bidirectional_stream_copy {calls : Kernel} (socket : FDWrapper) (k : K) (rounds : list round) :
    outcome (list (Rule (Copy K)) * Copy K * bool) :=
  '(rules, w) ← copy_start socket k;
  copy_loop rules w rounds.
End code.

(** ** One direction

    [src] is what was read from the source, [dst] what was written to the sink.
    [draining] says that the rule that empties the stream is still at work,
    [over] that the rule that fills it has come to its end. *)
Record piped (draining over : Prop) (bs : ByteStream) (src dst : list byte) (b : stream) : Prop := {
  pi_rep : rep bs b;
  pi_capacity : s_capacity b = buffer_size;
  pi_error : s_error b = false;
  pi_out : dst = s_read b;
  pi_prefix : s_history b `prefix_of` src;
  pi_open : s_ended b = false -> src = s_history b;
  pi_draining : draining -> src = s_history b /\ (s_ended b = true -> over)
}.

Definition pipes (draining over : Prop) (bs : ByteStream) (src dst : list byte) : Prop :=
  exists b, piped draining over bs src dst b.

Lemma pipes_new (D F : Prop) : pipes D F (ByteStream.new buffer_size) [] [].
Proof.
  assert (R : rep (ByteStream.new buffer_size) (spec_new buffer_size))
    by (apply rep_new; unfold buffer_size; lia).
  revert R. generalize (ByteStream.new buffer_size). intros bs R. by exists (spec_new buffer_size).
Qed.

Lemma pipes_weaken (D F D' F' : Prop) bs src dst :
  (D' -> D) -> (D' -> F -> F') -> pipes D F bs src dst -> pipes D' F' bs src dst.
Proof.
  intros HD HF (b & []). exists b. split; try done. intros HD'. destruct (pi_draining0 (HD HD')). eauto.
Qed.

(** Filling: all of [data] is accepted unless the stream was ended. *)
Lemma pipes_write (D F : Prop) bs src dst data :
  pipes D F bs src dst -> len data <= remaining_capacity bs -> (D -> _end_flag bs = false) ->
  exists bs' n, ByteStream.write bs data = Ok (bs', n) /\ pipes D F bs' (src ++ data) dst /\
    _end_flag bs' = _end_flag bs.
Proof.
  intros (b & [R Hc He Ho Hp Hopen Hd]) Hl Hflag. rewrite (remaining_capacity_eq _ _ R) in Hl.
  rewrite (rep_ended _ _ R) in Hflag. destruct (write_rep _ _ data R) as (bs' & -> & R').
  exists bs', (spec_accepted b data). split; [done|]. rewrite (rep_ended _ _ R), (rep_ended _ _ R').
  split; [|done]. unfold spec_write, spec_accepted in R'. exists (spec_write b data).
  unfold spec_write, spec_accepted. split; [exact R'|done|done|done|..]; unfold s_history in *; simpl in *;
    destruct (s_ended b) eqn:Eb; rewrite ?ztake_0, ?app_nil_r; try done.
  - etrans; [exact Hp|]. by eexists.
  - rewrite Z.min_l, ztake_all by lia. by rewrite app_assoc, Hopen.
  - intros _. rewrite Z.min_l, ztake_all by lia. by rewrite app_assoc, Hopen.
  - intros HD. by specialize (Hflag HD).
  - intros HD. rewrite Z.min_l, ztake_all by lia. by rewrite app_assoc, Hopen.
Qed.

Lemma pipes_end (D F F' : Prop) bs src dst :
  pipes D F bs src dst -> (D -> F -> F') -> (D -> _end_flag bs = true \/ F') -> pipes D F' (end_input bs) src dst.
Proof.
  intros (b & [R Hc He Ho Hp Hopen Hd]) HF Hend. exists (spec_end b).
  split; try done; [by apply end_input_rep|]. simpl. intros HD. destruct (Hd HD) as [Hs Hf].
  split; [done|]. intros _. destruct (Hend HD) as [Hb|]; [|done]. rewrite (rep_ended _ _ R) in Hb. auto.
Qed.

(** Draining: [n] bytes of what is offered reach the sink. *)
Lemma pipes_pop (D F : Prop) bs src dst m buffer n :
  pipes D F bs src dst -> peek_output bs m = Ok buffer -> 0 <= m -> 0 <= n <= len buffer ->
  pipes D F (pop_output bs n) src (dst ++ ztake n buffer) /\ _end_flag (pop_output bs n) = _end_flag bs /\
  (eof bs = true -> eof (pop_output bs n) = true).
Proof.
  intros (b & [R Hc He Ho Hp Hopen Hd]) Hpeek Hm Hn. rewrite (peek_rep _ _ _ R) in Hpeek. injection Hpeek as <-.
  pose proof (pop_rep _ _ n R ltac:(lia)) as R'. split; [|split; [done|]].
  2: { rewrite (eof_eq _ _ R), (eof_eq _ _ R'). simpl. unfold zdrop. rewrite length_drop.
       rewrite !andb_true_iff, !Z.eqb_eq. intros [-> ?]. split; [done|]. lia. }
  assert (Hh : s_history (spec_pop b n) = s_history b).
  { unfold s_history. simpl. by rewrite <- app_assoc, ztake_zdrop. }
  exists (spec_pop b n). split; rewrite ?Hh; try done. simpl. rewrite Ho. f_equal. unfold ztake in *.
  rewrite take_take. f_equal. rewrite length_take in Hn. lia.
Qed.

Lemma pipes_peek (D F : Prop) bs src dst m :
  pipes D F bs src dst -> exists buffer, peek_output bs m = Ok buffer /\ len buffer <= Z.max 0 m.
Proof.
  intros (b & [R _ _ _ _ _ _]). eexists. split; [by apply peek_rep|]. unfold ztake. rewrite length_take. lia.
Qed.

Lemma pipes_buffer_empty (D F : Prop) bs src dst :
  pipes D F bs src dst -> buffer_empty bs = true -> D -> dst = src.
Proof.
  intros (b & [R Hc He Ho Hp Hopen Hd]) E HD. rewrite (buffer_empty_eq _ _ R) in E.
  apply Z.eqb_eq in E. destruct (s_pending b) eqn:Ep; [|simpl in E; lia].
  destruct (Hd HD) as [-> _]. unfold s_history. by rewrite Ep, app_nil_r.
Qed.

(** ** What the copy relies on

    [typed] is what standard input has delivered, [sent] what the socket has
    taken, [received] what it has delivered, [printed] what standard output has
    taken.  Each call touches its own. *)
Class CopyIOOk (K : Type) `{CopyIO K} (typed sent received printed : K -> list byte) := {
  ok_stdin k n sys k' : 0 <= n -> stdin_read k n = (sys, k') ->
    sent k' = sent k /\ received k' = received k /\ printed k' = printed k /\
    match sys with
    | inl errno => 0 < errno /\ typed k' = typed k
    | inr data => len data <= n /\ typed k' = typed k ++ data
    end;
  ok_socket_read k n sys k' : 0 <= n -> socket_read k n = (sys, k') ->
    typed k' = typed k /\ sent k' = sent k /\ printed k' = printed k /\
    match sys with
    | inl errno => 0 < errno /\ received k' = received k
    | inr data => len data <= n /\ received k' = received k ++ data
    end;
  ok_socket_writev k vs sys k' : socket_writev k vs = (sys, k') ->
    typed k' = typed k /\ received k' = received k /\ printed k' = printed k /\
    match sys with
    | inl errno => 0 < errno /\ sent k' = sent k
    | inr n => 0 <= n <= len (concat vs) /\ sent k' = sent k ++ ztake n (concat vs)
    end;
  ok_stdout k vs sys k' : stdout_writev k vs = (sys, k') ->
    typed k' = typed k /\ sent k' = sent k /\ received k' = received k /\
    match sys with
    | inl errno => 0 < errno /\ printed k' = printed k
    | inr n => 0 <= n <= len (concat vs) /\ printed k' = printed k ++ ztake n (concat vs)
    end;
  ok_shutdown k how sys k' : socket_shutdown k how = (sys, k') ->
    typed k' = typed k /\ sent k' = sent k /\ received k' = received k /\ printed k' = printed k;
  ok_close k sys k' : stdout_close k = (sys, k') ->
    typed k' = typed k /\ sent k' = sent k /\ received k' = received k /\ printed k' = printed k
}.

(** What the loop can throw: what a system call makes it throw.  Nothing is undefined, and
    the byte streams are not among what throws. *)
Inductive copy_throws (e : exn) : Prop :=
  | cp_poll : e = runtime_error "EventLoop: error on polled file descriptor" -> copy_throws e
  | cp_read errno : e = unix_error "read" errno -> copy_throws e
  | cp_write : write_fails e -> copy_throws e
  | cp_blocking errno : e = unix_error "fcntl" errno -> copy_throws e
  | cp_shutdown errno : e = unix_error "shutdown" errno -> copy_throws e
  | cp_close errno : e = unix_error "close" errno -> copy_throws e.

Section correct.
  Context {K : Type} {io : CopyIO K} (typed sent received printed : K -> list byte)
    `{ok : !CopyIOOk K typed sent received printed}.

Notation World := (Copy K).
Notation ends := (EventLoop.ends (thrown copy_throws)).

Definition registered (l : list (Rule World)) (n : nat) (d : Direction) : Prop :=
  exists r, r ∈ l /\ fd r = n /\ direction r = d.

Definition all_rules : list (Rule World) := [rule1; rule2; rule3; rule4].

(** Standard input and the socket have come to their end when their rule is gone
    or the descriptor is at its end; rule 4 also goes once it has closed the output. *)
Definition copies (l : list (Rule World)) (w : World) : Prop :=
  l `sublist_of` all_rules /\
  _closed (_input w) = false /\ _closed (_socket w) = false /\
  pipes (registered l 2 Out) (~ registered l 0 In \/ _eof (_input w) = true)
    (_outbound w) (typed (kernel w)) (sent (kernel w)) /\
  pipes (registered l 1 Out \/ _closed (_output w) = true) (~ registered l 2 In \/ _eof (_socket w) = true)
    (_inbound w) (received (kernel w)) (printed (kernel w)) /\
  (~ registered l 0 In -> _end_flag (_outbound w) = true) /\
  (~ registered l 2 In -> _end_flag (_inbound w) = true) /\
  (_closed (_output w) = true -> eof (_inbound w) = true /\ _inbound_shutdown w = true).

(** The filling rules rely on their stream being open. *)
Definition copy_armed (l : list (Rule World)) (r : Rule World) (w : World) : Prop :=
  match fd r, direction r with
  | 0%nat, In => registered l 2 Out -> _end_flag (_outbound w) = false
  | 2%nat, In => registered l 1 Out \/ _closed (_output w) = true -> _end_flag (_inbound w) = false
  | _, _ => True
  end.

Lemma registered_mono l l' n d : (forall r, r ∈ l' -> r ∈ l) -> registered l' n d -> registered l n d.
Proof. intros Hs (r & Hr & E). exists r. auto. Qed.

Lemma registered_erase pre post (r : Rule World) n d :
  registered (pre ++ post) n d -> registered (pre ++ r :: post) n d.
Proof. apply registered_mono. intros r0. in_app. Qed.

Lemma erased pre post (r : Rule World) :
  pre ++ r :: post `sublist_of` all_rules -> ~ registered (pre ++ post) (fd r) (direction r).
Proof.
  intros Hs (r' & Hr & E1 & E2).
  assert (Hnd : NoDup ((fun r => (fd r, direction r)) <$> all_rules)).
  { unfold all_rules. cbn. repeat (apply NoDup_cons; split; [rewrite ?elem_of_cons, elem_of_nil; intuition congruence|]).
    by apply NoDup_nil. }
  eapply sublist_NoDup in Hnd; [|by apply fmap_sublist].
  rewrite fmap_app, fmap_cons in Hnd. apply NoDup_app in Hnd as (_ & Hd & Hnd).
  apply NoDup_cons in Hnd as [Hn _]. apply elem_of_app in Hr as [Hr|Hr].
  - apply (Hd (fd r, direction r)); [|by left]. apply list_elem_of_fmap. exists r'. by rewrite E1, E2.
  - apply Hn. apply list_elem_of_fmap. exists r'. by rewrite E1, E2.
Qed.

Lemma erase_sublist pre post (r : Rule World) l :
  pre ++ r :: post `sublist_of` l -> pre ++ post `sublist_of` l.
Proof. intros Hs. etrans; [|exact Hs]. apply sublist_app; [done|]. by apply sublist_cons. Qed.

Lemma ends_ok {B C} (c : outcome B) b (f : B -> outcome C) (Q : C -> Prop) :
  c = Ok b -> ends (f b) Q -> ends (c ≫= f) Q.
Proof. by intros ->. Qed.

(** *** The rules *)

(** Reading from a descriptor into a stream *)
Lemma fill_ends (bs : ByteStream) (d : FDWrapper) sys (src dst src' : list byte) (D F : Prop)
    {C} (f : FDWrapper -> ByteStream -> Z -> outcome C) (Q : C -> Prop) :
  pipes D F bs src dst -> (D -> _end_flag bs = false) ->
  match sys with
  | inl errno => 0 < errno /\ src' = src
  | inr data => len data <= Z.min BUFFER_SIZE (remaining_capacity bs) /\ src' = src ++ data
  end ->
  (forall d' bs' n, _read_count d' <> _read_count d -> _closed d' = _closed d ->
     (_eof d = true -> _eof d' = true) -> pipes D F bs' src' dst -> _end_flag bs' = _end_flag bs ->
     ends (f d' bs' n) Q) ->
  ends ('(d', data) ← FileDescriptor.read d (remaining_capacity bs) sys;
        '(bs', n) ← ByteStream.write bs data; f d' bs' n) Q.
Proof.
  intros Hp Ha Hsys Hf. apply EventLoop.ends_step.
  { intros e He. apply fd_read_faults in He as (errno & _ & ->); [by eapply cp_read|]. by destruct sys; destruct Hsys. }
  intros [d' data] E.
  apply fd_read_ok in E as (-> & Hn & Hc & He); [|destruct sys; tauto]. destruct Hsys as [Hl ->].
  destruct (pipes_write _ _ _ _ _ data Hp ltac:(lia) Ha) as (bs' & n & Ew & Hp' & Hflag).
  eapply ends_ok; [exact Ew|]. apply Hf; try done. rewrite Hn. apply u32_succ_ne.
Qed.

Lemma copy_rule1_ends l w :
  copies l w -> copy_armed l rule1 w ->
  ends (rule1_callback w) (fun w' => copies l w' /\ _inbound w' = _inbound w /\ _output w' = _output w /\
    _read_count (_input w') <> _read_count (_input w)).
Proof.
  intros (Hl & Hi & Hs & Hout & Hin & Hend1 & Hend3 & Hcl) Ha. unfold rule1_callback. cbv zeta.
  destruct (stdin_read (kernel w) _) as [sys k] eqn:Er.
  apply ok_stdin in Er as (K1 & K2 & K3 & Hsys).
  2: { unfold BUFFER_SIZE, remaining_capacity. pose proof (u64_range (_capacity (_outbound w) -
         ByteStream.buffer_size (_outbound w))). lia. }
  eapply fill_ends; [exact Hout|exact Ha|exact Hsys|]. intros d' bs' n Hn Hc He Hp Hflag. cbn [fst snd set_outbound set_input _input _outbound].
  set (w' := if _eof d' then _ else _).
  assert (Hw' : _inbound w' = _inbound w /\ _output w' = _output w /\ _input w' = d' /\ _socket w' = _socket w /\
    _inbound_shutdown w' = _inbound_shutdown w /\ kernel w' = k /\
    _outbound w' = if _eof d' then end_input bs' else bs') by (unfold w'; by destruct (_eof d')).
  destruct Hw' as (E1 & E2 & E3 & E4 & E5 & E6 & E7).
  cbn [mret outcome_ret]. split; [|by rewrite E3].
  unfold copies. rewrite E1, E2, E3, E4, E5, E6, E7, K2, K3, K1, Hc. split_and!; try done.
  - case_bool.
    + eapply pipes_end; [exact Hp|by right|by right; right].
    + eapply pipes_weaken; [| |exact Hp]; [done|]. intros _ [H|H]; [by left|]. by specialize (He H).
  - intros Hr. case_bool; [done|]. rewrite Hflag. by apply Hend1.
Qed.

Lemma copy_rule3_ends l w :
  copies l w -> copy_armed l rule3 w ->
  ends (rule3_callback w) (fun w' => copies l w' /\ _outbound w' = _outbound w /\
    _read_count (_socket w') <> _read_count (_socket w)).
Proof.
  intros (Hl & Hi & Hs & Hout & Hin & Hend1 & Hend3 & Hcl) Ha. unfold rule3_callback. cbv zeta.
  destruct (socket_read (kernel w) _) as [sys k] eqn:Er.
  apply ok_socket_read in Er as (K1 & K2 & K3 & Hsys).
  2: { unfold BUFFER_SIZE, remaining_capacity. pose proof (u64_range (_capacity (_inbound w) -
         ByteStream.buffer_size (_inbound w))). lia. }
  eapply fill_ends; [exact Hin|exact Ha|exact Hsys|]. intros d' bs' n Hn Hc He Hp Hflag.
  cbn [fst snd set_inbound set_socket _socket _inbound].
  set (w' := if _eof d' then _ else _).
  assert (Hw' : _outbound w' = _outbound w /\ _output w' = _output w /\ _input w' = _input w /\ _socket w' = d' /\
    _inbound_shutdown w' = _inbound_shutdown w /\ kernel w' = k /\
    _inbound w' = if _eof d' then end_input bs' else bs') by (unfold w'; by destruct (_eof d')).
  destruct Hw' as (E1 & E2 & E3 & E4 & E5 & E6 & E7).
  cbn [mret outcome_ret]. split; [|by rewrite E4].
  unfold copies. rewrite E1, E2, E3, E4, E5, E6, E7, K2, K3, K1, Hc. split_and!; try done.
  - case_bool.
    + eapply pipes_end; [exact Hp|by right|by right; right].
    + eapply pipes_weaken; [| |exact Hp]; [done|]. intros _ [H|H]; [by left|]. by specialize (He H).
  - intros Hr. case_bool; [done|]. rewrite Hflag. by apply Hend3.
  - intros Ho. destruct (Hcl Ho) as [H1 _]. unfold eof in H1. by rewrite (Ha (or_intror Ho)) in H1.
Qed.

(** Writing from a stream to a descriptor *)
Lemma pour_ends (bs : ByteStream) (d : FDWrapper) (k : K) (writev : K -> BufferViewList -> (Z + Z) * K)
    (sink : K -> list byte) (keeps : K -> Prop) (src : list byte) (D F : Prop)
    {C} (f : FDWrapper -> K -> Z -> outcome C) (Q : C -> Prop) :
  pipes D F bs src (sink k) ->
  (forall vs sys k', writev k vs = (sys, k') -> keeps k' /\
     match sys with
     | inl errno => 0 < errno /\ sink k' = sink k
     | inr n => 0 <= n <= len (concat vs) /\ sink k' = sink k ++ ztake n (concat vs)
     end) ->
  (forall k' n, keeps k' -> pipes D F (pop_output bs n) src (sink k') ->
     _end_flag (pop_output bs n) = _end_flag bs -> (eof bs = true -> eof (pop_output bs n) = true) ->
     ends (f (register_write d) k' n) Q) ->
  ends (buffer ← peek_output bs (Z.min max_copy_length (ByteStream.buffer_size bs));
        '(d', k', n) ← FileDescriptor.write writev d k [buffer] false; f d' k' n) Q.
Proof.
  intros Hp Hw Hf. destruct (pipes_peek _ _ _ _ _ (Z.min max_copy_length (ByteStream.buffer_size bs)) Hp)
    as (buffer & Epeek & Hl).
  eapply ends_ok; [exact Epeek|]. unfold max_copy_length in *.
  assert (Hsize : 0 <= ByteStream.buffer_size bs).
  { destruct Hp as (b & []). rewrite (buffer_size_eq _ _ pi_rep0). lia. }
  apply EventLoop.ends_step.
  { intros e He. apply fd_write_faults in He as (x & -> & Hx); [by apply cp_write| |lia].
    intros sys k1 E1. apply Hw in E1 as [_ E1]. simpl in E1. rewrite app_nil_r in E1. destruct sys; tauto. }
  intros [[d' k'] n] E.
  apply fd_write_part in E as (Ew & Hn & ->); [|intros sys k1 E1; apply Hw in E1; destruct sys; tauto|lia].
  apply Hw in Ew as (Hk & Hn' & Eg). simpl in Eg. rewrite app_nil_r in Eg.
  destruct (pipes_pop _ _ _ _ _ _ buffer n Hp Epeek ltac:(lia) Hn) as (Hp' & Hflag & Heof).
  apply Hf; try done. by rewrite Eg.
Qed.

Lemma copy_rule2_ends l w :
  copies l w ->
  ends (rule2_callback w) (fun w' => copies l w' /\ _inbound w' = _inbound w /\ _output w' = _output w /\
    _end_flag (_outbound w') = _end_flag (_outbound w) /\
    _write_count (_socket w') <> _write_count (_socket w)).
Proof.
  intros (Hl & Hi & Hs & Hout & Hin & Hend1 & Hend3 & Hcl). unfold rule2_callback. cbv zeta.
  eapply (pour_ends _ _ _ _ sent (fun k => typed k = typed (kernel w) /\
    received k = received (kernel w) /\ printed k = printed (kernel w))); [exact Hout| |].
  { intros vs sys k' E. apply ok_socket_writev in E as (? & ? & ? & ?). by split_and!. }
  intros k n (K1 & K2 & K3) Hp Hflag _. cbn [set_outbound set_socket _outbound _socket kernel].
  generalize dependent (pop_output (_outbound w) n). intros bs' Hp Hflag. case_bool.
  - destruct (socket_shutdown k SHUT_WR) as [sys k2] eqn:Esh. apply ok_shutdown in Esh as (S1 & S2 & S3 & S4).
    destruct sys as [errno|ret]; [by eapply cp_shutdown|].
    eapply ends_ok; [reflexivity|]. eapply ends_ok; [reflexivity|]. split.
    + unfold copies. cbn. rewrite S1, S2, S3, S4, K1, K2, K3, Hflag. by split_and!.
    + cbn. split_and!; try done. wrap_lia.
  - split.
    + unfold copies. cbn. rewrite K1, K2, K3, Hflag. by split_and!.
    + cbn. split_and!; try done. apply u32_succ_ne.
Qed.

Lemma close_answer_faults d sys f :
  fails (close_answer d sys) f -> exists errno, f = Thrown (unix_error "close" errno).
Proof.
  unfold close_answer, close, SystemCall. destruct sys as [errno|ret]; [|by rewrite orb_true_r].
  case_bool; [done|]. intros Hf. by exists errno.
Qed.

Lemma close_answer_ok d sys d' :
  close_answer d sys = Ok d' -> d' = mkFDWrapper (_fd d) true true (_read_count d) (_write_count d).
Proof.
  unfold close_answer, close. destruct sys; destruct (SystemCall _ _ _ _); try done; by intros [= <-].
Qed.

Lemma copy_rule4_ends l w :
  rule4 ∈ l -> copies l w ->
  ends (rule4_callback w) (fun w' => copies l w' /\ _outbound w' = _outbound w /\
    _end_flag (_inbound w') = _end_flag (_inbound w) /\
    _write_count (_output w') <> _write_count (_output w)).
Proof.
  intros Hin4 (Hl & Hi & Hs & Hout & Hin & Hend1 & Hend3 & Hcl). unfold rule4_callback. cbv zeta.
  assert (Hreg : registered l 1 Out) by (by exists rule4).
  eapply (pour_ends _ _ _ _ printed (fun k => typed k = typed (kernel w) /\
    sent k = sent (kernel w) /\ received k = received (kernel w))); [exact Hin| |].
  { intros vs sys k' E. apply ok_stdout in E as (? & ? & ? & ?). by split_and!. }
  intros k n (K1 & K2 & K3) Hp Hflag Heof. cbn [set_inbound set_output _inbound _output kernel].
  generalize dependent (pop_output (_inbound w) n). intros bs' Hp Hflag Heof.
  destruct (eof bs') eqn:Ee.
  - destruct (stdout_close k) as [sys k2] eqn:Esh. apply ok_close in Esh as (S1 & S2 & S3 & S4).
    apply EventLoop.ends_step; [intros e He; apply close_answer_faults in He as [errno ->]; by eapply cp_close|].
    intros d' Ed. apply close_answer_ok in Ed as ->.
    split.
    + unfold copies. cbn. rewrite S1, S2, S3, S4, K1, K2, K3, Hflag. split_and!; try done.
      eapply pipes_weaken; [|by intros _|exact Hp]. intros _. by left.
    + cbn. split_and!; try done. apply u32_succ_ne.
  - split.
    + unfold copies. cbn. rewrite K1, K2, K3, Hflag. split_and!; try done.
      intros Ho. destruct (Hcl Ho) as [H1 _]. by specialize (Heof H1).
    + cbn. split_and!; try done. apply u32_succ_ne.
Qed.

(** *** Cancellation *)

Lemma pipes_cancel (D F D' F' : Prop) bs src dst :
  pipes D F bs src dst -> (D' -> D) -> (D' -> F' \/ _end_flag bs = true /\ (F -> F')) ->
  pipes D' F' (end_input bs) src dst.
Proof.
  intros (b & [R Hc He Ho Hp Hopen Hd]) HD HF. exists (spec_end b).
  split; try done; [by apply end_input_rep|]. simpl. intros HD'. destruct (Hd (HD HD')) as [Hs Hf].
  split; [done|]. intros _. destruct (HF HD') as [|[Hb HF']]; [done|]. rewrite (rep_ended _ _ R) in Hb. auto.
Qed.

Lemma registered_other pre post (r : Rule World) n d :
  fd r <> n \/ direction r <> d -> registered (pre ++ r :: post) n d -> registered (pre ++ post) n d.
Proof.
  intros Hne (r' & Hin & E1 & E2). exists r'. split; [|done]. revert Hin. rewrite !elem_of_app, elem_of_cons.
  intros [?|[->|?]]; [by left| |by right]. destruct Hne; congruence.
Qed.

(** The direction a cancellation does not touch *)
Lemma pipes_other (D D' : Prop) pre post (r : Rule World) n (e : bool) bs src dst :
  pipes D (~ registered (pre ++ r :: post) n In \/ e = true) bs src dst -> (D' -> D) ->
  pipes D' (~ registered (pre ++ post) n In \/ e = true) bs src dst.
Proof.
  intros Hp HD. eapply pipes_weaken; [exact HD| |exact Hp]. intros _ [H|H]; [left|by right].
  intros Hn. apply H. by apply registered_erase.
Qed.

Lemma end_outbound_copies pre post (r : Rule World) w :
  r = rule1 \/ r = rule2 -> copies (pre ++ r :: post) w ->
  copies (pre ++ post) (set_outbound w (end_input (_outbound w))).
Proof.
  intros Hr (Hl & Hi & Hs & Hout & Hin & Hend1 & Hend3 & Hcl). pose proof (erased _ _ _ Hl) as He.
  unfold copies. cbn. split_and!; try done.
  - by eapply erase_sublist.
  - eapply pipes_cancel; [exact Hout|apply registered_erase|]. destruct Hr as [->| ->]; [|done].
    by left; left.
  - eapply pipes_other; [exact Hin|]. intros [H|H]; [left|by right]. by apply registered_erase.
  - intros Hn. apply Hend3. intros Hreg. apply Hn. eapply registered_other; [|exact Hreg].
    destruct Hr as [->| ->]; [by left|by right].
Qed.

Lemma end_inbound_copies pre post (r : Rule World) w :
  r = rule3 \/ r = rule4 -> copies (pre ++ r :: post) w ->
  copies (pre ++ post) (set_inbound w (end_input (_inbound w))).
Proof.
  intros Hr (Hl & Hi & Hs & Hout & Hin & Hend1 & Hend3 & Hcl). pose proof (erased _ _ _ Hl) as He.
  assert (Hne : forall d, fd r <> 0%nat \/ direction r <> d) by (intros d; left; by destruct Hr as [->| ->]).
  unfold copies. cbn. split_and!; try done.
  - by eapply erase_sublist.
  - eapply pipes_other; [exact Hout|]. apply registered_erase.
  - eapply pipes_cancel; [exact Hin| |].
    + intros [H|H]; [left|by right]. by apply registered_erase.
    + destruct Hr as [->| ->]; [by left; left|]. intros [H|H]; [done|]. right. split.
      { destruct (Hcl H) as [H1 _]. by apply andb_true_iff in H1 as [? _]. }
      intros [H'|H']; [left|by right]. intros Hn. apply H'. by apply registered_erase.
  - intros Hn. apply Hend1. intros Hreg. apply Hn. by eapply registered_other; [apply Hne|].
  - intros Ho. destruct (Hcl Ho) as [H1 H2]. split; [|done]. by apply andb_true_iff in H1 as [_ ?].
Qed.

(** *** The event loop *)

Lemma copy_rules_sat : Forall (rule_sat copies copy_armed (thrown copy_throws)) all_rules.
Proof.
  repeat (apply Forall_cons; split); try apply Forall_nil; split;
    cbn [fd direction callback interest cancel rule1 rule2 rule3 rule4].
  - intros l w Hr (_ & _ & _ & (b & Hb) & _) Hd _ Hreg. cbn. destruct (_end_flag (_outbound w)) eqn:E; [|done].
    destruct (pi_draining _ _ _ _ _ _ Hb Hreg) as [_ Hf]. rewrite (rep_ended _ _ (pi_rep _ _ _ _ _ _ Hb)) in E.
    apply orb_false_iff in Hd as [Hd _]. cbn in Hd. destruct (Hf E) as [H|H]; [|by rewrite H in Hd].
    exfalso. apply H. by exists rule1.
  - intros l w _ Hw Ha. eapply EventLoop.ends_mono; [by apply (copy_rule1_ends l)|].
    intros w' (? & _ & _ & ?). by split; [|left].
  - intros pre post w Hw. eapply end_outbound_copies; [by left|exact Hw].
  - done.
  - intros l w _ Hw _. eapply EventLoop.ends_mono; [by apply (copy_rule2_ends l)|].
    intros w' (? & _ & _ & _ & ?). by split; [|left].
  - intros pre post w Hw. eapply end_outbound_copies; [by right|exact Hw].
  - intros l w Hr (_ & _ & _ & _ & (b & Hb) & _) Hd _ Hreg. cbn. destruct (_end_flag (_inbound w)) eqn:E; [|done].
    destruct (pi_draining _ _ _ _ _ _ Hb Hreg) as [_ Hf]. rewrite (rep_ended _ _ (pi_rep _ _ _ _ _ _ Hb)) in E.
    apply orb_false_iff in Hd as [Hd _]. cbn in Hd. destruct (Hf E) as [H|H]; [|by rewrite H in Hd].
    exfalso. apply H. by exists rule3.
  - intros l w _ Hw Ha. eapply EventLoop.ends_mono; [by apply (copy_rule3_ends l)|].
    intros w' (? & _ & ?). by split; [|left].
  - intros pre post w Hw. eapply end_inbound_copies; [by left|exact Hw].
  - done.
  - intros l w Hin Hw _. eapply EventLoop.ends_mono; [by apply (copy_rule4_ends l)|].
    intros w' (? & _ & _ & ?). by split; [|left].
  - intros pre post w Hw. eapply end_inbound_copies; [by right|exact Hw].
Qed.

(** Rules 2 and 4 rely on nothing. *)
Lemma draining_undisturbed (r r' : Rule World) :
  r = rule2 \/ r = rule4 -> undisturbed copies copy_armed r r'.
Proof. by intros [->| ->]. Qed.

Lemma rule1_undisturbed (r : Rule World) :
  r = rule2 \/ r = rule3 \/ r = rule4 -> undisturbed copies copy_armed rule1 r.
Proof.
  intros Hr. split.
  - intros l w w' _ Hin Hw Ha Ha' E Hreg. specialize (Ha Hreg). destruct Hr as [->|[->| ->]].
    + pose proof (EventLoop.ends_eq _ _ _ _ (copy_rule2_ends _ _ Hw) E) as (_ & _ & _ & -> & _). done.
    + pose proof (EventLoop.ends_eq _ _ _ _ (copy_rule3_ends _ _ Hw Ha') E) as (_ & -> & _). done.
    + pose proof (EventLoop.ends_eq _ _ _ _ (copy_rule4_ends _ _ Hin Hw) E) as (_ & -> & _). done.
  - intros pre post w w' _ [Hl _] Ha E Hreg. destruct Hr as [->|[->| ->]].
    + by destruct (erased _ _ _ Hl).
    + injection E as <-. apply Ha. by apply registered_erase.
    + injection E as <-. apply Ha. by apply registered_erase.
Qed.

Lemma rule3_undisturbed (r : Rule World) :
  r = rule1 \/ r = rule2 \/ r = rule4 -> undisturbed copies copy_armed rule3 r.
Proof.
  intros Hr. split.
  - intros l w w' _ Hin Hw Ha Ha' E. destruct Hr as [->|[->| ->]].
    + pose proof (EventLoop.ends_eq _ _ _ _ (copy_rule1_ends _ _ Hw Ha') E) as (_ & E1 & E2 & _). cbn. by rewrite E1, E2.
    + pose proof (EventLoop.ends_eq _ _ _ _ (copy_rule2_ends _ _ Hw) E) as (_ & E1 & E2 & _). cbn. by rewrite E1, E2.
    + pose proof (EventLoop.ends_eq _ _ _ _ (copy_rule4_ends _ _ Hin Hw) E) as (_ & _ & E1 & _). intros _. rewrite E1.
      apply Ha. left. by exists rule4.
  - intros pre post w w' _ (Hl & _ & _ & _ & _ & _ & _ & Hcl) Ha E Hreg. destruct Hr as [->|[->| ->]];
      injection E as <-; cbn in *.
    + apply Ha. destruct Hreg; [left|by right]. by apply registered_erase.
    + apply Ha. destruct Hreg; [left|by right]. by apply registered_erase.
    + destruct Hreg as [H|H]; [by destruct (erased _ _ _ Hl)|].
      destruct (Hcl H) as [H1 _]. unfold eof in H1. by rewrite (Ha (or_intror H)) in H1.
Qed.

Lemma copy_rules_compatible : compatible copies copy_armed all_rules.
Proof.
  repeat (apply FOP_cons); try apply FOP_nil; repeat (apply Forall_cons; split); try apply Forall_nil; split;
    first [apply draining_undisturbed; tauto | apply rule1_undisturbed; tauto | apply rule3_undisturbed; tauto].
Qed.

(** Others do not undo what was read and written, and [poll] fills in one entry
    per descriptor. *)
Record round_ok (rd : round (K := K)) : Prop := {
  rk_env k : typed (r_env rd k) = typed k /\ sent (r_env rd k) = sent k /\
    received (r_env rd k) = received k /\ printed (r_env rd k) = printed k;
  rk_poll ps : match r_poll rd ps with inl errno => 0 < errno | inr (n, rs) => length rs = length ps end
}.

Lemma copies_env l w rd :
  round_ok rd -> copies l w -> copies l (set_kernel w (r_env rd (kernel w))).
Proof. intros [He _] Hw. unfold copies. cbn. destruct (He (kernel w)) as (-> & -> & -> & ->). exact Hw. Qed.

Lemma copy_round_ends l w rd :
  copies l w -> round_ok rd ->
  ends (wait_next_event l (set_kernel w (r_env rd (kernel w))) (r_poll rd))
    (fun x => let '(_, l', w') := x in copies l' w').
Proof.
  intros Hw Hr. pose proof (copies_env _ _ _ Hr Hw) as Hw'. pose proof (proj1 Hw) as Hl.
  eapply EventLoop.ends_mono.
  { eapply (wait_next_event_ends copies copy_armed (thrown copy_throws)); [by apply cp_poll| | |exact Hw'|apply Hr].
    - eapply sublist_Forall; [exact Hl|apply copy_rules_sat].
    - eapply compatible_sublist; [exact Hl|apply copy_rules_compatible]. }
  by intros [[ret l'] w'] [? _].
Qed.

Lemma registered_rule l (r : Rule World) n d :
  l `sublist_of` all_rules -> registered l n d -> r ∈ all_rules -> fd r = n -> direction r = d -> r ∈ l.
Proof.
  intros Hl (r' & Hin & E1 & E2) Hr F1 F2. pose proof (elem_of_sublist _ _ _ Hl Hin) as Hin'.
  unfold all_rules in *. rewrite !elem_of_cons, elem_of_nil in Hr, Hin'.
  destruct Hr as [->|[->|[->|[->|[]]]]], Hin' as [->|[->|[->|[->|[]]]]]; cbn in *; congruence.
Qed.

Lemma copy_interests_kept l : l `sublist_of` all_rules -> interests_kept l.
Proof.
  intros Hl. assert (Hall : interests_kept all_rules).
  { repeat (apply FOP_cons); try apply FOP_nil; repeat (apply Forall_cons; split); try apply Forall_nil;
      try (intros w w' [= <-]; done); done. }
  revert Hall. induction Hl as [|r l k Hl IH|r l k Hl IH]; intros Hk; [done|..]; inversion Hk; subst.
  - apply FOP_cons; [by eapply sublist_Forall|by apply IH].
  - by apply IH.
Qed.

(** A stream with room whose filling rule waits for nothing is not being filled. *)
Lemma pipes_room (D F : Prop) bs src dst :
  pipes D F bs src dst -> buffer_empty bs = true ->
  negb (ByteStream.error bs) && (remaining_capacity bs >? 0) = true.
Proof.
  intros (b & [R Hc He _ _ _ _]) E. rewrite (buffer_empty_eq _ _ R) in E. apply Z.eqb_eq in E.
  rewrite (remaining_capacity_eq _ _ R), E, Hc. unfold ByteStream.error. by rewrite (rep_error _ _ R), He.
Qed.

Lemma pipes_no_error (D F : Prop) bs src dst : pipes D F bs src dst -> ByteStream.error bs = false.
Proof. intros (b & [R Hc He _ _ _ _]). unfold ByteStream.error. by rewrite (rep_error _ _ R), He. Qed.

(** What the copy has achieved in state [w] with the rules [l]. *)
Definition achieved (l : list (Rule World)) (w : World) : Prop :=
  sent (kernel w) `prefix_of` typed (kernel w) /\ printed (kernel w) `prefix_of` received (kernel w) /\
  (registered l 2 Out -> exists waiting,
     typed (kernel w) = sent (kernel w) ++ waiting /\ len waiting <= buffer_size) /\
  (registered l 1 Out \/ _closed (_output w) = true -> exists waiting,
     received (kernel w) = printed (kernel w) ++ waiting /\ len waiting <= buffer_size).

Definition finished (l : list (Rule World)) (w : World) : Prop :=
  (registered l 2 Out -> sent (kernel w) = typed (kernel w) /\ _outbound_shutdown w = true) /\
  (registered l 1 Out \/ _closed (_output w) = true ->
     printed (kernel w) = received (kernel w) /\ _inbound_shutdown w = true).

Lemma pipes_achieved (D F : Prop) bs src dst :
  pipes D F bs src dst -> dst `prefix_of` src /\
    (D -> exists waiting, src = dst ++ waiting /\ len waiting <= buffer_size).
Proof.
  intros (b & [R Hc He Ho Hp Hopen Hd]). subst dst. split.
  - etrans; [|exact Hp]. by eexists.
  - intros HD. destruct (Hd HD) as [-> _]. exists (s_pending b). split; [done|]. rewrite <- Hc. apply R.
Qed.

Lemma copies_achieved l w : copies l w -> achieved l w.
Proof.
  intros (_ & _ & _ & H1 & H2 & _). apply pipes_achieved in H1 as [? ?], H2 as [? ?]. by split_and!.
Qed.

Lemma copies_finished l w :
  copies l w -> Forall (fun r => interest r w = false) l -> finished l w.
Proof.
  intros (Hl & Hi & Hs & Hout & Hin & Hend1 & Hend3 & Hcl) Hidle.
  rewrite list.Forall_forall in Hidle. split.
  - intros Hreg. assert (H2 : interest rule2 w = false).
    { apply Hidle. eapply registered_rule; [exact Hl|exact Hreg| |done..]. unfold all_rules. in_app. }
    cbn in H2. apply orb_false_iff in H2 as [He Hsh]. apply negb_false_iff in He.
    split; [by eapply pipes_buffer_empty|].
    assert (Hend : _end_flag (_outbound w) = true).
    { apply Hend1. intros Hreg0. assert (H1 : interest rule1 w = false).
      { apply Hidle. eapply registered_rule; [exact Hl|exact Hreg0| |done..]. unfold all_rules. in_app. }
      cbn in H1. unfold rule1_interest in H1. rewrite (pipes_room _ _ _ _ _ Hout He) in H1.
      by rewrite (pipes_no_error _ _ _ _ _ Hin) in H1. }
    unfold eof in Hsh. rewrite Hend, He in Hsh. by apply negb_false_iff in Hsh.
  - intros Hreg. destruct (_closed (_output w)) eqn:Ec.
    { destruct (Hcl eq_refl) as [H1 H2]. split; [|done]. apply andb_true_iff in H1 as [_ H1].
      by eapply pipes_buffer_empty. }
    destruct Hreg as [Hreg|]; [|done]. assert (H4 : interest rule4 w = false).
    { apply Hidle. eapply registered_rule; [exact Hl|exact Hreg| |done..]. unfold all_rules. in_app. }
    cbn in H4. apply orb_false_iff in H4 as [He Hsh]. apply negb_false_iff in He.
    split; [eapply pipes_buffer_empty; [exact Hin|done|by left]|].
    assert (Hend : _end_flag (_inbound w) = true).
    { apply Hend3. intros Hreg0. assert (H3 : interest rule3 w = false).
      { apply Hidle. eapply registered_rule; [exact Hl|exact Hreg0| |done..]. unfold all_rules. in_app. }
      cbn in H3. unfold rule3_interest in H3. rewrite (pipes_room _ _ _ _ _ Hin He) in H3.
      by rewrite (pipes_no_error _ _ _ _ _ Hout) in H3. }
    unfold eof in Hsh. rewrite Hend, He in Hsh. by apply negb_false_iff in Hsh.
Qed.

Definition uninterrupted (rd : round (K := K)) : Prop := forall ps, r_poll rd ps <> inl EINTR.

Lemma copy_loop_ends rounds : forall l w,
  copies l w -> Forall round_ok rounds ->
  ends (copy_loop l w rounds) (fun x => let '(l', w', left_loop) := x in
    copies l' w' /\ (left_loop = true -> Forall uninterrupted rounds -> finished l' w')).
Proof.
  induction rounds as [|rd rounds IH]; intros l w Hw Hr; cbn [copy_loop]; [done|].
  inversion Hr as [|? ? Hrd Hrest]; subst. pose proof (copy_round_ends l w rd Hw Hrd) as Hround.
  destruct (wait_next_event _ _ _) as [[[ret l'] w']| |] eqn:E; [|done..]. cbn [mbind outcome_bind].
  case_bool.
  - split; [done|]. intros _ Hu. inversion Hu as [|? ? Hp _]; subst. apply copies_finished; [done|].
    destruct ret; try done. eapply wait_next_event_exit; [|exact Hp|exact E].
    apply copy_interests_kept, Hw.
  - eapply EventLoop.ends_mono; [by apply IH|]. intros [[l2 w2] b] [H1 H2]. split; [done|].
    intros Hb Hu. inversion Hu; subst. by apply H2.
Qed.

Lemma set_blocking_step {calls : Kernel} {C} d b (v : outcome C) (Q : C -> Prop) :
  ends v Q -> ends (_ ← set_blocking d b; v) Q.
Proof.
  intros Hv. unfold set_blocking. destruct (k_fcntl _ F_GETFL 0) as [errno|flags]; [by eapply cp_blocking|].
  cbn [answer mbind outcome_bind mret outcome_ret].
  destruct (k_fcntl _ F_SETFL _) as [errno|ret]; [by eapply cp_blocking|done].
Qed.

Lemma copy_start_ends {calls : Kernel} socket k :
  _closed socket = false -> typed k = [] -> sent k = [] -> received k = [] -> printed k = [] ->
  ends (copy_start socket k) (fun x => copies x.1 x.2).
Proof.
  intros Hs K1 K2 K3 K4. unfold copy_start. eapply ends_ok; [reflexivity|]. eapply ends_ok; [reflexivity|].
  cbv zeta. do 3 apply set_blocking_step. cbn [foldl add_rule app mret outcome_ret EventLoop.ends fst snd].
  assert (Hreg : forall (r : Rule World) n d, r ∈ all_rules -> fd r = n -> direction r = d ->
    registered all_rules n d) by (intros r; by exists r).
  unfold copies. cbn [fst snd _input _output _socket _outbound _inbound _inbound_shutdown kernel _closed _eof].
  rewrite K1, K2, K3, K4. split_and!; try done.
  - apply pipes_new.
  - apply pipes_new.
  - intros []. eapply (Hreg rule1); try done. unfold all_rules. in_app.
  - intros []. eapply (Hreg rule3); try done. unfold all_rules. in_app.
Qed.
End correct.

(** ** Properties *)

(** C29. The copy is faithful in both directions, whatever the two ends and the
    network do: what was sent is always a prefix of what was typed and what was
    printed a prefix of what was received; while the rule that writes is
    registered (it goes only when its descriptor hangs up, or once the output is
    closed) at most one buffer of bytes is in between.  When the function returns
    and no signal has interrupted a [poll], then in a direction whose sink has not
    hung up everything typed was sent and the socket was shut down for writing, or
    everything received was printed and the output closed.  It throws only what
    a system call or an error of a polled descriptor makes it throw: never a busy
    wait, and never an exception of a byte stream; and nothing in it is undefined. *)
Theorem stream_copy_faithful {K : Type} {io : CopyIO K} {calls : Kernel} typed sent received printed
    `{ok : !CopyIOOk K typed sent received printed} socket (k : K) rounds :
  _closed socket = false -> typed k = [] -> sent k = [] -> received k = [] -> printed k = [] ->
  Forall (round_ok typed sent received printed) rounds ->
  match bidirectional_stream_copy socket k rounds with
  | Ok (l, w, left_loop) => achieved typed sent received printed l w /\
      (left_loop = true -> Forall uninterrupted rounds -> finished typed sent received printed l w)
  | Throw e => copy_throws e
  | UB => False
  end.
Proof.
  intros Hs K1 K2 K3 K4 Hr. unfold bidirectional_stream_copy.
  pose proof (copy_start_ends typed sent received printed socket k Hs K1 K2 K3 K4) as Hst.
  destruct (copy_start socket k) as [[l w]| |]; [|done..]. cbn [mbind outcome_bind].
  pose proof (copy_loop_ends typed sent received printed rounds l w Hst Hr) as Hl.
  destruct (copy_loop l w rounds) as [[[l' w'] b]| |]; [|done..]. destruct Hl as [Hc Hf].
  split; [by apply copies_achieved|done].
Qed.

(** ** A sample terminal

    The user types three bytes, the peer sends two; both then are at their end. *)
Record demo_kernel := mkDemo {
  d_keys : list byte; d_peer : list byte;
  d_typed : list byte; d_sent : list byte; d_received : list byte; d_printed : list byte
}.

#[local] Instance demo_copy_io : CopyIO demo_kernel := {|
  stdin_read k n := (inr (ztake n (d_keys k)),
    mkDemo (zdrop n (d_keys k)) (d_peer k) (d_typed k ++ ztake n (d_keys k)) (d_sent k) (d_received k) (d_printed k));
  stdout_writev k vs := (inr (len (concat vs)),
    mkDemo (d_keys k) (d_peer k) (d_typed k) (d_sent k) (d_received k) (d_printed k ++ concat vs));
  stdout_close k := (inr 0, k);
  socket_read k n := (inr (ztake n (d_peer k)),
    mkDemo (d_keys k) (zdrop n (d_peer k)) (d_typed k) (d_sent k) (d_received k ++ ztake n (d_peer k)) (d_printed k));
  socket_writev k vs := (inr (len (concat vs)),
    mkDemo (d_keys k) (d_peer k) (d_typed k) (d_sent k ++ concat vs) (d_received k) (d_printed k));
  socket_shutdown k _ := (inr 0, k)
|}.

#[local] Instance demo_copy_ok : CopyIOOk demo_kernel d_typed d_sent d_received d_printed.
Proof.
  split.
  - intros k n sys k' Hn [= <- <-]. split_and!; try done. rewrite len_ztake; lia.
  - intros k n sys k' Hn [= <- <-]. split_and!; try done. rewrite len_ztake; lia.
  - intros k vs sys k' [= <- <-]. split_and!; try done; [lia|]. cbn [d_sent]. by rewrite ztake_all by lia.
  - intros k vs sys k' [= <- <-]. split_and!; try done; [lia|]. cbn [d_printed]. by rewrite ztake_all by lia.
  - by intros k how sys k' [= <- <-].
  - by intros k sys k' [= <- <-].
Qed.

Definition demo_terminal : demo_kernel :=
  mkDemo [Byte.x68; Byte.x69; Byte.x0a] [Byte.x6f; Byte.x6b] [] [] [] [].
Definition demo_rounds : list (round (K := demo_kernel)) :=
  replicate 5 (mkRound id (fun ps => inr (len ps, events <$> ps))).

Lemma stream_copy_faithful_witness :
  match bidirectional_stream_copy (calls := sample_kernel) sample_socket demo_terminal demo_rounds with
  | Ok (l, w, left_loop) => achieved d_typed d_sent d_received d_printed l w /\
      (left_loop = true -> Forall uninterrupted demo_rounds -> finished d_typed d_sent d_received d_printed l w)
  | Throw e => copy_throws e
  | UB => False
  end.
Proof.
  apply (stream_copy_faithful (calls := sample_kernel) d_typed d_sent d_received d_printed sample_socket
    demo_terminal demo_rounds); try done.
  unfold demo_rounds. apply Forall_replicate. split; [done|]. intros ps. simpl. by rewrite length_fmap.
Defined.

(** Five rounds are enough for it. *)
Lemma demo_terminal_copied :
  match bidirectional_stream_copy (calls := sample_kernel) sample_socket demo_terminal demo_rounds with
  | Ok (_, w, left_loop) => left_loop = true /\
      d_sent (kernel w) = d_keys demo_terminal /\ d_printed (kernel w) = d_peer demo_terminal
  | _ => False
  end.
Proof. vm_compute. done. Qed.
