(* ===== verification/Doctests.v ===== *)
(** * The examples of the documentation

    Model of the compiled examples [src/doctests/parser_dt.cc], [address_dt.cc] and
    [socket_dt.cc]: what they check holds of the model.  The result is the exit
    code. *)

From S2P Require Import Prelude Buffer Parser Address FileDescriptor FdAdapter Socket StreamCopy.
#[local] Open Scope string_scope.
#[local] Open Scope list_scope.
#[local] Open Scope Z_scope.

(** [try { ... } catch (...) { return EXIT_FAILURE; } return EXIT_SUCCESS;] *)
Definition exit_code (body : outcome unit) : outcome Z :=
  match body with Ok _ => Ok 0 | Throw _ => Ok 1 | UB => UB end.

(** ** [parser_example.cc] *)

Definition val1 : Z := 0xdeadbeef.
Definition val2 : Z := 0xc0c0.
Definition val3 : Z := 0xff.
Definition val4 : Z := 0x0c05fefe.

Definition parser_example : outcome unit :=
  let buffer := [Byte.x32] in
  let buffer := unparse_u32 buffer val1 in
  let buffer := unparse_u16 buffer val2 in
  let buffer := unparse_u8 buffer val3 in
  let buffer := unparse_u32 buffer val4 in
  let p := NetParser_of (Buffer_of buffer) in
  '(out0, p) ← p_u8 p;
  '(out1, p) ← p_u32 p;
  '(out2, p) ← p_u16 p;
  '(out3, p) ← p_u8 p;
  '(out4, p) ← p_u32 p;
  if negb (out0 =? 0x32) || negb (out1 =? val1) || negb (out2 =? val2) || negb (out3 =? val3) || negb (out4 =? val4)
  then Throw (runtime_error "bad parse") else mret tt.

Definition parser_dt : outcome Z := exit_code parser_example.

Lemma parser_dt_passes : parser_dt = Ok 0.
Proof. by vm_compute. Qed.

(** ** [address_example_*.cc] *)
Section address.
  Context `{Resolver}.

Definition address_example : outcome unit :=
  google_webserver ← of_names "www.google.com" "https";
  a_dns_server ← of_ip_port "18.71.0.151" 53;
  a_dns_server_numeric ← ipv4_numeric a_dns_server;
  google_port ← port google_webserver;
  if negb (google_port =? 443) || negb (a_dns_server_numeric =? 0x12470097)
  then Throw (runtime_error "unexpected value") else mret tt.

Definition address_dt : outcome Z := exit_code address_example.
End address.

(** The numeric part holds by what is promised about numeric names; the rest needs the
    name service to know the server and its port. *)
Lemma address_dt_passes `{RO : ResolverOk} ip rest :
  inet_ntoa (unparse_bytes 4 0x12470097) = "18.71.0.151" ->
  0 <= ip < 2 ^ 32 -> getaddrinfo "www.google.com" "https" AI_ALL AF_INET = inr (sockaddr_in ip 443 :: rest) ->
  address_dt = Ok 0.
Proof.
  intros Hn Hip Hg.
  assert (E1 : of_names "www.google.com" "https" = Ok (ipv4_address ip 443))
    by (unfold of_names, resolve; rewrite Hg; apply of_sockaddr_in).
  assert (E2 : of_ip_port "18.71.0.151" 53 = Ok (ipv4_address 0x12470097 53))
    by (rewrite <- Hn; apply of_ip_port_eq; lia).
  unfold address_dt, address_example.
  rewrite (bind_ok _ _ _ E1), (bind_ok _ _ _ E2), (bind_ok _ _ _ (ipv4_numeric_eq 0x12470097 53 ltac:(lia))).
  by rewrite (bind_ok _ _ _ (port_eq ip 443 Hip ltac:(lia))).
Qed.

(** ** [socket_example_*.cc]

    The calls on sockets are numbered: [calls n] is the kernel as the [n]th of them
    finds it.  The bytes of streams are in a state [k] of their own. *)
Class StreamIO (K : Type) := {
  s_read : K -> Z -> Z -> (Z + list byte) * K;
  s_writev : K -> Z -> BufferViewList -> (Z + Z) * K;
  s_close : K -> Z -> (Z + Z) * K
}.

Definition chars_of (s : string) : list byte := String.list_byte_of_string s.

Section sockets.
  Context `{Resolver} {K : Type} {io : StreamIO K}.

(** [read()] and [write(str)] with their default arguments *)
Definition read_all (d : FDWrapper) (k : K) : outcome (FDWrapper * K * list byte) :=
  let '(sys, k) := s_read k (_fd d) BUFFER_SIZE in
  '(d, str) ← FileDescriptor.read d (2 ^ 64 - 1) sys;
  mret (d, k, str).

Definition write_str (d : FDWrapper) (k : K) (s : string) : outcome (FDWrapper * K) :=
  '(d, k, _) ← FileDescriptor.write (fun k vs => s_writev k (_fd d) vs) d k
    (BufferViewList_of_string (chars_of s)) true;
  mret (d, k).

Definition close_fd (d : FDWrapper) (k : K) : outcome (FDWrapper * K) :=
  let '(sys, k) := s_close k (_fd d) in
  d ← close_answer d sys; mret (d, k).

Definition wrong_data (a b : list byte) : outcome unit :=
  if negb (bool_decide (a = chars_of "hi there")) || negb (bool_decide (b = chars_of "hi yourself"))
  then Throw (runtime_error "wrong data received") else mret tt.

(** [random] is the word of [random_device]. *)
Definition portnum (random : Z) : Z := u16 (u32 (random mod 50000 + 1025)).

Definition socket_example_1 (calls : nat -> Kernel) (random : Z) : outcome unit :=
  sock1 ← UDPSocket_new (kernel := calls 0%nat);
  local ← of_ip_port "127.0.0.1" (portnum random);
  _ ← bind (kernel := calls 1%nat) sock1 local;
  sock2 ← UDPSocket_new (kernel := calls 2%nat);
  peer ← of_ip_port "127.0.0.1" (portnum random);
  sock2 ← sendto (kernel := calls 3%nat) sock2 peer (BufferViewList_of_string (chars_of "hi there"));
  '(sock1, recvd) ← recv (kernel := calls 4%nat) sock1 65536;
  _ ← connect (kernel := calls 5%nat) sock1 (source_address recvd);
  sock1 ← send (kernel := calls 6%nat) sock1 (BufferViewList_of_string (chars_of "hi yourself"));
  '(sock2, recvd2) ← recv (kernel := calls 7%nat) sock2 65536;
  wrong_data (dgram_payload recvd) (dgram_payload recvd2).

Definition socket_example_2 (calls : nat -> Kernel) (random : Z) (k : K) : outcome unit :=
  sock1 ← TCPSocket_new (kernel := calls 0%nat);
  local ← of_ip_port "127.0.0.1" (portnum random);
  _ ← bind (kernel := calls 1%nat) sock1 local;
  _ ← listen (kernel := calls 2%nat) sock1 1;
  sock2 ← TCPSocket_new (kernel := calls 3%nat);
  peer ← of_ip_port "127.0.0.1" (portnum random);
  _ ← connect (kernel := calls 4%nat) sock2 peer;
  '(sock1, sock3) ← accept (kernel := calls 5%nat) sock1;
  '(sock3, k) ← write_str sock3 k "hi there";
  '(sock2, k, recvd) ← read_all sock2 k;
  '(sock2, k) ← write_str sock2 k "hi yourself";
  '(sock3, k, recvd2) ← read_all sock3 k;
  '(sock1, k) ← close_fd sock1 k;
  '(sock2, k) ← close_fd sock2 k;
  sock3 ← shutdown (kernel := calls 6%nat) sock3 SHUT_RDWR;
  wrong_data recvd recvd2.

Definition socket_example_3 (calls : nat -> Kernel) (k : K) : outcome unit :=
  '(fd0, fd1) ← answer "socketpair" (k_socketpair (Kernel := calls 0%nat) AF_UNIX SOCK_STREAM 0);
  d0 ← FDWrapper_new fd0;
  pipe1 ← LocalStreamSocket_of (kernel := calls 1%nat) d0;
  d1 ← FDWrapper_new fd1;
  pipe2 ← LocalStreamSocket_of (kernel := calls 2%nat) d1;
  '(pipe1, k) ← write_str pipe1 k "hi there";
  '(pipe2, k, recvd) ← read_all pipe2 k;
  '(pipe2, k) ← write_str pipe2 k "hi yourself";
  '(pipe1, k, recvd2) ← read_all pipe1 k;
  wrong_data recvd recvd2.

(** Each example has the kernel and the random word for itself. *)
Definition socket_dt (calls1 calls2 calls3 : nat -> Kernel) (random1 random2 : Z) (k2 k3 : K) : outcome Z :=
  exit_code (
    _ ← socket_example_1 calls1 random1;
    _ ← socket_example_2 calls2 random2 k2;
    socket_example_3 calls3 k3).
End sockets.

(** The examples end with 0 over a kernel that delivers what was sent: datagrams
    from 127.0.0.1 to descriptor 7, the answer to 8; of two connected descriptors
    each reads what was written to the other. *)
Definition loopback (domain type : Z) (n : nat) : Kernel := {|
  k_socket _ _ _ := inr (if bool_decide (n = 0%nat) then 7 else 8);
  k_socketpair _ _ _ := inr (8, 9);
  k_getsockopt _ _ option := inr (sizeof_int, if option =? SO_DOMAIN then domain else type);
  k_setsockopt _ _ _ _ _ := inr 0;
  k_getsockname _ := inl 1;
  k_getpeername _ := inl 1;
  k_bind _ _ _ := inr 0;
  k_connect _ _ _ := inr 0;
  k_shutdown _ _ := inr 0;
  k_recvfrom fd _ _ :=
    let d := chars_of (if fd =? 7 then "hi there" else "hi yourself") in
    inr (len d, d, sockaddr_in 2130706433 (if fd =? 7 then 2002 else 2001), 16);
  k_sendmsg _ _ _ vs _ := inr (BufferViewList_size vs);
  k_listen _ _ := inr 0;
  k_accept _ := inr 9;
  k_open _ _ := inl 1;
  k_ioctl _ _ _ := inl 1;
  k_fcntl _ _ _ := inr 0
|}.

(** The bytes waiting at descriptors 8 and 9 *)
#[local] Instance wire : StreamIO (list byte * list byte) := {|
  s_read k fd size :=
    if fd =? 8 then (inr (ztake size k.1), (zdrop size k.1, k.2))
    else (inr (ztake size k.2), (k.1, zdrop size k.2));
  s_writev k fd vs :=
    (inr (BufferViewList_size vs), if fd =? 8 then (k.1, k.2 ++ concat vs) else (k.1 ++ concat vs, k.2));
  s_close k _ := (inr 0, k)
|}.

Definition localhost : Resolver := {|
  getaddrinfo node service _ _ :=
    if bool_decide (node = "127.0.0.1") then inr [sockaddr_in 2130706433 (digits service 0)] else inl (-2);
  getnameinfo _ _ := inl (-6);
  inet_ntoa _ := "127.0.0.1"
|}.

Example socket_dt_passes :
  socket_dt (H := localhost)
    (loopback AF_INET SOCK_DGRAM) (loopback AF_INET SOCK_STREAM) (loopback AF_UNIX SOCK_STREAM)
    976 976 ([], []) ([], []) = Ok 0.
Proof. by vm_compute. Qed.
