(* ===== verification/UdpTcpdump.v ===== *)
(** * The packet dumper

    Model of [apps/udp_tcpdump.cc]: where a captured packet has its UDP payload,
    and the segment in it.  Reading beyond the captured bytes is undefined. *)

From S2P Require Import Prelude Buffer Parser TCPHeader TCPSegment.

(** [inet_ntop] on the bytes of an address *)
Class Ntop := inet_ntop : Z -> list byte -> option string.

Definition AF_INET6 : Z := 10.
Definition DLT_NULL : Z := 0.
Definition DLT_EN10MB : Z := 1.
Definition DLT_RAW : Z := 12.
Definition DLT_LINUX_SLL : Z := 113.
Definition DLT_LINUX_SLL2 : Z := 276.

(** ** Arguments *)

(** The options before the filter expression: [*dev_ptr] and the first argument
    that is none. *)
Fixpoint parse_arguments (args : list string) (curr : Z) (dev : option string) : flow (Z * option string) :=
  match args with
  | [] => Go (curr, dev)
  | a :: rest =>
      if String.eqb a "-i" then
        match rest with
        | [] => Leave 1
        | d :: rest => parse_arguments rest (curr + 2) (Some d)
        end
      else if String.eqb a "-h" || String.eqb a "--help" then Leave 0
      else Go (curr, dev)
  end.

(** ** Packets *)

(** [n] bytes at offset [off] *)
Definition read_at (data : list byte) (off n : Z) : outcome (list byte) :=
  if (0 <=? off) && (off + n <=? len data) then Ok (ztake n (zdrop off data)) else UB.

Definition byte_at (data : list byte) (off : Z) : outcome Z :=
  b ← vec_get data off; mret (byte.unsigned b).

Section code.
  Context {ntop : Ntop}.

Definition inet4_addr (data : list byte) (off : Z) : outcome string :=
  addr ← read_at data off 4;
  mret (match inet_ntop 2 addr with Some s => s | None => "unknown"%string end).

Definition inet6_addr (data : list byte) (off : Z) : outcome string :=
  addr ← read_at data off 16;
  mret (match inet_ntop AF_INET6 addr with Some s => s | None => "unknown"%string end).

(** The extension headers of IPv6: [None] for [return -1]. *)
Definition next_header_body (length : Z) (data : list byte) (s : Z * Z) : outcome (Z * Z + option Z) :=
  let '(nxt, data_offset) := s in
  if nxt =? 17 then mret (inr (Some data_offset))
  else if negb (nxt =? 0) && negb (nxt =? 43) && negb (nxt =? 60) then mret (inr None)
  else
    nxt ← byte_at data data_offset;
    l ← byte_at data (data_offset + 1);
    let data_offset := data_offset + 8 * (1 + l) in
    if length <? data_offset + 2 then mret (inr None) else mret (inl (nxt, data_offset)).

(** The offset of the UDP payload and the two addresses, or [None] for [-1]: the
    branches for IPv4 and IPv6, and the function. *)
Definition process_ipv4 (length : Z) (data : list byte) (first : Z) : outcome (option (Z * string * string)) :=
  let data_offset := Z.land first 15 * 4 in
  if length <? data_offset then mret None
  else
    proto ← byte_at data 9;
    if negb (proto =? 17) then mret None
    else
      src ← inet4_addr data 12;
      dst ← inet4_addr data 16;
      mret (Some (data_offset + 8, src, dst)).

Definition process_ipv6 (length : Z) (data : list byte) : outcome (option (Z * string * string)) :=
  if length <? 42 then mret None
  else
    nxt ← byte_at data 6;
    r ← while_ (next_header_body length data) (nxt, 40);
    match r with
    | None => mret None
    | Some data_offset =>
        src ← inet6_addr data 8;
        dst ← inet6_addr data 24;
        mret (Some (data_offset + 8, src, dst))
    end.

Definition process_ipv4_ipv6 (length : Z) (data : list byte) : outcome (option (Z * string * string)) :=
  if length <? 1 then mret None
  else
    first ← byte_at data 0;
    let pt := Z.land first 240 in
    if pt =? 64 then process_ipv4 length data first
    else if pt =? 96 then process_ipv6 length data
    else mret None.

(** What is printed for one packet *)
Inductive report :=
  | Malformed
  | NonIP
  | Unparsed
  | NoTCP (src dst : string)
  | Segment (src dst : string) (seg : TCPSegment) (correct : bool) (payload_len : Z).

(** A sixteen-bit number in network byte order *)
Definition be16_at (data : list byte) (off : Z) : outcome Z :=
  hi ← byte_at data off; lo ← byte_at data (off + 1); mret (Z.lor (Z.shiftl hi 8) lo).

(** The length of the link-layer header, a report that skips the packet, or the
    exit of an unknown link type. *)
Definition link_header (dl_type : Z) (pkt_data : list byte) : outcome (flow (report + Z)) :=
  let caplen := len pkt_data in
  let not_ip (pt : Z) := negb (pt =? 2048) && negb (pt =? 34525) in
  if dl_type =? DLT_NULL then
    if caplen <? 4 then mret (Go (inl Malformed))
    else
      pt ← byte_at pkt_data 3;
      if negb (pt =? 2) && negb (pt =? 24) && negb (pt =? 28) && negb (pt =? 30)
      then mret (Go (inl NonIP)) else mret (Go (inr 4))
  else if dl_type =? DLT_EN10MB then
    if caplen <? 14 then mret (Go (inl Malformed))
    else pt ← be16_at pkt_data 12; mret (Go (if not_ip pt then inl NonIP else inr 14))
  else if dl_type =? DLT_LINUX_SLL then
    if caplen <? 16 then mret (Go (inl Malformed))
    else pt ← be16_at pkt_data 14; mret (Go (if not_ip pt then inl NonIP else inr 16))
  else if dl_type =? DLT_LINUX_SLL2 then
    if caplen <? 20 then mret (Go (inl Malformed))
    else pt ← be16_at pkt_data 0; mret (Go (if not_ip pt then inl NonIP else inr 20))
  else if negb (dl_type =? DLT_RAW) then mret (Leave 1)
  else mret (Go (inr 0)).

(** [string(payload)] of the bytes from [payload_off] on: a string may have at most
    [2 ^ 63 - 1] bytes. *)
Definition string_of_view (pkt_data : list byte) (off n : Z) : outcome (list byte) :=
  if n >? 2 ^ 63 - 1 then Throw (length_error "basic_string::_M_create") else read_at pkt_data off n.

(** The body of the capture loop *)
Definition handle_packet (dl_type : Z) (pkt_data : list byte) : outcome (flow report) :=
  h ← link_header dl_type pkt_data;
  match h with
  | Leave code => mret (Leave code)
  | Go (inl r) => mret (Go r)
  | Go (inr hdr_off) =>
      r ← process_ipv4_ipv6 (len pkt_data - hdr_off) (zdrop hdr_off pkt_data);
      match r with
      | None => mret (Go Unparsed)
      | Some (start_off, src, dst) =>
          let payload_off := hdr_off + start_off in
          let payload_len := u64 (len pkt_data - payload_off) in
          payload ← string_of_view pkt_data payload_off payload_len;
          '(res, seg) ← TCPSegment.parse TCPSegment_default (Buffer_of payload) 0;
          if ParseResult_index res >? ParseResult_index BadChecksum then mret (Go (NoTCP src dst))
          else mret (Go (Segment src dst seg (bool_decide (res = NoError)) payload_len))
      end
  end.

(** The capture loop over the answers of [pcap_next_ex]: the packets, [None] for a
    timeout, and at the end the negative code. *)
Fixpoint capture (dl_type : Z) (answers : list (option (list byte))) (next_ret : Z) :
    outcome (list report * Z) :=
  match answers with
  | [] => mret ([], if next_ret =? -1 then 1 else 0)
  | None :: answers => capture dl_type answers next_ret
  | Some pkt_data :: answers =>
      r ← handle_packet dl_type pkt_data;
      match r with
      | Leave code => mret ([], code)
      | Go r => '(rs, code) ← capture dl_type answers next_ret; mret (r :: rs, code)
      end
  end.

(** ** [main] *)

(** libpcap: whether a device can be opened, its link type, and what compiling and
    setting a filter return *)
Class Pcap := {
  pcap_open_live : option string -> bool;
  pcap_datalink : option string -> Z;
  pcap_compile : string -> Z;
  pcap_setfilter : string -> Z
}.

(** The arguments from [exp_start] on, each followed by a blank *)
Definition filter_expression (argv : list string) (exp_start : Z) : string :=
  foldl (fun f a => (f +:+ a +:+ " ")%string) ""%string (zdrop exp_start argv).

(** The lambda that opens the device *)
Definition open_capture {pcap : Pcap} (dev : option string) : flow Z :=
  if negb (pcap_open_live dev) then Leave 1
  else
    let dlt := pcap_datalink dev in
    if negb (dlt =? DLT_RAW) && negb (dlt =? DLT_NULL) && negb (dlt =? DLT_EN10MB) && negb (dlt =? DLT_LINUX_SLL) &&
       negb (dlt =? DLT_LINUX_SLL2)
    then Leave 1 else Go dlt.

(** What is reported, and the exit code; [answers] and [next_ret] are those of
    [pcap_next_ex]. *)
Definition dump_main {pcap : Pcap} (argv : list string) (answers : list (option (list byte))) (next_ret : Z) :
    outcome (list report * Z) :=
  match parse_arguments (zdrop 1 argv) 1 None with
  | Leave code => mret ([], code)
  | Go (exp_start, dev) =>
      match open_capture dev with
      | Leave code => mret ([], code)
      | Go dl_type =>
          let f := filter_expression argv exp_start in
          if negb (pcap_compile f =? 0) || negb (pcap_setfilter f =? 0) then mret ([], 1)
          else capture dl_type answers next_ret
      end
  end.
End code.

(** ** Lemmas *)

Lemma byte_at_in data i : 0 <= i < len data -> exists n, byte_at data i = Ok n /\ 0 <= n < 256.
Proof.
  intros Hi. unfold byte_at. destruct (vec_get_in data i Hi) as [b ->]. exists (byte.unsigned b).
  split; [done|]. apply byte.unsigned_range.
Qed.

Lemma byte_at_out data i : len data <= i -> byte_at data i = UB.
Proof. intros Hi. unfold byte_at. by rewrite vec_get_out. Qed.

Section lemmas.
  Context {ntop : Ntop}.

Lemma inet4_addr_in data off : 0 <= off -> off + 4 <= len data -> exists s, inet4_addr data off = Ok s.
Proof. intros. unfold inet4_addr, read_at. do 2 case_cmp; (lia || by eexists). Qed.

Lemma inet4_addr_out data off : len data < off + 4 -> inet4_addr data off = UB.
Proof. intros. unfold inet4_addr, read_at. by repeat case_cmp; try lia. Qed.

Lemma inet6_addr_in data off : 0 <= off -> off + 16 <= len data -> exists s, inet6_addr data off = Ok s.
Proof. intros. unfold inet6_addr, read_at. do 2 case_cmp; (lia || by eexists). Qed.

Lemma read_rest data off :
  0 <= off <= len data -> read_at data off (len data - off) = Ok (zdrop off data).
Proof.
  intros. unfold read_at. rewrite (proj2 (Z.leb_le 0 off)), (proj2 (Z.leb_le _ _)) by lia.
  simpl. by rewrite ztake_all by (rewrite len_zdrop; lia).
Qed.

Lemma parse_returns data :
  len data < 2 ^ 31 ->
  exists res seg, TCPSegment.parse TCPSegment_default (Buffer_of data) 0 = Ok (res, seg).
Proof.
  intros Hl. unfold TCPSegment.parse. case_bool; [by eexists _, _|].
  destruct (parse_in_range (NetParser_of (Buffer_of data))) as (res & h & p & -> & _ & _).
  - apply Buffer_of_ok. lia.
  - by eexists _, _.
Qed.

(** The walk over the extension headers stays inside the packet and ends: each
    header has at least eight bytes. *)
Lemma next_headers_end data nxt off :
  0 <= off -> off + 2 <= len data -> len data < 2 ^ 31 ->
  exists r, while_ (next_header_body (len data) data) (nxt, off) = Ok r /\
    match r with Some o => off <= o /\ o + 2 <= len data | None => True end.
Proof.
  intros H0 Hoff Hlen.
  apply (while_rule _ (fun s => off <= s.2 /\ s.2 + 2 <= len data)
    (fun r => match r with Some o => off <= o /\ o + 2 <= len data | None => True end)
    (fun s => len data - s.2)); simpl; [|lia..].
  intros [n o] [H1 H2]. simpl in *. unfold next_header_body. case_bool; [by split|]. case_bool; [done|].
  destruct (byte_at_in data o) as (n' & -> & _); [lia|].
  destruct (byte_at_in data (o + 1)) as (l & -> & Hl); [lia|]. cbn [mbind outcome_bind].
  case_bool; [done|]. cbn. lia.
Qed.
End lemmas.

(** ** Properties *)

(** An IPv4 packet that is too short for the fields that are looked at, although
    not shorter than its own header length says. *)
Definition short_ipv4 (data : list byte) : Prop :=
  exists first, byte_at data 0 = Ok first /\ Z.land first 240 = 64 /\ Z.land first 15 * 4 <= len data /\
    (len data < 10 \/ byte_at data 9 = Ok 17 /\ len data < 20).

Section properties.
  Context {ntop : Ntop}.

(** What a call that found the payload returns *)
Definition found (data : list byte) (r : option (Z * string * string)) : Prop :=
  match r with Some (off, _, _) => 8 <= off <= len data + 8 | None => True end.

Lemma process_ipv6_found data :
  len data < 2 ^ 31 -> exists r, process_ipv6 (len data) data = Ok r /\ found data r.
Proof.
  intros Hlen. unfold process_ipv6. case_bool; [by eexists|].
  destruct (byte_at_in data 6) as (nxt & E & _); [lia|]. rewrite (bind_ok _ _ _ E).
  destruct (next_headers_end data nxt 40) as (r & Er & Ho); [lia..|]. rewrite (bind_ok _ _ _ Er).
  destruct r as [o|]; [|by eexists].
  destruct (inet6_addr_in data 8) as [s Es]; [lia..|]. rewrite (bind_ok _ _ _ Es).
  destruct (inet6_addr_in data 24) as [d Ed]; [lia..|]. rewrite (bind_ok _ _ _ Ed).
  eexists. split; [done|]. simpl. lia.
Qed.

Lemma process_ipv4_cases data first :
  0 <= first ->
  let short := Z.land first 15 * 4 <= len data /\
    (len data < 10 \/ byte_at data 9 = Ok 17 /\ len data < 20) in
  (short /\ process_ipv4 (len data) data first = UB) \/
  (~ short /\ exists r, process_ipv4 (len data) data first = Ok r /\ found data r).
Proof.
  intros H0 short. unfold short, process_ipv4. cbv zeta.
  assert (Hlow : 0 <= Z.land first 15) by (apply Z.land_nonneg; lia).
  case_bool; [right; split; [lia|by eexists]|].
  destruct (Z.lt_ge_cases (len data) 10).
  { left. split; [split; [lia|by left]|]. by rewrite (byte_at_out data 9) by lia. }
  destruct (byte_at_in data 9) as (proto & E9 & _); [lia|]. rewrite (bind_ok _ _ _ E9), E9.
  destruct (Z.eqb_spec proto 17) as [->|Hp]; cbn [negb].
  2: { right. split; [|by eexists]. intros [_ [?|[? _]]]; [lia|congruence]. }
  destruct (Z.lt_ge_cases (len data) 20).
  - left. split; [split; [lia|by right]|].
    destruct (Z.lt_ge_cases (len data) 16); [by rewrite (inet4_addr_out data 12) by lia|].
    destruct (inet4_addr_in data 12) as [s Es]; [lia..|]. rewrite (bind_ok _ _ _ Es).
    by rewrite (inet4_addr_out data 16) by lia.
  - right. split; [lia|]. destruct (inet4_addr_in data 12) as [s Es]; [lia..|]. rewrite (bind_ok _ _ _ Es).
    destruct (inet4_addr_in data 16) as [d Ed]; [lia..|]. rewrite (bind_ok _ _ _ Ed).
    eexists. split; [done|]. simpl. lia.
Qed.

(** C30. Finding the payload: [process_ipv4_ipv6] reads beyond the packet exactly for
    IPv4 packets whose header length field is not longer than the packet, the only
    check, and that have less than 10 bytes (the protocol is read), or less than 20
    and the protocol UDP; for every other packet it returns, without an
    exception (the walk over IPv6 extension headers ends inside the packet), and
    the offset it returns is at most eight bytes beyond the packet. *)
Theorem dump_over_reads data :
  len data < 2 ^ 31 ->
  (process_ipv4_ipv6 (len data) data = UB <-> short_ipv4 data) /\
  (~ short_ipv4 data -> exists r, process_ipv4_ipv6 (len data) data = Ok r /\
     found data r).
Proof.
  intros Hlen. unfold process_ipv4_ipv6, short_ipv4.
  destruct (Z.ltb_spec (len data) 1) as [Hl|Hl].
  { split; [split; [done|]|by eexists]. intros (first & E0 & _). by rewrite byte_at_out in E0 by lia. }
  destruct (byte_at_in data 0) as (first & E0 & H0); [lia|]. rewrite (bind_ok _ _ _ E0), E0. cbv zeta.
  destruct (Z.eqb_spec (Z.land first 240) 64) as [E4|E4].
  - destruct (process_ipv4_cases data first) as [[Hs ->]|(Hs & r & -> & Hr)]; [lia|..].
    + split; [split; [|done]; intros _; by exists first|]. intros []. by exists first.
    + split; [|by exists r]. split; [done|]. intros (f & [= <-] & _ & Hf). by destruct Hs.
  - assert (Hno : ~ exists f, Ok first = Ok f /\ Z.land f 240 = 64 /\ Z.land f 15 * 4 <= len data /\
      (len data < 10 \/ byte_at data 9 = Ok 17 /\ len data < 20)) by (intros (f & [= <-] & ? & _); done).
    destruct (Z.eqb_spec (Z.land first 240) 96); [|split; [split; [done|by intros ?%Hno]|by eexists]].
    destruct (process_ipv6_found data Hlen) as (r & -> & Hr).
    split; [split; [done|by intros ?%Hno]|by exists r].
Qed.

(** Dumping the payload: when the offset lies inside the captured bytes the
    packet is reported, with the segment parsed from exactly the rest of the
    bytes; when it lies beyond them, the length underflows and the dumper throws. *)
Theorem dump_payload dl_type pkt_data hdr_off off src dst :
  link_header dl_type pkt_data = Ok (Go (inr hdr_off)) -> 0 <= hdr_off <= len pkt_data ->
  process_ipv4_ipv6 (len pkt_data - hdr_off) (zdrop hdr_off pkt_data) = Ok (Some (off, src, dst)) ->
  0 <= off < 2 ^ 32 -> len pkt_data < 2 ^ 31 ->
  if len pkt_data <? hdr_off + off then
    handle_packet dl_type pkt_data = Throw (length_error "basic_string::_M_create")
  else exists res seg,
    TCPSegment.parse TCPSegment_default (Buffer_of (zdrop (hdr_off + off) pkt_data)) 0 = Ok (res, seg) /\
    handle_packet dl_type pkt_data = Ok (Go
      (if bool_decide (res = NoError \/ res = BadChecksum)
       then Segment src dst seg (bool_decide (res = NoError)) (len pkt_data - (hdr_off + off))
       else NoTCP src dst)).
Proof.
  intros El Hh Ep Hoff Hlen. unfold handle_packet. rewrite (bind_ok _ _ _ El), (bind_ok _ _ _ Ep). cbv zeta.
  unfold string_of_view. destruct (Z.ltb_spec (len pkt_data) (hdr_off + off)).
  - destruct (Z.gtb_spec (u64 (len pkt_data - (hdr_off + off))) (2 ^ 63 - 1)); [done|wrap_lia].
  - rewrite u64_small by lia. destruct (Z.gtb_spec (len pkt_data - (hdr_off + off)) (2 ^ 63 - 1)); [lia|].
    rewrite (bind_ok _ _ _ (read_rest pkt_data (hdr_off + off) ltac:(lia))).
    destruct (parse_returns (zdrop (hdr_off + off) pkt_data)) as (res & seg & E); [rewrite len_zdrop; lia|].
    exists res, seg. split; [done|]. rewrite (bind_ok _ _ _ E). by destruct res.
Qed.
End properties.

(** ** Sample packets *)

#[local] Instance demo_ntop : Ntop := fun _ _ => Some "host"%string.

(** The first byte of a raw capture of an IPv4 packet of 8 bytes with a header
    length field of 0. *)
Definition runt : list byte := replicate 8 Byte.x40.

Lemma dump_over_reads_witness :
  (process_ipv4_ipv6 (len runt) runt = UB <-> short_ipv4 runt) /\
  (~ short_ipv4 runt -> exists r, process_ipv4_ipv6 (len runt) runt = Ok r /\ found runt r).
Proof. apply (dump_over_reads runt). simpl. lia. Defined.

(** It does pass the check, so the dumper reads beyond it. *)
Lemma runt_over_read : handle_packet DLT_RAW runt = UB.
Proof. vm_compute. done. Qed.

(** An IPv6 packet with a UDP header cut after two bytes *)
Definition cut_udp : list byte :=
  [Byte.x60; Byte.x00; Byte.x00; Byte.x00; Byte.x00; Byte.x08; Byte.x11; Byte.x40] ++ replicate 34 Byte.x00.

Lemma dump_payload_witness :
  handle_packet DLT_RAW cut_udp = Throw (length_error "basic_string::_M_create").
Proof.
  apply (dump_payload DLT_RAW cut_udp 0 48 "host" "host"); try reflexivity; try (vm_compute; reflexivity);
    split; vm_compute; congruence.
Defined.

(** ** The option [-F]

    The usage text offers [-F <file>] for a file with the filter; there is no such
    option, and the filter expression itself begins with [-F]. *)
Lemma filter_grows args : forall f, exists rest, foldl (fun f a => (f +:+ a +:+ " ")%string) f args = (f +:+ rest)%string.
Proof.
  induction args as [|a args IH]; intros f.
  - exists ""%string. simpl. induction f as [|c f IH]; [done|exact (f_equal (String.String c) IH)].
  - destruct (IH (f +:+ a +:+ " ")%string) as [rest E]. exists ((a +:+ " ") +:+ rest)%string. simpl. rewrite E. clear.
    induction f as [|c f IH]; [done|exact (f_equal (String.String c) IH)].
Qed.

Theorem dump_knows_no_file_option program file rest :
  parse_arguments ("-F"%string :: file :: rest) 1 None = Go (1, None) /\
  exists more, filter_expression (program :: "-F"%string :: file :: rest) 1 = ("-F " +:+ more)%string.
Proof.
  split; [done|]. unfold filter_expression. change (zdrop 1 _) with ("-F"%string :: file :: rest). simpl.
  apply (filter_grows (file :: rest)).
Qed.
