(* ===== verification/CommandLine.v ===== *)
(** * Command lines of the front ends

    Model of the [get_config] of [apps/tcp_udp.cc] and of [apps/tcp_ipv4.cc]:
    options, then host and port.  [argv] is the list of the arguments with the
    name of the program first; reading past it is undefined.  The messages are not
    modelled; leaving with a message is [Leave]. *)

From S2P Require Import Prelude Buffer Address TCPConfig FdAdapter.
#[local] Open Scope string_scope.
#[local] Open Scope list_scope.
#[local] Open Scope Z_scope.

(** The C library's conversions of numbers; [float_to_u16] is the conversion to
    [uint16_t], undefined outside its range. *)
Class CLib := {
  strtol : string -> Z;
  float : Type;
  strtof : string -> float;
  float_of : Z -> float;
  float_mul : float -> float -> float;
  float_to_u16 : float -> option Z
}.

Section options.
  Context {clib : CLib}.

Definition argc (argv : list string) : Z := len argv.

(** [static_cast<uint16_t>(static_cast<float>(max) * lossrate)] *)
Definition loss_rate (arg : string) : outcome Z :=
  match float_to_u16 (float_mul (float_of 65535) (strtof arg)) with Some n => Ok n | None => UB end.

(** [check_argc] before an option with a value, and the value. *)
Definition with_value {A} (argv : list string) (curr : Z) (k : string -> outcome (A + flow A)) :
    outcome (A + flow A) :=
  if curr + 3 >=? argc argv then mret (inr (Leave 1))
  else v ← vec_get argv (curr + 1); k v.

Definition set_recv_capacity (n : Z) (c : TCPConfig) : TCPConfig :=
  mkTCPConfig (rt_timeout c) n (send_capacity c) (fixed_isn c).
Definition set_rt_timeout (n : Z) (c : TCPConfig) : TCPConfig :=
  mkTCPConfig n (recv_capacity c) (send_capacity c) (fixed_isn c).
Definition set_loss_rate_up (n : Z) (c : FdAdapterConfig) : FdAdapterConfig :=
  mkFdAdapterConfig (source c) (destination c) (loss_rate_dn c) n.
Definition set_loss_rate_dn (n : Z) (c : FdAdapterConfig) : FdAdapterConfig :=
  mkFdAdapterConfig (source c) (destination c) n (loss_rate_up c).

(** ** tcp_udp *)

Record udp_options := mkUdpOptions {
  u_curr : Z;
  u_listen : bool;
  u_fsm : TCPConfig;
  u_filt : FdAdapterConfig
}.

(** One round of the [while] loop of [get_config]. *)
Definition udp_option (argv : list string) (s : udp_options) : outcome (udp_options + flow udp_options) :=
  let '(mkUdpOptions curr listen c_fsm c_filt) := s in
  if argc argv - curr >? 2 then
    a ← vec_get argv curr;
    if String.eqb a "-l" then mret (inl (mkUdpOptions (curr + 1) true c_fsm c_filt))
    else if String.eqb a "-w" then
      with_value argv curr (fun v =>
        mret (inl (mkUdpOptions (curr + 2) listen (set_recv_capacity (u64 (strtol v)) c_fsm) c_filt)))
    else if String.eqb a "-t" then
      with_value argv curr (fun v =>
        mret (inl (mkUdpOptions (curr + 2) listen (set_rt_timeout (u16 (strtol v)) c_fsm) c_filt)))
    else if String.prefix "-Lu" a then
      with_value argv curr (fun v =>
        n ← loss_rate v; mret (inl (mkUdpOptions (curr + 2) listen c_fsm (set_loss_rate_up n c_filt))))
    else if String.prefix "-Ld" a then
      with_value argv curr (fun v =>
        n ← loss_rate v; mret (inl (mkUdpOptions (curr + 2) listen c_fsm (set_loss_rate_dn n c_filt))))
    else if String.eqb a "-h" then mret (inr (Leave 0))
    else mret (inr (Leave 1))
  else mret (inr (Go s)).

Definition udp_get_config {rs : Resolver} (argv : list string) :
    outcome (flow (TCPConfig * FdAdapterConfig * bool)) :=
  c_filt ← FdAdapterConfig_default;
  r ← while_ (udp_option argv) (mkUdpOptions 1 false TCPConfig_default c_filt);
  match r with
  | Leave code => mret (Leave code)
  | Go (mkUdpOptions _ listen c_fsm c_filt) =>
      if (listen : bool) then
        port ← vec_get argv (argc argv - 1);
        a ← of_names "0" port;
        mret (Go (c_fsm, set_source a c_filt, true))
      else
        host ← vec_get argv (argc argv - 2);
        port ← vec_get argv (argc argv - 1);
        a ← of_names host port;
        mret (Go (c_fsm, set_destination a c_filt, false))
  end.

(** ** tcp_ipv4 *)

Definition TUN_DFLT : string := "tun144".
Definition LOCAL_ADDRESS_DFLT : string := "169.254.144.9".

Record ipv4_options := mkIpv4Options {
  i_curr : Z;
  i_listen : bool;
  i_fsm : TCPConfig;
  i_filt : FdAdapterConfig;
  i_source_address : string;
  i_source_port : string;
  i_tundev : option string
}.

Definition ipv4_option (argv : list string) (s : ipv4_options) : outcome (ipv4_options + flow ipv4_options) :=
  let '(mkIpv4Options curr listen c_fsm c_filt sa sp tundev) := s in
  if argc argv - curr >? 2 then
    a ← vec_get argv curr;
    if String.eqb a "-l" then mret (inl (mkIpv4Options (curr + 1) true c_fsm c_filt sa sp tundev))
    else if String.eqb a "-a" then
      with_value argv curr (fun v => mret (inl (mkIpv4Options (curr + 2) listen c_fsm c_filt v sp tundev)))
    else if String.eqb a "-s" then
      with_value argv curr (fun v => mret (inl (mkIpv4Options (curr + 2) listen c_fsm c_filt sa v tundev)))
    else if String.eqb a "-w" then
      with_value argv curr (fun v => mret (inl (mkIpv4Options (curr + 2) listen
        (set_recv_capacity (u64 (strtol v)) c_fsm) c_filt sa sp tundev)))
    else if String.eqb a "-t" then
      with_value argv curr (fun v => mret (inl (mkIpv4Options (curr + 2) listen
        (set_rt_timeout (u16 (strtol v)) c_fsm) c_filt sa sp tundev)))
    else if String.eqb a "-d" then
      with_value argv curr (fun v => mret (inl (mkIpv4Options (curr + 2) listen c_fsm c_filt sa sp (Some v))))
    else if String.prefix "-Lu" a then
      with_value argv curr (fun v =>
        n ← loss_rate v;
        mret (inl (mkIpv4Options (curr + 2) listen c_fsm (set_loss_rate_up n c_filt) sa sp tundev)))
    else if String.prefix "-Ld" a then
      with_value argv curr (fun v =>
        n ← loss_rate v;
        mret (inl (mkIpv4Options (curr + 2) listen c_fsm (set_loss_rate_dn n c_filt) sa sp tundev)))
    else if String.eqb a "-h" then mret (inr (Leave 0))
    else mret (inr (Leave 1))
  else mret (inr (Go s)).

(** [random] is what [random_device] returns for the source port. *)
Definition ipv4_get_config {rs : Resolver} (argv : list string) (random : Z) :
    outcome (flow (TCPConfig * FdAdapterConfig * bool * option string)) :=
  c_filt ← FdAdapterConfig_default;
  r ← while_ (ipv4_option argv)
        (mkIpv4Options 1 false TCPConfig_default c_filt LOCAL_ADDRESS_DFLT (to_dec (u16 random)) None);
  match r with
  | Leave code => mret (Leave code)
  | Go (mkIpv4Options curr listen c_fsm c_filt source_address source_port tundev) =>
      if (listen : bool) then
        arg ← vec_get argv (curr + 1);
        a ← of_names "0" arg;
        let c_filt := set_source a c_filt in
        p ← port (source c_filt);
        if p =? 0 then mret (Leave 1) else mret (Go (c_fsm, c_filt, true, tundev))
      else
        host ← vec_get argv curr;
        arg ← vec_get argv (curr + 1);
        a ← of_names host arg;
        let c_filt := set_destination a c_filt in
        b ← of_names source_address source_port;
        mret (Go (c_fsm, set_source b c_filt, false, tundev))
  end.
End options.

(** ** Lemmas *)

(** The values of the loss options are numbers whose conversion is defined. *)
Definition losses_fit {clib : CLib} (argv : list string) : Prop :=
  forall i a v, vec_get argv i = Ok a -> String.prefix "-Lu" a || String.prefix "-Ld" a = true ->
    vec_get argv (i + 1) = Ok v -> exists n, loss_rate v = Ok n.

Section option_loop.
  Context {clib : CLib} {S : Type} (cursor : S -> Z) (argv : list string).

(** One round moves on, or leaves with an exit code or before the last two
    arguments. *)
Definition advances (s : S) (r : outcome (S + flow S)) : Prop :=
  match r with
  | Ok (inl s') => cursor s < cursor s' <= argc argv - 2
  | Ok (inr (Leave code)) => code = 0 \/ code = 1
  | Ok (inr (Go s')) => cursor s' = argc argv - 2
  | _ => False
  end.

Lemma with_value_advances s curr k :
  cursor s = curr -> 1 <= curr ->
  (curr + 3 < argc argv -> forall v, vec_get argv (curr + 1) = Ok v -> advances s (k v)) ->
  advances s (with_value argv curr k).
Proof.
  intros <- Hc Hk. unfold with_value, argc in *. case_bool; [by right|].
  destruct (vec_get_in argv (cursor s + 1)) as [v E]; [lia|]. rewrite E. cbn [mbind outcome_bind].
  apply Hk; [lia|done].
Qed.

Lemma option_loop_ends (body : S -> outcome (S + flow S)) s :
  len argv < 2 ^ 31 -> 1 <= cursor s <= argc argv - 2 ->
  (forall s, 1 <= cursor s <= argc argv - 2 -> advances s (body s)) ->
  exists r, while_ body s = Ok r /\
    match r with Leave code => code = 0 \/ code = 1 | Go s' => cursor s' = argc argv - 2 end.
Proof.
  intros Hl Hs Hb. unfold argc in *.
  apply (while_rule body (fun s => 1 <= cursor s <= len argv - 2) _ (fun s => len argv - cursor s));
    [|done|lia].
  intros s1 H1. specialize (Hb s1 H1). unfold advances, argc in Hb.
  destruct (body s1) as [[s2|[code|s2]]| |]; try done. lia.
Qed.
End option_loop.

Ltac option_step :=
  match goal with
  | |- advances _ _ _ (if _ then _ else _) => case_bool
  | |- advances _ _ _ (with_value _ _ _) => idtac
  end.

Lemma udp_option_advances {clib : CLib} argv s :
  losses_fit argv -> 1 <= u_curr s <= argc argv - 2 ->
  advances u_curr argv s (udp_option argv s).
Proof.
  intros Hloss Hc. destruct s as [curr listen c_fsm c_filt]. simpl in Hc. unfold udp_option.
  case_bool; [|unfold advances; simpl in *; lia].
  destruct (vec_get_in argv curr) as [a Ea]; [unfold argc in *; lia|].
  rewrite Ea. cbn [mbind outcome_bind].
  set (s := mkUdpOptions curr listen c_fsm c_filt).
  repeat option_step; try (by left); try (by right); try (unfold advances; simpl in *; lia);
    (apply (with_value_advances u_curr argv); [done|lia|]); intros Hv v Ev;
    try (destruct (Hloss curr a v Ea ltac:(apply orb_true_iff; tauto) Ev) as [n ->]); unfold advances; simpl; lia.
Qed.

Lemma ipv4_option_advances {clib : CLib} argv s :
  losses_fit argv -> 1 <= i_curr s <= argc argv - 2 ->
  advances i_curr argv s (ipv4_option argv s).
Proof.
  intros Hloss Hc. destruct s as [curr listen c_fsm c_filt sa sp dev]. simpl in Hc. unfold ipv4_option.
  case_bool; [|unfold advances; simpl in *; lia].
  destruct (vec_get_in argv curr) as [a Ea]; [unfold argc in *; lia|].
  rewrite Ea. cbn [mbind outcome_bind].
  set (s := mkIpv4Options curr listen c_fsm c_filt sa sp dev).
  repeat option_step; try (by left); try (by right); try (unfold advances; simpl in *; lia);
    (apply (with_value_advances i_curr argv); [done|lia|]); intros Hv v Ev;
    try (destruct (Hloss curr a v Ea ltac:(apply orb_true_iff; tauto) Ev) as [n ->]); unfold advances; simpl; lia.
Qed.

(** ** What the command line means *)

Lemma while_ends {A B} (body : A -> outcome (A + B)) (I : A -> Prop) (m : A -> Z) a b :
  (forall a, I a ->
     match body a with Ok (inl a') => I a' /\ 0 <= m a' < m a | Ok (inr b') => b' = b | _ => False end) ->
  I a -> m a < 2 ^ 64 -> while_ body a = Ok b.
Proof.
  intros Hb Ha Hm. by destruct (while_rule body I (fun b' => b' = b) m a Hb Ha Hm) as (b' & -> & ->).
Qed.

(** [drop_args argv i]: what is left of [argv] from argument [i] on *)
Definition drop_args (argv : list string) (i : Z) : list string := zdrop i argv.

Lemma drop_args_get argv i a rest :
  0 <= i -> drop_args argv i = a :: rest -> vec_get argv i = Ok a.
Proof.
  intros Hi E. apply vec_get_ok; [done|]. replace (Z.to_nat i) with (Z.to_nat i + 0)%nat by lia.
  rewrite <- lookup_drop. unfold drop_args, zdrop in E. by rewrite E.
Qed.

Lemma drop_args_next argv i a rest :
  0 <= i -> drop_args argv i = a :: rest -> drop_args argv (i + 1) = rest.
Proof.
  unfold drop_args. intros Hi E. rewrite <- zdrop_zdrop by lia.
  rewrite E. by change 1 with (Z.of_nat 1).
Qed.

Lemma drop_args_len argv i : 0 <= i <= argc argv -> len (drop_args argv i) = argc argv - i.
Proof. unfold drop_args, argc. intros. rewrite len_zdrop; lia. Qed.

Section option_list.
  Context {S O : Type} (cursor : S -> Z) (show : O -> list string) (apply_option : O -> S -> S).
  Context (argv : list string) (body : S -> outcome (S + flow S)) (good : O -> Prop).
  Context (Hopt : forall s o rest, 1 <= cursor s -> good o -> 2 <= len rest ->
    drop_args argv (cursor s) = show o ++ rest -> body s = Ok (inl (apply_option o s))).
  Context (Hcur : forall s o, cursor (apply_option o s) = cursor s + len (show o)).
  Context (Hshow : forall o, 0 < len (show o)).
  Context (Hend : forall s, argc argv - cursor s = 2 -> body s = Ok (inr (Go s))).

Lemma options_read opts host port s :
  len argv < 2 ^ 31 -> 1 <= cursor s <= len argv -> Forall good opts ->
  drop_args argv (cursor s) = concat (map show opts) ++ [host; port] ->
  while_ body s = Ok (Go (fold_left (fun s o => apply_option o s) opts s)).
Proof.
  intros Hl Hs Hg Hd.
  apply (while_ends body (fun s' => exists opts', 1 <= cursor s' <= len argv /\ Forall good opts' /\
    drop_args argv (cursor s') = concat (map show opts') ++ [host; port] /\
    fold_left (fun s o => apply_option o s) opts' s' = fold_left (fun s o => apply_option o s) opts s)
    (fun s' => len argv - cursor s')); [|by exists opts|lia].
  clear Hs Hg Hd. intros s1 (opts' & Hs & Hg & Hd & Ef).
  assert (Hn := drop_args_len argv (cursor s1) ltac:(unfold argc; lia)). unfold argc in Hn.
  destruct opts' as [|o opts'].
  - rewrite Hend; [by rewrite <- Ef|]. rewrite Hd in Hn. unfold argc. simpl in Hn. lia.
  - apply Forall_cons in Hg as [Hgo Hg]. simpl in Hd. rewrite <- app_assoc in Hd.
    assert (Hr : 2 <= len (concat (map show opts') ++ [host; port])) by (rewrite length_app; simpl; lia).
    rewrite (Hopt s1 o _ ltac:(lia) Hgo Hr Hd). rewrite Hd, length_app in Hn. specialize (Hshow o).
    split; [|rewrite Hcur; lia]. exists opts'. rewrite Hcur. split; [lia|]. split; [done|].
    split; [|done]. unfold drop_args in *. rewrite <- zdrop_zdrop, Hd by lia. unfold zdrop.
    rewrite Nat2Z.id. by rewrite drop_app_length.
Qed.
End option_list.

(** The options of the two programs, how they are written and what they do; the
    loss rates end in the [float] conversions. *)
Inductive cli_option :=
  | Listen
  | SourceAddress (a : string)
  | SourcePort (p : string)
  | Window (w : string)
  | Timeout (t : string)
  | Device (d : string)
  | LossUp (l : string)
  | LossDown (l : string).

Definition show_option (o : cli_option) : list string :=
  match o with
  | Listen => ["-l"]
  | SourceAddress a => ["-a"; a]
  | SourcePort p => ["-s"; p]
  | Window w => ["-w"; w]
  | Timeout t => ["-t"; t]
  | Device d => ["-d"; d]
  | LossUp l => ["-Lu"; l]
  | LossDown l => ["-Ld"; l]
  end.

(** Host and port after the options: the cursor is on the host, and in listening
    mode the host is not looked at. *)
Section command_lines.
  Context {clib : CLib} {rs : Resolver}.

Definition loss (l : string) : Z := match loss_rate l with Ok n => n | _ => 0 end.

(** A loss rate whose product fits into 16 bits *)
Definition option_good (o : cli_option) : Prop :=
  match o with
  | LossUp l | LossDown l => exists n, loss_rate l = Ok n
  | _ => True
  end.

Definition udp_knows (o : cli_option) : Prop :=
  match o with SourceAddress _ | SourcePort _ | Device _ => False | _ => True end.

Definition fsm_option (o : cli_option) (c : TCPConfig) : TCPConfig :=
  match o with
  | Window w => set_recv_capacity (u64 (strtol w)) c
  | Timeout t => set_rt_timeout (u16 (strtol t)) c
  | _ => c
  end.

Definition filt_option (o : cli_option) (c : FdAdapterConfig) : FdAdapterConfig :=
  match o with
  | LossUp l => set_loss_rate_up (loss l) c
  | LossDown l => set_loss_rate_dn (loss l) c
  | _ => c
  end.

Definition apply_udp (o : cli_option) (s : udp_options) : udp_options :=
  mkUdpOptions (u_curr s + len (show_option o)) (match o with Listen => true | _ => u_listen s end)
    (fsm_option o (u_fsm s)) (filt_option o (u_filt s)).

Definition apply_ipv4 (o : cli_option) (s : ipv4_options) : ipv4_options :=
  mkIpv4Options (i_curr s + len (show_option o)) (match o with Listen => true | _ => i_listen s end)
    (fsm_option o (i_fsm s)) (filt_option o (i_filt s))
    (match o with SourceAddress a => a | _ => i_source_address s end)
    (match o with SourcePort p => p | _ => i_source_port s end)
    (match o with Device d => Some d | _ => i_tundev s end).

Lemma show_option_len o : 0 < len (show_option o).
Proof. by destruct o. Qed.

Lemma with_value_shown {A} argv curr a v rest (k : string -> outcome (A + flow A)) :
  1 <= curr -> 2 <= len rest -> drop_args argv curr = a :: v :: rest ->
  with_value argv curr k = k v.
Proof.
  intros Hc Hr E. assert (Hn : curr + 3 < argc argv).
  { apply (f_equal length) in E. unfold drop_args, zdrop in E. rewrite length_drop in E. simpl in E.
    unfold argc. lia. }
  unfold with_value. case_bool; [lia|].
  rewrite (drop_args_get argv (curr + 1) v rest); [done|lia|]. by eapply drop_args_next; [lia|].
Qed.

Lemma more_options argv curr a rest :
  1 <= curr -> 2 <= len rest -> drop_args argv curr = a :: rest -> (argc argv - curr >? 2) = true.
Proof.
  intros Hc Hr E. apply (f_equal length) in E. unfold drop_args, zdrop in E.
  rewrite length_drop in E. simpl in E. unfold argc. lia.
Qed.

Lemma loss_rate_loss l : (exists n, loss_rate l = Ok n) -> loss_rate l = Ok (loss l).
Proof. intros [n E]. unfold loss. by rewrite E. Qed.

(** The first argument selects the branch, [with_value_shown] its value. *)
Ltac decide_names :=
  repeat match goal with
  | |- context [String.eqb ?a ?b] =>
      let v := eval vm_compute in (String.eqb a b) in change (String.eqb a b) with v
  | |- context [String.prefix ?a ?b] =>
      let v := eval vm_compute in (String.prefix a b) in change (String.prefix a b) with v
  end; cbv iota.

Ltac shown_option :=
  match goal with
  | Hd : drop_args ?argv ?curr = _ :: ?rest, Hr : 2 <= _ |- _ =>
      rewrite (more_options argv curr _ rest) by (done || (simpl in *; lia));
      rewrite (drop_args_get argv curr _ rest) by (done || lia);
      cbn [mbind outcome_bind]; decide_names;
      try (erewrite with_value_shown by (done || (simpl in *; lia)))
  end.

Lemma udp_option_shown argv s o rest :
  1 <= u_curr s -> option_good o /\ udp_knows o -> 2 <= len rest ->
  drop_args argv (u_curr s) = show_option o ++ rest ->
  udp_option argv s = Ok (inl (apply_udp o s)).
Proof.
  destruct s as [curr listen c_fsm c_filt]. cbn [u_curr]. intros Hc [Hg Hk] Hr Hd. unfold udp_option.
  destruct o; try done; simpl in Hd; shown_option; try rewrite (loss_rate_loss _ Hg); done.
Qed.

Lemma ipv4_option_shown argv s o rest :
  1 <= i_curr s -> option_good o -> 2 <= len rest ->
  drop_args argv (i_curr s) = show_option o ++ rest ->
  ipv4_option argv s = Ok (inl (apply_ipv4 o s)).
Proof.
  destruct s as [curr listen c_fsm c_filt sa sp dev]. cbn [i_curr]. intros Hc Hg Hr Hd.
  unfold ipv4_option.
  destruct o; try done; simpl in Hd; shown_option; try rewrite (loss_rate_loss _ Hg); done.
Qed.

Lemma udp_loop_end argv s : argc argv - u_curr s = 2 -> udp_option argv s = Ok (inr (Go s)).
Proof. destruct s as [curr ? ? ?]. cbn [u_curr]. intros E. unfold udp_option. by rewrite E. Qed.

Lemma ipv4_loop_end argv s : argc argv - i_curr s = 2 -> ipv4_option argv s = Ok (inr (Go s)).
Proof. destruct s as [curr ? ? ? ? ? ?]. cbn [i_curr]. intros E. unfold ipv4_option. by rewrite E. Qed.

(** The last two arguments *)
Lemma operands argv front host port :
  argv = front ++ [host; port] ->
  vec_get argv (argc argv - 2) = Ok host /\ vec_get argv (argc argv - 1) = Ok port.
Proof.
  intros ->. unfold argc. rewrite length_app. simpl.
  split; (apply vec_get_ok; [lia|]).
  - rewrite lookup_app_r by lia. by replace (_ - _)%nat with 0%nat by lia.
  - rewrite lookup_app_r by lia. by replace (_ - _)%nat with 1%nat by lia.
Qed.

Lemma apply_ipv4_cursor opts s argv host port :
  drop_args argv (i_curr s) = concat (map show_option opts) ++ [host; port] -> 1 <= i_curr s <= argc argv ->
  i_curr (fold_left (fun s o => apply_ipv4 o s) opts s) = argc argv - 2.
Proof.
  revert s. induction opts as [|o opts IH]; intros s Hd Hs.
  - assert (Hn := drop_args_len argv (i_curr s) ltac:(lia)). rewrite Hd in Hn. simpl in *. lia.
  - simpl. simpl in Hd. rewrite <- app_assoc in Hd.
    assert (Hn := drop_args_len argv (i_curr s) ltac:(lia)). rewrite Hd, length_app in Hn.
    apply IH; [|simpl; lia]. simpl. unfold drop_args in *. rewrite <- zdrop_zdrop, Hd by lia.
    unfold zdrop. rewrite Nat2Z.id. by rewrite drop_app_length.
Qed.

(** What [get_config] makes of well-formed command lines *)
Definition udp_meaning (opts : list cli_option) (c_filt : FdAdapterConfig) : udp_options :=
  fold_left (fun s o => apply_udp o s) opts (mkUdpOptions 1 false TCPConfig_default c_filt).

Definition ipv4_meaning (opts : list cli_option) (c_filt : FdAdapterConfig) (random : Z) : ipv4_options :=
  fold_left (fun s o => apply_ipv4 o s) opts
    (mkIpv4Options 1 false TCPConfig_default c_filt LOCAL_ADDRESS_DFLT (to_dec (u16 random)) None).

Definition command_line (program : string) (opts : list cli_option) (host port : string) : list string :=
  program :: concat (map show_option opts) ++ [host; port].

Lemma udp_options_read program opts host service c_filt :
  let argv := command_line program opts host service in
  len argv < 2 ^ 31 -> Forall (fun o => option_good o /\ udp_knows o) opts ->
  while_ (udp_option argv) (mkUdpOptions 1 false TCPConfig_default c_filt) = Ok (Go (udp_meaning opts c_filt)).
Proof.
  intros argv Hl Hg. apply (options_read u_curr show_option apply_udp argv (udp_option argv)
    (fun o => option_good o /\ udp_knows o) ltac:(by apply udp_option_shown) ltac:(done) show_option_len
    (udp_loop_end argv) opts host service); [done| |done|done].
  subst argv. simpl. rewrite length_app. simpl. lia.
Qed.

Lemma ipv4_options_read program opts host service c_filt random :
  let argv := command_line program opts host service in
  len argv < 2 ^ 31 -> Forall option_good opts ->
  while_ (ipv4_option argv)
    (mkIpv4Options 1 false TCPConfig_default c_filt LOCAL_ADDRESS_DFLT (to_dec (u16 random)) None) =
    Ok (Go (ipv4_meaning opts c_filt random)).
Proof.
  intros argv Hl Hg. apply (options_read i_curr show_option apply_ipv4 argv (ipv4_option argv)
    option_good ltac:(by apply ipv4_option_shown) ltac:(done) show_option_len
    (ipv4_loop_end argv) opts host service); [done| |done|done].
  subst argv. simpl. rewrite length_app. simpl. lia.
Qed.

(** A command line made of options and host and port is read back as those
    options: every option takes effect, the later one of two wins, and the
    address is made of host and port. *)
Theorem udp_command_line_read program opts host service c_filt :
  len (command_line program opts host service) < 2 ^ 31 ->
  Forall (fun o => option_good o /\ udp_knows o) opts -> FdAdapterConfig_default = Ok c_filt ->
  udp_get_config (command_line program opts host service) =
    (let s := udp_meaning opts c_filt in
     a ← of_names (if u_listen s then "0" else host) service;
     Ok (Go (u_fsm s, (if u_listen s then set_source a (u_filt s) else set_destination a (u_filt s)), u_listen s))).
Proof.
  intros Hl Hg Hd. set (argv := command_line program opts host service) in *.
  destruct (operands argv (program :: concat (map show_option opts)) host service eq_refl) as [Eh Es].
  unfold udp_get_config.
  rewrite (bind_ok _ _ _ Hd), (bind_ok _ _ _ (udp_options_read program opts host service c_filt Hl Hg)).
  destruct (udp_meaning opts c_filt) as [curr [] c_fsm c_f]; cbn [u_listen u_fsm u_filt];
    rewrite ?Eh, Es; done.
Qed.


(** Whatever the arguments, [get_config] reads no argument that does not
    exist and its loop ends: it leaves with 0 or 1, throws, or returns a
    configuration whose address is that of the last two arguments. *)
Theorem ipv4_command_line_safe front host service random :
  let argv := front ++ [host; service] in
  0 < len front -> len argv < 2 ^ 31 -> losses_fit argv ->
  (exists c_filt, FdAdapterConfig_default = Ok c_filt) ->
  sound (ipv4_get_config argv random) (fun r =>
    match r with
    | Leave code => code = 0 \/ code = 1
    | Go (_, c_filt, listen, _) =>
        if (listen : bool) then of_names "0" service = Ok (source c_filt) /\ port (source c_filt) <> Ok 0
        else of_names host service = Ok (destination c_filt)
    end).
Proof.
  intros argv Hf Hl Hloss [c_filt Hd]. destruct (operands argv front host service eq_refl) as [Eh Es].
  assert (Hn : argc argv = len front + 2) by (unfold argc, argv; rewrite length_app; simpl; lia).
  unfold ipv4_get_config. rewrite (bind_ok _ _ _ Hd).
  destruct (option_loop_ends i_curr argv (ipv4_option argv)
    (mkIpv4Options 1 false TCPConfig_default c_filt LOCAL_ADDRESS_DFLT (to_dec (u16 random)) None) Hl
    ltac:(cbn [i_curr]; lia) (fun s => ipv4_option_advances argv s Hloss)) as (r & E & Hr).
  rewrite (bind_ok _ _ _ E). destruct r as [code|s]; [done|].
  destruct s as [curr [] c_fsm c_f sa sp dev]; cbn [i_curr] in Hr; subst curr;
    replace (argc argv - 2 + 1) with (argc argv - 1) by lia; rewrite ?Eh, Es; cbn [mbind outcome_bind].
  - eapply sound_bind; [apply of_names_sound|]. intros a Ha. cbn [source set_source].
    pose proof (port_sound a) as Hp. destruct (port a) as [p| |] eqn:Ep; [|done..].
    cbn [mbind outcome_bind]. case_cmp; [by right|]. split; [done|]. cbn [source set_source]. congruence.
  - eapply sound_bind; [apply of_names_sound|]. intros a Ha.
    eapply sound_bind; [apply of_names_sound|]. intros b Hb. done.
Qed.
End command_lines.

(** ** Examples

    Whole numbers for [float]. *)
#[local] Instance whole_numbers : CLib := {|
  strtol s := digits s 0;
  float := Z;
  strtof s := digits s 0;
  float_of n := n;
  float_mul := Z.mul;
  float_to_u16 n := if (0 <=? n) && (n <? 2 ^ 16) then Some n else None
|}.
#[local] Existing Instance numeric_resolver.

Definition sample_options : list cli_option := [Window "4096"; Listen; LossUp "1"; Window "100"].

Example sample_udp_options :
  match FdAdapterConfig_default with
  | Ok c_filt => let s := udp_meaning sample_options c_filt in
      u_listen s = true /\ recv_capacity (u_fsm s) = 100 /\ loss_rate_up (u_filt s) = 65535
  | _ => False
  end.
Proof. by vm_compute. Qed.

Lemma sample_options_good : Forall (fun o => option_good o /\ udp_knows o) sample_options.
Proof. repeat constructor. by exists 65535. Qed.

Lemma udp_command_line_read_witness :
  exists c_filt,
    udp_get_config (command_line "tcp_udp" sample_options "0" "1440") =
      (let s := udp_meaning sample_options c_filt in
       a ← of_names (if u_listen s then "0" else "0") "1440";
       Ok (Go (u_fsm s, (if u_listen s then set_source a (u_filt s) else set_destination a (u_filt s)), u_listen s))).
Proof.
  eexists. apply (udp_command_line_read "tcp_udp" sample_options "0" "1440");
    [done|apply sample_options_good|by vm_compute].
Defined.

Definition sample_ipv4_options : list cli_option := [SourceAddress "17"; Device "tun7"; SourcePort "99"].


Lemma ipv4_command_line_safe_witness :
  sound (ipv4_get_config ["tcp_ipv4"; "-w"; "12"; "5"; "1440"] 7) (fun r =>
    match r with
    | Leave code => code = 0 \/ code = 1
    | Go (_, c_filt, listen, _) =>
        if (listen : bool) then of_names "0" "1440" = Ok (source c_filt) /\ port (source c_filt) <> Ok 0
        else of_names "5" "1440" = Ok (destination c_filt)
    end).
Proof.
  apply (ipv4_command_line_safe ["tcp_ipv4"; "-w"; "12"] "5" "1440" 7); [done|done| |].
  - intros i a v Ea Ep Ev. exfalso. unfold vec_get in Ea. case_bool; [|done].
    destruct (Z.to_nat i) as [|[|[|[|[|n]]]]]; simplify_eq/=.
  - eexists. by vm_compute.
Defined.
