(* ===== verification/Programs.v ===== *)
(** * Small programs

    Model of [apps/tcp_native.cc], the copy between the terminal and a socket of the
    kernel, and of [apps/tun.cc], which prints what arrives on a TUN device. *)

From S2P Require Import Prelude Buffer Parser Address FileDescriptor TCPHeader TCPSegment.
From S2P Require Import InternetChecksum IPv4Header IPv4Datagram FdAdapter Socket StreamCopy CommandLine.
#[local] Open Scope string_scope.
#[local] Open Scope list_scope.
#[local] Open Scope Z_scope.

(** ** tcp_native *)

Section native.
  Context {calls : Kernel} {rs : Resolver}.

(** The lambda that makes the socket, after the check of the arguments *)
Definition native_socket (argv : list string) : outcome (flow FDWrapper) :=
  if argc argv <? 3 then mret (Leave 1)
  else
    first ← vec_get argv 1;
    let server_mode := String.eqb first "-l" in
    if server_mode && (argc argv <? 4) then mret (Leave 1)
    else if server_mode then
      listening_socket ← TCPSocket_new;
      _ ← set_reuseaddr listening_socket;
      host ← vec_get argv 2;
      service ← vec_get argv 3;
      a ← of_names host service;
      _ ← bind listening_socket a;
      _ ← Socket.listen listening_socket 16;
      '(_, socket) ← accept listening_socket;
      mret (Go socket)
    else
      connecting_socket ← TCPSocket_new;
      host ← vec_get argv 1;
      service ← vec_get argv 2;
      a ← of_names host service;
      _ ← Socket.connect connecting_socket a;
      mret (Go connecting_socket).

(** The exit code, or [None] while the copy goes on. *)
Definition native_main {K : Type} {io : CopyIO K} (argv : list string) (k : K) (rounds : list (round (K := K))) :
    outcome (option Z) :=
  let body :=
    r ← native_socket argv;
    match r with
    | Leave code => mret (Some code)
    | Go socket =>
        '(_, _, returned) ← bidirectional_stream_copy socket k rounds;
        mret (if (returned : bool) then Some 0 else None)
    end in
  match body with Throw _ => Ok (Some 1) | r => r end.
End native.

(** ** tun *)

(** What is printed for one packet *)
Inductive tun_report :=
  | NotIPv4
  | NotTCP (h : IPv4Header)
  | BadSegment (h : IPv4Header)
  | TCPPacket (h : IPv4Header) (tcp_seg : TCPSegment).

Definition tun_packet (buffer : list byte) : outcome tun_report :=
  '(res, ip_dgram) ← IPv4Datagram.parse IPv4Datagram_default (Buffer_of buffer);
  let h := _header ip_dgram in
  if negb (bool_decide (res = NoError)) then mret NotIPv4
  else if negb (proto h =? PROTO_TCP) then mret (NotTCP h)
  else
    b ← BufferList_to_Buffer (_payload ip_dgram);
    '(res, tcp_seg) ← TCPSegment.parse TCPSegment_default b (pseudo_cksum h);
    if negb (bool_decide (res = NoError)) then mret (BadSegment h) else mret (TCPPacket h tcp_seg).


(** The loop over what the device answers; [Some 1] is the exit code after an
    exception, [None] means that the loop goes on. *)
Fixpoint tun_loop (tun : FDWrapper) (answers : list (Z + list byte)) : outcome (list tun_report * option Z) :=
  match answers with
  | [] => mret ([], None)
  | sys :: answers =>
      match ('(tun, buffer) ← FileDescriptor.read tun (2 ^ 64 - 1) sys; r ← tun_packet buffer; mret (tun, r)) with
      | Ok (tun, r) => '(rs, code) ← tun_loop tun answers; mret (r :: rs, code)
      | Throw _ => mret ([], Some 1)
      | UB => UB
      end
  end.

Definition tun_main {calls : Kernel} (answers : list (Z + list byte)) : outcome (list tun_report * option Z) :=
  match TunFD_new (String.list_byte_of_string "tun144") with
  | Ok tun => tun_loop tun answers
  | Throw _ => mret ([], Some 1)
  | UB => UB
  end.

(** ** What is printed of a packet *)

(** What a report says of the packet *)
Definition is_datagram (bytes : list byte) (h : IPv4Header) (pl : Buffer) : Prop :=
  IPv4Datagram.parse IPv4Datagram_default (Buffer_of bytes) = Ok (NoError, mkIPv4Datagram h [pl]).

Definition report_right (bytes : list byte) (r : tun_report) : Prop :=
  match r with
  | NotIPv4 => forall d, IPv4Datagram.parse IPv4Datagram_default (Buffer_of bytes) <> Ok (NoError, d)
  | NotTCP h => proto h <> PROTO_TCP /\ exists pl, is_datagram bytes h pl
  | BadSegment h => proto h = PROTO_TCP /\ exists pl, is_datagram bytes h pl /\
      forall seg, TCPSegment.parse TCPSegment_default pl (pseudo_cksum h) <> Ok (NoError, seg)
  | TCPPacket h seg => proto h = PROTO_TCP /\ TCPHeader.header_valid (header seg) /\ exists pl,
      is_datagram bytes h pl /\ TCPSegment.parse TCPSegment_default pl (pseudo_cksum h) = Ok (NoError, seg) /\
      InternetChecksum.value (add (new (pseudo_cksum h)) (str pl)) = 0
  end.

Lemma tun_packet_right bytes : len bytes < 2 ^ 63 -> returns (tun_packet bytes) (report_right bytes).
Proof.
  intros Hb. unfold tun_packet.
  destruct (datagram_parse_in_range IPv4Datagram_default (Buffer_of bytes))
    as (res & h & pl & E & Hh & Hpl); [by apply Buffer_of_ok|apply ipv4_default_valid|].
  rewrite E. cbn [mbind outcome_bind IPv4Datagram._header IPv4Datagram._payload].
  case_bool_decide as Hres; cbn [negb]; [|apply returns_ok; intros d; rewrite E; congruence]. subst res.
  case_cmp; cbn [negb]; [|apply returns_ok; split; [done|by exists pl]].
  change (BufferList_to_Buffer [pl]) with (Ok pl). cbn [mbind outcome_bind].
  destruct (parse_segment_in_range TCPSegment_default pl (pseudo_cksum h)) as (res & seg & Es & Hv & Hck);
    [done|apply header_default_valid|].
  rewrite Es. cbn [mbind outcome_bind]. case_bool_decide as Hres; cbn [negb]; apply returns_ok.
  - subst res. split_and!; [done..|]. exists pl. auto.
  - split; [done|]. exists pl. split; [done|]. intros seg'. rewrite Es. congruence.
Qed.

(** Whatever packets the device delivers, the loop prints them all, in the
    order of their arrival, without an exception, and every report is right: a
    packet is taken for a segment exactly when the datagram parses, the protocol is
    TCP and the payload parses, which means that the checksum over pseudo header
    and payload is right; the fields printed are within their widths. *)
Theorem tun_packets_printed tun ds :
  Forall (fun d => len d <= BUFFER_SIZE) ds ->
  exists rs, tun_loop tun (map inr ds) = Ok (rs, None) /\ Forall2 report_right ds rs.
Proof.
  intros H. revert tun. induction H as [|d ds Hd _ IH]; intros tun; [by exists []|].
  destruct (tun_packet_right d) as (r & Er & Hr); [unfold BUFFER_SIZE in *; lia|].
  assert (E : exists tun', FileDescriptor.read tun (2 ^ 64 - 1) (inr d) = Ok (tun', d)).
  { unfold FileDescriptor.read, SystemCall, BUFFER_SIZE in *. rewrite Z.geb_leb, (proj2 (Z.leb_le 0 _)) by lia.
    cbn [orb mbind outcome_bind mret outcome_ret]. rewrite Z.gtb_ltb, (proj2 (Z.ltb_ge _ _)) by lia. by eexists. }
  destruct E as [tun' E], (IH tun') as (rs & Es & Hrs). exists (r :: rs). split; [|by constructor].
  cbn [map tun_loop]. rewrite (bind_ok _ _ _ E). cbv beta iota. rewrite Er. cbn [mbind outcome_bind mret outcome_ret].
  by rewrite (bind_ok _ _ _ Es).
Qed.

Lemma tun_packets_printed_witness :
  exists rs, tun_loop (mkFDWrapper 3 false false 0 0) (map inr [syn_bytes; []]) = Ok (rs, None) /\
    Forall2 report_right [syn_bytes; []] rs.
Proof.
  apply tun_packets_printed. by repeat constructor; vm_compute.
Defined.

Example syn_is_printed :
  match tun_packet syn_bytes with Ok (TCPPacket _ seg) => syn (header seg) = true | _ => False end.
Proof. by vm_compute. Qed.
