(* ===== verification/Webget.v ===== *)
(** * A client of the web

    Model of [get_URL] of [apps/webget.cc]: two requests, each on a socket of its
    own, and everything the server answers is printed. *)

From S2P Require Import Prelude Buffer Address FileDescriptor Socket StreamCopy.
#[local] Open Scope string_scope.
#[local] Open Scope list_scope.
#[local] Open Scope Z_scope.

(** ** webget *)

Class WebIO (K : Type) := {
  web_read : K -> Z -> (Z + list byte) * K;
  web_writev : K -> BufferViewList -> (Z + Z) * K;
  web_close : K -> (Z + Z) * K
}.

Definition bytes_of (s : string) : list byte := String.list_byte_of_string s.
Definition crlf : string := String (Ascii.ascii_of_nat 13) (String (Ascii.ascii_of_nat 10) EmptyString).

Section webget.
  Context {K : Type} {web : WebIO K}.

(** [socket.write(s)] for each string *)
Fixpoint write_strings (d : FDWrapper) (k : K) (ss : list string) : outcome (FDWrapper * K) :=
  match ss with
  | [] => mret (d, k)
  | s :: ss => '(d, k, _) ← FileDescriptor.write web_writev d k [bytes_of s] true; write_strings d k ss
  end.

Definition page_state : Type := FDWrapper * K * list byte.

(** One round of the [while (true)] loop; the last component is what was printed. *)
Definition read_page_body (s : page_state) : outcome (page_state + page_state) :=
  let '(d, k, out) := s in
  let '(sys, k) := web_read k BUFFER_SIZE in
  '(d, str) ← FileDescriptor.read d (2 ^ 64 - 1) sys;
  if _eof d then
    let '(sys, k) := web_close k in
    d ← close_answer d sys;
    mret (inr (d, k, out))
  else mret (inl (d, k, out ++ str)).

(** A request on a fresh connection and everything the server answers *)
Definition fetch {calls : Kernel} {rs : Resolver} (host : string) (request : list string) (k : K)
    (out : list byte) : outcome page_state :=
  socket ← TCPSocket_new;
  address ← of_names host "http";
  _ ← Socket.connect socket address;
  '(d, k) ← write_strings socket k request;
  while_ read_page_body (d, k, out).

Definition first_request (path : string) : list string :=
  [crlf; "GET "; path; " HTTP/1.1" +:+ crlf;
   "User-Agent: Mozilla/5.0 (Windows NT 10.0; Win64; x64) AppleWebKit/537.36 (KHTML, like Gecko) Chrome/99.0.4844.51 Safari/537.36 Edg/99.0.1150.30" +:+ crlf;
   "Host: cs144.keithw.org" +:+ crlf; "Connection: close" +:+ crlf +:+ crlf; crlf].

Definition second_request (path : string) : list string :=
  [crlf; "GET "; path; " HTTP/1.1" +:+ crlf; "Host: cs144.keithw.org" +:+ crlf;
   "Connection: close" +:+ crlf +:+ crlf; crlf].

(** The kernel afterwards and what was printed; each connection has the answers
    of the kernel for itself. *)
Definition get_URL {rs : Resolver} (calls calls_connect : Kernel) (host path : string) (k : K) :
    outcome (K * list byte) :=
  '(_, k, out) ← fetch (calls := calls) host (first_request path) k [];
  '(_, k, out) ← fetch (calls := calls_connect) host (second_request path) k out;
  mret (k, out).

(** The exit code of [main]; without even a name of the program it calls [abort]. *)
Definition main {rs : Resolver} (calls calls_connect : Kernel) (argv : list string) (k : K) : outcome (option Z) :=
  match argv with
  | [] => mret None
  | [_; host; path] =>
      match get_URL calls calls_connect host path k with
      | Ok _ => mret (Some 0)
      | Throw _ => mret (Some 1)
      | UB => UB
      end
  | _ => mret (Some 1)
  end.
End webget.

(** ** What is sent and what is printed *)

(** What the system calls promise *)
Class WebIOOk (K : Type) `{WebIO K} (sent received : K -> list byte) := {
  #[global] web_sent_ok :: WritevOk web_writev sent;
  web_writev_received k vs sys k' : web_writev k vs = (sys, k') -> received k' = received k;
  web_read_ok k n sys k' : 0 < n -> web_read k n = (sys, k') -> sent k' = sent k /\
    match sys with
    | inl errno => 0 < errno
    | inr data => len data <= n /\ received k' = received k ++ data
    end;
  web_close_ok k sys k' : web_close k = (sys, k') -> sent k' = sent k /\ received k' = received k
}.

(** The server sooner or later ends what it says: [left] bounds the answers that
    are still to come. *)
Definition server_ends {K : Type} `{WebIO K} (left : K -> Z) : Prop :=
  (forall k, 0 <= left k < 2 ^ 63) /\
  (forall k n data k', web_read k n = (inr data, k') -> data <> [] -> left k' < left k).

Section webget_properties.
  Context {K : Type} {web : WebIO K} (sent received : K -> list byte).
  Context {web_ok : WebIOOk K sent received}.

Definition request_bytes (ss : list string) : list byte := concat (map bytes_of ss).

(** The write loop leaves what was received and the end of file alone. *)
Lemma write_received d k vs :
  sat (FileDescriptor.write web_writev d k vs true) (fun '(d', k', _) =>
    received k' = received k /\ _eof d' = _eof d).
Proof.
  unfold FileDescriptor.write.
  apply (while_sat _ (fun s => received (ws_kernel s) = received k /\ _eof (ws_wrapper s) = _eof d)); [|done].
  intros s [Hs Hd]. unfold write_body. destruct (web_writev _ _) as [sys k1] eqn:E.
  apply web_writev_received in E. rewrite Hs in E.
  eapply sat_bind; [by instantiate (1 := fun _ => True)|]. intros n _.
  case_bool; [done|]. case_bool; [done|].
  eapply sat_bind; [by instantiate (1 := fun _ => True)|]. intros b _.
  case_bool; by apply sat_ok.
Qed.

Lemma write_strings_ok ss d k :
  Forall (fun s => len (bytes_of s) < 2 ^ 63) ss ->
  sound (write_strings d k ss) (fun '(d', k') =>
    sent k' = sent k ++ request_bytes ss /\ received k' = received k /\ _eof d' = _eof d).
Proof.
  intros H. revert d k. induction H as [|s ss Hs _ IH]; intros d k.
  { simpl. by rewrite app_nil_r. }
  cbn [write_strings].
  eapply (sound_bind _ _ (fun '(d', k', _) =>
    sent k' = sent k ++ bytes_of s /\ received k' = received k /\ _eof d' = _eof d)).
  - pose proof (fd_write_all web_writev sent d k [bytes_of s]) as Hw. pose proof (write_received d k [bytes_of s]) as Hr.
    unfold sat in Hr. simpl concat in Hw. rewrite app_nil_r in Hw. specialize (Hw Hs).
    destruct (FileDescriptor.write _ _ _ _ _) as [[[d' k'] n]| |]; [|done..].
    split; [apply Hw|by apply (Hr (d', k', n))].
  - intros [[d' k'] n] (E1 & E2 & E3). eapply sound_mono; [apply IH|]. intros [d2 k2] (F1 & F2 & F3).
    unfold request_bytes. simpl. by rewrite app_assoc, F1, E1, F2, E2, F3, E3.
Qed.

(** The read loop ends, and prints what the server answered. *)
Definition prints (k : K) (out : list byte) (s : page_state (K := K)) : Prop :=
  let '(_, k', out') := s in
  sent k' = sent k /\ exists page, received k' = received k ++ page /\ out' = out ++ page.

Lemma read_page_prints k0 out0 d k out :
  _eof d = false -> prints k0 out0 (d, k, out) ->
  match read_page_body (d, k, out) with
  | Ok (inl (d', k', out')) => (_eof d' = false /\ prints k0 out0 (d', k', out')) /\
      exists data, web_read k BUFFER_SIZE = (inr data, k') /\ data <> []
  | Ok (inr s) => prints k0 out0 s
  | Throw _ => True
  | UB => False
  end.
Proof.
  intros Hd (Hs & page & Hr & Ho). unfold read_page_body.
  destruct (web_read k BUFFER_SIZE) as [sys k1] eqn:E. apply (web_read_ok k) in E as [E1 E2]; [|done].
  unfold FileDescriptor.read, SystemCall. destruct sys as [errno|data].
  { by case_cmp. }
  destruct E2 as (Hl & E2). rewrite Z.geb_leb, (proj2 (Z.leb_le 0 _)) by lia.
  unfold BUFFER_SIZE in *. cbn [orb mbind outcome_bind mret outcome_ret]. change (2 ^ 64 - 1 >? 0) with true.
  cbn [andb]. rewrite (Z.gtb_ltb (len data)), (proj2 (Z.ltb_ge _ _)) by lia.
  case_cmp; cbn [mbind outcome_bind mret outcome_ret set_eof register_read _eof].
  - destruct (web_close k1) as [sys k2] eqn:E3. apply (web_close_ok k1) in E3 as [E3 E4].
    assert (data = []) as -> by (destruct data; [done|simpl in *; lia]). rewrite app_nil_r in E2.
    assert (Hp : forall d', prints k0 out0 (d', k2, out)).
    { intros d'. split; [congruence|]. exists page. split; [congruence|done]. }
    unfold close_answer, close, SystemCall. destruct sys; repeat case_bool; first [apply Hp | done].
  - rewrite Hd. split; [split; [done|]|].
    + split; [congruence|]. exists (page ++ data). rewrite E2, Hr, Ho. by rewrite !app_assoc.
    + exists data. split; [done|]. by destruct data.
Qed.

Lemma page_printed (left : K -> Z) d k out :
  server_ends left -> _eof d = false -> sound (while_ read_page_body (d, k, out)) (prints k out).
Proof.
  intros [Hl Hdec] Hd. apply (while_rule_exn read_page_body (fun s => _eof (fst (fst s)) = false /\ prints k out s)
    (prints k out) (fun _ => True) (fun s => left (snd (fst s)))).
  - intros [[d1 k1] out1] [H1 H2]. pose proof (read_page_prints k out d1 k1 out1 H1 H2) as H. cbn [fst snd].
    destruct (read_page_body _) as [[[[d2 k2] out2]|s]| |]; try done.
    destruct H as (H & data & E & Hne). split; [exact H|]. split; [apply Hl|]. by eapply Hdec.
  - split; [done|]. split; [done|]. exists []. by rewrite !app_nil_r.
  - pose proof (Hl k). simpl. lia.
Qed.

(** If the loop ends, it has printed that, whether or not the server would end. *)
Lemma page_printed_if d k out :
  _eof d = false -> sat (while_ read_page_body (d, k, out)) (prints k out).
Proof.
  intros Hd. apply (while_sat read_page_body (fun s => _eof (fst (fst s)) = false /\ prints k out s)).
  - intros [[d1 k1] out1] [H1 H2]. pose proof (read_page_prints k out d1 k1 out1 H1 H2) as H.
    intros r E. rewrite E in H. destruct r as [[[d2 k2] out2]|s]; [apply H|exact H].
  - split; [done|]. split; [done|]. exists []. by rewrite !app_nil_r.
Qed.

(** One request: if nothing fails, exactly the request is sent, and what the
    server answers up to the end of file is what is printed. *)
Definition fetched (k : K) (request : list string) (out : list byte) (s : page_state (K := K)) : Prop :=
  let '(_, k', out') := s in
  sent k' = sent k ++ request_bytes request /\
  exists page, received k' = received k ++ page /\ out' = out ++ page.

Lemma new_socket_open {calls : Kernel} : sound TCPSocket_new (fun d => _eof d = false).
Proof.
  unfold TCPSocket_new, Socket_new, answer, FDWrapper_new.
  destruct (k_socket _ _ _) as [|fd]; [done|]. cbn [mbind outcome_bind mret outcome_ret]. by case_bool.
Qed.

Lemma fetch_prints {calls : Kernel} {rs : Resolver} (left : K -> Z) host request k out :
  Forall (fun s => len (bytes_of s) < 2 ^ 63) request -> server_ends left ->
  sound (fetch host request k out) (fetched k request out).
Proof.
  intros Hq Hleft. unfold fetch.
  eapply sound_bind; [apply new_socket_open|].
  intros d Hd. eapply sound_bind; [apply of_names_sound|]. intros address _.
  apply (sound_bind _ _ (fun _ => True)).
  { unfold connect, answer. by destruct (k_connect _ _ _). }
  intros _ _. eapply sound_bind; [by apply write_strings_ok|]. intros [d1 k1] (E1 & E2 & E3).
  eapply sound_mono; [apply (page_printed left); by rewrite ?E3|]. intros [[d2 k2] out2] (F1 & page & F2 & F3).
  split; [by rewrite F1|]. exists page. by rewrite F2, E2.
Qed.

Lemma fetch_prints_if {calls : Kernel} {rs : Resolver} host request k out :
  Forall (fun s => len (bytes_of s) < 2 ^ 63) request ->
  sat (fetch host request k out) (fetched k request out).
Proof.
  intros Hq. unfold fetch.
  eapply sat_bind; [apply sound_sat, new_socket_open|].
  intros d Hd. apply (sat_bind _ _ (fun _ => True)); [done|]. intros address _.
  apply (sat_bind _ _ (fun _ => True)); [done|].
  intros _ _. eapply sat_bind; [by apply sound_sat, write_strings_ok|]. intros [d1 k1] (E1 & E2 & E3).
  eapply sat_mono; [apply page_printed_if; by rewrite E3|]. intros [[d2 k2] out2] (F1 & page & F2 & F3).
  split; [by rewrite F1|]. exists page. by rewrite F2, E2.
Qed.

(** The two requests, one after the other *)
Lemma fetched_twice path k d1 k1 out1 d2 k2 out2 :
  fetched k (first_request path) [] (d1, k1, out1) -> fetched k1 (second_request path) out1 (d2, k2, out2) ->
  sent k2 = sent k ++ request_bytes (first_request path) ++ request_bytes (second_request path) /\
  received k2 = received k ++ out2.
Proof.
  intros (E1 & page1 & E2 & E3) (F1 & page2 & F2 & F3). split.
  - by rewrite F1, E1, app_assoc.
  - by rewrite F2, E2, F3, E3, app_assoc.
Qed.

(** C38. Whatever the server, when [get_URL] returns, exactly the two requests were
    sent, in this order, and what it printed is what the server answered to both:
    the page of the second request is printed after that of the first.  And if
    every server sooner or later ends what it says ([server_ends]), [get_URL] does end: it
    returns or a call it makes throws, and nothing it does is undefined.  The path is
    shorter than 2^63 bytes. *)
Theorem webget_prints_both {rs : Resolver} (calls calls_connect : Kernel) host path k :
  len (bytes_of path) < 2 ^ 63 ->
  (forall k' out, get_URL calls calls_connect host path k = Ok (k', out) ->
     sent k' = sent k ++ request_bytes (first_request path) ++ request_bytes (second_request path) /\
     received k' = received k ++ out) /\
  (forall left, server_ends left -> get_URL calls calls_connect host path k <> UB).
Proof.
  intros Hp. split.
  - intros k' out E. unfold get_URL in E.
    apply outcome_bind_ok in E as ([[d1 k1] out1] & E1 & E).
    apply outcome_bind_ok in E as ([[d2 k2] out2] & E2 & [= <- <-]).
    apply (fetched_twice path k d1 k1 out1 d2).
    + eapply (fetch_prints_if (calls := calls) host (first_request path) k []); [by repeat constructor|exact E1].
    + eapply (fetch_prints_if (calls := calls_connect) host (second_request path) k1 out1); [by repeat constructor|exact E2].
  - intros left Hleft. apply (sound_defined _ (fun _ => True)). unfold get_URL.
    eapply sound_bind; [apply (fetch_prints left); [by repeat constructor|done]|].
    intros [[d1 k1] out1] _.
    eapply sound_bind; [apply (fetch_prints left); [by repeat constructor|done]|].
    by intros [[d2 k2] out2] _.
Qed.
End webget_properties.

(** ** An example

    A server that answers every connection with two bytes, one at a time. *)
Inductive phase := Fresh | Half | Done.

Record demo_web := mkDemoWeb { w_sent : list byte; w_received : list byte; w_phase : phase }.

Definition demo_answer (ph : phase) : list byte * phase :=
  match ph with Fresh => ([Byte.x68], Half) | Half => ([Byte.x69], Done) | Done => ([], Done) end.

#[local] Instance demo_web_io : WebIO demo_web := {|
  web_read k n :=
    let '(data, ph) := demo_answer (w_phase k) in
    (inr data, mkDemoWeb (w_sent k) (w_received k ++ data) ph);
  web_writev k vs := (inr (len (concat vs)), mkDemoWeb (w_sent k ++ concat vs) (w_received k) (w_phase k));
  web_close k := (inr 0, mkDemoWeb (w_sent k) (w_received k) Fresh)
|}.

#[local] Instance demo_web_ok :
  WebIOOk demo_web w_sent w_received.
Proof.
  split.
  - intros k vs sys k' [= <- <-]. split; [lia|]. simpl. by rewrite ztake_all by lia.
  - by intros k vs sys k' [= <- <-].
  - intros [s r ph] n sys k' Hn E. destruct ph; injection E as <- <-; simpl; split_and!; done || lia.
  - by intros k sys k' [= <- <-].
Qed.

Definition demo_left (k : demo_web) : Z := match w_phase k with Fresh => 2 | Half => 1 | Done => 0 end.

Lemma demo_server_ends : server_ends demo_left.
Proof.
  split; [by intros [s r []]|]. intros [s r []] n data k' E Hne; injection E as <- <-; done.
Qed.

(** A name service that knows one address *)
#[local] Instance one_address : Resolver := {|
  getaddrinfo _ _ _ _ := inr [sockaddr_in 7 80];
  getnameinfo _ _ := inr ("7", "80");
  inet_ntoa _ := "7"
|}.

Lemma webget_prints_both_witness :
  exists k' out, get_URL sample_kernel sample_kernel "host" "/" (mkDemoWeb [] [] Fresh) = Ok (k', out) /\
    w_sent k' = [] ++ request_bytes (first_request "/") ++ request_bytes (second_request "/") /\
    w_received k' = [] ++ out /\
    get_URL sample_kernel sample_kernel "host" "/" (mkDemoWeb [] [] Fresh) <> UB.
Proof.
  destruct (webget_prints_both w_sent w_received sample_kernel sample_kernel "host" "/" (mkDemoWeb [] [] Fresh))
    as [H1 H2]; [simpl; lia|].
  eexists _, _. split; [vm_compute; reflexivity|].
  destruct (H1 _ _ ltac:(vm_compute; reflexivity)) as [E1 E2].
  split; [exact E1|]. split; [exact E2|]. exact (H2 demo_left demo_server_ends).
Defined.

Example webget_demo :
  match get_URL sample_kernel sample_kernel "host" "/" (mkDemoWeb [] [] Fresh) with
  | Ok (_, out) => out = [Byte.x68; Byte.x69; Byte.x68; Byte.x69]
  | _ => False
  end.
Proof. by vm_compute. Qed.
