(* ===== verification/SegmentSpec.v ===== *)
(** * The contract between a sender and a receiver

    What it means for a segment to carry a part of a byte stream: the sender's
    theorems show that all its segments do, the receiver's theorems assume it. *)

From S2P Require Import Prelude WrappingIntegers StreamReassembler Buffer TCPHeader TCPSegment.

(** ** Segments of a sender

    [s] is the byte stream the peer sends and [isn] its initial sequence number;
    a segment of the peer starts at the absolute sequence number [pos], with the
    SYN at 0, byte [i] of [s] at [i + 1] and the FIN at [len s + 1]. *)

(** The stream index of the first payload byte. *)
Definition data_index (pos : Z) : Z := if pos =? 0 then 0 else pos - 1.

Record sender_segment (s : list byte) (isn : WrappingInt32) (pos : Z) (seg : TCPSegment) : Prop := {
  ss_pos : 0 <= pos;
  ss_seqno : seqno (header seg) = wrap pos isn;
  ss_syn : syn (header seg) = (pos =? 0);
  ss_data : excerpt s (str (payload seg)) (data_index pos);
  ss_fin : fin (header seg) = true -> data_index pos + len (str (payload seg)) = len s
}.

Lemma segment_length seg :
  len (str (payload seg)) < 2 ^ 63 ->
  length_in_sequence_space seg =
    len (str (payload seg)) + Z.b2z (syn (header seg)) + Z.b2z (fin (header seg)).
Proof.
  intros. unfold length_in_sequence_space.
  destruct (syn (header seg)), (fin (header seg)); simpl; rewrite u64_small; lia.
Qed.

(** ** On the way

    The adapters fill in the ports and the checksum, and the payload arrives in another
    buffer; everything else is as it was sent. *)
Definition relabelled (sp dp ck : Z) (h : TCPHeader) : TCPHeader :=
  mkTCPHeader sp dp (seqno h) (ackno h) (doff h) (urg h) (ack h) (psh h) (rst h) (syn h) (fin h) (win h) ck (uptr h).

Definition conveyed (seg seg' : TCPSegment) : Prop :=
  (exists sp dp ck, header seg' = relabelled sp dp ck (header seg)) /\ str (payload seg') = str (payload seg).

Lemma conveyed_refl seg : conveyed seg seg.
Proof.
  split; [|done]. exists (sport (header seg)), (dport (header seg)), (cksum (header seg)).
  by destruct seg as [[]].
Qed.

Lemma sender_segment_conveyed s isn pos seg seg' :
  conveyed seg seg' -> sender_segment s isn pos seg -> sender_segment s isn pos seg'.
Proof.
  intros [(sp & dp & ck & Eh) Ed] [? ? ? ? ?]. constructor; rewrite ?Eh, ?Ed; done.
Qed.
