(* ===== verification/AdapterLink.v ===== *)
(** * Two adapters linked by a network

    What holds of two adapters that have each other as peer, also when one of them
    still listens and when they drop segments at any rate: a segment that comes out
    of one was put into the other, unchanged but for ports and checksum, and from
    the first segment on a listening adapter has its peer.  [FdAdapter] says that
    segments arrive when nothing is dropped; this is what never goes wrong. *)

From S2P Require Import Prelude WrappingIntegers Buffer Parser Address TCPHeader TCPSegment SegmentSpec.
From S2P Require Import IPv4Header IPv4Datagram TCPConfig FdAdapter.

(** The adapter at [sa:sp] whose peer is, or once it has one will be, [da:dp] *)
Definition linked {A I O} `{FdAdapter A I O} (a : A) (sa sp da dp : Z) : Prop :=
  (listening a = false /\ endpoints (config a) sa sp da dp) \/
  (listening a = true /\ source (config a) = ipv4_address sa sp).

Class FdAdapterLink (A I O : Type) `{FdAdapter A I O} `{Transport I O} := {
  (** what the peer wrote can be read *)
  fl_read a b sa sp da dp seg a' seg' o :
    endpoints (config a) sa sp da dp -> linked b da dp sa sp -> fits seg ->
    write a seg = Ok (a', seg', Some o) ->
    exists b' r, read b (carry (source (config a)) o) = Ok (b', r) /\ linked b' da dp sa sp /\ (listening b = false -> listening b' = false) /\
    (forall x, r = Some x -> listening b' = false /\ arrives sp dp seg x);
  (** and an adapter that has its peer can write *)
  fl_writes a sa sp da dp seg : endpoints (config a) sa sp da dp -> fits seg -> exists r, write a seg = Ok r;
  fl_write a seg a' seg' o : write a seg = Ok (a', seg', o) -> config a' = config a /\ listening a' = listening a;
  fl_tick a ms : config (tick a ms) = config a /\ listening (tick a ms) = listening a;
  fl_set_config a c : config (set_config c a) = c /\ listening (set_config c a) = listening a;
  fl_set_listening a b : config (set_listening b a) = config a /\ listening (set_listening b a) = b
}.

Lemma arrives_conveyed sp dp seg seg' : arrives sp dp seg seg' -> conveyed seg seg'.
Proof. intros [ck [Eh Ed]]. split; [|exact Ed]. exists sp, dp, ck. exact Eh. Qed.

Section links.
  Context `{RO : ResolverOk}.

#[global] Instance udp_adapter_link : FdAdapterLink TCPOverUDPSocketAdapter received_datagram (Address * BufferList).
Proof.
  split; try done.
  - intros [a] [b] sa sp da dp seg a' seg' o Ha Hb Hf Ew. simpl in *.
    destruct (udp_writes a sa sp da dp seg Ha Hf) as (bl & x & E & Ep & Har). rewrite E in Ew. injection Ew as <- <- <-.
    unfold carry, udp_transport, udp_read. cbn [source_address dgram_payload snd].
    destruct Hb as [[Hl Hb]|[Hl Hs]]; simpl in Hl; rewrite Hl; cbn [negb andb].
    + case_bool; [eexists _, _; split; [reflexivity|]; split; [by left|done]|]. rewrite Ep.
      eexists _, _. split; [reflexivity|]. split; [by left|]. split; [done|]. by intros ? [= <-].
    + rewrite Ep. cbn [mbind outcome_bind]. rewrite bool_decide_eq_true_2 by done. cbn [negb].
      destruct (syn (header x) && negb (rst (header x))); eexists _, _; (split; [reflexivity|]); [|split; [by right|done]].
      split; [left; split; [done|]|split; [done|by intros ? [= <-]]]. constructor; simpl; try apply Ha; done.
  - intros [a] sa sp da dp seg Ha Hf. simpl in *.
    destruct (udp_writes a sa sp da dp seg Ha Hf) as (bl & x & E & _). rewrite E. by eexists.
  - intros [a] seg a' seg' o E. simpl in *. destruct (udp_write a seg) as [[? ?]| |]; [|done..]. by injection E as <- <- <-.
Qed.

#[global] Instance tun_adapter_link : FdAdapterLink TCPOverIPv4OverTunFdAdapter (list byte) BufferList.
Proof.
  split; try done.
  - intros [a] [b] sa sp da dp seg a' seg' o Ha Hb Hf Ew. simpl in *.
    destruct (tun_writes a sa sp da dp seg Ha Hf) as (bl & h & pl & x & E & Ed & Es & Et & Ep & Eseg & Har).
    destruct (arrives_flags _ _ _ _ Har) as (_ & _ & Hsp & Hdp).
    rewrite E in Ew. injection Ew as <- <- <-.
    unfold carry, tun_transport, tun_read. rewrite Ed. cbn [mbind outcome_bind].
    rewrite bool_decide_eq_true_2 by done. cbn [negb].
    destruct Hb as [[Hl Hb]|[Hl Hs]]; simpl in Hl.
    + rewrite (unwrap_connected b da dp sa sp _ _ NoError x) by done.
      eexists _, _. split; [reflexivity|]. split; [by left|]. split; [done|].
      intros y Hy. split; [done|]. by case_match; simplify_eq.
    + rewrite (unwrap_listening b da dp _ _ NoError x);
        [|done|apply Ha|apply Ha|done|rewrite ?Es, ?Et, ?Hsp; apply Ha..|done].
      case_match; eexists _, _; (split; [reflexivity|]); [|split; [by right|done]].
      split; [left; split; [done|]|split; [done|by intros ? [= <-]]].
      constructor; simpl; rewrite ?Es, ?Et, ?Hsp; try apply Ha; done.
  - intros [a] sa sp da dp seg Ha Hf. simpl in *.
    destruct (tun_writes a sa sp da dp seg Ha Hf) as (bl & h & pl & x & E & _). rewrite E. by eexists.
  - intros [a] seg a' seg' o E. simpl in *. destruct (tun_write a seg) as [[? ?]| |]; [|done..]. by injection E as <- <- <-.
Qed.

(** Whatever the rates: a lossy adapter passes on what the adapter below it makes, or
    nothing. *)
Lemma lossy_write_below {A I O} `{FdAdapter A I O} (l l' : LossyFdAdapter A) seg seg' (o : option O) :
  lossy_write l seg = Ok (l', seg', o) ->
  (_adapter l' = _adapter l /\ o = None) \/ write (_adapter l) seg = Ok (_adapter l', seg', o).
Proof.
  intros E. unfold lossy_write, _should_drop in E. destruct (loss_rate_up (config (_adapter l)) =? 0).
  - destruct (write (_adapter l) seg) as [[[a s] r]| |]; [|done..]. injection E as <- <- <-. by right.
  - destruct (u16 _ <? _); [injection E as <- <- <-; by left|].
    cbn [_adapter] in E. destruct (write (_adapter l) seg) as [[[a s] r]| |]; [|done..].
    injection E as <- <- <-. by right.
Qed.

#[global] Instance lossy_adapter_link {A I O} `{LK : FdAdapterLink A I O} : FdAdapterLink (LossyFdAdapter A) I O.
Proof.
  split.
  - intros a b sa sp da dp seg a' seg' o Ha Hb Hf Ew. apply lossy_write_below in Ew as [[_ [=]]|Ew].
    destruct (fl_read (_adapter a) (_adapter b) sa sp da dp seg _ seg' o Ha Hb Hf Ew) as (b1 & ret & Er & H1 & H2 & H3).
    cbn [read lossy_adapter]. unfold lossy_read. cbn [config lossy_adapter]. rewrite Er. cbn [mbind outcome_bind].
    destruct (_should_drop false _) as [drop l] eqn:El.
    assert (E1 : _adapter l = b1) by (unfold _should_drop in El; case_match; injection El as _ <-; done).
    exists l, (if drop then None else ret). split; [done|]. unfold linked. cbn [config listening lossy_adapter].
    rewrite E1. split; [done|]. split; [done|]. intros x Hx. apply H3. by destruct drop.
  - intros l sa sp da dp seg Hep Hf. destruct (fl_writes (_adapter l) sa sp da dp seg Hep Hf) as [[[a s] o] E].
    cbn [write lossy_adapter]. unfold lossy_write, _should_drop.
    repeat (case_match; simplify_eq/=); rewrite ?E; by eexists.
  - intros a seg a' seg' o E. cbn in *. apply lossy_write_below in E as [[-> _]|E]; [done|by apply fl_write in E].
  - intros a ms. apply (fl_tick (_adapter a)).
  - intros a c. apply (fl_set_config (_adapter a)).
  - intros a b. apply (fl_set_listening (_adapter a)).
Qed.
End links.
