(* ===== verification/TCPReceiver.v ===== *)
(** * The receiving half of a TCP connection

    Model of [libsponge/tcp_receiver.hh] and [.cc]: segments go into the
    reassembler at the index their sequence number unwraps to, and
    [_checkpoint] is the absolute sequence number that is acknowledged. *)

From S2P Require Import Prelude WrappingIntegers ByteStream StreamReassembler Buffer TCPHeader.
From S2P Require Import TCPSegment SegmentSpec.

Record TCPReceiver := mkTCPReceiver {
  _reassembler : StreamReassembler;
  _isn : Z;
  _is_set : bool;
  _ended : bool;
  _checkpoint : Z;
  _capacity : Z
}.

Inductive ReceiverState := LISTEN | SYN_RECV | FIN_RECV | ERROR.

#[global] Instance ReceiverState_eq_dec : EqDecision ReceiverState.
Proof. solve_decision. Defined.

Definition new (capacity : Z) : TCPReceiver :=
  mkTCPReceiver (StreamReassembler.new capacity) 0 false false 0 capacity.

Definition set_isn (r : TCPReceiver) (isn : Z) : TCPReceiver :=
  mkTCPReceiver (_reassembler r) isn true (_ended r) 0 (_capacity r).
Definition set_ended (r : TCPReceiver) : TCPReceiver :=
  mkTCPReceiver (_reassembler r) (_isn r) (_is_set r) true (_checkpoint r) (_capacity r).
Definition set_reassembler (r : TCPReceiver) (ra : StreamReassembler) : TCPReceiver :=
  mkTCPReceiver ra (_isn r) (_is_set r) (_ended r) (_checkpoint r) (_capacity r).
Definition set_checkpoint (r : TCPReceiver) (c : Z) : TCPReceiver :=
  mkTCPReceiver (_reassembler r) (_isn r) (_is_set r) (_ended r) c (_capacity r).

Definition stream_out (r : TCPReceiver) : ByteStream := StreamReassembler.stream_out (_reassembler r).
(** Writing through the reference that [stream_out] returns. *)
Definition set_stream_out (r : TCPReceiver) (bs : ByteStream) : TCPReceiver :=
  set_reassembler r (set_output (_reassembler r) bs).

Definition ackno (r : TCPReceiver) : option WrappingInt32 :=
  if negb (_is_set r) then None
  else Some (wrap (_checkpoint r) (mkWrappingInt32 (_isn r))).

Definition window_size (r : TCPReceiver) : Z :=
  u64 (capacity_value (_reassembler r) - buffer_size (stream_out r)).

Definition state (r : TCPReceiver) : ReceiverState :=
  if ByteStream.error (stream_out r) then ERROR
  else if negb (bool_decide (is_Some (ackno r))) then LISTEN
  else if negb (input_ended (stream_out r)) then SYN_RECV
  else FIN_RECV.

(** The last statement of [segment_received]: what to acknowledge next. *)
Definition update_checkpoint (r : TCPReceiver) (index : Z) (seg : TCPSegment) : TCPReceiver :=
  if (index =? 0) || (index =? _checkpoint r) then
    let r := set_checkpoint r (u64 (index + length_in_sequence_space seg)) in
    if _checkpoint r <? u64 (left (_reassembler r) + 1) then
      let r := set_checkpoint r (u64 (left (_reassembler r) + 1)) in
      if _ended r && (distance (_reassembler r) =? 0)
      then set_checkpoint r (u64 (_checkpoint r + 1)) else r
    else r
  else r.

Section code.
  Context {mem : OverRead}.

Definition segment_received (r : TCPReceiver) (seg : TCPSegment) : outcome TCPReceiver :=
  let h := header seg in
  let r := if syn h then set_isn r (raw_value (seqno h)) else r in
  if negb (_is_set r) then mret r
  else
    let index := unwrap (seqno h) (mkWrappingInt32 (_isn r)) (_checkpoint r) in
    let stream_index := u64 (index - 1) in
    let stream_index := if syn h then u64 (stream_index + 1) else stream_index in
    let r := if fin h then set_ended r else r in
    let data := str (payload seg) in
    ra ← push_substring (_reassembler r) data stream_index (fin h);
    mret (update_checkpoint (set_reassembler r ra) index seg).

Definition unassembled_bytes (r : TCPReceiver) : outcome Z :=
  StreamReassembler.unassembled_bytes (_reassembler r).
End code.

(** ** Segments a receiver accepts *)

(** The segment lies in the window the receiver offers and in the reach of
    [unwrap]; a FIN comes with data or after all data has been assembled. *)
Record acceptable (s : list byte) (pos : Z) (r : TCPReceiver) (seg : TCPSegment) : Prop := {
  ac_reach : pos = 0 \/ in_reach (_checkpoint r) pos;
  ac_window : data_index pos + len (str (payload seg)) <=
                bytes_read (stream_out r) + _capacity r;
  ac_fin : fin (header seg) = true ->
    str (payload seg) <> [] \/ left (_reassembler r) = len s
}.

(** ** The invariant *)

(** One more than [left] when the FIN has been received in sequence as well. *)
Definition fin_taken (s : list byte) (r : TCPReceiver) : Z :=
  if _ended r && (left (_reassembler r) =? len s) then 1 else 0.

Record rinv (s : list byte) (isn : WrappingInt32) (k : Z) (r : TCPReceiver) (a : stream) : Prop := {
  ri_reassembler : inv s k (_reassembler r) a;
  ri_isn : _is_set r = true -> _isn r = raw_value isn;
  ri_acked : _is_set r = true -> 1 <= _checkpoint r <= left (_reassembler r) + 1 + fin_taken s r;
  ri_unset : _is_set r = false -> _checkpoint r = 0;
  ri_ended : _ended r = _eofed (_reassembler r);
  ri_capacity : _capacity r = StreamReassembler._capacity (_reassembler r);
  ri_bound : len s < 2 ^ 62
}.

Lemma rinv_new s isn capacity :
  0 <= capacity < 2 ^ 63 - 1 -> len s + capacity < 2 ^ 63 -> len s < 2 ^ 62 ->
  rinv s isn 0 (new capacity) (spec_new capacity).
Proof. intros. constructor; simpl; try done. by apply new_inv. Qed.

(** What the invariant says about the reassembler's indices. *)
Lemma rinv_indices s isn k r a :
  rinv s isn k r a ->
  0 <= left (_reassembler r) <= _first_unacceptable (_reassembler r) /\
  _first_unacceptable (_reassembler r) <= len s /\
  (_ended r && (distance (_reassembler r) =? 0) = _ended r && (left (_reassembler r) =? len s)).
Proof.
  intros H. destruct H as [Hi _ _ _ He _ Hb]. unfold left, distance.
  pose proof (frontier_bound _ _ _ _ (inv_cells _ _ _ _ Hi)) as Hf.
  rewrite <- (inv_first _ _ _ _ Hi) in Hf. pose proof (co_fu _ _ _ _ (inv_cells _ _ _ _ Hi)).
  pose proof (inv_first _ _ _ _ Hi). split; [lia|]. split; [lia|].
  destruct (_ended r) eqn:E; [|done]. simpl. rewrite (inv_eof _ _ _ _ Hi) by congruence.
  rewrite u64_small by lia.
  destruct (Z.eqb_spec (len s - _first_unassembled (_reassembler r)) 0),
    (Z.eqb_spec (_first_unassembled (_reassembler r)) (len s)); (done || lia).
Qed.

(** [update_checkpoint] only changes [_checkpoint]. *)
Lemma update_checkpoint_frame r index seg :
  update_checkpoint r index seg = set_checkpoint r (_checkpoint (update_checkpoint r index seg)).
Proof. unfold update_checkpoint. by destruct r; repeat case_bool. Qed.

(** A segment that starts at the checkpoint moves it to the frontier. *)
Lemma update_in_order s r pos seg :
  let L := left (_reassembler r) in
  0 <= L <= len s -> len s < 2 ^ 62 ->
  _ended r && (distance (_reassembler r) =? 0) = _ended r && (L =? len s) ->
  0 <= pos -> syn (header seg) = (pos =? 0) ->
  data_index pos + len (str (payload seg)) <= L ->
  (fin (header seg) = true -> data_index pos + len (str (payload seg)) = len s /\ _ended r = true) ->
  pos = 0 \/ pos = _checkpoint r ->
  let c := _checkpoint (update_checkpoint r pos seg) in
  L + 1 <= c <= L + 1 + fin_taken s r /\ pos + length_in_sequence_space seg <= c.
Proof.
  intros L HL Hb Hdist Hpos Hsyn Hdata Hfin Hin c. unfold data_index in *.
  rewrite segment_length by (case_bool; lia). rewrite Hsyn. subst c. unfold update_checkpoint, fin_taken.
  fold L. replace ((pos =? 0) || (pos =? _checkpoint r)) with true
    by (symmetry; apply orb_true_iff; rewrite !Z.eqb_eq; done).
  rewrite segment_length, Hsyn by (case_bool; lia).
  cbn [set_checkpoint _checkpoint _reassembler _ended]. fold L.
  rewrite Hdist, (u64_small (L + 1)) by lia.
  rewrite (u64_small (pos + _)) by (destruct (fin (header seg)); repeat case_bool; simpl in *; lia).
  destruct (fin (header seg)) eqn:Ef; [destruct Hfin as [Hfin He]; [done|]; rewrite He in *|clear Hfin];
    destruct (Z.eqb_spec pos 0) as [->|Hp0]; cbn [Z.b2z andb] in *;
    repeat case_bool; cbn [set_checkpoint _checkpoint]; rewrite ?u64_small by lia; try lia.
Qed.

(** The index arithmetic of [segment_received]: a segment of the sender is pushed
    where its payload belongs. *)
Lemma segment_index s isn k r a pos seg :
  rinv s isn k r a -> wi_valid isn -> sender_segment s isn pos seg ->
  pos = 0 \/ in_reach (_checkpoint r) pos ->
  let r1 := if syn (header seg) then set_isn r (raw_value (seqno (header seg))) else r in
  _is_set r1 = true ->
  let index := unwrap (seqno (header seg)) (mkWrappingInt32 (_isn r1)) (_checkpoint r1) in
  index = pos /\
  (if syn (header seg) then u64 (u64 (index - 1) + 1) else u64 (index - 1)) = data_index pos /\
  _isn r1 = raw_value isn /\ (syn (header seg) = false -> r1 = r).
Proof.
  intros Hr Hisn [Hp0 Hseq Hsyn (Hd1 & Hd2 & _) Hfin] Hreach r1 Hset.
  destruct (rinv_indices _ _ _ _ _ Hr) as (HL & HL2 & _). destruct Hr as [_ Hi Hc _ _ _ Hb].
  assert (H0 : wrap 0 isn = isn).
  { unfold wrap. destruct isn as [i]. unfold wi_valid in Hisn; simpl in *. by drop_wrap. }
  unfold data_index in *. subst r1. rewrite Hsyn in *. destruct (Z.eqb_spec pos 0) as [->|Hne].
  - simpl in *. rewrite Hseq, H0. destruct isn as [i]; simpl in *.
    rewrite (unwrap_near _ _ 0 0) by (done || lia). by rewrite u64_u64_add.
  - destruct Hreach as [|[Hn Hg]]; [done|]. rewrite (Hi Hset). specialize (Hc Hset).
    unfold fin_taken in Hc.
    assert (unwrap (seqno (header seg)) (mkWrappingInt32 (raw_value isn)) (_checkpoint r) = pos) as ->.
    { destruct isn as [i]. simpl. apply unwrap_near; rewrite ?Hseq; try done; try apply wrap_valid;
        repeat case_bool; lia. }
    split; [done|]. split; [apply u64_small; lia|done].
Qed.

Lemma rinv_bytes_read s isn k r a : rinv s isn k r a -> bytes_read (stream_out r) = len (s_read a).
Proof.
  intros Hr. destruct (rinv_indices _ _ _ _ _ Hr) as (HL & HL2 & _). destruct Hr as [Hi _ _ _ _ _ Hb].
  unfold bytes_read, stream_out, StreamReassembler.stream_out.
  rewrite (rep_bytes_read _ _ (inv_rep _ _ _ _ Hi)). apply u64_small.
  pose proof (f_equal length (inv_history _ _ _ _ Hi)) as Hh. unfold s_history in Hh.
  rewrite length_app in Hh. pose proof (len_ztake (_first_unassembled (_reassembler r)) s).
  unfold left in HL. lia.
Qed.

(** The push of a segment's payload succeeds and moves the frontier over it when
    it is next in sequence. *)
Lemma segment_push {mem : OverRead} {total : TotalOverRead mem} s isn k r a pos seg :
  rinv s isn k r a -> 0 <= k < 2 ^ 64 - 1 ->
  sender_segment s isn pos seg -> acceptable s pos r seg ->
  exists ra a',
    push_substring (_reassembler r) (str (payload seg)) (data_index pos) (fin (header seg)) = Ok ra /\
    inv s (k + 1) ra a' /\ s_read a' = s_read a /\ s_error a' = s_error a /\
    StreamReassembler._capacity ra = StreamReassembler._capacity (_reassembler r) /\
    _eofed ra = _eofed (_reassembler r) || fin (header seg) /\
    left (_reassembler r) <= left ra /\
    (data_index pos <= left (_reassembler r) -> data_index pos + len (str (payload seg)) <= left ra).
Proof.
  intros Hr Hk [Hp0 Hseq Hsyn Hd Hfin] [Hre Hw Hf]. pose proof (rinv_bytes_read _ _ _ _ _ Hr) as Hbr.
  destruct Hr as [Hi Hri Hc Hu He Hcap Hb].
  assert (Hv : valid_push s (_reassembler r) (str (payload seg)) (data_index pos) (fin (header seg))).
  { split; [done|]. intros E. split; [by apply Hfin|].
    destruct (Hf E) as [Hne|Hall]; [left|by right]. split; [done|].
    rewrite <- (Hfin E), <- Hcap. exact Hw. }
  destruct (push_inv s k _ a _ _ _ Hi Hk Hv) as (ra & a' & E & Hi' & Hrd & Her & Hcp & Heo & Hsz & Hcov).
  destruct (push_frontier _ _ _ _ _ _ _ _ _ _ Hi Hi' Hsz Hcov) as [[Hmono _] Hfr].
  exists ra, a'. split.
  { rewrite E. case_bool; [done|]. by destruct (total_over_read (len (s_read a) +
      StreamReassembler._capacity (_reassembler r))) as [w ->]. }
  split_and!; try done. intros Hx. apply Hfr; [done|]. lia.
Qed.

(** [segment_received] as a push followed by [update_checkpoint]. *)
Lemma segment_received_eq {mem : OverRead} s isn k r a pos seg ra :
  rinv s isn k r a -> wi_valid isn -> sender_segment s isn pos seg ->
  pos = 0 \/ in_reach (_checkpoint r) pos ->
  _is_set r || syn (header seg) = true ->
  push_substring (_reassembler r) (str (payload seg)) (data_index pos) (fin (header seg)) = Ok ra ->
  segment_received r seg =
    Ok (update_checkpoint
          (mkTCPReceiver ra (raw_value isn) true (_ended r || fin (header seg))
             (if syn (header seg) then 0 else _checkpoint r) (_capacity r)) pos seg).
Proof.
  intros Hr Hisn Hs Ha Hset E. pose proof (segment_index _ _ _ _ _ _ _ Hr Hisn Hs Ha) as Hidx.
  unfold segment_received. set (r1 := if syn (header seg) then _ else _) in *.
  assert (Er1 : _reassembler r1 = _reassembler r /\ _ended r1 = _ended r /\
    _capacity r1 = _capacity r /\ _is_set r1 = true /\
    _checkpoint r1 = if syn (header seg) then 0 else _checkpoint r).
  { unfold r1. destruct (syn (header seg)); [done|]. by rewrite orb_false_r in Hset. }
  destruct Er1 as (Er1 & Ee1 & Ec1 & Es1 & Ek1). cbv zeta in Hidx.
  destruct Hidx as (Hx1 & Hx2 & Hx3 & _); [done|]. rewrite Es1. cbn [negb]. cbv zeta.
  rewrite Hx2, Hx1. rewrite <- Ek1, <- Hx3, <- Es1, <- Ee1, <- Ec1. rewrite <- Er1 in E.
  replace (_reassembler (if fin (header seg) then set_ended r1 else r1)) with (_reassembler r1)
    by (by destruct (fin (header seg))).
  rewrite E. cbn [mbind outcome_bind mret outcome_ret]. do 2 f_equal.
  destruct r1, (fin (header seg)); simpl; by rewrite ?orb_true_r, ?orb_false_r.
Qed.

(** A segment before the SYN is dropped. *)
Lemma segment_ignored {mem : OverRead} r seg :
  _is_set r = false -> syn (header seg) = false -> segment_received r seg = Ok r.
Proof. intros E1 E2. unfold segment_received. rewrite E2, E1. done. Qed.

(** What one segment does to the receiver. *)
Lemma receive_inv {mem : OverRead} {total : TotalOverRead mem} s isn k r a pos seg :
  rinv s isn k r a -> 0 <= k < 2 ^ 64 - 1 -> wi_valid isn ->
  sender_segment s isn pos seg -> acceptable s pos r seg ->
  _is_set r || syn (header seg) = true ->
  exists r' a', segment_received r seg = Ok r' /\ rinv s isn (k + 1) r' a' /\
    s_read a' = s_read a /\ s_error a' = s_error a /\ _capacity r' = _capacity r /\
    _is_set r' = true /\
    _ended r' = _ended r || fin (header seg) /\
    left (_reassembler r) <= left (_reassembler r') /\
    (if (pos =? 0) || (pos =? _checkpoint r) then
       left (_reassembler r') + 1 <= _checkpoint r' /\
       pos + length_in_sequence_space seg <= _checkpoint r'
     else _checkpoint r' = _checkpoint r).
Proof.
  intros Hr Hk Hisn Hs Ha Hset.
  destruct (segment_push _ _ _ _ _ _ _ Hr Hk Hs Ha) as (ra & a' & E & Hi' & Hrd & Her & Hcp & Heo & Hmono & Hfr).
  rewrite (segment_received_eq _ _ _ _ _ _ _ _ Hr Hisn Hs (ac_reach _ _ _ _ Ha) Hset E).
  set (r2 := mkTCPReceiver _ _ _ _ _ _).
  destruct (rinv_indices _ _ _ _ _ Hr) as (HL & HL2 & _).
  destruct Hr as [Hi Hri Hc Hu He Hcap Hb]. pose proof Hs as [Hp0 Hseq Hsyn (Hd & Hd2 & _) Hfin].
  assert (Hr2 : forall c, 1 <= c <= left ra + 1 + fin_taken s r2 ->
                  rinv s isn (k + 1) (set_checkpoint r2 c) a').
  { intros c Hc2. constructor; simpl; try done; [by rewrite Heo, He|by rewrite Hcp]. }
  destruct (rinv_indices _ _ _ _ _ (Hr2 1 ltac:(unfold fin_taken; simpl; case_bool; lia)))
    as (HL' & HL2' & Hdist). simpl in HL', HL2', Hdist.
  exists (update_checkpoint r2 pos seg), a'. split; [done|].
  rewrite (update_checkpoint_frame r2). cbn [set_checkpoint _checkpoint _reassembler _capacity _is_set _ended r2].
  assert (Hcase : (if (pos =? 0) || (pos =? _checkpoint r) then
       left ra + 1 <= _checkpoint (update_checkpoint r2 pos seg) /\
       pos + length_in_sequence_space seg <= _checkpoint (update_checkpoint r2 pos seg)
     else _checkpoint (update_checkpoint r2 pos seg) = _checkpoint r) /\
     1 <= _checkpoint (update_checkpoint r2 pos seg) <= left ra + 1 + fin_taken s r2).
  { destruct ((pos =? 0) || (pos =? _checkpoint r)) eqn:Eo.
    - destruct (update_in_order s r2 pos seg); simpl; try done; try lia.
      + apply Hfr. unfold data_index in *. unfold fin_taken in Hc.
        apply orb_true_iff in Eo. rewrite !Z.eqb_eq in Eo. case_bool; [lia|].
        rewrite Hsyn in Hset. destruct (Z.eqb_spec pos 0); [done|]. rewrite orb_false_r in Hset.
        specialize (Hc Hset). repeat case_bool; lia.
      + intros Ef. split; [by apply Hfin|]. by rewrite Ef, orb_true_r.
      + apply orb_true_iff in Eo. rewrite !Z.eqb_eq in Eo. rewrite Hsyn.
        destruct (Z.eqb_spec pos 0); [by left|right]. by destruct Eo.
      + simpl in *. lia.
    - apply orb_false_iff in Eo as [Eo1 Eo2]. rewrite Hsyn, Eo1, orb_false_r in Hset.
      assert (update_checkpoint r2 pos seg = r2) as ->
        by (unfold update_checkpoint, r2; simpl; by rewrite Hsyn, Eo1, Eo2).
      simpl. rewrite Hsyn, Eo1. split; [done|]. specialize (Hc Hset). split; [lia|].
      assert (fin_taken s r = 1 -> fin_taken s r2 = 1) as Hft.
      { unfold fin_taken; simpl. destruct (_ended r); simpl; [|done].
        repeat case_bool; lia. }
      unfold fin_taken in *. simpl in *. repeat case_bool; lia. }
  destruct Hcase as [Hcase1 Hcase2]. split; [by apply Hr2|]. done.
Qed.

(** Reading from [stream_out]. *)
Lemma rinv_read s isn k r a n bs data :
  rinv s isn k r a -> 0 <= n -> read (stream_out r) n = Ok (bs, data) ->
  rinv s isn k (set_stream_out r bs) (spec_pop a n) /\ data = ztake n (s_pending a).
Proof.
  intros [Hi Hri Hc Hu He Hcap Hb] Hn Er.
  destruct (read_out_inv _ _ _ _ _ _ _ Hi Hn Er) as [Hi' ->]. split; [|done]. by constructor.
Qed.

(** ** Reachable receivers

    Any interleaving of the sender's segments, in any order, and of reads of the
    output; [k] bounds the number of segments and [out] is what was read. *)
Inductive rreach `{OverRead} (s : list byte) (isn : WrappingInt32) (capacity : Z) :
    Z -> TCPReceiver -> list byte -> Prop :=
  | rreach_new : rreach s isn capacity 0 (new capacity) []
  | rreach_segment k r out pos seg r' :
      rreach s isn capacity k r out -> sender_segment s isn pos seg -> acceptable s pos r seg ->
      segment_received r seg = Ok r' -> rreach s isn capacity (k + 1) r' out
  | rreach_read k r out n bs data :
      rreach s isn capacity k r out -> 0 <= n -> read (stream_out r) n = Ok (bs, data) ->
      rreach s isn capacity k (set_stream_out r bs) (out ++ data).

Section reachable.
  Context {mem : OverRead} {total : TotalOverRead mem}.
  Context (s : list byte) (isn : WrappingInt32) (capacity : Z).

(** The sizes for which the 64-bit arithmetic of the classes does not wrap. *)
Definition sizes_ok : Prop :=
  0 <= capacity < 2 ^ 62 /\ len s < 2 ^ 62 /\ wi_valid isn.

Lemma rreach_inv k r out :
  sizes_ok -> rreach s isn capacity k r out -> k < 2 ^ 64 ->
  0 <= k /\ _capacity r = capacity /\ exists a, rinv s isn k r a /\ s_read a = out.
Proof.
  intros (Hcap & Hs & Hisn).
  induction 1 as [|k r out pos seg r' Hr IH Hseg Hacc E|k r out n bs data Hr IH Hn E]; intros Hk.
  - split; [lia|]. split; [done|]. exists (spec_new capacity). split; [|done].
    apply rinv_new; lia.
  - destruct IH as (Hk0 & Hc & a & Hi & Ha); [lia|].
    destruct (_is_set r || syn (header seg)) eqn:Eset.
    + destruct (receive_inv _ _ _ _ _ _ _ Hi ltac:(lia) Hisn Hseg Hacc Eset)
        as (r1 & a' & E1 & Hi' & Hrd & _ & Hcp & _).
      rewrite E in E1. simplify_eq. split; [lia|]. split; [congruence|]. by exists a'.
    + apply orb_false_iff in Eset as [Es1 Es2]. rewrite segment_ignored in E by done.
      simplify_eq. split; [lia|]. split; [done|]. exists a. split; [|done].
      destruct Hi as [Hi Hri Hc Hu He Hcap' Hb]. constructor; try done.
      destruct Hi. constructor; try done. by eapply cells_ok_weaken.
  - destruct IH as (Hk0 & Hc & a & Hi & Ha); [done|].
    destruct (rinv_read _ _ _ _ _ _ _ _ Hi Hn E) as [Hi' ->].
    split; [done|]. split; [done|]. exists (spec_pop a n). split; [done|]. simpl. by rewrite Ha.
Qed.
End reachable.

(** [state] under the invariant. *)
Lemma rinv_state s isn k r a :
  rinv s isn k r a -> ByteStream.error (stream_out r) = false ->
  state r = (if negb (_is_set r) then LISTEN
             else if _ended r && (left (_reassembler r) =? len s) then FIN_RECV else SYN_RECV).
Proof.
  intros Hi Herr. unfold state. rewrite Herr. unfold ackno. destruct (_is_set r); [|done]. cbn [negb].
  rewrite bool_decide_eq_true_2 by (by eexists). cbn [negb].
  destruct Hi as [Hi _ _ _ He _ _]. unfold input_ended, stream_out, StreamReassembler.stream_out.
  rewrite (rep_ended _ _ (inv_rep _ _ _ _ Hi)), (inv_ended _ _ _ _ Hi), He.
  unfold left. destruct (_eofed (_reassembler r)) eqn:Ee; [|done]. simpl.
  rewrite (inv_eof _ _ _ _ Hi), Z.eqb_sym by done. by destruct (_ =? _).
Qed.

Lemma rinv_error s isn k r a : rinv s isn k r a -> ByteStream.error (stream_out r) = s_error a.
Proof. intros [Hi _ _ _ _ _ _]. apply (rep_error _ _ (inv_rep _ _ _ _ Hi)). Qed.

(** ** Properties *)

(** C11. The receiver acknowledges only what it has: for a receiver that got the
    sender's segments in any order, each within the window and a FIN without payload
    only when everything before it was assembled ([acceptable]), the bytes read and
    buffered are the first [left] bytes of the stream, and an acknowledgment
    number is the SYN plus at most these bytes, or also the FIN when the output
    has ended after all of them.  Outside these conditions it acknowledges bytes it
    has thrown away ([receiver_acks_discarded], [receiver_early_fin_loses]). *)
Theorem receiver_acks_only_received {mem : OverRead} {total : TotalOverRead mem}
    s isn capacity k r out x :
  sizes_ok s isn capacity -> k < 2 ^ 64 -> rreach s isn capacity k r out -> ackno r = Some x ->
  exists c buffered, x = wrap c isn /\ 1 <= c /\
    peek_output (stream_out r) (buffer_size (stream_out r)) = Ok buffered /\
    out ++ buffered = ztake (left (_reassembler r)) s /\
    (c - 1 <= left (_reassembler r) \/
     (c = len s + 2 /\ left (_reassembler r) = len s /\ input_ended (stream_out r) = true)).
Proof.
  intros Hsz Hk Hr Hx.
  destruct (rreach_inv _ _ _ _ _ _ Hsz Hr Hk) as (_ & _ & a & Hi & <-).
  unfold ackno in Hx. destruct (_is_set r) eqn:Es; [|done]. simpl in Hx. simplify_eq.
  destruct Hi as [Hi Hri Hc Hu He Hcap Hb]. specialize (Hri Es). specialize (Hc Es).
  exists (_checkpoint r), (s_pending a). rewrite Hri. destruct isn as [i]; simpl in *.
  pose proof (inv_rep _ _ _ _ Hi) as R. unfold stream_out, StreamReassembler.stream_out.
  rewrite (buffer_size_eq _ _ R), (peek_rep _ _ _ R), ztake_all by lia.
  split_and!; [done|lia|done|by apply (inv_history _ _ _ _ Hi)|].
  unfold fin_taken in Hc. unfold left in *. destruct (_ended r) eqn:Ee; simpl in *; [|left; lia].
  case_bool; [|left; lia]. destruct (decide (_checkpoint r - 1 <= len s)); [left; lia|right].
  split_and!; [lia|done|]. unfold input_ended. rewrite (rep_ended _ _ R), (inv_ended _ _ _ _ Hi).
  rewrite (inv_eof _ _ _ _ Hi) by done. rewrite <- He. simpl. by apply Z.eqb_eq.
Qed.

(** C12. An [acceptable] segment that starts at the acknowledgment number is taken:
    nothing throws, the acknowledgment moves past the whole segment, and it is exactly
    the SYN and the assembled bytes (and possibly the FIN once it was seen), so
    bytes that arrived earlier out of order are acknowledged as well. *)
Theorem receiver_in_order_progress {mem : OverRead} {total : TotalOverRead mem}
    s isn capacity k r out seg pos :
  sizes_ok s isn capacity -> k < 2 ^ 64 - 1 -> rreach s isn capacity k r out ->
  sender_segment s isn pos seg -> acceptable s pos r seg ->
  pos = 0 \/ (_is_set r = true /\ pos = _checkpoint r) ->
  exists r' c, segment_received r seg = Ok r' /\ rreach s isn capacity (k + 1) r' out /\
    ackno r' = Some (wrap c isn) /\ pos + length_in_sequence_space seg <= c /\
    left (_reassembler r) <= left (_reassembler r') /\
    (_ended r' = false -> c = left (_reassembler r') + 1) /\
    left (_reassembler r') + 1 <= c <= left (_reassembler r') + 2.
Proof.
  intros Hsz Hk Hr Hseg Hacc Hpos. pose proof Hsz as (_ & _ & Hisn).
  destruct (rreach_inv _ _ _ _ _ _ Hsz Hr ltac:(lia)) as (Hk0 & _ & a & Hi & Ha).
  assert (Eset : _is_set r || syn (header seg) = true).
  { rewrite (ss_syn _ _ _ _ Hseg). destruct Hpos as [->|[-> _]]; [apply orb_true_r|done]. }
  destruct (receive_inv _ _ _ _ _ _ _ Hi ltac:(lia) Hisn Hseg Hacc Eset)
    as (r' & a' & E & Hi' & _ & _ & _ & Es & _ & Hm & Hc).
  exists r', (_checkpoint r'). split; [done|]. split; [by eapply rreach_segment|].
  destruct Hi' as [_ Hri Hc' _ _ _ _]. specialize (Hri Es). specialize (Hc' Es).
  unfold ackno. rewrite Es, Hri.
  replace ((pos =? 0) || (pos =? _checkpoint r)) with true in Hc.
  2: { symmetry. apply orb_true_iff. rewrite !Z.eqb_eq. tauto. }
  destruct isn; simpl. unfold fin_taken in Hc'.
  split; [done|]. destruct (_ended r'); simpl in *; [split_and!; try done; try case_bool; lia|].
  split_and!; try done; lia.
Qed.

(** The advertised window ends where acceptance ends: [window_size] is the
    capacity less the bytes held for the reader, so the first unassembled index
    plus the window is [bytes_read + capacity], whatever the interleaving. *)
Theorem receiver_window {mem : OverRead} {total : TotalOverRead mem} s isn capacity k r out :
  sizes_ok s isn capacity -> k < 2 ^ 64 -> rreach s isn capacity k r out ->
  left (_reassembler r) + window_size r = len out + capacity /\ 0 <= window_size r <= capacity.
Proof.
  intros Hsz Hk Hr. pose proof Hsz as (Hcap & Hs & _).
  destruct (rreach_inv _ _ _ _ _ _ Hsz Hr Hk) as (_ & Hc & a & Hi & <-).
  destruct (rinv_indices _ _ _ _ _ Hi) as (HL & HL2 & _). pose proof (ri_capacity _ _ _ _ _ Hi) as Hcp.
  destruct Hi as [Hi _ _ _ _ _ _]. pose proof (inv_rep _ _ _ _ Hi) as R.
  unfold window_size, capacity_value, stream_out, StreamReassembler.stream_out, left in *.
  rewrite (buffer_size_eq _ _ R), <- Hcp, Hc.
  pose proof (f_equal length (inv_history _ _ _ _ Hi)) as Hh. unfold s_history in Hh.
  rewrite length_app in Hh. pose proof (len_ztake (_first_unassembled (_reassembler r)) s) as Hl.
  pose proof (rep_fits _ _ R). pose proof (inv_capacity _ _ _ _ Hi).
  rewrite u64_small by lia. lia.
Qed.

(** C39. Bytes that were thrown away are acknowledged: when an in-order segment
    reaches past the window, the reassembler keeps only the part inside it, but
    the acknowledgment number covers the whole payload.  A peer that overruns
    the window never retransmits the lost bytes. *)
Theorem receiver_acks_discarded {mem : OverRead} {total : TotalOverRead mem}
    s isn capacity k r out seg pos :
  sizes_ok s isn capacity -> k < 2 ^ 64 - 1 -> rreach s isn capacity k r out ->
  sender_segment s isn pos seg -> _is_set r = true -> pos = _checkpoint r ->
  fin (header seg) = false -> len out + capacity < pos - 1 + len (str (payload seg)) ->
  exists r', segment_received r seg = Ok r' /\
    ackno r' = Some (wrap (pos + len (str (payload seg))) isn) /\
    left (_reassembler r') <= len out + capacity /\
    left (_reassembler r') + 1 < pos + len (str (payload seg)).
Proof.
  intros Hsz Hk Hr Hseg Hset Hpos Hfin Hover. pose proof Hsz as (Hcap & Hs & Hisn).
  destruct (rreach_inv _ _ _ _ _ _ Hsz Hr ltac:(lia)) as (Hk0 & Hc & a & Hi & <-).
  pose proof (ri_reassembler _ _ _ _ _ Hi) as Hra. pose proof (ri_capacity _ _ _ _ _ Hi) as Hcp.
  pose proof (ri_acked _ _ _ _ _ Hi Hset) as Hak. pose proof Hseg as [Hp0 Hseq Hsyn Hd _].
  assert (Ed : data_index pos = pos - 1) by (unfold data_index; case_bool; lia).
  assert (Esyn : syn (header seg) = false) by (rewrite Hsyn; by apply Z.eqb_neq; lia).
  assert (Hv : valid_push s (_reassembler r) (str (payload seg)) (data_index pos) (fin (header seg)))
    by (split; [done|by rewrite Hfin]).
  destruct (push_inv s k _ a _ _ _ Hra ltac:(lia) Hv) as (ra & a' & E & Hi' & _ & _ & _ & _ & Hct & Hcov).
  destruct (push_frontier _ _ _ _ _ _ _ _ _ _ Hra Hi' Hct Hcov) as [[_ Hmax] _].
  assert (push_substring (_reassembler r) (str (payload seg)) (data_index pos) (fin (header seg)) = Ok ra) as Ep.
  { rewrite E. case_bool; [done|]. by destruct (total_over_read (len (s_read a) +
      StreamReassembler._capacity (_reassembler r))) as [w ->]. }
  rewrite (segment_received_eq _ _ _ _ _ _ _ ra Hi Hisn Hseg); try done;
    [|right; unfold in_reach; lia|by rewrite Hset].
  eexists. split; [done|]. destruct Hd as (Hd1 & Hd2 & _). rewrite Ed in *.
  unfold update_checkpoint. cbn [_checkpoint]. rewrite Esyn, <- Hpos, Z.eqb_refl, orb_true_r.
  cbn [set_checkpoint _checkpoint _reassembler]. rewrite segment_length, Esyn, Hfin by lia.
  cbn [Z.b2z]. rewrite !Z.add_0_r, (u64_small (pos + _)) by lia. unfold left in *.
  pose proof (inv_first _ _ _ _ Hi'). rewrite (u64_small (_ + 1)) by lia.
  case_bool; [lia|]. cbn [_reassembler set_checkpoint]. unfold ackno. simpl.
  destruct isn; simpl. split_and!; [done|lia..].
Qed.

(** An overlapping retransmission is stored but not acknowledged: a segment
    that starts before the acknowledgment number (and is not the SYN) leaves the
    acknowledgment where it was, even when its payload moves the assembled
    prefix past it. *)
Theorem receiver_overlap_not_acked {mem : OverRead} {total : TotalOverRead mem}
    s isn capacity k r out seg pos :
  sizes_ok s isn capacity -> k < 2 ^ 64 - 1 -> rreach s isn capacity k r out ->
  sender_segment s isn pos seg -> acceptable s pos r seg -> _is_set r = true ->
  0 < pos < _checkpoint r ->
  exists r', segment_received r seg = Ok r' /\ ackno r' = ackno r /\
    pos - 1 + len (str (payload seg)) <= left (_reassembler r').
Proof.
  intros Hsz Hk Hr Hseg Hacc Hset Hpos. pose proof Hsz as (_ & _ & Hisn).
  destruct (rreach_inv _ _ _ _ _ _ Hsz Hr ltac:(lia)) as (Hk0 & _ & a & Hi & _).
  assert (Eset : _is_set r || syn (header seg) = true) by (by rewrite Hset).
  destruct (segment_push _ _ _ _ _ _ _ Hi ltac:(lia) Hseg Hacc) as (ra & a1 & E1 & _ & _ & _ & _ & _ & _ & Hfr).
  pose proof (segment_received_eq _ _ _ _ _ _ _ _ Hi Hisn Hseg (ac_reach _ _ _ _ Hacc) Eset E1) as E.
  pose proof (ri_acked _ _ _ _ _ Hi Hset) as Hc. pose proof (ri_isn _ _ _ _ _ Hi Hset) as Hin.
  pose proof Hseg as [_ _ Hsyn (_ & Hd & _) _]. rewrite E. eexists. split; [done|].
  replace (pos =? 0) with false in Hsyn by (symmetry; apply Z.eqb_neq; lia). rewrite Hsyn.
  unfold update_checkpoint. cbn [_checkpoint].
  replace (pos =? 0) with false by (symmetry; apply Z.eqb_neq; lia).
  replace (pos =? _checkpoint r) with false by (symmetry; apply Z.eqb_neq; lia).
  cbn [orb]. unfold ackno; simpl. rewrite Hset, Hin. split; [done|].
  unfold data_index in *. destruct (Z.eqb_spec pos 0); [lia|].
  apply Hfr. unfold fin_taken in Hc. repeat case_bool; lia.
Qed.

(** The four states: a reachable receiver whose output has no error is in
    [LISTEN] before the SYN (and ignores every segment without SYN), in
    [FIN_RECV] when the final byte and the FIN have been received, and in
    [SYN_RECV] otherwise. *)
Theorem receiver_state {mem : OverRead} {total : TotalOverRead mem} s isn capacity k r out :
  sizes_ok s isn capacity -> k < 2 ^ 64 -> rreach s isn capacity k r out ->
  ByteStream.error (stream_out r) = false ->
  state r = (if negb (_is_set r) then LISTEN
             else if _ended r && (left (_reassembler r) =? len s) then FIN_RECV else SYN_RECV) /\
  (state r = LISTEN -> forall seg, syn (header seg) = false -> segment_received r seg = Ok r).
Proof.
  intros Hsz Hk Hr Herr.
  destruct (rreach_inv _ _ _ _ _ _ Hsz Hr Hk) as (_ & _ & a & Hi & _).
  pose proof (rinv_state _ _ _ _ _ Hi Herr) as Est.
  split; [done|]. rewrite Est. destruct (_is_set r) eqn:Es; simpl; [by case_bool|].
  intros _ seg Hsyn. by apply segment_ignored.
Qed.

(** ** A small connection

    The stream is two bytes and the ISN is 7; [demo_syn], [demo_a], [demo_ab] and
    [demo_b_fin] are segments of it. *)
Definition demo_isn : WrappingInt32 := mkWrappingInt32 7.

Definition demo_segment (is_syn is_fin : bool) (pos : Z) (data : list byte) : TCPSegment :=
  set_payload (set_seqno (wrap pos demo_isn) (set_fin is_fin (set_syn is_syn TCPSegment_default)))
    (Buffer_of data).

Definition demo_syn : TCPSegment := demo_segment true false 0 [].
Definition demo_a : TCPSegment := demo_segment false false 1 [Byte.x61].
Definition demo_ab : TCPSegment := demo_segment false false 1 [Byte.x61; Byte.x62].
Definition demo_b_fin : TCPSegment := demo_segment false true 2 [Byte.x62].

Definition demo_receive (r : TCPReceiver) (seg : TCPSegment) : TCPReceiver :=
  match segment_received (mem := word_over_read 0) r seg with Ok r' => r' | _ => r end.

Definition demo_r1 (capacity : Z) : TCPReceiver := demo_receive (new capacity) demo_syn.
Definition demo_r2 : TCPReceiver := demo_receive (demo_r1 4) demo_a.

Ltac demo_segment_ok :=
  constructor; [vm_compute; congruence | reflexivity | reflexivity
    | split_and!; vm_compute; congruence | intros E; vm_compute in E; vm_compute; congruence].

Lemma demo_syn_ok : sender_segment demo_stream demo_isn 0 demo_syn.
Proof. demo_segment_ok. Qed.
Lemma demo_a_ok : sender_segment demo_stream demo_isn 1 demo_a.
Proof. demo_segment_ok. Qed.
Lemma demo_ab_ok : sender_segment demo_stream demo_isn 1 demo_ab.
Proof. demo_segment_ok. Qed.
Lemma demo_b_fin_ok : sender_segment demo_stream demo_isn 2 demo_b_fin.
Proof. demo_segment_ok. Qed.

Lemma demo_sizes capacity : 0 <= capacity < 2 ^ 62 -> sizes_ok demo_stream demo_isn capacity.
Proof. intros. split_and!; simpl; (lia || done). Qed.

Ltac demo_acceptable :=
  constructor; [(by left) || (right; split; vm_compute; [congruence | left; congruence])
    | vm_compute; congruence
    | intros E; vm_compute in E; (discriminate || (left; vm_compute; congruence))].

Lemma demo_r1_reach capacity :
  capacity = 1 \/ capacity = 4 ->
  rreach (H := word_over_read 0) demo_stream demo_isn capacity 1 (demo_r1 capacity) [].
Proof.
  intros Hc. apply (rreach_segment (H := word_over_read 0) _ _ _ 0 (new capacity) [] 0 demo_syn);
    [constructor | apply demo_syn_ok | destruct Hc as [-> | ->]; demo_acceptable
    | destruct Hc as [-> | ->]; vm_compute; reflexivity].
Qed.

Lemma demo_r2_reach : rreach (H := word_over_read 0) demo_stream demo_isn 4 2 demo_r2 [].
Proof.
  apply (rreach_segment (H := word_over_read 0) _ _ _ 1 (demo_r1 4) [] 1 demo_a);
    [apply demo_r1_reach; by right | apply demo_a_ok | demo_acceptable | vm_compute; reflexivity].
Qed.

Lemma receiver_acks_only_received_witness :
  exists c buffered, mkWrappingInt32 9 = wrap c demo_isn /\ 1 <= c /\
    peek_output (stream_out demo_r2) (buffer_size (stream_out demo_r2)) = Ok buffered /\
    [] ++ buffered = ztake (left (_reassembler demo_r2)) demo_stream /\
    (c - 1 <= left (_reassembler demo_r2) \/
     (c = len demo_stream + 2 /\ left (_reassembler demo_r2) = len demo_stream /\
      input_ended (stream_out demo_r2) = true)).
Proof.
  apply (receiver_acks_only_received (mem := word_over_read 0) demo_stream demo_isn 4 2 demo_r2 []);
    [apply demo_sizes; lia | lia | apply demo_r2_reach | vm_compute; reflexivity].
Defined.

Lemma receiver_in_order_progress_witness :
  exists r' c, segment_received (mem := word_over_read 0) demo_r2 demo_b_fin = Ok r' /\
    rreach (H := word_over_read 0) demo_stream demo_isn 4 (2 + 1) r' [] /\
    ackno r' = Some (wrap c demo_isn) /\ 2 + length_in_sequence_space demo_b_fin <= c /\
    left (_reassembler demo_r2) <= left (_reassembler r') /\
    (_ended r' = false -> c = left (_reassembler r') + 1) /\
    left (_reassembler r') + 1 <= c <= left (_reassembler r') + 2.
Proof.
  apply (receiver_in_order_progress (mem := word_over_read 0) demo_stream demo_isn 4 2 demo_r2 []
    demo_b_fin 2);
    [apply demo_sizes; lia | lia | apply demo_r2_reach | apply demo_b_fin_ok | demo_acceptable |
     right; split; vm_compute; reflexivity].
Defined.

Lemma receiver_window_witness :
  left (_reassembler demo_r2) + window_size demo_r2 = len (@nil byte) + 4 /\
  0 <= window_size demo_r2 <= 4.
Proof.
  apply (receiver_window (mem := word_over_read 0) demo_stream demo_isn 4 2 demo_r2 []);
    [apply demo_sizes; lia | lia | apply demo_r2_reach].
Defined.

Lemma receiver_acks_discarded_witness :
  exists r', segment_received (mem := word_over_read 0) (demo_r1 1) demo_ab = Ok r' /\
    ackno r' = Some (wrap (1 + len (str (payload demo_ab))) demo_isn) /\
    left (_reassembler r') <= len (@nil byte) + 1 /\
    left (_reassembler r') + 1 < 1 + len (str (payload demo_ab)).
Proof.
  apply (receiver_acks_discarded (mem := word_over_read 0) demo_stream demo_isn 1 1 (demo_r1 1) []
    demo_ab 1);
    [apply demo_sizes; lia | lia | apply demo_r1_reach; by left | apply demo_ab_ok
    | vm_compute; reflexivity | vm_compute; reflexivity | reflexivity | vm_compute; reflexivity].
Defined.

Lemma receiver_overlap_not_acked_witness :
  exists r', segment_received (mem := word_over_read 0) demo_r2 demo_ab = Ok r' /\
    ackno r' = ackno demo_r2 /\
    1 - 1 + len (str (payload demo_ab)) <= left (_reassembler r').
Proof.
  apply (receiver_overlap_not_acked (mem := word_over_read 0) demo_stream demo_isn 4 2 demo_r2 []
    demo_ab 1);
    [apply demo_sizes; lia | lia | apply demo_r2_reach | apply demo_ab_ok | demo_acceptable
    | vm_compute; reflexivity | vm_compute; split; congruence].
Defined.

Lemma receiver_state_witness :
  state demo_r2 = (if negb (_is_set demo_r2) then LISTEN
     else if _ended demo_r2 && (left (_reassembler demo_r2) =? len demo_stream)
          then FIN_RECV else SYN_RECV) /\
  (state demo_r2 = LISTEN -> forall seg, syn (header seg) = false ->
     segment_received (mem := word_over_read 0) demo_r2 seg = Ok demo_r2).
Proof.
  apply (receiver_state (mem := word_over_read 0) demo_stream demo_isn 4 2 demo_r2 []);
    [apply demo_sizes; lia | lia | apply demo_r2_reach | vm_compute; reflexivity].
Defined.

(** A FIN without payload that overtakes the data ends the stream at once, and
    the data that follows is acknowledged and lost: after SYN 100 and FIN 104 the
    output has ended without a byte; "abc" at 101 then moves the acknowledgment
    number to 104 while nothing can be read. *)
Example receiver_early_fin_loses :
  let numbered n := set_seqno (mkWrappingInt32 n) in
  let data := Buffer_of [Byte.x61; Byte.x62; Byte.x63] in
  exists r1 r2 r3,
    segment_received (mem := word_over_read 0) (new 10)
      (numbered 100 (set_syn true TCPSegment_default)) = Ok r1 /\
    segment_received (mem := word_over_read 0) r1
      (numbered 104 (set_fin true TCPSegment_default)) = Ok r2 /\
    eof (stream_out r2) = true /\ bytes_written (stream_out r2) = 0 /\
    segment_received (mem := word_over_read 0) r2
      (numbered 101 (set_payload TCPSegment_default data)) = Ok r3 /\
    ackno r3 = Some (mkWrappingInt32 104) /\ buffer_size (stream_out r3) = 0.
Proof. eexists _, _, _. cbv zeta. repeat (split; [vm_compute; reflexivity|]). vm_compute. reflexivity. Qed.
