(* ===== verification/TCPSendingWindow.v ===== *)
(** * The sending window

    Model of [libsponge/tcp_sending_window.hh] and [.cc]: the segments sent and
    not fully acknowledged, each with its own timer, and the absolute sequence
    numbers between which they lie. *)

From S2P Require Import Prelude WrappingIntegers Buffer TCPHeader TCPSegment.

Record TCPSegmentForSender := mkForSender { segment : TCPSegment; remaining_rto : Z }.

Record TCPSendingWindow := mkWindow {
  _buffer : list TCPSegmentForSender;
  _isn : WrappingInt32;
  _first_seqno : Z;
  _window_size : Z;
  _next_seqno : Z
}.

Definition new (isn : WrappingInt32) (window_size : Z) : TCPSendingWindow :=
  mkWindow [] isn 0 window_size 0.

Definition set_buffer (w : TCPSendingWindow) (b : list TCPSegmentForSender) : TCPSendingWindow :=
  mkWindow b (_isn w) (_first_seqno w) (_window_size w) (_next_seqno w).

Definition _set_window_size (w : TCPSendingWindow) (window_size : Z) : TCPSendingWindow :=
  mkWindow (_buffer w) (_isn w) (_first_seqno w) window_size (_next_seqno w).

Definition _shrink_front (w : TCPSendingWindow) (size : Z) : outcome TCPSendingWindow :=
  if _window_size w <? size then
    Throw (runtime_error "Cannot shrink window by more than its size")
  else
    mret (mkWindow (_buffer w) (_isn w) (u64 (_first_seqno w + size)) (u64 (_window_size w - size))
      (_next_seqno w)).

Definition _expand_back (w : TCPSendingWindow) (size : Z) : TCPSendingWindow :=
  _set_window_size w (u64 (_window_size w + size)).

Definition _advance (w : TCPSendingWindow) (size : Z) : outcome TCPSendingWindow :=
  _shrink_front (_expand_back w size) size.

Definition isn (w : TCPSendingWindow) : WrappingInt32 := _isn w.
Definition buffer_empty (w : TCPSendingWindow) : bool := bool_decide (_buffer w = []).
Definition buffer_size (w : TCPSendingWindow) : Z := len (_buffer w).
Definition first_seqno (w : TCPSendingWindow) : Z := _first_seqno w.
Definition next_seqno (w : TCPSendingWindow) : Z := _next_seqno w.
Definition window_closed (w : TCPSendingWindow) : bool := _window_size w =? 0.
Definition window_size (w : TCPSendingWindow) : Z := _window_size w.
Definition bytes_in_flight (w : TCPSendingWindow) : Z := u64 (_next_seqno w - _first_seqno w).
(** Unsigned: a window smaller than what is in flight wraps around. *)
Definition space (w : TCPSendingWindow) : Z := u64 (_window_size w - bytes_in_flight w).

Definition full (w : TCPSendingWindow) : bool :=
  if window_closed w then true
  else if buffer_empty w then false
  else space w <=? 0.

(** [rto] is a [uint32_t] parameter. *)
Definition add_segment (w : TCPSendingWindow) (seg : TCPSegment) (rto : Z) :
    outcome TCPSendingWindow :=
  if full w then Throw (runtime_error "Cannot add segment to full window")
  else
    mret (mkWindow (_buffer w ++ [mkForSender seg (u32 rto)]) (_isn w) (_first_seqno w)
      (_window_size w)
      (u64 (unwrap (seqno (header seg)) (_isn w) (_next_seqno w) + length_in_sequence_space seg))).

(** The absolute sequence number of a stored segment, as the class computes it. *)
Definition seg_seqno (w : TCPSendingWindow) (x : TCPSegmentForSender) : Z :=
  unwrap (seqno (header (segment x))) (_isn w) (_next_seqno w).

(** The [for] loop of [ack_received] down the first [n] elements: the index it
    stops at, [None] when it runs off the front ([size_t(-1)]). *)
Fixpoint ack_loop (w : TCPSendingWindow) (ack_seqno : Z) (n : nat) : outcome (option nat) :=
  match n with
  | O => mret None
  | S i =>
      s ← vec_get (_buffer w) (Z.of_nat i);
      if ack_seqno >? seg_seqno w s then mret (Some i) else ack_loop w ack_seqno i
  end.

Definition ack_received (w : TCPSendingWindow) (ackno : WrappingInt32) (window_size : Z) :
    outcome (bool * TCPSendingWindow) :=
  let ack_seqno := unwrap ackno (_isn w) (_next_seqno w) in
  if (ack_seqno >? _next_seqno w) || (ack_seqno <? _first_seqno w) then mret (false, w)
  else if ack_seqno =? _first_seqno w then mret (false, _set_window_size w window_size)
  else
    i ← ack_loop w ack_seqno (length (_buffer w));
    match i with
    | None => UB
    | Some i =>
        let w := set_buffer w (drop i (_buffer w)) in
        front ← vec_get (_buffer w) 0;
        let w :=
          if ack_seqno >=? u64 (seg_seqno w front + length_in_sequence_space (segment front))
          then set_buffer w (drop 1 (_buffer w)) else w in
        w ← _advance w (u64 (unwrap ackno (_isn w) (_next_seqno w) - _first_seqno w));
        mret (true, _set_window_size w window_size)
    end.

(** One element of the [for] loop of [tick]. *)
Definition tick_one (ms_elapsed : Z) (x : TCPSegmentForSender) : TCPSegmentForSender :=
  if remaining_rto x >? ms_elapsed then mkForSender (segment x) (u32 (remaining_rto x - ms_elapsed))
  else x.
Definition expired (ms_elapsed : Z) (x : TCPSegmentForSender) : bool :=
  negb (remaining_rto x >? ms_elapsed).

Definition tick (w : TCPSendingWindow) (ms_elapsed : Z) : TCPSendingWindow * list TCPSegment :=
  (set_buffer w (tick_one ms_elapsed <$> _buffer w),
   segment <$> filter (fun x => expired ms_elapsed x) (_buffer w)).

Definition reset_timer (w : TCPSendingWindow) (rto : Z) : TCPSendingWindow :=
  set_buffer w ((fun x => mkForSender (segment x) (u32 rto)) <$> _buffer w).

(** ** What the window holds

    [chain isn buf a b]: the segments of [buf] are consecutive and occupy the
    absolute sequence numbers from [a] up to [b]. *)
Fixpoint chain (isn : WrappingInt32) (buf : list TCPSegmentForSender) (a b : Z) : Prop :=
  match buf with
  | [] => a = b
  | x :: rest =>
      seqno (header (segment x)) = wrap a isn /\
      1 <= length_in_sequence_space (segment x) /\
      chain isn rest (a + length_in_sequence_space (segment x)) b
  end.

(** The segments that end after [m]: those an acknowledgment of [m] keeps. *)
Fixpoint unacked (m a : Z) (buf : list TCPSegmentForSender) : list TCPSegmentForSender :=
  match buf with
  | [] => []
  | x :: rest =>
      if a + length_in_sequence_space (segment x) <=? m
      then unacked m (a + length_in_sequence_space (segment x)) rest
      else x :: rest
  end.

Fixpoint unacked_start (m a : Z) (buf : list TCPSegmentForSender) : Z :=
  match buf with
  | [] => a
  | x :: rest =>
      if a + length_in_sequence_space (segment x) <=? m
      then unacked_start m (a + length_in_sequence_space (segment x)) rest
      else a
  end.

Lemma chain_le isn buf : forall a b, chain isn buf a b -> a + len buf <= b.
Proof.
  induction buf as [|x buf IH]; intros a b; simpl; [lia|].
  intros (_ & Hl & H%IH). lia.
Qed.

Lemma chain_app isn l r : forall a b,
  chain isn (l ++ r) a b <-> exists p, chain isn l a p /\ chain isn r p b.
Proof.
  induction l as [|x l IH]; intros a b; simpl.
  - split; [by exists a|]. by intros (p & -> & ?).
  - rewrite IH. split.
    + intros (H1 & H2 & p & H3 & H4). by exists p.
    + intros (p & (H1 & H2 & H3) & H4). split_and!; [done..|]. by exists p.
Qed.

(** Where the [j]th segment of a chain starts. *)
Lemma chain_start isn buf j x : forall a b,
  chain isn buf a b -> buf !! j = Some x ->
  exists p, a <= p < b /\ seqno (header (segment x)) = wrap p isn.
Proof.
  revert j. induction buf as [|y buf IH]; intros j a b Hc Hj; [done|].
  destruct Hc as (Hs & Hl & Hc). pose proof (chain_le _ _ _ _ Hc). destruct j as [|j].
  - simpl in Hj. simplify_eq. exists a. split; [lia|done].
  - destruct (IH j _ _ Hc Hj) as (p & Hp & E). exists p. split; [lia|done].
Qed.

(** The segment in which [m] lies, or which it ends. *)
Lemma chain_split isn buf m : forall a b,
  chain isn buf a b -> a < m <= b ->
  exists l x r p, buf = l ++ x :: r /\ chain isn l a p /\ chain isn (x :: r) p b /\
    p < m <= p + length_in_sequence_space (segment x).
Proof.
  induction buf as [|x buf IH]; intros a b Hc Hm; simpl in Hc; [lia|].
  destruct (decide (m <= a + length_in_sequence_space (segment x))).
  - exists [], x, buf, a. simpl. split_and!; (done || tauto || lia).
  - destruct Hc as (Hs & Hl & Hc). destruct (IH _ _ Hc) as (l & y & r & p & -> & H1 & H2 & H3); [lia|].
    exists (x :: l), y, r, p. split; [done|]. split; [done|]. by split.
Qed.

Lemma unacked_length m a buf : (length (unacked m a buf) <= length buf)%nat.
Proof.
  revert a. induction buf as [|x buf IH]; intros a; simpl; [lia|]. case_bool; [|simpl; lia].
  specialize (IH (a + length_in_sequence_space (segment x))). lia.
Qed.

Lemma unacked_none isn m buf : forall a b, chain isn buf a b -> m <= a -> unacked m a buf = buf /\ unacked_start m a buf = a.
Proof.
  destruct buf as [|x buf]; intros a b Hc Hm; simpl in *; [done|].
  destruct Hc as (_ & Hl & _). case_bool; [lia|done].
Qed.

Lemma unacked_skip isn m l r : forall a p,
  chain isn l a p -> p <= m ->
  unacked m a (l ++ r) = unacked m p r /\ unacked_start m a (l ++ r) = unacked_start m p r.
Proof.
  induction l as [|x l IH]; intros a p Hc Hm; simpl in *; [by subst|].
  destruct Hc as (_ & Hl & Hc). pose proof (chain_le _ _ _ _ Hc). case_bool; [|lia]. by apply IH.
Qed.

(** What is left is a chain from [unacked_start]. *)
Lemma unacked_chain isn m buf : forall a b,
  chain isn buf a b -> a <= m <= b ->
  chain isn (unacked m a buf) (unacked_start m a buf) b /\
  a <= unacked_start m a buf <= m /\
  unacked m (unacked_start m a buf) (unacked m a buf) = unacked m a buf.
Proof.
  induction buf as [|x buf IH]; intros a b Hc Hm; simpl in *; [split_and!; (done || lia)|].
  case_bool.
  - destruct (IH _ _ (proj2 (proj2 Hc))) as (H1 & H2 & H3); [lia|]. split_and!; (done || lia).
  - simpl. split_and!; try tauto; try lia. by case_bool; [lia|].
Qed.

(** ** The invariant *)

(** [a] is where the oldest stored segment starts; [_first_seqno] may lie inside
    it, after a partial acknowledgment. *)
Record winv (w : TCPSendingWindow) (a : Z) : Prop := {
  wn_isn : wi_valid (_isn w);
  wn_chain : chain (_isn w) (_buffer w) a (_next_seqno w);
  wn_first : a <= _first_seqno w <= _next_seqno w;
  wn_pending : unacked (_first_seqno w) a (_buffer w) = _buffer w;
  wn_bounds : 0 <= a /\ _next_seqno w < 2 ^ 62 /\ 0 <= _window_size w < 2 ^ 62;
  wn_reach : in_reach (_next_seqno w) a
}.

Lemma new_winv i n : wi_valid i -> 0 <= n < 2 ^ 62 -> winv (new i n) 0.
Proof. intros. constructor; simpl; try done; try lia. apply in_reach_refl. Qed.

Lemma winv_empty w a : winv w a -> _buffer w = [] <-> _first_seqno w = _next_seqno w.
Proof.
  intros [_ Hc Hf Hp _ _]. destruct (_buffer w) as [|x buf]; simpl in *; [split; [lia|done]|].
  split; [done|]. intros E. destruct Hc as (_ & Hl & Hc%chain_le). case_bool; [|lia].
  pose proof (unacked_length (_first_seqno w) (a + length_in_sequence_space (segment x)) buf) as Hlen.
  rewrite Hp in Hlen. simpl in Hlen. lia.
Qed.

Lemma winv_in_flight w a : winv w a -> bytes_in_flight w = _next_seqno w - _first_seqno w.
Proof. intros [_ _ Hf _ Hb _]. unfold bytes_in_flight. apply u64_small. lia. Qed.

Lemma reach_between w a m : winv w a -> a <= m <= _next_seqno w -> in_reach (_next_seqno w) m.
Proof. intros [_ _ _ _ _ [??]] Hm. unfold in_reach. lia. Qed.

Lemma seg_seqno_eq w a x p :
  winv w a -> a <= p <= _next_seqno w -> seqno (header (segment x)) = wrap p (_isn w) ->
  seg_seqno w x = p.
Proof.
  intros Hw Hp E. unfold seg_seqno. rewrite E. pose proof (wn_bounds _ _ Hw).
  apply unwrap_in_reach; [lia..|]. by eapply reach_between.
Qed.

(** ** The operations *)

Lemma ack_loop_stops w m i x : forall n,
  (i < n <= length (_buffer w))%nat -> _buffer w !! i = Some x -> seg_seqno w x < m ->
  (forall j y, (i < j < n)%nat -> _buffer w !! j = Some y -> m <= seg_seqno w y) ->
  ack_loop w m n = Ok (Some i).
Proof.
  induction n as [|n IH]; intros Hn Hi Hx Hy; [lia|]. cbn [ack_loop].
  destruct (lookup_lt_is_Some_2 (_buffer w) n) as [y Hy']; [lia|].
  rewrite (vec_get_ok _ _ y) by (rewrite ?Nat2Z.id; done || lia). cbn [mbind outcome_bind].
  destruct (decide (n = i)) as [->|Hne].
  - simplify_eq. by case_bool; [|lia].
  - specialize (Hy n y ltac:(lia) Hy') as Hge. case_bool; [lia|]. apply IH; [lia|done..|].
    intros j z Hj. apply Hy. lia.
Qed.

Lemma advance_eq w size :
  0 <= _window_size w -> _window_size w + size < 2 ^ 64 -> 0 <= size ->
  _advance w size =
    Ok (mkWindow (_buffer w) (_isn w) (u64 (_first_seqno w + size)) (_window_size w) (_next_seqno w)).
Proof.
  intros H1 H2 H3. unfold _advance, _shrink_front, _expand_back. simpl. rewrite (u64_small (_ + size)) by lia.
  case_bool; [lia|]. by rewrite Z.add_simpl_r, (u64_small (_window_size w)) by lia.
Qed.

(** An acknowledgment of new data removes what it covers. *)
Lemma ack_new w a m n :
  winv w a -> _first_seqno w < m <= _next_seqno w ->
  ack_received w (wrap m (_isn w)) n =
    Ok (true, mkWindow (unacked m a (_buffer w)) (_isn w) m n (_next_seqno w)).
Proof.
  intros Hw Hm. pose proof Hw as [Hi Hc Hf Hp (Hb1 & Hb2 & Hb3) _].
  assert (Em : unwrap (wrap m (_isn w)) (_isn w) (_next_seqno w) = m).
  { apply unwrap_in_reach; [lia..|]. eapply reach_between; [done|lia]. }
  unfold ack_received. rewrite Em. case_bool; [lia|]. case_bool; [lia|].
  destruct (chain_split _ _ m _ _ Hc) as (l & x & r & p & El & Hl & Hr & Hpm); [lia|].
  pose proof (chain_le _ _ _ _ Hl). pose proof (chain_le _ _ _ _ Hr).
  assert (Ex : seg_seqno w x = p).
  { eapply seg_seqno_eq; [done|lia|]. apply Hr. }
  rewrite (ack_loop_stops w m (length l) x); cycle 1.
  { rewrite El, length_app. simpl. lia. }
  { rewrite El. by apply list_lookup_middle. }
  { lia. }
  { intros j y Hj Hy. rewrite El, lookup_app_r in Hy by lia.
    destruct (j - length l)%nat as [|k] eqn:Ek; [lia|]. simpl in Hy.
    destruct Hr as (_ & Hlx & Hr). destruct (chain_start _ _ _ _ _ _ Hr Hy) as (q & Hq & Eq).
    rewrite (seg_seqno_eq w a y q) by (done || lia). lia. }
  cbn [mbind outcome_bind]. unfold set_buffer. cbn [_buffer _isn _first_seqno _window_size _next_seqno].
  rewrite El, drop_app_length. rewrite (vec_get_ok _ 0 x) by done. cbn [mbind outcome_bind].
  unfold seg_seqno in *. cbn [_isn _next_seqno]. rewrite Ex.
  destruct (unacked_skip _ m l (x :: r) _ _ Hl) as [-> _]; [lia|]. cbn [unacked drop].
  destruct Hr as (_ & Hlx & Hr). pose proof (chain_le _ _ _ _ Hr).
  rewrite (u64_small (p + _)) by lia. rewrite Z.geb_leb.
  destruct (Z.leb_spec (p + length_in_sequence_space (segment x)) m);
    cbn [_isn _next_seqno _first_seqno]; rewrite Em, (u64_small (m - _)) by lia;
    rewrite advance_eq by (simpl; lia); cbn [mbind outcome_bind mret outcome_ret];
    unfold _set_window_size; cbn [_buffer _isn _first_seqno _next_seqno];
    rewrite u64_small by lia; rewrite Zplus_minus; [|done].
  destruct (unacked_none _ m r _ _ Hr) as [-> _]; [lia|done].
Qed.

(** What an acknowledgment of the absolute number [m] does, on every branch. *)
Definition acked (w : TCPSendingWindow) (a m n : Z) : bool * TCPSendingWindow :=
  if (m >? _next_seqno w) || (m <? _first_seqno w) then (false, w)
  else if m =? _first_seqno w then (false, _set_window_size w n)
  else (true, mkWindow (unacked m a (_buffer w)) (_isn w) m n (_next_seqno w)).

Lemma ack_received_eq w a m n :
  winv w a -> 0 <= m < 2 ^ 64 -> in_reach (_next_seqno w) m ->
  ack_received w (wrap m (_isn w)) n = Ok (acked w a m n).
Proof.
  intros Hw Hm Hr. pose proof (wn_bounds _ _ Hw). pose proof (wn_first _ _ Hw). unfold acked.
  destruct ((m >? _next_seqno w) || (m <? _first_seqno w)) eqn:E1;
    [|destruct (Z.eqb_spec m (_first_seqno w)) as [E2|E2]].
  3: { apply ack_new; [done|]. lia. }
  all: unfold ack_received; rewrite unwrap_in_reach, E1 by (done || lia); try done.
  destruct (Z.eqb_spec m (_first_seqno w)); [done|lia].
Qed.

Lemma acked_winv w a m n :
  winv w a -> 0 <= n < 2 ^ 62 ->
  exists a', winv (acked w a m n).2 a' /\ a <= a' /\ _next_seqno (acked w a m n).2 = _next_seqno w /\
    _isn (acked w a m n).2 = _isn w.
Proof.
  intros Hw Hn. unfold acked. destruct ((m >? _next_seqno w) || (m <? _first_seqno w)) eqn:E1;
    [|destruct (Z.eqb_spec m (_first_seqno w)) as [E2|E2]].
  - exists a. split_and!; (done || lia).
  - exists a. split; [|split_and!; (done || lia)]. destruct Hw. constructor; simpl; try done; lia.
  - destruct Hw as [Hi Hc Hf Hp (Hb1 & Hb2 & Hb3) [Hr1 Hr2]].
    destruct (unacked_chain _ m _ _ _ Hc) as (H1 & H2 & H3); [lia|].
    exists (unacked_start m a (_buffer w)). simpl. split; [|split_and!; (done || lia)].
    constructor; simpl; try done; try lia. unfold in_reach. lia.
Qed.

(** Adding a segment at [_next_seqno] extends the chain. *)
Lemma add_segment_eq w a seg rto :
  winv w a -> full w = false -> seqno (header seg) = wrap (_next_seqno w) (_isn w) ->
  0 <= length_in_sequence_space seg < 2 ^ 32 ->
  add_segment w seg rto =
    Ok (mkWindow (_buffer w ++ [mkForSender seg (u32 rto)]) (_isn w) (_first_seqno w)
          (_window_size w) (_next_seqno w + length_in_sequence_space seg)).
Proof.
  intros Hw Hf Es Hl. pose proof (wn_bounds _ _ Hw). pose proof (wn_first _ _ Hw).
  unfold add_segment. rewrite Hf, Es, unwrap_in_reach by (lia || apply in_reach_refl).
  rewrite u64_small by lia. done.
Qed.

Lemma unacked_app_pending m a buf x :
  buf <> [] -> unacked m a buf = buf -> unacked m a (buf ++ x) = buf ++ x.
Proof.
  destruct buf as [|y buf]; [done|]. intros _. simpl. case_bool; [|done]. intros E.
  pose proof (unacked_length m (a + length_in_sequence_space (segment y)) buf) as Hl.
  rewrite E in Hl. simpl in Hl. lia.
Qed.

Lemma add_segment_winv w a seg t :
  winv w a -> seqno (header seg) = wrap (_next_seqno w) (_isn w) ->
  let n := length_in_sequence_space seg in
  1 <= n -> _next_seqno w + n < 2 ^ 62 -> in_reach (_next_seqno w + n) a ->
  winv (mkWindow (_buffer w ++ [mkForSender seg t]) (_isn w) (_first_seqno w) (_window_size w)
          (_next_seqno w + n)) a.
Proof.
  intros Hw Es n Hn Hb Hr. pose proof (winv_empty w a Hw) as He.
  destruct Hw as [Hi Hc Hf Hp (Hb1 & Hb2 & Hb3) _]. constructor; simpl; try done; try lia.
  - apply chain_app. exists (_next_seqno w). split; [done|]. simpl. done.
  - destruct (_buffer w) as [|x buf] eqn:E; [|by rewrite unacked_app_pending].
    simpl. fold n. case_bool; [|done]. destruct He as [He _]. specialize (He eq_refl). simpl in Hc. lia.
Qed.

(** Timers do not matter to the window's positions. *)
Section timers.
  Context (g : TCPSegmentForSender -> TCPSegmentForSender) (Hg : forall x, segment (g x) = segment x).

Lemma chain_fmap i buf : forall a b, chain i (g <$> buf) a b <-> chain i buf a b.
Proof. induction buf as [|x buf IH]; intros a b; simpl; [done|]. by rewrite !Hg, IH. Qed.

Lemma unacked_fmap m buf : forall a, unacked m a (g <$> buf) = g <$> unacked m a buf.
Proof. induction buf as [|x buf IH]; intros a; simpl; [done|]. rewrite !Hg. by case_bool. Qed.

Lemma winv_fmap w a : winv w a -> winv (set_buffer w (g <$> _buffer w)) a.
Proof.
  intros [Hi Hc Hf Hp Hb Hr]. constructor; simpl; try done.
  - by apply chain_fmap.
  - by rewrite unacked_fmap, Hp.
Qed.
End timers.

Lemma tick_one_segment ms x : segment (tick_one ms x) = segment x.
Proof. unfold tick_one. by case_bool. Qed.

Lemma unacked_suffix m buf : forall a, unacked m a buf `suffix_of` buf.
Proof.
  induction buf as [|x buf IH]; intros a; simpl; [done|]. case_bool; [|done].
  by apply suffix_cons_r.
Qed.

(** ** Properties *)

(** C22. What an acknowledgment does to the window, on every branch: outside
    [_first_seqno, _next_seqno] it is ignored; a repeated one only sets the window
    size; a new one moves [_first_seqno], sets the window size and removes exactly
    the segments it covers completely, keeping a partly acknowledged one.  The
    stored segments stay a gapless chain up to [_next_seqno], and nothing throws. *)
Theorem window_ack_received w a m n :
  winv w a -> 0 <= m < 2 ^ 64 -> in_reach (_next_seqno w) m -> 0 <= n < 2 ^ 16 ->
  ack_received w (wrap m (_isn w)) n = Ok (acked w a m n) /\
  exists a', winv (acked w a m n).2 a' /\ a <= a' /\
    _next_seqno (acked w a m n).2 = _next_seqno w.
Proof.
  intros Hw Hm Hr Hn. split; [by apply ack_received_eq|].
  destruct (acked_winv w a m n Hw ltac:(lia)) as (a' & H1 & H2 & H3 & _). by exists a'.
Qed.

(** A window of capacity 10 with two segments of three bytes in flight. *)
Definition win_isn : WrappingInt32 := mkWrappingInt32 (2 ^ 32 - 2).
Definition demo_data (pos : Z) : TCPSegment :=
  set_payload (set_seqno (wrap pos win_isn) TCPSegment_default)
    (Buffer_of [Byte.x61; Byte.x62; Byte.x63]).
Definition demo_window : TCPSendingWindow :=
  mkWindow [mkForSender (demo_data 1) 1000; mkForSender (demo_data 4) 1000] win_isn 1 10 7.

Lemma demo_window_inv : winv demo_window 1.
Proof.
  constructor; simpl; try lia; try done; split_and!; try lia; try done;
    try (vm_compute; congruence).
Qed.

Lemma window_ack_received_witness :
  ack_received demo_window (wrap 5 win_isn) 8 = Ok (acked demo_window 1 5 8) /\
  exists a', winv (acked demo_window 1 5 8).2 a' /\ 1 <= a' /\
    _next_seqno (acked demo_window 1 5 8).2 = _next_seqno demo_window.
Proof.
  apply (window_ack_received demo_window 1 5 8);
    [apply demo_window_inv | lia | split; simpl; lia | lia].
Defined.

(** A window that shrinks below what is in flight is taken for an enormous
    one: [space] is an unsigned difference, so it wraps around to nearly 2^64 and
    [full] answers no. *)
Theorem window_shrink_wraps w a :
  winv w a -> 0 < _window_size w < _next_seqno w - _first_seqno w ->
  full w = false /\
  space w = 2 ^ 64 - (_next_seqno w - _first_seqno w - _window_size w).
Proof.
  intros Hw Hs. pose proof (winv_in_flight w a Hw) as Ef. pose proof (wn_bounds _ _ Hw).
  pose proof (wn_first _ _ Hw).
  assert (Es : space w = 2 ^ 64 - (_next_seqno w - _first_seqno w - _window_size w)).
  { unfold space. rewrite Ef. unfold u64. symmetry.
    apply (Z.mod_unique_pos _ _ (-1)); lia. }
  split; [|done]. unfold full, window_closed. rewrite Es.
  destruct (Z.eqb_spec (_window_size w) 0); [lia|]. case_bool; [done|]. apply Z.leb_gt. lia.
Qed.

Lemma window_shrink_wraps_witness :
  full (_set_window_size demo_window 2) = false /\
  space (_set_window_size demo_window 2) = 2 ^ 64 - (7 - 1 - 2).
Proof.
  apply (window_shrink_wraps (_set_window_size demo_window 2) 1); [|simpl; lia].
  destruct demo_window_inv. by constructor.
Defined.

(** C40. Four gibibytes: when one segment is in flight that begins below sequence
    number 2^32 and ends above it, the acknowledgment of this segment runs the
    search loop off the front of the deque and erases with an iterator before
    [begin()], undefined behaviour (the guard of [unwrap] returns 2^32 too much
    for the segment's own number). *)
Theorem window_ack_crosses_2_32 isn x p n ws :
  seqno (header (segment x)) = wrap p isn -> 0 <= p < 2 ^ 32 ->
  let next := p + length_in_sequence_space (segment x) in
  2 ^ 32 <= next < 2 ^ 33 -> next - p < 2 ^ 31 ->
  ack_received (mkWindow [x] isn p ws next) (wrap next isn) n = UB.
Proof.
  intros Es Hp next Hn Hd. unfold ack_received. cbn [_isn _next_seqno _first_seqno _buffer].
  rewrite unwrap_in_reach by (lia || apply in_reach_refl).
  case_bool; [lia|]. case_bool; [lia|]. cbn [length ack_loop].
  rewrite (vec_get_ok _ _ x) by done. cbn [mbind outcome_bind].
  unfold seg_seqno. cbn [_isn _next_seqno]. rewrite Es, unwrap_below_guard by lia.
  case_bool; [lia|done].
Qed.

Lemma window_ack_crosses_2_32_witness :
  ack_received
    (mkWindow [mkForSender (demo_data (2 ^ 32 - 1)) 1000] win_isn (2 ^ 32 - 1) 10
       (2 ^ 32 - 1 + length_in_sequence_space (demo_data (2 ^ 32 - 1))))
    (wrap (2 ^ 32 - 1 + length_in_sequence_space (demo_data (2 ^ 32 - 1))) win_isn) 10 = UB.
Proof.
  apply (window_ack_crosses_2_32 win_isn (mkForSender (demo_data (2 ^ 32 - 1)) 1000));
    [reflexivity | lia | vm_compute; split; congruence | vm_compute; congruence].
Defined.
