(* ===== verification/TCPSender.v ===== *)
(** * The sending half of a TCP connection

    Model of [libsponge/tcp_sender.hh] and [.cc]: the outgoing byte stream is
    cut into segments that fit the peer's window, and the oldest outstanding
    segment is sent again when its timer runs out. *)

From S2P Require Import Prelude WrappingIntegers ByteStream StreamReassembler Buffer TCPHeader.
From S2P Require Import TCPSegment SegmentSpec TCPConfig TCPSendingWindow.
From Stdlib Require Import Sorted.

Record TCPSender := mkTCPSender {
  _segments_out : list TCPSegment;
  _initial_retransmission_timeout : Z;
  _stream : ByteStream;
  _rto : Z;
  _window : TCPSendingWindow;
  _consecutive_retransmission_count : Z;
  _window_size_is_zero : bool;
  _established : bool
}.

Inductive SenderState :=
  | CLOSED | SYN_SENT | SYN_ACKED | ESTABLISHED | FIN_SENT | FIN_ACKED | ERROR.

#[global] Instance SenderState_eq_dec : EqDecision SenderState.
Proof. solve_decision. Defined.

(** [random] is what [random_device] returns. *)
Definition new (capacity retx_timeout : Z) (fixed_isn : option WrappingInt32) (random : Z) : TCPSender :=
  mkTCPSender [] retx_timeout (ByteStream.new capacity) retx_timeout
    (TCPSendingWindow.new (default (mkWrappingInt32 (u32 random)) fixed_isn) 1) 0 false false.

Definition set_segments_out (t : TCPSender) (q : list TCPSegment) : TCPSender :=
  mkTCPSender q (_initial_retransmission_timeout t) (_stream t) (_rto t) (_window t)
    (_consecutive_retransmission_count t) (_window_size_is_zero t) (_established t).
Definition set_stream (t : TCPSender) (bs : ByteStream) : TCPSender :=
  mkTCPSender (_segments_out t) (_initial_retransmission_timeout t) bs (_rto t) (_window t)
    (_consecutive_retransmission_count t) (_window_size_is_zero t) (_established t).
Definition set_window (t : TCPSender) (w : TCPSendingWindow) : TCPSender :=
  mkTCPSender (_segments_out t) (_initial_retransmission_timeout t) (_stream t) (_rto t) w
    (_consecutive_retransmission_count t) (_window_size_is_zero t) (_established t).
(** The two scalars of the retransmission logic. *)
Definition set_retx (t : TCPSender) (rto count : Z) : TCPSender :=
  mkTCPSender (_segments_out t) (_initial_retransmission_timeout t) (_stream t) rto (_window t)
    count (_window_size_is_zero t) (_established t).
Definition set_window_size_is_zero (t : TCPSender) (b : bool) : TCPSender :=
  mkTCPSender (_segments_out t) (_initial_retransmission_timeout t) (_stream t) (_rto t) (_window t)
    (_consecutive_retransmission_count t) b (_established t).

Definition stream_in (t : TCPSender) : ByteStream := _stream t.
Definition bytes_in_flight (t : TCPSender) : Z := TCPSendingWindow.bytes_in_flight (_window t).
Definition next_seqno_absolute (t : TCPSender) : Z := TCPSendingWindow.next_seqno (_window t).
Definition next_seqno (t : TCPSender) : WrappingInt32 :=
  wrap (TCPSendingWindow.next_seqno (_window t)) (isn (_window t)).
Definition consecutive_retransmissions (t : TCPSender) : Z :=
  u32 (_consecutive_retransmission_count t).

Definition state (t : TCPSender) : SenderState :=
  if ByteStream.error (stream_in t) then ERROR
  else if next_seqno_absolute t =? 0 then CLOSED
  else if (next_seqno_absolute t >? 0) && (next_seqno_absolute t =? bytes_in_flight t) then SYN_SENT
  else if (next_seqno_absolute t >? bytes_in_flight t) && negb (eof (stream_in t)) then SYN_ACKED
  else if eof (stream_in t) && (next_seqno_absolute t <? u64 (bytes_written (stream_in t) + 2))
  then SYN_ACKED
  else if eof (stream_in t) && (next_seqno_absolute t =? u64 (bytes_written (stream_in t) + 2)) &&
          (bytes_in_flight t >? 0)
  then FIN_SENT
  else FIN_ACKED.

Definition _send (t : TCPSender) (seg : TCPSegment) : TCPSender :=
  set_segments_out t (_segments_out t ++ [seg]).

(** [_window.add_segment(segment, _rto); _send(segment);] *)
Definition add_and_send (t : TCPSender) (seg : TCPSegment) : outcome TCPSender :=
  w ← add_segment (_window t) seg (_rto t);
  mret (_send (set_window t w) seg).

(** The condition and the body of the [while] loop of [fill_window]: [inl] goes
    round again, [inr] leaves. *)
Definition fill_body (t : TCPSender) : outcome (TCPSender + TCPSender) :=
  if (negb (ByteStream.buffer_empty (_stream t)) || eof (_stream t)) && negb (full (_window t)) then
    if bool_decide (state t = FIN_SENT) || bool_decide (state t = FIN_ACKED) then mret (inr t)
    else
      let s := set_seqno (next_seqno t) TCPSegment_default in
      '(bs, data) ← read (_stream t)
        (Z.min (space (_window t)) (Z.min MAX_PAYLOAD_SIZE (ByteStream.buffer_size (_stream t))));
      let t := set_stream t bs in
      let s := set_payload s (Buffer_of data) in
      let s := set_fin (eof (_stream t) && (Buffer.size (payload s) <? space (_window t))) s in
      if negb (length_in_sequence_space s =? 0) then
        t ← add_and_send t s; mret (inl t)
      else mret (inr t)
  else mret (inr t).

Definition fill_window (t : TCPSender) : outcome TCPSender :=
  t ← (if bool_decide (state t = CLOSED) then
         add_and_send t (set_seqno (next_seqno t) (set_syn true TCPSegment_default))
       else mret t);
  while_ fill_body t.

(** [window_size] is a [uint16_t]. *)
Definition ack_received (t : TCPSender) (ackno : WrappingInt32) (window_size : Z) : outcome TCPSender :=
  let t := set_window_size_is_zero t (window_size =? 0) in
  '(ret, w) ← TCPSendingWindow.ack_received (_window t) ackno (Z.max window_size 1);
  let t := set_window t w in
  let t :=
    if (ret : bool) then
      let t := set_retx t (_initial_retransmission_timeout t) (_consecutive_retransmission_count t) in
      let t := set_window t (reset_timer (_window t) (_rto t)) in
      set_retx t (_rto t) 0
    else t in
  fill_window t.

Definition tick (t : TCPSender) (ms_since_last_tick : Z) : TCPSender :=
  let '(w, ret) := TCPSendingWindow.tick (_window t) ms_since_last_tick in
  let t := set_window t w in
  match ret with
  | [] => t
  | first :: _ =>
      let rto := if negb (_window_size_is_zero t) then u64 (_rto t * 2) else _rto t in
      let t := set_retx t rto (_consecutive_retransmission_count t) in
      let t := set_window t (reset_timer (_window t) (_rto t)) in
      let t := set_retx t (_rto t) (u64 (_consecutive_retransmission_count t + 1)) in
      _send t first
  end.

Definition send_empty_segment (t : TCPSender) : TCPSender :=
  _send t (set_seqno (next_seqno t) TCPSegment_default).

(** ** The invariant

    [s] is the whole stream the application will write, [b] the abstract state of
    [_stream], [a] the start of the oldest outstanding segment and [f] whether
    the FIN has been sent. *)

(** The segment occupies sequence numbers up to [next] and carries a part of [s]. *)
Definition sent_segment (s : list byte) (isn : WrappingInt32) (next : Z) (seg : TCPSegment) : Prop :=
  length_in_sequence_space seg <= MAX_PAYLOAD_SIZE + 1 /\
  len (str (payload seg)) <= MAX_PAYLOAD_SIZE /\
  exists pos, sender_segment s isn pos seg /\ pos + length_in_sequence_space seg <= next.

Record sinv (s : list byte) (t : TCPSender) (b : stream) (a : Z) (f : bool) : Prop := {
  sv_stream : rep (_stream t) b;
  sv_prefix : s_history b `prefix_of` s;
  sv_ended : s_ended b = true -> s_history b = s;
  sv_noerror : s_error b = false;
  sv_window : winv (_window t) a;
  sv_next : _next_seqno (_window t) =
    if _next_seqno (_window t) =? 0 then 0 else 1 + len (s_read b) + Z.b2z f;
  sv_closed : _next_seqno (_window t) = 0 -> s_read b = [] /\ f = false /\ _window_size (_window t) = 1;
  sv_fin : f = true -> s_ended b = true /\ s_pending b = [];
  sv_unacked : _first_seqno (_window t) = 0 -> _window_size (_window t) = 1;
  sv_flow : _next_seqno (_window t) <= _first_seqno (_window t) + _window_size (_window t);
  sv_wsize : 1 <= _window_size (_window t) < 2 ^ 16;
  sv_buffer : Forall (fun x => sent_segment s (_isn (_window t)) (_next_seqno (_window t)) (segment x))
    (_buffer (_window t));
  sv_out : Forall (fun seg => length_in_sequence_space seg = 0 \/
      sent_segment s (_isn (_window t)) (_next_seqno (_window t)) seg) (_segments_out t);
  sv_bound : len s + 2 < 2 ^ 32
}.

(** ** The sender's view of its stream and its window *)

Lemma pending_excerpt s b n :
  s_history b `prefix_of` s -> excerpt s (ztake n (s_pending b)) (len (s_read b)).
Proof.
  intros [rest ->]. unfold s_history, excerpt. rewrite <- app_assoc.
  assert (Hl : (length (ztake n (s_pending b)) <= length (s_pending b))%nat)
    by (unfold ztake; rewrite length_take; lia).
  split; [lia|]. split; [rewrite !length_app; lia|].
  unfold zdrop. rewrite Nat2Z.id, drop_app_length. unfold ztake at 2.
  rewrite Nat2Z.id, take_app_le by done. unfold ztake. rewrite length_take.
  destruct (Nat.le_ge_cases (Z.to_nat n) (length (s_pending b))).
  - by rewrite Nat.min_l by done.
  - rewrite Nat.min_r, !take_ge by lia. done.
Qed.

(** [state] under the invariant: the phases of the connection's sending side. *)
Definition phase (t : TCPSender) (f : bool) : SenderState :=
  if _next_seqno (_window t) =? 0 then CLOSED
  else if _first_seqno (_window t) =? 0 then SYN_SENT
  else if negb f then SYN_ACKED
  else if _first_seqno (_window t) =? _next_seqno (_window t) then FIN_ACKED
  else FIN_SENT.

Lemma state_phase s t b a f : sinv s t b a f -> state t = phase t f.
Proof.
  intros H. pose proof H as [R Hpre He Hne Hw Hn Hcl Hf _ _ _ _ _ Hb].
  pose proof (wn_first _ _ Hw). pose proof (wn_bounds _ _ Hw).
  pose proof (prefix_length _ _ Hpre) as Hlen. unfold s_history in Hlen. rewrite length_app in Hlen.
  unfold state, phase, next_seqno_absolute, bytes_in_flight, stream_in, TCPSendingWindow.next_seqno,
    ByteStream.error, bytes_written.
  rewrite (winv_in_flight _ _ Hw), (rep_error _ _ R), Hne, (eof_eq _ _ R), (rep_bytes_written _ _ R).
  unfold s_history. rewrite length_app, u64_u64_add, u64_small by lia. cbv match. rewrite !Z.gtb_ltb.
  case_bool; [done|].
  clear Hcl He. destruct f; cbn [Z.b2z negb] in *.
  - destruct (Hf eq_refl) as [-> ->]. cbn [length andb negb]. by case_cmp.
  - destruct (s_ended b); cbn [andb negb]; case_cmp; rewrite ?andb_false_r; done.
Qed.

Lemma sinv_space s t b a f :
  sinv s t b a f ->
  space (_window t) =
    _first_seqno (_window t) + _window_size (_window t) - _next_seqno (_window t) /\
  full (_window t) = (space (_window t) =? 0).
Proof.
  intros H. pose proof (sv_window _ _ _ _ _ H) as Hw. pose proof (sv_flow _ _ _ _ _ H).
  pose proof (sv_wsize _ _ _ _ _ H). pose proof (wn_first _ _ Hw). pose proof (winv_empty _ _ Hw) as He.
  assert (E : space (_window t) =
    _first_seqno (_window t) + _window_size (_window t) - _next_seqno (_window t)).
  { unfold space. rewrite (winv_in_flight _ _ Hw), u64_small by lia. lia. }
  split; [done|]. unfold full, window_closed, TCPSendingWindow.buffer_empty. rewrite E.
  destruct (Z.eqb_spec (_window_size (_window t)) 0); [lia|].
  case_bool_decide as Eb; [apply He in Eb|]; by case_cmp.
Qed.

(** The oldest segment starts at most one segment before the window. *)
Lemma sinv_oldest s t b a f :
  sinv s t b a f -> _first_seqno (_window t) - a <= MAX_PAYLOAD_SIZE + 1.
Proof.
  intros H. pose proof (sv_window _ _ _ _ _ H) as [_ Hc Hf Hp _ _].
  pose proof (sv_buffer _ _ _ _ _ H) as Hb. unfold MAX_PAYLOAD_SIZE in *.
  destruct (_buffer (_window t)) as [|x buf]; simpl in Hc; [lia|].
  inversion Hb as [|?? (Hl & _) _]; subst. unfold MAX_PAYLOAD_SIZE in *.
  cbn [unacked] in Hp. destruct (Z.leb_spec (a + length_in_sequence_space (segment x)) (_first_seqno (_window t)));
    [|lia].
  pose proof (unacked_length (_first_seqno (_window t)) (a + length_in_sequence_space (segment x)) buf) as Hl2.
  rewrite Hp in Hl2. simpl in Hl2. lia.
Qed.

Lemma sent_segment_mono s i n n' seg : n <= n' -> sent_segment s i n seg -> sent_segment s i n' seg.
Proof. intros Hn (Hl & Hd & pos & Hs & Hp). split; [done|]. split; [done|]. exists pos. split; [done|lia]. Qed.

(** The next segment in sequence goes into the window and into the queue. *)
Lemma add_and_send_inv s t b a f bs b' f' seg :
  sinv s t b a f -> rep bs b' ->
  s_history b' = s_history b -> s_ended b' = s_ended b -> s_error b' = s_error b ->
  let w := _window t in
  let n := length_in_sequence_space seg in
  sender_segment s (_isn w) (_next_seqno w) seg -> 1 <= n <= MAX_PAYLOAD_SIZE + 1 ->
  len (str (payload seg)) <= MAX_PAYLOAD_SIZE ->
  _next_seqno w + n <= _first_seqno w + _window_size w -> full w = false ->
  _next_seqno w + n = 1 + len (s_read b') + Z.b2z f' ->
  (f' = true -> s_ended b' = true /\ s_pending b' = []) ->
  let w' := mkWindow (_buffer w ++ [mkForSender seg (u32 (_rto t))]) (_isn w) (_first_seqno w)
              (_window_size w) (_next_seqno w + n) in
  let t' := _send (set_window (set_stream t bs) w') seg in
  add_and_send (set_stream t bs) seg = Ok t' /\ sinv s t' b' a f'.
Proof.
  intros H R' Hh He Hr w n Hseg Hn Hpl Hfl Hfull Hnext Hfin w' t'.
  pose proof (sinv_oldest _ _ _ _ _ H) as Hold. unfold MAX_PAYLOAD_SIZE in *.
  pose proof H as [R Hpre Hend Hne Hw Hnx Hcl Hf Hun Hflow Hws Hbuf Hout Hb]. fold w in Hw, Hnx, Hun, Hflow, Hws, Hbuf, Hout, Hold.
  pose proof (wn_first _ _ Hw). pose proof (wn_bounds _ _ Hw).
  pose proof (prefix_length _ _ Hpre) as Hlen. rewrite <- Hh in Hlen. unfold s_history in Hlen.
  rewrite length_app in Hlen.
  assert (Hn32 : _next_seqno w + n < 2 ^ 32) by (destruct f'; simpl in *; lia).
  split.
  - unfold add_and_send. change (_window (set_stream t bs)) with w. change (_rto (set_stream t bs)) with (_rto t).
    rewrite (add_segment_eq w a) by (done || lia || apply (ss_seqno _ _ _ _ Hseg)). done.
  - constructor; simpl; rewrite ?Hh, ?He, ?Hr; try done; try lia.
    + apply (add_segment_winv w a); [done|apply Hseg|lia|lia|]. unfold in_reach. lia.
    + destruct (Z.eqb_spec (_next_seqno w + n) 0); lia.
    + by rewrite <- He.
    + apply Forall_app. split; [|constructor; [|constructor]].
      * eapply Forall_impl; [exact Hbuf|]. intros x. apply sent_segment_mono. lia.
      * split; [unfold MAX_PAYLOAD_SIZE; simpl; lia|]. split; [done|]. by exists (_next_seqno w).
    + apply Forall_app. split; [|constructor; [right|constructor]].
      * eapply Forall_impl; [exact Hout|]. intros x [?|Hx]; [by left|right].
        eapply sent_segment_mono; [|done]. lia.
      * split; [unfold MAX_PAYLOAD_SIZE; lia|]. split; [done|]. by exists (_next_seqno w).
Qed.

(** What filling the window leaves alone and what it extends. *)
Record grown (t t' : TCPSender) : Prop := {
  gr_first : _first_seqno (_window t') = _first_seqno (_window t);
  gr_size : _window_size (_window t') = _window_size (_window t);
  gr_isn : _isn (_window t') = _isn (_window t);
  gr_next : _next_seqno (_window t) <= _next_seqno (_window t');
  gr_out : _segments_out t `prefix_of` _segments_out t';
  gr_timer : _rto t' = _rto t /\
    _initial_retransmission_timeout t' = _initial_retransmission_timeout t /\
    _consecutive_retransmission_count t' = _consecutive_retransmission_count t /\
    _window_size_is_zero t' = _window_size_is_zero t;
  gr_buffer : exists new, _segments_out t' = _segments_out t ++ new /\ _buffer (_window t') =
    _buffer (_window t) ++ ((fun seg => mkForSender seg (u32 (_rto t))) <$> new)
}.

#[global] Instance grown_preorder : PreOrder grown.
Proof.
  split.
  - intros t. constructor; try done. exists []. by rewrite !app_nil_r.
  - intros x y z [A1 A2 A3 A4 A5 A6 (n1 & A8 & A7)] [B1 B2 B3 B4 B5 B6 (n2 & B8 & B7)].
    destruct A6 as (A6 & A61 & A62 & A63), B6 as (B6 & B61 & B62 & B63).
    constructor; try congruence; try lia; [by transitivity (_segments_out y)|split_and!; congruence|].
    exists (n1 ++ n2). by rewrite B8, A8, B7, A7, fmap_app, !app_assoc, A6.
Qed.

(** Nothing is left to do: the window is full, or all bytes are out and so is
    the FIN if the stream has ended. *)
Definition exhausted (t : TCPSender) (b : stream) (f : bool) : Prop :=
  space (_window t) = 0 \/ (s_pending b = [] /\ (s_ended b = true -> f = true)).

(** The stream is the same but for what was moved from buffered to read. *)
Definition same_content (b b' : stream) : Prop :=
  s_history b' = s_history b /\ s_ended b' = s_ended b /\ s_error b' = s_error b.

Lemma spec_pop_content b n : same_content b (spec_pop b n).
Proof. unfold same_content, s_history; simpl. by rewrite <- app_assoc, ztake_zdrop. Qed.

Lemma len_nil {A} (l : list A) : len l = 0 -> l = [].
Proof. destruct l; simpl; [done|lia]. Qed.

(** One round of the loop that sends: the segment it builds and its effect. *)
Lemma fill_round s t b a :
  sinv s t b a false -> _next_seqno (_window t) <> 0 -> 0 < space (_window t) ->
  (s_pending b <> [] \/ s_ended b = true) ->
  state t <> FIN_SENT -> state t <> FIN_ACKED ->
  exists t' b' f', fill_body t = Ok (inl t') /\ sinv s t' b' a f' /\ same_content b b' /\
    grown t t' /\ _next_seqno (_window t) < _next_seqno (_window t').
Proof.
  intros H Hnz Hsp Hwork Hs1 Hs2. destruct (sinv_space _ _ _ _ _ H) as [Esp Efull].
  pose proof H as [R Hpre Hend Hne Hw Hnx Hcl Hf Hun Hflow Hws Hbuf Hout Hb].
  rewrite (proj2 (Z.eqb_neq _ _)) in Hnx by done. cbn [Z.b2z] in Hnx.
  unfold fill_body. rewrite Efull, (eof_eq _ _ R), (buffer_empty_eq _ _ R), (buffer_size_eq _ _ R).
  assert (Hgo : negb (len (s_pending b) =? 0) || s_ended b && (len (s_pending b) =? 0) = true).
  { destruct (Z.eqb_spec (len (s_pending b)) 0) as [E|E]; [|done]. apply len_nil in E.
    destruct Hwork as [?| ->]; done. }
  rewrite Hgo, (proj2 (Z.eqb_neq (space _) 0)), !bool_decide_eq_false_2 by (done || lia). cbn [negb andb orb].
  set (n := Z.min (space (_window t)) (Z.min MAX_PAYLOAD_SIZE (len (s_pending b)))).
  assert (Hn : 0 <= n <= 1000) by (unfold n, MAX_PAYLOAD_SIZE; lia).
  destruct (read_rep _ _ n R ltac:(lia)) as (bs & -> & R'). cbn [mbind outcome_bind].
  set (data := ztake n (s_pending b)) in *. set (b' := spec_pop b n) in *.
  assert (Hdata : len data = n) by (unfold data; rewrite len_ztake by lia; unfold n; lia).
  cbn [_stream set_stream _window]. rewrite (eof_eq _ _ R').
  unfold Buffer.size. cbn [payload set_payload]. rewrite str_Buffer_of, Hdata.
  set (fin_ := _ && (n <? space (_window t))).
  set (seg := set_fin fin_ _).
  assert (Hlen : length_in_sequence_space seg = n + Z.b2z fin_).
  { rewrite segment_length; change (str (payload seg)) with data; [|lia].
    change (syn (header seg)) with false. change (fin (header seg)) with fin_. simpl. lia. }
  assert (Hpos : data_index (_next_seqno (_window t)) = len (s_read b)).
  { unfold data_index. destruct (Z.eqb_spec (_next_seqno (_window t)) 0); lia. }
  assert (Hrest : len (s_pending b') = len (s_pending b) - n)
    by (simpl; rewrite len_zdrop; unfold n; lia).
  assert (Hread : len (s_read b') = len (s_read b) + n) by (unfold b'; cbn [spec_pop s_read]; fold data; rewrite length_app; lia).
  assert (Hfin : fin_ = true -> s_ended b' = true /\ s_pending b' = [] /\ n < space (_window t)).
  { unfold fin_. intros [[E1 E2]%andb_true_iff E3]%andb_true_iff. split; [done|].
    split; [apply len_nil; lia|lia]. }
  assert (H1 : 1 <= n + Z.b2z fin_).
  { destruct (decide (n = 0)) as [E0|E0]; [|destruct fin_; simpl; lia].
    assert (s_pending b = []) as Ep by (apply len_nil; unfold n, MAX_PAYLOAD_SIZE in E0; lia).
    destruct Hwork as [?|Hw1]; [done|]. unfold fin_. simpl s_ended. rewrite Hw1, Hrest, Ep, E0. simpl.
    case_cmp; simpl; lia. }
  rewrite Hlen. destruct (Z.eqb_spec (n + Z.b2z fin_) 0); [lia|]. cbn [negb].
  destruct (add_and_send_inv s t b a false bs b' fin_ seg) as [E Hinv]; try done; rewrite ?Hlen.
  - apply spec_pop_content.
  - constructor; [lia|done| | |].
    + simpl. symmetry. by apply Z.eqb_neq.
    + rewrite Hpos. change (str (payload seg)) with data. by apply pending_excerpt.
    + change (fin (header seg)) with fin_. change (str (payload seg)) with data.
      intros Ef. destruct (Hfin Ef) as (E1 & E2 & _). rewrite <- (Hend E1), Hpos, Hdata.
      unfold s_history. rewrite length_app. rewrite E2 in Hrest. simpl in Hrest. lia.
  - unfold MAX_PAYLOAD_SIZE. destruct fin_; simpl in *; lia.
  - change (str (payload seg)) with data. unfold MAX_PAYLOAD_SIZE. lia.
  - destruct fin_; simpl in *; [|unfold n; lia]. destruct Hfin as (_ & _ & ?); [done|]. lia.
  - rewrite Efull. apply Z.eqb_neq. lia.
  - lia.
  - intros Ef. destruct (Hfin Ef) as (? & ? & _). done.
  - rewrite E. cbn [mbind outcome_bind]. eexists _, b', fin_. split; [reflexivity|].
    split; [exact Hinv|]. split; [apply spec_pop_content|].
    split; [|simpl; rewrite Hlen; lia]. constructor; simpl; try done; try (rewrite Hlen; lia).
    + by apply prefix_app_r.
    + by exists [seg].
Qed.

Lemma same_content_trans b b1 b2 : same_content b b1 -> same_content b1 b2 -> same_content b b2.
Proof. unfold same_content. intuition congruence. Qed.

(** A round that leaves the loop has nothing left to do. *)
Lemma fill_exit s t b a f :
  sinv s t b a f -> _next_seqno (_window t) <> 0 ->
  space (_window t) = 0 \/ f = true \/ (s_pending b = [] /\ s_ended b = false) ->
  fill_body t = Ok (inr t) /\ exhausted t b f.
Proof.
  intros H Hnz Hex. destruct (sinv_space _ _ _ _ _ H) as [Esp Efull].
  pose proof (state_phase _ _ _ _ _ H) as Est. unfold phase in Est.
  pose proof H as [R _ _ _ _ _ _ Hf Hun Hflow _ _ _ _].
  unfold fill_body, exhausted. rewrite Efull, (eof_eq _ _ R), (buffer_empty_eq _ _ R).
  destruct Hex as [->|[->|[-> ->]]].
  - rewrite Z.eqb_refl, andb_false_r. split; [done|by left].
  - destruct (Hf eq_refl) as [E1 E2]. split; [|right; done]. rewrite E1, E2. cbn [length Z.of_nat Z.eqb negb orb andb].
    destruct (Z.eqb_spec (space (_window t)) 0); cbn [negb]; [done|].
    rewrite (proj2 (Z.eqb_neq (_next_seqno (_window t)) 0)) in Est by done.
    destruct (Z.eqb_spec (_first_seqno (_window t)) 0) as [E0|E0].
    { specialize (Hun E0). pose proof (wn_first _ _ (sv_window _ _ _ _ _ H)). lia. }
    cbn [negb] in Est. rewrite Est. by destruct (_ =? _).
  - split; [done|right; done].
Qed.

Lemma fill_loop_inv s t b a f :
  sinv s t b a f -> _next_seqno (_window t) <> 0 ->
  exists t', while_ fill_body t = Ok t' /\
    exists b' f', sinv s t' b' a f' /\ same_content b b' /\ grown t t' /\ exhausted t' b' f'.
Proof.
  intros H0 Hnz0.
  apply (while_rule fill_body
    (fun t1 => exists b1 f1, sinv s t1 b1 a f1 /\ _next_seqno (_window t1) <> 0 /\
       same_content b b1 /\ grown t t1)
    (fun t' => exists b' f', sinv s t' b' a f' /\ same_content b b' /\ grown t t' /\ exhausted t' b' f')
    (fun t1 => space (_window t1))).
  2: { exists b, f. split; [done|]. split; [done|]. split; [by unfold same_content|reflexivity]. }
  2: { apply u64_range. }
  intros t1 (b1 & f1 & H & Hnz & Hc & Hg). destruct (sinv_space _ _ _ _ _ H) as [Esp Efull].
  pose proof (sv_flow _ _ _ _ _ H) as Hfl. pose proof (wn_first _ _ (sv_window _ _ _ _ _ H)) as Hfi.
  pose proof (wn_bounds _ _ (sv_window _ _ _ _ _ H)) as Hbo.
  destruct (decide (space (_window t1) = 0 \/ f1 = true \/ (s_pending b1 = [] /\ s_ended b1 = false)))
    as [Hex|Hgo].
  { destruct (fill_exit _ _ _ _ _ H Hnz Hex) as [-> ?]. by exists b1, f1. }
  destruct f1; [tauto|]. pose proof (state_phase _ _ _ _ _ H) as Est. unfold phase in Est. cbn [negb] in Est.
  destruct (fill_round s t1 b1 a H Hnz) as (t2 & b2 & f2 & E & H2 & Hc2 & Hg2 & Hlt); [lia| | | |].
  { destruct (s_ended b1); [by right|left]. intros E. apply Hgo. right. right. done. }
  1-2: rewrite Est; by repeat case_bool.
  rewrite E. destruct (sinv_space _ _ _ _ _ H2) as [Esp2 _]. pose proof (sv_flow _ _ _ _ _ H2).
  split.
  - exists b2, f2. split; [done|]. split; [lia|]. split; [by eapply same_content_trans|by transitivity t1].
  - pose proof (gr_first _ _ Hg2). pose proof (gr_size _ _ Hg2). lia.
Qed.

Lemma set_stream_id t : set_stream t (_stream t) = t.
Proof. by destruct t. Qed.

(** The SYN. *)
Lemma send_syn_inv s t b a f :
  sinv s t b a f -> _next_seqno (_window t) = 0 ->
  exists t', add_and_send t (set_seqno (next_seqno t) (set_syn true TCPSegment_default)) = Ok t' /\
    sinv s t' b a false /\ grown t t' /\ _next_seqno (_window t') = 1.
Proof.
  intros H Hz. destruct (sv_closed _ _ _ _ _ H Hz) as (Er & -> & Ews).
  pose proof (wn_first _ _ (sv_window _ _ _ _ _ H)). pose proof (wn_bounds _ _ (sv_window _ _ _ _ _ H)).
  set (seg := set_seqno _ _).
  destruct (sinv_space _ _ _ _ _ H) as [Esp Efull].
  assert (El : length_in_sequence_space seg = 1) by done.
  destruct (add_and_send_inv s t b a false (_stream t) b false seg) as [E Hi]; try done; rewrite ?El, ?Hz; try lia.
  - apply H.
  - rewrite <- Hz. constructor; [lia|done|by rewrite Hz| |done].
    rewrite Hz. unfold excerpt, data_index. change (str (payload seg)) with (@nil byte). simpl. split_and!; (done || lia).
  - rewrite Efull, Esp. apply Z.eqb_neq. lia.
  - rewrite Er. done.
  - rewrite set_stream_id in E. eexists. split; [exact E|]. split; [exact Hi|].
    split; [|simpl; rewrite Hz; done]. constructor; simpl; try done; try lia; try (rewrite Hz; by vm_compute).
    + by apply prefix_app_r.
    + by exists [seg].
Qed.

Lemma fill_window_inv s t b a f :
  sinv s t b a f ->
  exists t' b' f', fill_window t = Ok t' /\ sinv s t' b' a f' /\ same_content b b' /\
    grown t t' /\ exhausted t' b' f' /\ _next_seqno (_window t') <> 0.
Proof.
  intros H. unfold fill_window. pose proof (state_phase _ _ _ _ _ H) as Est. unfold phase in Est.
  destruct (Z.eqb_spec (_next_seqno (_window t)) 0) as [Hz|Hnz].
  - rewrite bool_decide_eq_true_2 by done. destruct (send_syn_inv s t b a f H Hz) as (t1 & -> & H1 & Hg1 & En).
    cbn [mbind outcome_bind]. destruct (fill_loop_inv s t1 b a false H1) as (t' & E & b' & f' & H' & Hc & Hg & Hx); [lia|].
    exists t', b', f'. split; [done|]. split; [done|]. split; [done|]. split; [by transitivity t1|].
    split; [done|]. pose proof (gr_next _ _ Hg). lia.
  - rewrite bool_decide_eq_false_2 by (rewrite Est; by repeat case_bool). cbn [mbind outcome_bind mret outcome_ret].
    destruct (fill_loop_inv s t b a f H Hnz) as (t' & E & b' & f' & H' & Hc & Hg & Hx).
    exists t', b', f'. split; [done|]. split_and!; try done.
    pose proof (gr_next _ _ Hg). pose proof (wn_first _ _ (sv_window _ _ _ _ _ H)).
    pose proof (wn_bounds _ _ (sv_window _ _ _ _ _ H)). lia.
Qed.

(** ** Acknowledgments, timers and the application's calls *)

Lemma sinv_timers s t b a f g :
  (forall x, segment (g x) = segment x) -> sinv s t b a f ->
  forall t', _stream t' = _stream t -> _window t' = set_buffer (_window t) (g <$> _buffer (_window t)) ->
    (exists segs, _segments_out t' = _segments_out t ++ segs /\
       segs ⊆ segment <$> _buffer (_window t)) ->
  sinv s t' b a f.
Proof.
  intros Hg H t' Es Ew (segs & Eo & Hsub).
  destruct H as [R Hpre Hend Hne Hw Hnx Hcl Hf Hun Hflow Hws Hbuf Hout Hb].
  constructor; rewrite ?Es, ?Ew; simpl; try done.
  - by apply winv_fmap.
  - apply Forall_fmap. eapply Forall_impl; [exact Hbuf|]. intros x Hx. simpl. by rewrite Hg.
  - rewrite Eo. apply Forall_app. split; [done|]. apply Forall_forall. intros seg Hin. right.
    apply Hsub, list_elem_of_fmap in Hin as (x & -> & Hin).
    rewrite Forall_forall in Hbuf. by apply Hbuf.
Qed.

(** An acknowledgment of [m] with window [n] that the sender can place, and that
    does not take back window already used. *)
Record ack_ok (t : TCPSender) (m n : Z) : Prop := {
  ak_m : 1 <= m < 2 ^ 64;
  ak_n : 0 <= n < 2 ^ 16;
  ak_reach : in_reach (_next_seqno (_window t)) m;
  ak_noshrink : _first_seqno (_window t) <= m <= _next_seqno (_window t) ->
    _next_seqno (_window t) <= m + Z.max n 1
}.

Lemma acked_sinv s t b a f m n t' :
  sinv s t b a f -> ack_ok t m n ->
  _stream t' = _stream t -> _segments_out t' = _segments_out t ->
  _window t' = (acked (_window t) a m (Z.max n 1)).2 ->
  exists a', sinv s t' b a' f.
Proof.
  intros H [Hm Hn Hr Hns] Es Eo Ew.
  destruct H as [R Hpre Hend Hne Hw Hnx Hcl Hf Hun Hflow Hws Hbuf Hout Hb].
  pose proof (wn_first _ _ Hw). pose proof (wn_bounds _ _ Hw).
  destruct (acked_winv (_window t) a m (Z.max n 1) Hw ltac:(lia)) as (a' & Hw' & _ & En & Ei).
  exists a'. rewrite <- Ew in Hw', En, Ei.
  assert (Hcase : (_first_seqno (_window t') = _first_seqno (_window t) \/
                   _first_seqno (_window t') = m) /\
    (_window t' = _window t \/
     _window_size (_window t') = Z.max n 1 /\ _first_seqno (_window t') = m /\
     _first_seqno (_window t) <= m <= _next_seqno (_window t)) /\
    _buffer (_window t') `suffix_of` _buffer (_window t)).
  { rewrite Ew. unfold acked. destruct ((m >? _) || (m <? _)) eqn:E1; simpl.
    - split_and!; [by left|by left|done].
    - destruct (Z.eqb_spec m (_first_seqno (_window t))); simpl.
      + split_and!; [by left|right; split_and!; (done || lia)|done].
      + split_and!; [by right|right; split_and!; (done || lia)|apply unacked_suffix]. }
  destruct Hcase as (_ & Hcase & Hsuf).
  constructor; rewrite ?Es, ?Eo, ?En, ?Ei; try done.
  - intros Hz. specialize (Hcl Hz). destruct Hcase as [->|(? & ? & ?)]; [done|lia].
  - intros Hz. destruct Hcase as [E|(? & ? & ?)]; [rewrite E in *; auto|lia].
  - destruct Hcase as [->|(-> & -> & ?)]; [done|]. by apply Hns.
  - destruct Hcase as [->|(-> & _)]; [done|lia].
  - destruct Hsuf as [pre Hsuf]. rewrite Hsuf in Hbuf. by apply Forall_app in Hbuf as [_ ?].
Qed.

(** The timers: the oldest segment's runs out first, and no timer exceeds the
    current timeout. *)
Record tinv (t : TCPSender) : Prop := {
  tv_sorted : StronglySorted (fun x y => remaining_rto x <= remaining_rto y) (_buffer (_window t));
  tv_bound : Forall (fun x => 0 <= remaining_rto x <= _rto t) (_buffer (_window t));
  tv_rto : 0 <= _rto t < 2 ^ 32;
  tv_initial : 0 <= _initial_retransmission_timeout t < 2 ^ 32
}.

Lemma filter_head {A} (P : A -> Prop) `{forall x, Decision (P x)} (R : A -> A -> Prop) x l :
  (forall y, R x y -> P y -> P x) -> StronglySorted R (x :: l) ->
  filter P (x :: l) = if decide (P x) then x :: filter P l else [].
Proof.
  intros HR Hs. inversion Hs as [|?? _ Hall]; subst. rewrite filter_cons. destruct (decide (P x)); [done|].
  induction l as [|y l IH]; [done|]. inversion Hall as [|?? Hy Hall']; subst.
  rewrite filter_cons_False by (intros Py; eauto). apply IH; [|done].
  inversion Hs as [|?? Hs' _]; subst. inversion Hs'; subst. by constructor.
Qed.

Lemma reset_sorted r (l : list TCPSegmentForSender) :
  0 <= r < 2 ^ 32 ->
  StronglySorted (fun x y => remaining_rto x <= remaining_rto y)
    ((fun x => mkForSender (segment x) (u32 r)) <$> l) /\
  Forall (fun x => 0 <= remaining_rto x <= r) ((fun x => mkForSender (segment x) (u32 r)) <$> l).
Proof.
  intros Hr. rewrite (u32_small r) by lia. split.
  - induction l as [|x l IH]; simpl; constructor; [done|]. apply Forall_fmap, Forall_true. simpl. lia.
  - apply Forall_fmap, Forall_true. simpl. lia.
Qed.

Lemma tick_sorted ms r (l : list TCPSegmentForSender) x0 :
  0 <= ms -> r < 2 ^ 32 ->
  StronglySorted (fun x y => remaining_rto x <= remaining_rto y) (x0 :: l) ->
  Forall (fun x => 0 <= remaining_rto x <= r) (x0 :: l) -> ms < remaining_rto x0 ->
  StronglySorted (fun x y => remaining_rto x <= remaining_rto y) (tick_one ms <$> x0 :: l) /\
  Forall (fun x => 0 <= remaining_rto x <= r) (tick_one ms <$> x0 :: l).
Proof.
  intros Hms Hr Hs Hb Hx.
  assert (Heq : forall x, x ∈ x0 :: l -> remaining_rto (tick_one ms x) = remaining_rto x - ms /\ ms < remaining_rto x).
  { intros x Hin. rewrite Forall_forall in Hb. specialize (Hb x Hin).
    assert (remaining_rto x0 <= remaining_rto x).
    { apply elem_of_cons in Hin as [->|Hin]; [lia|]. inversion Hs as [|?? _ Hall]; subst.
      rewrite Forall_forall in Hall. by apply Hall. }
    unfold tick_one. case_bool; [|lia]. simpl. rewrite u32_small by lia. lia. }
  split.
  - clear Hb Hx. induction Hs as [|x l' Hs IH Hall]; simpl; constructor.
    + apply IH. intros y Hy. apply Heq. by right.
    + apply Forall_fmap. rewrite Forall_forall in Hall |- *. intros y Hy. simpl.
      destruct (Heq x) as [-> _]; [left|]. destruct (Heq y) as [-> _]; [by right|].
      specialize (Hall y Hy). lia.
  - apply Forall_fmap. rewrite Forall_forall in Hb |- *. intros y Hy. simpl. destruct (Heq y Hy) as [-> ?].
    specialize (Hb y Hy). lia.
Qed.

(** [tick] sends again the oldest outstanding segment when its timer has run
    out, and nothing otherwise. *)
Lemma tick_spec t ms :
  tinv t -> 0 <= ms -> 2 * _rto t < 2 ^ 32 -> _consecutive_retransmission_count t < 2 ^ 64 - 1 ->
  0 <= _consecutive_retransmission_count t ->
  tinv (tick t ms) /\
  match _buffer (_window t) with
  | [] => tick t ms = t
  | x :: _ =>
      if ms <? remaining_rto x then
        _segments_out (tick t ms) = _segments_out t /\ _rto (tick t ms) = _rto t /\
        _consecutive_retransmission_count (tick t ms) = _consecutive_retransmission_count t
      else
        _segments_out (tick t ms) = _segments_out t ++ [segment x] /\
        _rto (tick t ms) = (if _window_size_is_zero t then _rto t else 2 * _rto t) /\
        _consecutive_retransmission_count (tick t ms) = _consecutive_retransmission_count t + 1
  end.
Proof.
  intros [Hs Hb Hr Hi] Hms H2 Hc Hc0. unfold tick, TCPSendingWindow.tick.
  destruct (_buffer (_window t)) as [|x l] eqn:Eb.
  { change (filter _ []) with (@nil TCPSegmentForSender). simpl.
    assert (set_window t (set_buffer (_window t) []) = t) as ->
      by (destruct t as [? ? ? ? [] ? ? ?]; simpl in *; by subst).
    split; [|done]. constructor; rewrite ?Eb; try done; by constructor. }
  rewrite (filter_head _ (fun x y => remaining_rto x <= remaining_rto y)); [|unfold expired; intros y Hle|done].
  2: { destruct (Z.gtb_spec (remaining_rto y) ms), (Z.gtb_spec (remaining_rto x) ms); simpl; (done || lia). }
  assert (Hdec : expired ms x = negb (ms <? remaining_rto x)) by (unfold expired; by rewrite Z.gtb_ltb).
  rewrite Hdec. destruct (Z.ltb_spec ms (remaining_rto x)) as [Hlt|Hge]; cbn [negb].
  - destruct (decide (Is_true false)) as [[]|_]. cbn [fmap list_fmap]. split; [|done].
    destruct (tick_sorted ms (_rto t) l x Hms ltac:(lia) Hs Hb Hlt) as [T1 T2]. by constructor.
  - destruct (decide (Is_true true)) as [_|[]]; [|done]. cbn [fmap list_fmap].
    assert (Hrto : 0 <= (if negb (_window_size_is_zero t) then u64 (_rto t * 2) else _rto t) < 2 ^ 32)
      by (destruct (_window_size_is_zero t); simpl; rewrite ?u64_small; lia).
    split.
    + destruct (reset_sorted _ (tick_one ms <$> x :: l) Hrto) as [T1 T2]. by constructor.
    + simpl. split; [done|]. split; [|apply u64_small; lia].
      destruct (_window_size_is_zero t); simpl; [done|]. rewrite u64_small; lia.
Qed.

(** New segments get the full timeout. *)
Lemma grown_tinv t t' : tinv t -> grown t t' -> tinv t'.
Proof.
  intros [Hs Hb Hr Hi] Hg. destruct (gr_timer _ _ Hg) as (Er & Ei & _).
  destruct (gr_buffer _ _ Hg) as (new & _ & En).
  assert (Hnew : Forall (fun x => remaining_rto x = _rto t)
    ((fun seg => mkForSender seg (u32 (_rto t))) <$> new)).
  { apply Forall_fmap, Forall_true. intros x. simpl. apply u32_small. lia. }
  revert En Hnew. generalize ((fun seg => mkForSender seg (u32 (_rto t))) <$> new) as l. intros l En Hl.
  constructor; rewrite ?Er, ?Ei, ?En; try done.
  - clear En. induction Hs as [|x buf Hs IH Hall]; simpl.
    + induction Hl as [|x l Hx Hl IH]; constructor; [done|].
      eapply Forall_impl; [exact Hl|]. simpl. lia.
    + inversion Hb as [|?? Hx Hb']; subst. constructor; [by apply IH|]. apply Forall_app. split; [done|].
      eapply Forall_impl; [exact Hl|]. simpl. lia.
  - apply Forall_app. split; [done|]. eapply Forall_impl; [exact Hl|]. simpl. lia.
Qed.

(** An acknowledgment of new data restarts all timers with the initial timeout. *)
Lemma acked_tinv t a m n z ret w :
  acked (_window t) a m n = (ret, w) -> tinv t ->
  let t0 := set_window (set_window_size_is_zero t z) w in
  tinv (if (ret : bool) then
      let t := set_retx t0 (_initial_retransmission_timeout t0) (_consecutive_retransmission_count t0) in
      let t := set_window t (reset_timer (_window t) (_rto t)) in
      set_retx t (_rto t) 0
    else t0).
Proof.
  intros E [Hs Hb Hr Hi] t0. destruct ret; simpl.
  - destruct (reset_sorted _ (_buffer w) Hi) as [T1 T2]. by constructor.
  - assert (Ew : _buffer w = _buffer (_window t)).
    { unfold acked in E. repeat case_bool; by simplify_eq. }
    constructor; simpl; by rewrite ?Ew.
Qed.

(** What [ack_received] makes of an acknowledgment, with the window it leaves. *)
Lemma ack_received_window s t b a f m n :
  sinv s t b a f -> ack_ok t m n ->
  exists t' b' a' f', ack_received t (wrap m (_isn (_window t))) n = Ok t' /\
    sinv s t' b' a' f' /\ same_content b b' /\ exhausted t' b' f' /\ (tinv t -> tinv t') /\
    (let acks_new := (_first_seqno (_window t) <? m) && (m <=? _next_seqno (_window t)) in
     _first_seqno (_window t') = (if acks_new then m else _first_seqno (_window t)) /\
     _rto t' = (if acks_new then _initial_retransmission_timeout t else _rto t) /\
     _consecutive_retransmission_count t' =
       (if acks_new then 0 else _consecutive_retransmission_count t) /\
     _isn (_window t') = _isn (_window t)) /\
    _next_seqno (_window t) <= _next_seqno (_window t') /\
    (_first_seqno (_window t) <= m <= _next_seqno (_window t) -> _window_size (_window t') = Z.max n 1) /\
    (~ (_first_seqno (_window t) <= m <= _next_seqno (_window t)) ->
       _window_size (_window t') = _window_size (_window t)) /\
    _window_size_is_zero t' = (n =? 0) /\ _segments_out t `prefix_of` _segments_out t' /\
    _next_seqno (_window t') <> 0.
Proof.
  intros H Ha. pose proof Ha as [Hm Hn Hr Hns]. pose proof (sv_window _ _ _ _ _ H) as Hw.
  unfold ack_received. cbn [_window set_window_size_is_zero].
  rewrite (ack_received_eq (_window t) a) by (done || lia). cbn [mbind outcome_bind].
  destruct (acked (_window t) a m (Z.max n 1)) as [ret w] eqn:Eack. cbn zeta.
  set (t0 := set_window (set_window_size_is_zero t (n =? 0)) w).
  destruct (acked_sinv s t b a f m n t0 H Ha) as (a' & H0); [done|done|by simpl; rewrite Eack|].
  set (t1 := if ret then _ else _).
  assert (H1 : sinv s t1 b a' f).
  { unfold t1. destruct ret; [|done].
    eapply (sinv_timers s t0 b a' f (fun x => mkForSender (segment x) (u32 (_initial_retransmission_timeout t))));
      [done|done|done|done|]. exists []. split; [by rewrite app_nil_r|apply list_subseteq_nil]. }
  destruct (fill_window_inv s t1 b a' f H1) as (t' & b' & f' & E & H' & Hc & Hg & Hx & Hnz).
  exists t', b', a', f'. split; [done|]. split; [done|]. split; [done|]. split; [done|].
  split; [intros Ht; eapply grown_tinv; [|done]; by eapply acked_tinv|].
  destruct (gr_timer _ _ Hg) as (Hg1 & _ & Hg3 & Hg4).
  pose proof (gr_out _ _ Hg) as Hout. rewrite Hg4.
  pose proof (gr_next _ _ Hg) as Hnx. rewrite (gr_first _ _ Hg), (gr_size _ _ Hg), Hg1, Hg3, (gr_isn _ _ Hg).
  assert (Eret : ret = (_first_seqno (_window t) <? m) && (m <=? _next_seqno (_window t)) /\
     (_first_seqno w = if ret then m else _first_seqno (_window t)) /\ _isn w = _isn (_window t) /\
     _next_seqno w = _next_seqno (_window t) /\
     (_first_seqno (_window t) <= m <= _next_seqno (_window t) -> _window_size w = Z.max n 1) /\
     (~ (_first_seqno (_window t) <= m <= _next_seqno (_window t)) ->
        _window_size w = _window_size (_window t))).
  { unfold acked in Eack. pose proof (wn_first _ _ Hw).
    destruct ((m >? _) || (m <? _)) eqn:E1; [|destruct (Z.eqb_spec m (_first_seqno (_window t)))];
      simplify_eq; simpl; split_and!; try done; case_cmp; (done || lia). }
  destruct Eret as (<- & Ef & Ei & En & Es & Es'). unfold t1, t0 in *.
  destruct ret; simpl in *; rewrite ?Ef; rewrite En in Hnx; done.
Qed.

Lemma ack_received_inv s t b a f m n :
  sinv s t b a f -> ack_ok t m n ->
  exists t' b' a' f', ack_received t (wrap m (_isn (_window t))) n = Ok t' /\
    sinv s t' b' a' f' /\ same_content b b' /\ exhausted t' b' f' /\ (tinv t -> tinv t') /\
    (let acks_new := (_first_seqno (_window t) <? m) && (m <=? _next_seqno (_window t)) in
     _first_seqno (_window t') = (if acks_new then m else _first_seqno (_window t)) /\
     _rto t' = (if acks_new then _initial_retransmission_timeout t else _rto t) /\
     _consecutive_retransmission_count t' =
       (if acks_new then 0 else _consecutive_retransmission_count t) /\
     _isn (_window t') = _isn (_window t)).
Proof.
  intros H Ha. destruct (ack_received_window s t b a f m n H Ha) as (t' & b' & a' & f' & Hall).
  exists t', b', a', f'. tauto.
Qed.

Lemma tick_inv s t b a f ms : sinv s t b a f -> sinv s (tick t ms) b a f.
Proof.
  intros H. unfold tick, TCPSendingWindow.tick.
  assert (Hsub : segment <$> filter (fun x => expired ms x) (_buffer (_window t)) ⊆
    segment <$> _buffer (_window t)).
  { intros y (x & -> & [_ Hx]%list_elem_of_filter)%list_elem_of_fmap. by apply list_elem_of_fmap_2. }
  destruct (segment <$> filter _ _) as [|seg rest].
  - eapply (sinv_timers s t b a f (tick_one ms)); [apply tick_one_segment|done|done|done|].
    exists []. split; [by rewrite app_nil_r|apply list_subseteq_nil].
  - set (r := if negb _ then _ else _).
    eapply (sinv_timers s t b a f (fun x => mkForSender (segment (tick_one ms x)) (u32 r)));
      [intros; simpl; apply tick_one_segment|done|done| |].
    + simpl. unfold reset_timer, set_buffer. simpl. by rewrite <- list_fmap_compose.
    + exists [seg]. split; [done|]. intros y ->%list_elem_of_singleton. apply Hsub. left.
Qed.

Lemma excerpt_prefix s h d :
  h `prefix_of` s -> excerpt s d (len h) -> h ++ d `prefix_of` s.
Proof.
  intros [r ->] (_ & Hl & E). unfold zdrop in E. rewrite Nat2Z.id, drop_app_length in E.
  exists (zdrop (len d) r). rewrite <- app_assoc. f_equal. rewrite E at 1.
  symmetry. apply ztake_zdrop.
Qed.

Lemma write_inv s t b a f data bs n :
  sinv s t b a f -> write (_stream t) data = Ok (bs, n) ->
  excerpt s (ztake n data) (bytes_written (_stream t)) ->
  sinv s (set_stream t bs) (spec_write b data) a f.
Proof.
  intros H E Hx. pose proof H as [R Hpre Hend Hne Hw Hnx Hcl Hf Hun Hflow Hws Hbuf Hout Hb].
  destruct (write_rep _ _ data R) as (bs' & E' & R'). rewrite E in E'. simplify_eq.
  pose proof (prefix_length _ _ Hpre) as Hlen.
  unfold bytes_written in Hx. rewrite (rep_bytes_written _ _ R), u64_small in Hx by lia.
  assert (Hh : s_history (spec_write b data) = s_history b ++ ztake (spec_accepted b data) data)
    by (unfold s_history; simpl; by rewrite app_assoc).
  assert (He : s_ended b = true -> ztake (spec_accepted b data) data = [])
    by (intros Eb; unfold spec_accepted; by rewrite Eb).
  constructor; try done; rewrite ?Hh.
  - by apply excerpt_prefix.
  - simpl. intros Eb. rewrite (He Eb), app_nil_r. by apply Hend.
  - simpl. intros Ef. destruct (Hf Ef) as [E1 E2]. by rewrite (He E1), E2.
Qed.

Lemma end_inv s t b a f :
  sinv s t b a f -> bytes_written (_stream t) = len s ->
  sinv s (set_stream t (end_input (_stream t))) (spec_end b) a f.
Proof.
  intros H Hl. pose proof H as [R Hpre Hend Hne Hw Hnx Hcl Hf Hun Hflow Hws Hbuf Hout Hb].
  pose proof (prefix_length _ _ Hpre) as Hlen.
  unfold bytes_written in Hl. rewrite (rep_bytes_written _ _ R), u64_small in Hl by lia.
  constructor; try done.
  - by apply end_input_rep.
  - intros _. change (s_history (spec_end b)) with (s_history b). destruct Hpre as [r ->].
    rewrite length_app in Hl. destruct r; [by rewrite app_nil_r|simpl in Hl; lia].
  - intros Ef. destruct (Hf Ef). done.
Qed.

(** ** Reachable senders *)

(** The calls a connection makes, and taking the queued segments away. *)
Inductive sstep (s : list byte) : TCPSender -> TCPSender -> Prop :=
  | sstep_write t data bs n :
      write (_stream t) data = Ok (bs, n) -> excerpt s (ztake n data) (bytes_written (_stream t)) ->
      sstep s t (set_stream t bs)
  | sstep_end t :
      bytes_written (_stream t) = len s -> sstep s t (set_stream t (end_input (_stream t)))
  | sstep_fill t t' : fill_window t = Ok t' -> sstep s t t'
  | sstep_ack t m n t' :
      ack_ok t m n -> ack_received t (wrap m (_isn (_window t))) n = Ok t' -> sstep s t t'
  | sstep_tick t ms :
      0 <= ms -> 2 * _rto t < 2 ^ 32 -> _consecutive_retransmission_count t < 2 ^ 64 - 1 ->
      sstep s t (tick t ms)
  | sstep_empty t : sstep s t (send_empty_segment t)
  | sstep_take t n : sstep s t (set_segments_out t (drop n (_segments_out t))).

Section reachable.
  Context (s : list byte) (capacity retx_timeout : Z) (i : WrappingInt32).

Definition sender_params_ok : Prop :=
  0 <= capacity < 2 ^ 63 - 1 /\ 0 <= retx_timeout < 2 ^ 16 /\ wi_valid i /\ len s + 2 < 2 ^ 32.

(** Reachable from a new sender with the fixed ISN [i]. *)
Definition sreach : TCPSender -> Prop := rtc (sstep s) (new capacity retx_timeout (Some i) 0).

Definition good (t : TCPSender) : Prop :=
  tinv t /\ 0 <= _consecutive_retransmission_count t /\ _isn (_window t) = i /\
  exists b a f, sinv s t b a f.

Lemma new_good : sender_params_ok -> good (new capacity retx_timeout (Some i) 0).
Proof.
  intros (Hc & Hr & Hi & Hs). split; [constructor; simpl; try lia; by constructor|].
  split; [done|]. split; [done|]. exists (spec_new capacity), 0, false.
  constructor; simpl; try done; try lia.
  - by apply rep_new.
  - apply prefix_nil.
  - apply new_winv; [done|lia].
Qed.

Lemma step_good t t' : good t -> sstep s t t' -> good t'.
Proof.
  intros (Ht & Hc & Hi & b & a & f & H) Hst.
  inversion Hst as [? data bs n E Hx|? Hl|? ? E|? m n ? Ha E|? ms Hms H2 Hc2|?|? n]; subst.
  - split; [by destruct Ht; constructor|]. split; [done|]. split; [done|]. eexists _, _, _. by eapply write_inv.
  - split; [by destruct Ht; constructor|]. split; [done|]. split; [done|]. eexists _, _, _. by apply end_inv.
  - destruct (fill_window_inv s t b a f H) as (t1 & b' & f' & E1 & H' & _ & Hg & _).
    rewrite E in E1. simplify_eq. split; [by eapply grown_tinv|]. destruct (gr_timer _ _ Hg) as (_ & _ & -> & _).
    split; [done|]. split; [by rewrite (gr_isn _ _ Hg)|]. by exists b', a, f'.
  - destruct (ack_received_inv s t b a f m n H Ha) as (t1 & b' & a' & f' & E1 & H' & _ & _ & Ht' & _ & _ & Hcnt & Hisn).
    rewrite E in E1. simplify_eq. split; [by apply Ht'|]. split; [rewrite Hcnt; by case_bool|].
    split; [congruence|]. by exists b', a', f'.
  - destruct (tick_spec t ms Ht Hms H2 Hc2 Hc) as [Ht' Hcase]. split; [done|].
    split; [|split]; [..|exists b, a, f; by apply tick_inv].
    + destruct (_buffer (_window t)); [by rewrite Hcase|]. case_bool; lia.
    + unfold tick. simpl. by destruct (segment <$> _).
  - split; [by destruct Ht; constructor|]. split; [done|]. split; [done|]. exists b, a, f.
    destruct H. constructor; try done. simpl. apply Forall_app. split; [done|].
    constructor; [by left|constructor].
  - split; [by destruct Ht; constructor|]. split; [done|]. split; [done|]. exists b, a, f.
    destruct H. constructor; try done. simpl. by apply Forall_drop.
Qed.

Lemma reach_good t : sender_params_ok -> sreach t -> good t.
Proof.
  intros Hp Hr. unfold sreach in Hr. apply (rtc_ind_r good) in Hr; [done|by apply new_good|].
  intros x y _ Hxy Hx. by eapply step_good.
Qed.
End reachable.

(** ** Properties *)

(** There is nothing left to send, or no room. *)
Definition filled (t : TCPSender) : Prop :=
  bytes_in_flight t = window_size (_window t) \/
  (ByteStream.buffer_empty (_stream t) = true /\
   (eof (_stream t) = true -> state t = FIN_SENT \/ state t = FIN_ACKED)).

Lemma exhausted_filled s t b a f :
  sinv s t b a f -> _next_seqno (_window t) <> 0 -> exhausted t b f -> filled t.
Proof.
  intros H Hnz Hx. pose proof (sv_window _ _ _ _ _ H) as Hw. unfold filled, bytes_in_flight, window_size.
  rewrite (winv_in_flight _ _ Hw). pose proof (sv_flow _ _ _ _ _ H).
  pose proof (wn_first _ _ Hw). pose proof (wn_bounds _ _ Hw).
  destruct (sinv_space _ _ _ _ _ H) as [Esp _]. pose proof (sv_stream _ _ _ _ _ H) as R.
  destruct Hx as [Hx|[Hx1 Hx2]]; [left; lia|right].
  rewrite (buffer_empty_eq _ _ R), (eof_eq _ _ R), (state_phase _ _ _ _ _ H), Hx1. split; [done|].
  rewrite andb_true_r. intros He. rewrite (Hx2 He) in *. unfold phase. cbn [negb].
  pose proof (sv_next _ _ _ _ _ H) as Hn. pose proof (sv_unacked _ _ _ _ _ H) as Hu.
  destruct (Z.eqb_spec (_next_seqno (_window t)) 0); [done|]. cbn [Z.b2z] in Hn.
  destruct (Z.eqb_spec (_first_seqno (_window t)) 0) as [E0|E0]; [specialize (Hu E0); lia|].
  case_bool; [by right|by left].
Qed.

(** C13. Everything the sender sends is right as long as no acknowledgment pulls the
    right edge of the window below what was sent, and every one is at least 1 and
    within reach ([ack_ok] in [sreach]): in every reachable
    state, each queued segment is empty or carries, at its sequence number, exactly the bytes
    of the application's stream that belong there (SYN only at 0, FIN only at the
    end), at most 1000 of them; and what is in flight fits in the peer's window.
    After a window has shrunk the sender overruns it ([window_shrink_wraps]). *)
Theorem sender_segments_valid s capacity rt i t :
  sender_params_ok s capacity rt i -> sreach s capacity rt i t ->
  Forall (fun seg => length_in_sequence_space seg = 0 \/
    (exists pos, sender_segment s i pos seg /\
       pos + length_in_sequence_space seg <= next_seqno_absolute t) /\
    len (str (payload seg)) <= MAX_PAYLOAD_SIZE) (_segments_out t) /\
  bytes_in_flight t <= window_size (_window t).
Proof.
  intros Hp Hr. destruct (reach_good _ _ _ _ t Hp Hr) as (_ & _ & Hi & b & a & f & H).
  pose proof (sv_out _ _ _ _ _ H) as Hout. rewrite Hi in Hout. split.
  - eapply Forall_impl; [exact Hout|]. intros seg [?|(_ & Hd & pos & Hs & Hn)]; [by left|right].
    split; [by exists pos|done].
  - unfold bytes_in_flight, window_size. rewrite (winv_in_flight _ _ (sv_window _ _ _ _ _ H)).
    pose proof (sv_flow _ _ _ _ _ H). lia.
Qed.

(** C14. [fill_window] terminates and does all there is to do: from every
    reachable state it returns, the window is respected, the bytes handed over
    are unchanged in order, and afterwards the window is used up or the stream
    is drained and, if it has ended, the FIN is out. *)
Theorem sender_fill_window s capacity rt i t :
  sender_params_ok s capacity rt i -> sreach s capacity rt i t ->
  exists t', fill_window t = Ok t' /\ sreach s capacity rt i t' /\
    _segments_out t `prefix_of` _segments_out t' /\
    0 < next_seqno_absolute t' /\ bytes_in_flight t' <= window_size (_window t') /\
    (bytes_in_flight t' = window_size (_window t') \/
     (ByteStream.buffer_empty (_stream t') = true /\
      (eof (_stream t') = true -> state t' = FIN_SENT \/ state t' = FIN_ACKED))).
Proof.
  intros Hp Hr. destruct (reach_good _ _ _ _ t Hp Hr) as (_ & _ & Hi & b & a & f & H).
  destruct (fill_window_inv s t b a f H) as (t' & b' & f' & E & H' & Hc & Hg & Hx & Hnz).
  exists t'. split; [done|]. split; [eapply rtc_r; [exact Hr|by apply sstep_fill]|].
  split; [apply Hg|]. pose proof (sv_window _ _ _ _ _ H') as Hw. pose proof (sv_flow _ _ _ _ _ H') as Hfl.
  pose proof (wn_first _ _ Hw). pose proof (wn_bounds _ _ Hw).
  unfold bytes_in_flight, window_size, next_seqno_absolute, TCPSendingWindow.next_seqno.
  rewrite (winv_in_flight _ _ Hw). split; [lia|]. split; [lia|].
  pose proof (exhausted_filled _ _ _ _ _ H' Hnz Hx) as [Hx'|Hx']; [left|by right].
  unfold bytes_in_flight, window_size in Hx'. by rewrite (winv_in_flight _ _ Hw) in Hx'.
Qed.

(** C15. An acknowledgment the peer may send (any number at least 1 within reach,
    that does not move the right edge of the window below what was sent) is handled
    without an exception: if it covers new data the left edge moves to it and timeout
    and retransmission count start over, otherwise they stay; the window becomes the
    one the peer announces (at least 1, and a zero is remembered), unless the
    acknowledgment lies outside the window; then the window is filled: what was queued
    stays queued, and either the window is used up or the stream is drained and the FIN
    is out. *)
Theorem sender_ack_received s capacity rt i t m n :
  sender_params_ok s capacity rt i -> sreach s capacity rt i t -> ack_ok t m n ->
  let in_window := (first_seqno (_window t) <=? m) && (m <=? next_seqno_absolute t) in
  let acks_new := (first_seqno (_window t) <? m) && (m <=? next_seqno_absolute t) in
  exists t', ack_received t (wrap m i) n = Ok t' /\ sreach s capacity rt i t' /\
    first_seqno (_window t') = (if acks_new then m else first_seqno (_window t)) /\
    window_size (_window t') = (if in_window then Z.max n 1 else window_size (_window t)) /\
    _window_size_is_zero t' = (n =? 0) /\
    _rto t' = (if acks_new then _initial_retransmission_timeout t else _rto t) /\
    _consecutive_retransmission_count t' =
      (if acks_new then 0 else _consecutive_retransmission_count t) /\
    _segments_out t `prefix_of` _segments_out t' /\
    0 < next_seqno_absolute t' /\ bytes_in_flight t' <= window_size (_window t') /\ filled t'.
Proof.
  intros Hp Hr Ha in_window acks_new. destruct (reach_good _ _ _ _ t Hp Hr) as (_ & _ & Hi & b & a & f & H).
  destruct (ack_received_window s t b a f m n H Ha)
    as (t' & b' & a' & f' & E & H' & _ & Hx & _ & (E1 & E2 & E3 & _) & Hnx & Ein & Eout & Ez & Hout & Hnz).
  exists t'. rewrite Hi in E. split; [done|].
  split; [eapply rtc_r; [exact Hr|eapply sstep_ack; [done|by rewrite Hi]]|].
  split; [done|]. split.
  { unfold in_window, window_size. destruct (_ && _) eqn:Ew.
    - apply andb_true_iff in Ew as [?%Z.leb_le ?%Z.leb_le]. by apply Ein.
    - apply Eout. intros [Hf Hn]. apply andb_false_iff in Ew as [?%Z.leb_gt|?%Z.leb_gt];
        unfold first_seqno, next_seqno_absolute, TCPSendingWindow.next_seqno in *; lia. }
  split_and!; try done.
  - pose proof (sv_window _ _ _ _ _ H') as Hw. pose proof (wn_first _ _ Hw). pose proof (wn_bounds _ _ Hw).
    unfold next_seqno_absolute, TCPSendingWindow.next_seqno. lia.
  - unfold bytes_in_flight, window_size.
    rewrite (winv_in_flight _ _ (sv_window _ _ _ _ _ H')). pose proof (sv_flow _ _ _ _ _ H'). lia.
  - by eapply exhausted_filled.
Qed.

(** C16. The retransmission timer: when no segment is outstanding, or the oldest
    one's timer has time left, [tick] sends nothing and keeps timeout and count;
    otherwise it sends again exactly the oldest outstanding segment, counts one
    more consecutive retransmission and doubles the timeout, unless the peer's
    window was zero. *)
Theorem sender_tick s capacity rt i t ms :
  sender_params_ok s capacity rt i -> sreach s capacity rt i t ->
  0 <= ms -> 2 * _rto t < 2 ^ 32 -> _consecutive_retransmission_count t < 2 ^ 64 - 1 ->
  match _buffer (_window t) with
  | [] => tick t ms = t
  | x :: _ =>
      if ms <? remaining_rto x then
        _segments_out (tick t ms) = _segments_out t /\ _rto (tick t ms) = _rto t /\
        _consecutive_retransmission_count (tick t ms) = _consecutive_retransmission_count t
      else
        _segments_out (tick t ms) = _segments_out t ++ [segment x] /\
        _rto (tick t ms) = (if _window_size_is_zero t then _rto t else 2 * _rto t) /\
        _consecutive_retransmission_count (tick t ms) = _consecutive_retransmission_count t + 1
  end.
Proof.
  intros Hp Hr Hms H2 Hc. destruct (reach_good _ _ _ _ t Hp Hr) as (Ht & Hc0 & _).
  by destruct (tick_spec t ms Ht Hms H2 Hc Hc0).
Qed.

(** [state] names the phase of the stream: [CLOSED] before the SYN is sent,
    [SYN_SENT] while it is unacknowledged, [SYN_ACKED] until the FIN is sent,
    [FIN_SENT] until SYN, all of [s] and the FIN are acknowledged, and then
    [FIN_ACKED]. *)
Theorem sender_state s capacity rt i t :
  sender_params_ok s capacity rt i -> sreach s capacity rt i t ->
  state t =
    (if next_seqno_absolute t =? 0 then CLOSED
     else if first_seqno (_window t) =? 0 then SYN_SENT
     else if next_seqno_absolute t <? len s + 2 then SYN_ACKED
     else if first_seqno (_window t) <? len s + 2 then FIN_SENT
     else FIN_ACKED) /\
  next_seqno_absolute t <= len s + 2.
Proof.
  intros Hp Hr. destruct (reach_good _ _ _ _ t Hp Hr) as (_ & _ & _ & b & a & f & H).
  rewrite (state_phase _ _ _ _ _ H). unfold phase, next_seqno_absolute, TCPSendingWindow.next_seqno, first_seqno.
  pose proof H as [_ Hpre Hend _ Hw Hnx Hcl Hf _ _ _ _ _ _]. pose proof (wn_first _ _ Hw).
  pose proof (prefix_length _ _ Hpre) as Hlen. unfold s_history in Hlen, Hend. rewrite length_app in Hlen.
  destruct (Z.eqb_spec (_next_seqno (_window t)) 0); [split; [done|lia]|].
  destruct f; cbn [Z.b2z negb] in *; [|split; [case_cmp; done|lia]].
  destruct (Hf eq_refl) as [E1 E2]. rewrite E2, app_nil_r in Hend. rewrite <- (Hend E1) in *.
  split; [by case_cmp|lia].
Qed.

(** ** A small connection: three bytes, written and ended, then the SYN is sent
    and acknowledged with a window of ten. *)
Definition hi : list byte := [Byte.x68; Byte.x69; Byte.x21].
Definition hi_isn : WrappingInt32 := mkWrappingInt32 5.
Definition hi_get (t : TCPSender) (o : outcome TCPSender) : TCPSender :=
  match o with Ok t' => t' | _ => t end.
Definition hi_new : TCPSender := new 8 1000 (Some hi_isn) 0.
Definition hi_written : TCPSender :=
  match write (_stream hi_new) hi with Ok (bs, _) => set_stream hi_new bs | _ => hi_new end.
Definition hi_ended : TCPSender := set_stream hi_written (end_input (_stream hi_written)).
Definition hi_syn : TCPSender := hi_get hi_ended (fill_window hi_ended).
Definition hi_sent : TCPSender := hi_get hi_syn (ack_received hi_syn (wrap 1 hi_isn) 10).

Lemma hi_params : sender_params_ok hi 8 1000 hi_isn.
Proof. split_and!; simpl; (lia || (split; vm_compute; congruence) || done). Qed.

Lemma hi_ended_reach : sreach hi 8 1000 hi_isn hi_ended.
Proof.
  eapply rtc_l; [|eapply rtc_l; [|apply rtc_refl]].
  - apply (sstep_write hi hi_new hi (_stream hi_written) 3); [vm_compute; reflexivity|].
    split_and!; vm_compute; congruence.
  - apply (sstep_end hi hi_written). vm_compute. reflexivity.
Qed.

Lemma hi_syn_reach : sreach hi 8 1000 hi_isn hi_syn.
Proof.
  eapply rtc_r; [apply hi_ended_reach|]. apply sstep_fill. vm_compute. reflexivity.
Qed.

Lemma hi_ack_ok : ack_ok hi_syn 1 10.
Proof.
  constructor; [lia|lia| |]; vm_compute.
  - split; [done|left; done].
  - intros _ E. discriminate E.
Qed.

Lemma hi_sent_reach : sreach hi 8 1000 hi_isn hi_sent.
Proof.
  eapply rtc_r; [apply hi_syn_reach|]. apply (sstep_ack hi hi_syn 1 10); [apply hi_ack_ok|].
  vm_compute. reflexivity.
Qed.

Lemma sender_segments_valid_witness :
  Forall (fun seg => length_in_sequence_space seg = 0 \/
    (exists pos, sender_segment hi hi_isn pos seg /\
       pos + length_in_sequence_space seg <= next_seqno_absolute hi_sent) /\
    len (str (payload seg)) <= MAX_PAYLOAD_SIZE) (_segments_out hi_sent) /\
  bytes_in_flight hi_sent <= window_size (_window hi_sent).
Proof.
  apply (sender_segments_valid hi 8 1000 hi_isn hi_sent); [apply hi_params | apply hi_sent_reach].
Defined.

Lemma sender_fill_window_witness :
  exists t', fill_window hi_ended = Ok t' /\ sreach hi 8 1000 hi_isn t' /\
    _segments_out hi_ended `prefix_of` _segments_out t' /\
    0 < next_seqno_absolute t' /\ bytes_in_flight t' <= window_size (_window t') /\
    (bytes_in_flight t' = window_size (_window t') \/
     (ByteStream.buffer_empty (_stream t') = true /\
      (eof (_stream t') = true -> state t' = FIN_SENT \/ state t' = FIN_ACKED))).
Proof.
  apply (sender_fill_window hi 8 1000 hi_isn hi_ended); [apply hi_params | apply hi_ended_reach].
Defined.

Lemma sender_ack_received_witness :
  exists t', ack_received hi_syn (wrap 1 hi_isn) 10 = Ok t' /\ sreach hi 8 1000 hi_isn t' /\
    first_seqno (_window t') = 1 /\ window_size (_window t') = 10 /\ _window_size_is_zero t' = false /\
    _rto t' = 1000 /\ _consecutive_retransmission_count t' = 0 /\
    _segments_out hi_syn `prefix_of` _segments_out t' /\
    0 < next_seqno_absolute t' /\ bytes_in_flight t' <= window_size (_window t') /\ filled t'.
Proof.
  apply (sender_ack_received hi 8 1000 hi_isn hi_syn 1 10);
    [apply hi_params | apply hi_syn_reach | apply hi_ack_ok].
Defined.

Lemma sender_tick_witness :
  _segments_out (tick hi_syn 1000) = _segments_out hi_syn ++ [set_seqno hi_isn (set_syn true TCPSegment_default)] /\
  _rto (tick hi_syn 1000) = 2000 /\ _consecutive_retransmission_count (tick hi_syn 1000) = 1.
Proof.
  apply (sender_tick hi 8 1000 hi_isn hi_syn 1000);
    [apply hi_params | apply hi_syn_reach | lia | vm_compute; reflexivity | vm_compute; reflexivity].
Defined.

Lemma sender_state_witness :
  state hi_sent = FIN_SENT /\ next_seqno_absolute hi_sent <= len hi + 2.
Proof.
  apply (sender_state hi 8 1000 hi_isn hi_sent); [apply hi_params | apply hi_sent_reach].
Defined.
