(* ===== verification/SenderSegments.v ===== *)
(** * The segments a sender holds

    A sender puts segments into its window and its queue in one place only,
    [add_and_send]; acknowledgments drop segments of the window, and [tick] sends one
    of them again.  So what holds of every segment it makes holds of every
    segment it holds. *)

From S2P Require Import Prelude WrappingIntegers ByteStream Buffer TCPHeader.
From S2P Require Import TCPSegment TCPConfig TCPSendingWindow TCPSender.

(** [P] of the segments of the window, [Q] of those of the queue *)
Record stocked (P Q : TCPSegment -> Prop) (t : TCPSender) : Prop := {
  sk_buffer : Forall (fun x => P (segment x)) (_buffer (_window t));
  sk_queue : Forall Q (TCPSender._segments_out t)
}.

(** [ack_received] only drops segments of the window. *)
Lemma window_ack_buffer w ackno n :
  sat (TCPSendingWindow.ack_received w ackno n) (fun x => exists j, _buffer x.2 = drop j (_buffer w)).
Proof.
  unfold TCPSendingWindow.ack_received. case_bool; [by apply sat_ok; exists 0%nat|].
  case_bool; [by apply sat_ok; exists 0%nat|].
  apply (sat_bind _ _ (fun _ => True)); [done|]. intros [j|] _; [|done].
  apply (sat_bind _ _ (fun _ => True)); [done|]. intros front _. cbv zeta.
  set (w1 := if _ >=? _ then _ else _).
  assert (Hw1 : exists j', _buffer w1 = drop j' (_buffer w)).
  { unfold w1. case_bool; [exists (j + 1)%nat|by exists j]. simpl. by rewrite drop_drop. }
  unfold _advance, _shrink_front. case_bool; [done|]. by apply sat_ok.
Qed.

Section stocked.
  Context (P Q : TCPSegment -> Prop) (HPQ : forall seg, P seg -> Q seg).

Notation holds := (stocked P Q).

Lemma stocked_same t t' :
  holds t -> _window t' = _window t -> TCPSender._segments_out t' = TCPSender._segments_out t -> holds t'.
Proof. intros [? ?] E1 E2. constructor; by rewrite ?E1, ?E2. Qed.

Lemma send_stocked t seg : holds t -> Q seg -> holds (_send t seg).
Proof. intros [H1 H2] Hq. constructor; [done|]. simpl. apply Forall_app. by rewrite Forall_singleton. Qed.

Lemma add_and_send_stocked t seg : holds t -> P seg -> sat (add_and_send t seg) holds.
Proof.
  intros [H1 H2] Hp. unfold add_and_send, add_segment. case_bool; [done|]. apply sat_ok.
  constructor; simpl; apply Forall_app; rewrite Forall_singleton; by auto.
Qed.

(** [ack_received], given what [fill_window] does *)
Lemma ack_received_stocked (I : TCPSender -> Prop) t ackno n :
  (forall t', _stream t' = _stream t -> holds t' -> sat (fill_window t') I) -> holds t ->
  sat (TCPSender.ack_received t ackno n) I.
Proof.
  intros Hf [H1 H2]. unfold TCPSender.ack_received. eapply sat_bind; [apply window_ack_buffer|].
  intros [ret w] [j Hj]. simpl in Hj. cbv zeta.
  assert (Hw : Forall (fun x => P (segment x)) (_buffer w)) by (rewrite Hj; by apply Forall_drop).
  apply Hf; [by destruct ret|]. destruct ret; constructor; simpl; try done. by apply Forall_fmap.
Qed.

Lemma tick_stocked t ms : holds t -> holds (TCPSender.tick t ms).
Proof.
  intros [H1 H2]. unfold TCPSender.tick, TCPSendingWindow.tick. set (w := set_buffer _ _).
  assert (Hw : Forall (fun x => P (segment x)) (_buffer w)).
  { apply Forall_fmap. eapply Forall_impl; [exact H1|]. intros x. unfold tick_one. simpl. by case_bool. }
  destruct (segment <$> filter _ _) as [|first rest] eqn:E; [by constructor|].
  assert (Hf : Q first).
  { apply HPQ. assert (Hin : first ∈ segment <$> filter (fun x => expired ms x) (_buffer (_window t)))
      by (rewrite E; by left).
    apply list_elem_of_fmap in Hin as (x & -> & [_ Hx]%list_elem_of_filter).
    rewrite Forall_forall in H1. by apply H1. }
  apply send_stocked; [|done]. constructor; [|done]. simpl. by apply Forall_fmap.
Qed.

Lemma tick_stream t ms : _stream (TCPSender.tick t ms) = _stream t.
Proof. unfold TCPSender.tick, TCPSendingWindow.tick. by destruct (segment <$> filter _ _). Qed.
End stocked.
