(* ===== verification/TCPState.v ===== *)
(** * Summaries of a connection's state

    Model of [libsponge/tcp_helpers/tcp_state.hh] and [.cc]: the strings that
    name the sender's and the receiver's state, and the official TCP states as
    pairs of them. *)

From S2P Require Import Prelude WrappingIntegers ByteStream TCPReceiver TCPConfig TCPSendingWindow.
From S2P Require Import TCPSender.

Module TCPReceiverStateSummary.
Definition ERROR : string := "error (connection was reset)".
Definition LISTEN : string := "waiting for SYN: ackno is empty".
Definition SYN_RECV : string := "SYN received (ackno exists), and input to stream hasn't ended".
Definition FIN_RECV : string := "input to stream has ended".
End TCPReceiverStateSummary.

Module TCPSenderStateSummary.
Definition ERROR : string := "error (connection was reset)".
Definition CLOSED : string := "waiting for stream to begin (no SYN sent)".
Definition SYN_SENT : string := "stream started but nothing acknowledged".
Definition SYN_ACKED : string := "stream ongoing".
Definition FIN_SENT : string := "stream finished (FIN sent) but not fully acknowledged".
Definition FIN_ACKED : string := "stream finished and fully acknowledged".
End TCPSenderStateSummary.

Record TCPState := mkTCPState {
  _sender : string;
  _receiver : string;
  _active : bool;
  _linger_after_streams_finish : bool
}.

#[global] Instance TCPState_eq_dec : EqDecision TCPState.
Proof. solve_decision. Defined.

(** [operator==] compares the four members. *)
Definition state_eqb (a b : TCPState) : bool :=
  Bool.eqb (_active a) (_active b) &&
  Bool.eqb (_linger_after_streams_finish a) (_linger_after_streams_finish b) &&
  String.eqb (_sender a) (_sender b) && String.eqb (_receiver a) (_receiver b).

Inductive State :=
  | LISTEN | SYN_RCVD | SYN_SENT | ESTABLISHED | CLOSE_WAIT | LAST_ACK | FIN_WAIT_1 | FIN_WAIT_2
  | CLOSING | TIME_WAIT | CLOSED | RESET.

#[global] Instance State_eq_dec : EqDecision State.
Proof. solve_decision. Defined.

(** [TCPState(State)] *)
Definition official (state : State) : TCPState :=
  match state with
  | LISTEN => mkTCPState TCPSenderStateSummary.CLOSED TCPReceiverStateSummary.LISTEN true true
  | SYN_RCVD => mkTCPState TCPSenderStateSummary.SYN_SENT TCPReceiverStateSummary.SYN_RECV true true
  | SYN_SENT => mkTCPState TCPSenderStateSummary.SYN_SENT TCPReceiverStateSummary.LISTEN true true
  | ESTABLISHED => mkTCPState TCPSenderStateSummary.SYN_ACKED TCPReceiverStateSummary.SYN_RECV true true
  | CLOSE_WAIT => mkTCPState TCPSenderStateSummary.SYN_ACKED TCPReceiverStateSummary.FIN_RECV true false
  | LAST_ACK => mkTCPState TCPSenderStateSummary.FIN_SENT TCPReceiverStateSummary.FIN_RECV true false
  | CLOSING => mkTCPState TCPSenderStateSummary.FIN_SENT TCPReceiverStateSummary.FIN_RECV true true
  | FIN_WAIT_1 => mkTCPState TCPSenderStateSummary.FIN_SENT TCPReceiverStateSummary.SYN_RECV true true
  | FIN_WAIT_2 => mkTCPState TCPSenderStateSummary.FIN_ACKED TCPReceiverStateSummary.SYN_RECV true true
  | TIME_WAIT => mkTCPState TCPSenderStateSummary.FIN_ACKED TCPReceiverStateSummary.FIN_RECV true true
  | RESET => mkTCPState TCPSenderStateSummary.ERROR TCPReceiverStateSummary.ERROR false false
  | CLOSED => mkTCPState TCPSenderStateSummary.FIN_ACKED TCPReceiverStateSummary.FIN_RECV false false
  end.

Definition receiver_summary (r : TCPReceiver) : string :=
  if ByteStream.error (TCPReceiver.stream_out r) then TCPReceiverStateSummary.ERROR
  else if negb (bool_decide (is_Some (TCPReceiver.ackno r))) then TCPReceiverStateSummary.LISTEN
  else if input_ended (TCPReceiver.stream_out r) then TCPReceiverStateSummary.FIN_RECV
  else TCPReceiverStateSummary.SYN_RECV.

Definition sender_summary (t : TCPSender) : string :=
  if ByteStream.error (stream_in t) then TCPSenderStateSummary.ERROR
  else if next_seqno_absolute t =? 0 then TCPSenderStateSummary.CLOSED
  else if next_seqno_absolute t =? TCPSender.bytes_in_flight t then TCPSenderStateSummary.SYN_SENT
  else if negb (eof (stream_in t)) then TCPSenderStateSummary.SYN_ACKED
  else if next_seqno_absolute t <? u64 (bytes_written (stream_in t) + 2)
  then TCPSenderStateSummary.SYN_ACKED
  else if negb (TCPSender.bytes_in_flight t =? 0) then TCPSenderStateSummary.FIN_SENT
  else TCPSenderStateSummary.FIN_ACKED.

(** [TCPState(sender, receiver, active, linger)] *)
Definition state_of (t : TCPSender) (r : TCPReceiver) (active linger : bool) : TCPState :=
  mkTCPState (sender_summary t) (receiver_summary r) active (if active then linger else false).

(** [std::to_string] of a [bool] *)
Definition to_string_bool (b : bool) : string := if b then "1" else "0".

Definition name (st : TCPState) : string :=
  "sender=`" +:+ _sender st +:+ "`, receiver=`" +:+ _receiver st +:+ "`, active=" +:+
  to_string_bool (_active st) +:+ ", linger_after_streams_finish=" +:+
  to_string_bool (_linger_after_streams_finish st).

(** ** Lemmas *)

Lemma state_eqb_eq a b : state_eqb a b = true <-> a = b.
Proof.
  destruct a, b. unfold state_eqb; simpl.
  rewrite !andb_true_iff, !Bool.eqb_true_iff, !String.eqb_eq. naive_solver.
Qed.

(** The enumerators of the two [state] methods and the summary strings. *)
Definition sender_name (st : SenderState) : string :=
  match st with
  | TCPSender.CLOSED => TCPSenderStateSummary.CLOSED
  | TCPSender.SYN_SENT => TCPSenderStateSummary.SYN_SENT
  | TCPSender.SYN_ACKED | TCPSender.ESTABLISHED => TCPSenderStateSummary.SYN_ACKED
  | TCPSender.FIN_SENT => TCPSenderStateSummary.FIN_SENT
  | TCPSender.FIN_ACKED => TCPSenderStateSummary.FIN_ACKED
  | TCPSender.ERROR => TCPSenderStateSummary.ERROR
  end.

Definition receiver_name (st : ReceiverState) : string :=
  match st with
  | TCPReceiver.LISTEN => TCPReceiverStateSummary.LISTEN
  | TCPReceiver.SYN_RECV => TCPReceiverStateSummary.SYN_RECV
  | TCPReceiver.FIN_RECV => TCPReceiverStateSummary.FIN_RECV
  | TCPReceiver.ERROR => TCPReceiverStateSummary.ERROR
  end.

Lemma receiver_summary_name r : receiver_summary r = receiver_name (TCPReceiver.state r).
Proof.
  unfold receiver_summary, TCPReceiver.state.
  repeat (case_bool; try done); destruct (input_ended _); done.
Qed.

Lemma sender_summary_name t :
  0 <= TCPSender.bytes_in_flight t <= next_seqno_absolute t ->
  (eof (stream_in t) = true -> next_seqno_absolute t <= u64 (bytes_written (stream_in t) + 2)) ->
  sender_summary t = sender_name (TCPSender.state t).
Proof.
  intros HB HW. unfold sender_summary, TCPSender.state. case_bool; [done|].
  destruct (eof (stream_in t)); [specialize (HW eq_refl)|clear HW]; cbn [negb andb];
    case_cmp; try done; lia.
Qed.

(** What the invariant of the sender gives. *)
Lemma sinv_summary s t b a f : sinv s t b a f -> sender_summary t = sender_name (TCPSender.state t).
Proof.
  intros [R Hpre Hend _ Hw Hn _ Hf _ _ _ _ _ Hb]. pose proof (wn_first _ _ Hw). pose proof (wn_bounds _ _ Hw).
  pose proof (prefix_length _ _ Hpre) as Hlen.
  apply sender_summary_name; unfold TCPSender.bytes_in_flight, next_seqno_absolute, TCPSendingWindow.next_seqno.
  - rewrite (winv_in_flight _ _ Hw). lia.
  - intros _. unfold stream_in, bytes_written. rewrite (rep_bytes_written _ _ R), u64_u64_add, u64_small by lia.
    rewrite Hn. unfold s_history. rewrite length_app. case_bool; [lia|]. destruct f; simpl; lia.
Qed.

(** ** Properties *)

(** The twelve official states are pairwise different under [operator==], so
    the dispatch of [TCPConnection::segment_received] matches at most one. *)
Theorem official_states_distinct a b : state_eqb (official a) (official b) = bool_decide (a = b).
Proof. by destruct a, b; vm_compute. Qed.

(** The summary [TCPState] computes for itself and the [state] methods of
    sender and receiver agree on every reachable sender and on every receiver,
    up to the enumerators' names. *)
Theorem summaries_agree s capacity rt i t r :
  sender_params_ok s capacity rt i -> sreach s capacity rt i t ->
  sender_summary t = sender_name (TCPSender.state t) /\
  receiver_summary r = receiver_name (TCPReceiver.state r).
Proof.
  intros Hp Hr. split; [|apply receiver_summary_name].
  destruct (reach_good _ _ _ _ t Hp Hr) as (_ & _ & _ & b & a & f & H). by eapply sinv_summary.
Qed.

Lemma summaries_agree_witness :
  sender_summary hi_sent = sender_name (TCPSender.state hi_sent) /\
  receiver_summary demo_r2 = receiver_name (TCPReceiver.state demo_r2).
Proof.
  apply (summaries_agree hi 8 1000 hi_isn hi_sent demo_r2); [apply hi_params | apply hi_sent_reach].
Defined.
