(* ===== verification/TCPConnection.v ===== *)
(** * A TCP endpoint

    Model of [libsponge/tcp_connection.hh] and [.cc]: a sender and a receiver,
    the queue of outgoing segments, and the dispatch of an incoming segment on
    the official TCP state. *)

From S2P Require Import Prelude WrappingIntegers ByteStream StreamReassembler Buffer TCPHeader.
From S2P Require Import TCPSegment SegmentSpec TCPConfig TCPReceiver TCPSendingWindow TCPSender TCPState.

Record TCPConnection := mkTCPConnection {
  _cfg : TCPConfig;
  _receiver : TCPReceiver;
  _sender : TCPSender;
  _segments_out : list TCPSegment;
  _linger_after_streams_finish : bool;
  _active : bool;
  _time_since_last_segment_received : Z
}.

(** [random] is what the sender's [random_device] returns. *)
Definition new (cfg : TCPConfig) (random : Z) : TCPConnection :=
  mkTCPConnection cfg (TCPReceiver.new (recv_capacity cfg))
    (TCPSender.new (send_capacity cfg) (rt_timeout cfg) (fixed_isn cfg) random) [] true true 0.

Definition set_receiver (c : TCPConnection) (r : TCPReceiver) : TCPConnection :=
  mkTCPConnection (_cfg c) r (_sender c) (_segments_out c) (_linger_after_streams_finish c)
    (_active c) (_time_since_last_segment_received c).
Definition set_sender (c : TCPConnection) (t : TCPSender) : TCPConnection :=
  mkTCPConnection (_cfg c) (_receiver c) t (_segments_out c) (_linger_after_streams_finish c)
    (_active c) (_time_since_last_segment_received c).
(** [_segments_out.push(seg)] *)
Definition push_out (c : TCPConnection) (seg : TCPSegment) : TCPConnection :=
  mkTCPConnection (_cfg c) (_receiver c) (_sender c) (_segments_out c ++ [seg])
    (_linger_after_streams_finish c) (_active c) (_time_since_last_segment_received c).
Definition set_linger (c : TCPConnection) (b : bool) : TCPConnection :=
  mkTCPConnection (_cfg c) (_receiver c) (_sender c) (_segments_out c) b
    (_active c) (_time_since_last_segment_received c).
Definition set_active (c : TCPConnection) (b : bool) : TCPConnection :=
  mkTCPConnection (_cfg c) (_receiver c) (_sender c) (_segments_out c)
    (_linger_after_streams_finish c) b (_time_since_last_segment_received c).
Definition set_time (c : TCPConnection) (n : Z) : TCPConnection :=
  mkTCPConnection (_cfg c) (_receiver c) (_sender c) (_segments_out c)
    (_linger_after_streams_finish c) (_active c) n.

Definition outbound_stream (c : TCPConnection) : ByteStream := stream_in (_sender c).
Definition inbound_stream (c : TCPConnection) : ByteStream := TCPReceiver.stream_out (_receiver c).
Definition remaining_outbound_capacity (c : TCPConnection) : Z := remaining_capacity (outbound_stream c).
Definition bytes_in_flight (c : TCPConnection) : Z := TCPSender.bytes_in_flight (_sender c).
Definition time_since_last_segment_received (c : TCPConnection) : Z := _time_since_last_segment_received c.
Definition active (c : TCPConnection) : bool := _active c.
Definition state (c : TCPConnection) : TCPState :=
  state_of (_sender c) (_receiver c) (active c) (_linger_after_streams_finish c).

(** [optional::value()] *)
Definition opt_value {A} (o : option A) : outcome A :=
  match o with Some a => Ok a | None => Throw bad_optional_access end.

Definition _add_ack_info (c : TCPConnection) (ack_seg : TCPSegment) : outcome TCPSegment :=
  let ack_seg := set_ack true ack_seg in
  a ← opt_value (TCPReceiver.ackno (_receiver c));
  mret (set_window_size (TCPReceiver.window_size (_receiver c)) (set_ackno a ack_seg)).

(** [TCPSegment ack_seg; _add_ack_info(ack_seg); _segments_out.push(ack_seg);] *)
Definition push_ack (c : TCPConnection) : outcome TCPConnection :=
  ack_seg ← _add_ack_info c TCPSegment_default;
  mret (push_out c ack_seg).

(** The [while] loop of [_collect_sender_segments_out] over the sender's queue. *)
Fixpoint collect_loop (c : TCPConnection) (queue : list TCPSegment) : outcome TCPConnection :=
  match queue with
  | [] => mret c
  | seg :: queue =>
      seg ← (if bool_decide (is_Some (TCPReceiver.ackno (_receiver c)))
             then _add_ack_info c seg else mret seg);
      collect_loop (push_out c seg) queue
  end.

Definition _collect_sender_segments_out (c : TCPConnection) : outcome TCPConnection :=
  t ← fill_window (_sender c);
  collect_loop (set_sender c (set_segments_out t [])) (TCPSender._segments_out t).

(** [stream_in().set_error(); stream_out().set_error(); _active = false; _linger... = false;] *)
Definition _reset_received (c : TCPConnection) : TCPConnection :=
  let c := set_sender c (set_stream (_sender c) (set_error (stream_in (_sender c)))) in
  let c := set_receiver c (set_stream_out (_receiver c) (set_error (TCPReceiver.stream_out (_receiver c)))) in
  set_linger (set_active c false) false.

Definition _unclean_shutdown (c : TCPConnection) : TCPConnection :=
  push_out (_reset_received c) (set_rst true TCPSegment_default).

Definition _clean_shutdown (c : TCPConnection) : TCPConnection := _unclean_shutdown c.

Definition connect (c : TCPConnection) : outcome TCPConnection := _collect_sender_segments_out c.

Definition write (c : TCPConnection) (data : list byte) : outcome (TCPConnection * Z) :=
  '(bs, ret) ← ByteStream.write (outbound_stream c) data;
  c ← _collect_sender_segments_out (set_sender c (set_stream (_sender c) bs));
  mret (c, ret).

Definition end_input_stream (c : TCPConnection) : outcome TCPConnection :=
  _collect_sender_segments_out
    (set_sender c (set_stream (_sender c) (end_input (outbound_stream c)))).

Definition in_state (st : TCPState) (s : State) : bool := state_eqb st (official s).

Definition tick (c : TCPConnection) (ms_since_last_tick : Z) : outcome TCPConnection :=
  let c := set_time c (u64 (_time_since_last_segment_received c + ms_since_last_tick)) in
  let st := state c in
  let c :=
    if in_state st TIME_WAIT && _linger_after_streams_finish c &&
       (_time_since_last_segment_received c >=? 10 * rt_timeout (_cfg c))
    then set_active (set_linger c false) false else c in
  let c := set_sender c (TCPSender.tick (_sender c) ms_since_last_tick) in
  if consecutive_retransmissions (_sender c) >? MAX_RETX_ATTEMPTS then mret (_unclean_shutdown c)
  else if in_state st ESTABLISHED || in_state st SYN_SENT || in_state st SYN_RCVD ||
          in_state st FIN_WAIT_1 || in_state st CLOSE_WAIT || in_state st LAST_ACK ||
          in_state st CLOSING
  then _collect_sender_segments_out c
  else mret c.

(** The destructor; its [catch] swallows exceptions, and nothing in it throws. *)
Definition destroy (c : TCPConnection) : TCPConnection :=
  if active c then _unclean_shutdown (set_sender c (send_empty_segment (_sender c))) else c.

(** [segments_out()] is a reference to the queue, from which segments are popped. *)
Definition set_queue (c : TCPConnection) (q : list TCPSegment) : TCPConnection :=
  mkTCPConnection (_cfg c) (_receiver c) (_sender c) q (_linger_after_streams_finish c) (_active c)
    (_time_since_last_segment_received c).

Section code.
  Context {mem : OverRead}.

Definition unassembled_bytes (c : TCPConnection) : outcome Z :=
  TCPReceiver.unassembled_bytes (_receiver c).

(** [_receiver.segment_received(seg)] *)
Definition to_receiver (c : TCPConnection) (seg : TCPSegment) : outcome TCPConnection :=
  r ← TCPReceiver.segment_received (_receiver c) seg;
  mret (set_receiver c r).

(** [_sender.ack_received(seg.header().ackno, seg.header().win)] *)
Definition to_sender (c : TCPConnection) (seg : TCPSegment) : outcome TCPConnection :=
  t ← TCPSender.ack_received (_sender c) (TCPHeader.ackno (header seg)) (win (header seg));
  mret (set_sender c t).

(** The branches of [segment_received], one per official state. *)

Definition on_listen (c : TCPConnection) (seg : TCPSegment) : outcome TCPConnection :=
  if syn (header seg) then
    c ← to_receiver c seg;
    c ← connect c;
    mret (set_active c true)
  else mret c.

Definition on_syn_sent (c : TCPConnection) (seg : TCPSegment) : outcome TCPConnection :=
  if syn (header seg) && ack (header seg) then
    c ← to_receiver c seg;
    c ← to_sender c seg;
    push_ack c
  else if syn (header seg) then
    c ← to_receiver c seg;
    push_ack c
  else mret c.

Definition on_syn_rcvd (c : TCPConnection) (seg : TCPSegment) : outcome TCPConnection :=
  if ack (header seg) then
    c ← to_receiver c seg;
    to_sender c seg
  else mret c.

Definition on_established (c : TCPConnection) (st : TCPState) (seg : TCPSegment) :
    outcome TCPConnection :=
  let c := if fin (header seg) && negb (in_state st FIN_WAIT_1) then set_linger c false else c in
  c ← (if negb (length_in_sequence_space seg =? 0) || negb (ack (header seg)) then
         c ← to_receiver c seg;
         ack_seg ← _add_ack_info c TCPSegment_default;
         let t := _sender c in
         _collect_sender_segments_out
           (set_sender c (set_segments_out t (TCPSender._segments_out t ++ [ack_seg])))
       else mret c);
  if ack (header seg) then
    c ← to_sender c seg;
    _collect_sender_segments_out c
  else mret c.

Definition on_fin_wait_2 (c : TCPConnection) (seg : TCPSegment) : outcome TCPConnection :=
  if fin (header seg) && ack (header seg) then
    c ← to_receiver c seg;
    c ← to_sender c seg;
    push_ack c
  else mret c.

Definition on_last_ack (c : TCPConnection) (seg : TCPSegment) : outcome TCPConnection :=
  if ack (header seg) then
    c ← to_sender c seg;
    mret (if bool_decide (TCPSender.state (_sender c) = TCPSender.FIN_ACKED)
          then set_active (set_linger c false) false else c)
  else mret c.

Definition on_closing (c : TCPConnection) (seg : TCPSegment) : outcome TCPConnection :=
  if ack (header seg) then
    c ← to_receiver c seg;
    c ← to_sender c seg;
    _collect_sender_segments_out c
  else mret c.

Definition on_close_wait (c : TCPConnection) (seg : TCPSegment) : outcome TCPConnection :=
  if fin (header seg) then
    c ← to_sender c seg;
    push_ack c
  else mret c.

Definition on_time_wait (c : TCPConnection) (seg : TCPSegment) : outcome TCPConnection :=
  if fin (header seg) && ack (header seg) then
    c ← to_sender c seg;
    push_ack c
  else mret c.

(** The [if]/[else if] chain over the state before the segment. *)
Definition dispatch (c : TCPConnection) (seg : TCPSegment) : outcome TCPConnection :=
  let st := state c in
  if in_state st LISTEN then on_listen c seg
  else if in_state st SYN_SENT then on_syn_sent c seg
  else if in_state st SYN_RCVD then on_syn_rcvd c seg
  else if in_state st ESTABLISHED || in_state st FIN_WAIT_1 then on_established c st seg
  else if in_state st FIN_WAIT_2 then on_fin_wait_2 c seg
  else if in_state st LAST_ACK then on_last_ack c seg
  else if in_state st CLOSING then on_closing c seg
  else if in_state st CLOSE_WAIT then on_close_wait c seg
  else if in_state st TIME_WAIT then on_time_wait c seg
  else mret c.

(** The reply to a keep-alive: an empty segment just before the window. *)
Definition keep_alive (c : TCPConnection) (seg : TCPSegment) : outcome TCPConnection :=
  match TCPReceiver.ackno (_receiver c) with
  | Some a =>
      if (length_in_sequence_space seg =? 0) && wi_eqb (seqno (header seg)) (wi_minus a 1)
      then _collect_sender_segments_out (set_sender c (send_empty_segment (_sender c)))
      else mret c
  | None => mret c
  end.

Definition segment_received (c : TCPConnection) (seg : TCPSegment) : outcome TCPConnection :=
  let c := set_time c 0 in
  if rst (header seg) then mret (_reset_received c)
  else
    c ← dispatch c seg;
    keep_alive c seg.
End code.

(** ** What leaves the connection *)

(** The acknowledgment fields put on an outgoing segment. *)
Definition with_ack_info (r : TCPReceiver) (seg : TCPSegment) : TCPSegment :=
  match TCPReceiver.ackno r with
  | Some a => set_window_size (TCPReceiver.window_size r) (set_ackno a (set_ack true seg))
  | None => seg
  end.

Lemma collect_loop_eq q : forall c,
  collect_loop c q =
    Ok (mkTCPConnection (_cfg c) (_receiver c) (_sender c)
          (_segments_out c ++ (with_ack_info (_receiver c) <$> q))
          (_linger_after_streams_finish c) (_active c) (_time_since_last_segment_received c)).
Proof.
  induction q as [|seg q IH]; intros c; cbn [collect_loop].
  - destruct c; simpl. by rewrite app_nil_r.
  - unfold _add_ack_info, opt_value. rewrite fmap_cons. unfold with_ack_info at 1.
    destruct (TCPReceiver.ackno (_receiver c)) as [a|] eqn:Ea.
    + rewrite bool_decide_eq_true_2 by (by eexists). cbn [mbind outcome_bind mret outcome_ret].
      rewrite IH. simpl. by rewrite <- app_assoc.
    + rewrite bool_decide_eq_false_2 by (by intros [? [=]]). cbn [mbind outcome_bind mret outcome_ret].
      rewrite IH. simpl. by rewrite <- app_assoc.
Qed.

Lemma collect_eq c t :
  fill_window (_sender c) = Ok t ->
  _collect_sender_segments_out c =
    Ok (mkTCPConnection (_cfg c) (_receiver c) (set_segments_out t [])
          (_segments_out c ++ (with_ack_info (_receiver c) <$> TCPSender._segments_out t))
          (_linger_after_streams_finish c) (_active c) (_time_since_last_segment_received c)).
Proof. intros E. unfold _collect_sender_segments_out. rewrite E. cbn [mbind outcome_bind]. apply collect_loop_eq. Qed.

Lemma state_error c :
  ByteStream.error (stream_in (_sender c)) = true ->
  ByteStream.error (TCPReceiver.stream_out (_receiver c)) = true -> _active c = false ->
  state c = official RESET.
Proof.
  intros E1 E2 E3. unfold state, state_of, sender_summary, receiver_summary, active.
  by rewrite E1, E2, E3.
Qed.

Lemma reset_state c : state (_reset_received c) = official RESET.
Proof. by apply state_error. Qed.

(** ** Opening a connection *)

Definition conn_isn (cfg : TCPConfig) (random : Z) : WrappingInt32 :=
  default (mkWrappingInt32 (u32 random)) (fixed_isn cfg).

Record cfg_ok (cfg : TCPConfig) : Prop := {
  co_recv : 0 <= recv_capacity cfg < 2 ^ 62;
  co_send : 0 <= send_capacity cfg < 2 ^ 63 - 1;
  co_rto : 0 <= rt_timeout cfg < 2 ^ 16;
  co_isn : forall i, fixed_isn cfg = Some i -> wi_valid i
}.

Lemma conn_isn_valid cfg random : cfg_ok cfg -> wi_valid (conn_isn cfg random).
Proof.
  intros [_ _ _ Hi]. unfold conn_isn. destruct (fixed_isn cfg) as [i|]; [by apply Hi|]. apply u32_range.
Qed.

Lemma wrap_0 i : wi_valid i -> wrap 0 i = i.
Proof. intros Hi. unfold wrap. destruct i as [n]. unfold wi_valid in Hi; simpl in *. by drop_wrap. Qed.

Definition syn_segment (i : WrappingInt32) : TCPSegment :=
  set_seqno i (set_syn true TCPSegment_default).

(** The sender after its first [fill_window] with nothing to send: the SYN. *)
Definition syn_sent_sender (capacity rt : Z) (i : WrappingInt32) : TCPSender :=
  mkTCPSender [syn_segment i] rt (ByteStream.new capacity) rt
    (mkWindow [mkForSender (syn_segment i) (u32 rt)] i 0 1 1) 0 false false.

Lemma fill_new capacity rt i :
  wi_valid i -> fill_window (TCPSender.new capacity rt (Some i) 0) = Ok (syn_sent_sender capacity rt i).
Proof.
  intros Hi. unfold fill_window. change (TCPSender.state _) with TCPSender.CLOSED.
  rewrite bool_decide_eq_true_2 by done. unfold add_and_send, next_seqno. cbn [_window TCPSender.new default].
  change (isn (TCPSendingWindow.new i 1)) with i.
  change (TCPSendingWindow.next_seqno (TCPSendingWindow.new i 1)) with 0. rewrite wrap_0 by done.
  change (set_seqno i (set_syn true TCPSegment_default)) with (syn_segment i).
  rewrite (add_segment_eq _ 0); [|apply new_winv; (done || lia)|done|simpl; by rewrite wrap_0|by vm_compute].
  cbn [mbind outcome_bind mret outcome_ret]. by apply while_exit.
Qed.

Lemma syn_sent_sinv capacity rt i :
  0 <= capacity < 2 ^ 63 - 1 -> 0 <= rt < 2 ^ 16 -> wi_valid i ->
  exists b, sinv [] (syn_sent_sender capacity rt i) b 0 false /\ s_ended b = false.
Proof.
  intros Hc Hr Hi. exists (spec_new capacity). split; [|done].
  assert (Hl : length_in_sequence_space (syn_segment i) = 1) by done.
  assert (Hs : sent_segment [] i 1 (syn_segment i)).
  { split; [by vm_compute|]. split; [by vm_compute|]. exists 0. split; [|lia].
    constructor; [lia|simpl; by rewrite wrap_0|done|by split_and!|done]. }
  constructor; simpl; try done; try lia.
  - by apply rep_new.
  - constructor; simpl; try done; try lia.
    + by rewrite wrap_0.
    + split; [lia|left; lia].
  - by constructor.
  - constructor; [by right|done].
Qed.

(** [connect] on a new connection queues the SYN and nothing else. *)
Lemma connect_new cfg random :
  cfg_ok cfg ->
  connect (new cfg random) =
    Ok (mkTCPConnection cfg (TCPReceiver.new (recv_capacity cfg))
          (set_segments_out (syn_sent_sender (send_capacity cfg) (rt_timeout cfg) (conn_isn cfg random)) [])
          [syn_segment (conn_isn cfg random)] true true 0).
Proof.
  intros Hc. unfold connect. pose proof (conn_isn_valid cfg random Hc) as Hi.
  by rewrite (collect_eq _ (syn_sent_sender (send_capacity cfg) (rt_timeout cfg) (conn_isn cfg random)))
    by (by apply fill_new).
Qed.

(** A SYN without data, at sequence number [p]. *)
Record is_syn (p : WrappingInt32) (seg : TCPSegment) : Prop := {
  sy_seqno : seqno (header seg) = p;
  sy_syn : syn (header seg) = true;
  sy_fin : fin (header seg) = false;
  sy_rst : rst (header seg) = false;
  sy_data : str (payload seg) = []
}.

(** A new receiver takes the SYN. *)
Lemma receive_syn {mem : OverRead} {total : TotalOverRead mem} capacity p seg :
  0 <= capacity < 2 ^ 62 -> wi_valid p -> is_syn p seg ->
  exists r', TCPReceiver.segment_received (TCPReceiver.new capacity) seg = Ok r' /\
    TCPReceiver.state r' = TCPReceiver.SYN_RECV /\
    TCPReceiver.ackno r' = Some (wrap 1 p) /\ TCPReceiver.window_size r' = capacity /\
    exists a, rinv [] p 1 r' a /\ s_error a = false.
Proof.
  intros Hc Hp [H1 H2 H3 H4 H5].
  assert (Hs : sender_segment [] p 0 seg).
  { constructor; [lia|by rewrite wrap_0|done| |by rewrite H3]. rewrite H5. by split_and!. }
  assert (Ha : acceptable [] 0 (TCPReceiver.new capacity) seg).
  { constructor; [by left| |by rewrite H3]. rewrite H5. change (data_index 0) with 0. simpl. lia. }
  destruct (receive_inv [] p 0 _ _ 0 seg (rinv_new [] p capacity ltac:(lia) ltac:(simpl; lia) ltac:(simpl; lia))
    ltac:(lia) Hp Hs Ha) as (r' & a & E & Hi & Hrd & Her & Hcap & Hset & Hend & _ & Hc1 & _); [by rewrite H2|].
  exists r'. split; [done|]. destruct (rinv_indices _ _ _ _ _ Hi) as (HL & HL2 & _). simpl in HL2.
  assert (left (_reassembler r') = 0) as HL0 by lia.
  pose proof (ri_acked _ _ _ _ _ Hi Hset) as Hck. unfold fin_taken in Hck. rewrite HL0 in *.
  assert (Ee : TCPReceiver._ended r' = false) by (rewrite Hend, H3; done). rewrite Ee in Hck. simpl in Hck.
  assert (Epend : s_pending a = []).
  { pose proof (inv_history _ _ _ _ (ri_reassembler _ _ _ _ _ Hi)) as Hh. unfold s_history in Hh.
    rewrite Hrd in Hh. simpl in Hh. rewrite Hh. unfold ztake. by rewrite take_nil. }
  split_and!.
  - rewrite (rinv_state _ _ _ _ _ Hi) by (by rewrite (rinv_error _ _ _ _ _ Hi)). by rewrite Hset, Ee.
  - unfold TCPReceiver.ackno. rewrite Hset, (ri_isn _ _ _ _ _ Hi Hset). simpl. destruct p; simpl.
    do 2 f_equal. lia.
  - unfold TCPReceiver.window_size, capacity_value, TCPReceiver.stream_out, StreamReassembler.stream_out.
    rewrite (buffer_size_eq _ _ (inv_rep _ _ _ _ (ri_reassembler _ _ _ _ _ Hi))), Epend.
    rewrite <- (ri_capacity _ _ _ _ _ Hi), Hcap. simpl. rewrite u64_small; lia.
  - by exists a.
Qed.

(** The segment that acknowledges [ack] with window [n]. *)
Definition ack_info (ack : WrappingInt32) (n : Z) (seg : TCPSegment) : TCPSegment :=
  set_window_size n (set_ackno ack (set_ack true seg)).

(** When there is nothing to reply to. *)
Lemma no_keep_alive c seg :
  (forall a, TCPReceiver.ackno (_receiver c) = Some a ->
     length_in_sequence_space seg <> 0 \/ seqno (header seg) <> wi_minus a 1) ->
  keep_alive c seg = Ok c.
Proof.
  intros H. unfold keep_alive. destruct (TCPReceiver.ackno (_receiver c)) as [a|]; [|done].
  specialize (H a eq_refl). case_bool; [|done].
  apply andb_true_iff in Heqb as [El Ew]. apply wi_eqb_eq in Ew. apply Z.eqb_eq in El. tauto.
Qed.

(** ** An established connection

    [s_out] and [s_in] are the streams the two sides send, [i] and [p] their
    initial sequence numbers. *)
Record conn_inv (s_out s_in : list byte) (i p : WrappingInt32) (k : Z) (c : TCPConnection) : Prop := {
  ci_sender : good s_out i (_sender c);
  ci_receiver : exists a, rinv s_in p k (_receiver c) a /\ s_error a = false
}.

(** An acknowledgment inside the window that does not move its right edge back. *)
Record ack_fresh (t : TCPSender) (m n : Z) : Prop := {
  af_m : 1 <= m;
  af_window : _first_seqno (_window t) <= m <= _next_seqno (_window t);
  af_n : 0 <= n < 2 ^ 16;
  af_edge : _first_seqno (_window t) + _window_size (_window t) <= m + Z.max n 1
}.

Lemma sinv_next_bound s t b a f : sinv s t b a f -> _next_seqno (_window t) <= len s + 2.
Proof.
  intros [_ Hpre _ _ _ Hn _ Hf _ _ _ _ _ _]. pose proof (prefix_length _ _ Hpre) as Hl.
  unfold s_history in Hl. rewrite length_app in Hl. rewrite Hn. case_bool; [lia|]. destruct f; simpl; lia.
Qed.

Lemma ack_fresh_ok s t b a f m n : sinv s t b a f -> ack_fresh t m n -> ack_ok t m n.
Proof.
  intros H [H1 H2 H3 H4]. pose proof (sinv_next_bound _ _ _ _ _ H). pose proof (sv_bound _ _ _ _ _ H).
  pose proof (sv_flow _ _ _ _ _ H). pose proof (sv_wsize _ _ _ _ _ H).
  constructor; try lia. unfold in_reach. lia.
Qed.

Lemma ack_fresh_grown t t' m n : ack_fresh t m n -> grown t t' -> ack_fresh t' m n.
Proof.
  intros [H1 H2 H3 H4] Hg. pose proof (gr_first _ _ Hg). pose proof (gr_size _ _ Hg).
  pose proof (gr_next _ _ Hg). constructor; lia.
Qed.

(** Queueing an empty segment in the sender. *)
Lemma good_push_empty s i t seg :
  good s i t -> length_in_sequence_space seg = 0 ->
  good s i (set_segments_out t (TCPSender._segments_out t ++ [seg])).
Proof.
  intros (Ht & Hc & Hi & b & a & f & H) Hl. split; [by destruct Ht; constructor|].
  split; [done|]. split; [done|]. exists b, a, f. destruct H. constructor; try done. simpl.
  apply Forall_app. split; [done|]. constructor; [by left|done].
Qed.

(** Acknowledgment fields do not change what a segment carries. *)
Lemma with_ack_info_carries r seg s i pos :
  length_in_sequence_space (with_ack_info r seg) = length_in_sequence_space seg /\
  (sender_segment s i pos seg -> sender_segment s i pos (with_ack_info r seg)).
Proof.
  unfold with_ack_info. destruct (TCPReceiver.ackno r); [|done]. split; [done|].
  intros []. by constructor.
Qed.

(** The segments queued for the network: acknowledgments that carry nothing, or
    parts of [s_out]; all with the receiver's acknowledgment and window. *)
Definition outgoing (s : list byte) (i : WrappingInt32) (r : TCPReceiver) (seg : TCPSegment) : Prop :=
  (length_in_sequence_space seg = 0 \/ exists pos, sender_segment s i pos seg) /\
  ack (header seg) = true /\ Some (TCPHeader.ackno (header seg)) = TCPReceiver.ackno r /\
  win (header seg) = u16 (TCPReceiver.window_size r).

Lemma with_ack_info_outgoing s i next r seg :
  TCPReceiver._is_set r = true -> length_in_sequence_space seg = 0 \/ sent_segment s i next seg ->
  outgoing s i r (with_ack_info r seg).
Proof.
  intros Hset Hseg. split; [|unfold with_ack_info, TCPReceiver.ackno; rewrite Hset; by split_and!].
  destruct Hseg as [Hl|(_ & _ & pos & Hp & _)].
  - left. by rewrite (proj1 (with_ack_info_carries r seg s i 0)).
  - right. exists pos. by apply with_ack_info_carries.
Qed.

(** [_collect_sender_segments_out] returns and queues only such segments. *)
Lemma collect_good s i c :
  good s i (_sender c) -> TCPReceiver._is_set (_receiver c) = true ->
  exists t q,
    _collect_sender_segments_out c =
      Ok (mkTCPConnection (_cfg c) (_receiver c) (set_segments_out t [])
            (_segments_out c ++ q) (_linger_after_streams_finish c) (_active c)
            (_time_since_last_segment_received c)) /\
    good s i (set_segments_out t []) /\ grown (_sender c) t /\
    Forall (outgoing s i (_receiver c)) q /\
    (TCPSender._segments_out (_sender c) <> [] -> q <> []).
Proof.
  intros Hg Hset. pose proof Hg as (_ & _ & _ & b & a & f & H).
  destruct (fill_window_inv s _ b a f H) as (t & b' & f' & E & H' & _ & Hgr & _).
  assert (Hgt : good s i t) by (eapply step_good; [done|by apply sstep_fill]).
  exists t, (with_ack_info (_receiver c) <$> TCPSender._segments_out t).
  split; [by apply collect_eq|]. split; [eapply step_good; [exact Hgt|]|].
  { replace [] with (drop (length (TCPSender._segments_out t)) (TCPSender._segments_out t)) by apply drop_all.
    apply sstep_take. }
  split; [done|]. split.
  - apply Forall_fmap. destruct Hgt as (_ & _ & Hi & _). rewrite <- Hi.
    eapply Forall_impl; [apply (sv_out _ _ _ _ _ H')|]. intros seg Hseg. simpl. eapply with_ack_info_outgoing; [done|exact Hseg].
  - intros Hne Hq. apply fmap_nil_inv in Hq. destruct (gr_out _ _ Hgr) as [l Hl]. rewrite Hq in Hl.
    symmetry in Hl. by apply app_eq_nil in Hl as [? _].
Qed.

(** The connection after [_collect_sender_segments_out] left the sender [t] and
    queued [q]. *)
Definition collected (c : TCPConnection) (t : TCPSender) (q : list TCPSegment) : TCPConnection :=
  mkTCPConnection (_cfg c) (_receiver c) t (_segments_out c ++ q) (_linger_after_streams_finish c)
    (_active c) (_time_since_last_segment_received c).

(** Queueing an acknowledgment through the sender's queue. *)
Lemma ack_data s i c :
  good s i (_sender c) -> TCPReceiver._is_set (_receiver c) = true ->
  exists t q,
    (ack_seg ← _add_ack_info c TCPSegment_default;
     let t := _sender c in
     _collect_sender_segments_out
       (set_sender c (set_segments_out t (TCPSender._segments_out t ++ [ack_seg])))) =
      Ok (collected c t q) /\
    good s i t /\ (forall m n, ack_fresh (_sender c) m n -> ack_fresh t m n) /\
    Forall (outgoing s i (_receiver c)) q /\ q <> [].
Proof.
  intros Hg Hset. set (ack_seg := with_ack_info (_receiver c) TCPSegment_default).
  assert (Eack : _add_ack_info c TCPSegment_default = Ok ack_seg).
  { unfold _add_ack_info, ack_seg, with_ack_info, TCPReceiver.ackno. by rewrite Hset. }
  rewrite Eack. cbn [mbind outcome_bind]. set (c2 := set_sender c _).
  destruct (collect_good s i c2) as (t & q & E & Hgt & Hgr & Hq & Hne); [|done|].
  { apply good_push_empty; [done|]. unfold ack_seg. by rewrite (proj1 (with_ack_info_carries _ _ [] i 0)). }
  exists (set_segments_out t []), q. split; [exact E|]. split; [done|]. split.
  - intros m n Hfr. assert (Hfr2 : ack_fresh (_sender c2) m n) by (destruct Hfr; by constructor).
    destruct (ack_fresh_grown _ _ m n Hfr2 Hgr). by constructor.
  - split; [done|]. apply Hne. simpl. by intros [_ ?]%app_eq_nil.
Qed.

(** Handing an acknowledgment to the sender and queueing what it lets go. *)
Lemma take_ack s i c m seg :
  good s i (_sender c) -> TCPReceiver._is_set (_receiver c) = true ->
  TCPHeader.ackno (header seg) = wrap m i -> ack_fresh (_sender c) m (win (header seg)) ->
  exists t q, (c ← to_sender c seg; _collect_sender_segments_out c) = Ok (collected c t q) /\
    good s i t /\ Forall (outgoing s i (_receiver c)) q /\ first_seqno (_window t) = m.
Proof.
  intros Hg Hset Hno Hfr. pose proof Hg as (_ & _ & Hi & b & a & f & H).
  pose proof (ack_fresh_ok _ _ _ _ _ _ _ H Hfr) as Hok.
  destruct (ack_received_inv _ _ _ _ _ m (win (header seg)) H Hok)
    as (t3 & b3 & a3 & f3 & E3 & _ & _ & _ & _ & Hf3 & _).
  assert (Hg3 : good s i t3) by (eapply step_good; [exact Hg|by apply (sstep_ack s _ m (win (header seg)))]).
  destruct (collect_good s i (set_sender c t3)) as (t4 & q4 & E4 & Hg4 & Hgr4 & Hq4 & _); [exact Hg3|exact Hset|].
  exists (set_segments_out t4 []), q4. unfold to_sender. rewrite Hi in E3. rewrite Hno, E3.
  cbn [mbind outcome_bind mret outcome_ret]. split; [exact E4|]. split; [done|]. split; [done|].
  unfold first_seqno. simpl. rewrite (gr_first _ _ Hgr4). simpl. rewrite Hf3.
  pose proof (af_window _ _ _ Hfr). case_cmp; lia.
Qed.

(** With nothing outstanding the sender's timer does nothing. *)
Lemma tick_nothing t ms : _buffer (_window t) = [] -> TCPSender.tick t ms = t.
Proof.
  intros E. unfold TCPSender.tick, TCPSendingWindow.tick. rewrite E. simpl.
  destruct t as [? ? ? ? [] ? ? ?]; simpl in *. by subst.
Qed.

(** In these states the receiver has seen the SYN. *)
Lemma summary_is_set c :
  state c = official ESTABLISHED \/ state c = official FIN_WAIT_1 ->
  TCPReceiver._is_set (_receiver c) = true.
Proof.
  intros Hst. assert (Hr : receiver_summary (_receiver c) = TCPReceiverStateSummary.SYN_RECV)
    by (destruct Hst as [E|E]; by injection E).
  unfold receiver_summary, TCPReceiver.ackno in Hr. destruct (TCPReceiver._is_set (_receiver c)); [done|].
  destruct (ByteStream.error _); [done|]. done.
Qed.

(** ** Properties *)

(** C23. A segment with RST resets the connection from every state, whatever its
    sequence and acknowledgment numbers, in [LISTEN] and [SYN_SENT] and outside the
    window too: both streams carry the error, the connection is inactive
    and in the official state [RESET], nothing is sent in reply and nothing throws.
    A connection that was reset is deaf: a further RST, and any other segment
    that is no keep-alive, leaves it exactly as it is. *)
Theorem connection_reset {mem : OverRead} c seg :
  rst (header seg) = true ->
  exists c', segment_received c seg = Ok c' /\ state c' = official RESET /\ active c' = false /\
    ByteStream.error (outbound_stream c') = true /\ ByteStream.error (inbound_stream c') = true /\
    _segments_out c' = _segments_out c /\
    forall seg', rst (header seg') = true \/
        (forall a, TCPReceiver.ackno (_receiver c') = Some a ->
           length_in_sequence_space seg' <> 0 \/ seqno (header seg') <> wi_minus a 1) ->
      segment_received c' seg' = Ok c'.
Proof.
  intros Hr. unfold segment_received at 1. rewrite Hr. eexists. split; [reflexivity|].
  set (c' := _reset_received (set_time c 0)). assert (Hst : state c' = official RESET) by apply reset_state.
  do 5 (split; [done|]). intros seg' H. unfold segment_received.
  destruct (rst (header seg')) eqn:Hr'; [done|]. destruct H as [?|H]; [done|].
  assert (Hd : dispatch (set_time c' 0) seg' = Ok c').
  { unfold dispatch. change (state (set_time c' 0)) with (state c'). by rewrite Hst. }
  rewrite Hd. cbn [mbind outcome_bind]. unfold keep_alive.
  destruct (TCPReceiver.ackno (_receiver c')) as [a|]; [|done].
  destruct (Z.eqb_spec (length_in_sequence_space seg') 0) as [El|El]; [|done].
  destruct (wi_eqb (seqno (header seg')) (wi_minus a 1)) eqn:Es; [|done].
  apply wi_eqb_eq in Es. by destruct (H a eq_refl).
Qed.

Lemma connection_reset_witness :
  exists c', segment_received (mem := strict_over_read) (new TCPConfig_default 0)
      (set_rst true TCPSegment_default) = Ok c' /\ state c' = official RESET /\ active c' = false /\
    ByteStream.error (outbound_stream c') = true /\ ByteStream.error (inbound_stream c') = true /\
    _segments_out c' = _segments_out (new TCPConfig_default 0) /\
    segment_received (mem := strict_over_read) c' (set_syn true TCPSegment_default) = Ok c'.
Proof.
  destruct (connection_reset (mem := strict_over_read) (new TCPConfig_default 0)
    (set_rst true TCPSegment_default)) as (c' & E & H1 & H2 & H3 & H4 & H5 & H6); [reflexivity|].
  exists c'. do 6 (split; [assumption|]). apply H6. right. intros a _. left. vm_compute. discriminate.
Defined.

(** C36. In [CLOSE_WAIT] acknowledgments are lost: a segment without RST and FIN
    (and that is not a keep-alive) changes nothing but the time stamp, so data
    sent after the peer's FIN is never taken as acknowledged. *)
Theorem close_wait_ignores_acks {mem : OverRead} c seg a :
  state c = official CLOSE_WAIT -> TCPReceiver.ackno (_receiver c) = Some a ->
  rst (header seg) = false -> fin (header seg) = false ->
  length_in_sequence_space seg <> 0 \/ seqno (header seg) <> wi_minus a 1 ->
  segment_received c seg = Ok (set_time c 0).
Proof.
  intros Hst Ha Hr Hf Hk. unfold segment_received. rewrite Hr. unfold dispatch.
  change (state (set_time c 0)) with (state c). rewrite Hst.
  cbn -[on_close_wait keep_alive]. unfold on_close_wait. rewrite Hf. cbn [mbind outcome_bind mret outcome_ret].
  apply no_keep_alive. intros a' Ea. simpl in Ea. by simplify_eq.
Qed.

(** In [FIN_WAIT_2] the peer's data is lost: a segment without RST that is
    not FIN and ACK at once (and not a keep-alive) changes nothing but the time
    stamp, so bytes the peer sends after our FIN are dropped unacknowledged. *)
Theorem fin_wait_2_ignores_data {mem : OverRead} c seg a :
  state c = official FIN_WAIT_2 -> TCPReceiver.ackno (_receiver c) = Some a ->
  rst (header seg) = false -> fin (header seg) && ack (header seg) = false ->
  length_in_sequence_space seg <> 0 \/ seqno (header seg) <> wi_minus a 1 ->
  segment_received c seg = Ok (set_time c 0).
Proof.
  intros Hst Ha Hr Hf Hk. unfold segment_received. rewrite Hr. unfold dispatch.
  change (state (set_time c 0)) with (state c). rewrite Hst.
  cbn -[on_fin_wait_2 keep_alive]. unfold on_fin_wait_2. rewrite Hf. cbn [mbind outcome_bind mret outcome_ret].
  apply no_keep_alive. intros a' Ea. simpl in Ea. by simplify_eq.
Qed.

(** The sender that waits for the acknowledgment of its SYN *)
Definition syn_waiting (cfg : TCPConfig) (i : WrappingInt32) : TCPSender :=
  set_segments_out (syn_sent_sender (send_capacity cfg) (rt_timeout cfg) i) [].

(** A sender that has only its SYN acknowledged, and more to come. *)
Lemma syn_acked_state t b a f :
  sinv [] t b a f -> s_ended b = false -> _first_seqno (_window t) = 1 ->
  TCPSender.state t = TCPSender.SYN_ACKED.
Proof.
  intros Ht He Hfirst. rewrite (state_phase _ _ _ _ _ Ht). unfold phase. rewrite Hfirst. simpl.
  pose proof (wn_first _ _ (sv_window _ _ _ _ _ Ht)) as Hf. rewrite Hfirst in Hf. simpl in Hf.
  destruct (Z.eqb_spec (_next_seqno (_window t)) 0); [lia|].
  destruct f; [|done]. destruct (sv_fin _ _ _ _ _ Ht eq_refl) as [He' _]. congruence.
Qed.

Lemma syn_waiting_good cfg i : cfg_ok cfg -> wi_valid i -> good [] i (syn_waiting cfg i).
Proof.
  intros [_ Hc2 Hc3 _] Hi.
  eapply step_good; [|by apply (sstep_take [] (syn_sent_sender (send_capacity cfg) (rt_timeout cfg) i) 1)].
  eapply step_good; [|by apply sstep_fill, fill_new].
  apply (new_good [] (send_capacity cfg) (rt_timeout cfg)). split_and!; simpl; (lia || done).
Qed.

Lemma syn_waiting_acked cfg i n :
  cfg_ok cfg -> wi_valid i -> 0 <= n < 2 ^ 16 ->
  exists t b a f, ack_received (syn_waiting cfg i) (wrap 1 i) n = Ok t /\ good [] i t /\ sinv [] t b a f /\
    s_ended b = false /\ _first_seqno (_window t) = 1.
Proof.
  intros Hc Hi Hn. pose proof Hc as [_ Hc2 Hc3 _].
  destruct (syn_sent_sinv (send_capacity cfg) (rt_timeout cfg) i Hc2 Hc3 Hi) as (b & Hsv & Hne).
  assert (Ht : sinv [] (syn_waiting cfg i) b 0 false) by (destruct Hsv; constructor; done).
  assert (Hok : ack_ok (syn_waiting cfg i) 1 n) by (constructor; simpl; try lia; split; [lia|left; lia]).
  destruct (ack_received_inv [] (syn_waiting cfg i) b 0 false 1 n Ht Hok)
    as (t & b' & a' & f' & Et & Ht' & (_ & He & _) & _ & _ & Hfirst & _ & _ & _).
  exists t, b', a', f'. rewrite He. split_and!; try done.
  eapply step_good; [by apply syn_waiting_good|by eapply sstep_ack].
Qed.

(** A connection whose receiver has the SYN and whose sender has its own acknowledged. *)
Lemma established_state c b a f :
  TCPReceiver.state (_receiver c) = TCPReceiver.SYN_RECV -> sinv [] (_sender c) b a f -> s_ended b = false ->
  _first_seqno (_window (_sender c)) = 1 -> _active c = true -> _linger_after_streams_finish c = true ->
  state c = official ESTABLISHED.
Proof.
  intros Hr Ht He Hf Ha Hl. unfold state, state_of, active.
  by rewrite receiver_summary_name, (sinv_summary _ _ _ _ _ Ht), Hr, (syn_acked_state _ _ _ _ Ht He Hf), Ha, Hl.
Qed.

Lemma syn_no_keep_alive p seg c : is_syn p seg -> keep_alive c seg = Ok c.
Proof.
  intros Hs. apply no_keep_alive. intros ? _. left. unfold length_in_sequence_space.
  by rewrite (sy_data _ _ Hs), (sy_syn _ _ Hs), (sy_fin _ _ Hs).
Qed.

(** A new connection takes a SYN. *)
Lemma listen_receives {mem : OverRead} {total : TotalOverRead mem} cfg random p seg :
  cfg_ok cfg -> wi_valid p -> is_syn p seg ->
  exists r a, rinv [] p 1 r a /\ s_error a = false /\ TCPReceiver.state r = TCPReceiver.SYN_RECV /\
    TCPReceiver.ackno r = Some (wrap 1 p) /\
    segment_received (new cfg random) seg =
      Ok (mkTCPConnection cfg r (syn_waiting cfg (conn_isn cfg random))
            [ack_info (wrap 1 p) (recv_capacity cfg) (syn_segment (conn_isn cfg random))] true true 0).
Proof.
  intros Hc Hp Hs. pose proof (conn_isn_valid cfg random Hc) as Hi. pose proof Hc as [Hc1 Hc2 Hc3 _].
  destruct (receive_syn (recv_capacity cfg) p seg Hc1 Hp Hs) as (r' & Er & Est & Eack & Ewin & a & Ha & Hea).
  exists r', a. do 4 (split; [done|]).
  unfold segment_received. rewrite (sy_rst _ _ Hs). unfold dispatch.
  change (state (set_time (new cfg random) 0)) with (official LISTEN). cbn -[on_listen keep_alive].
  unfold on_listen, to_receiver. rewrite (sy_syn _ _ Hs). cbn [_receiver set_time new].
  rewrite Er. cbn [mbind outcome_bind mret outcome_ret]. unfold connect.
  rewrite (collect_eq _ (syn_sent_sender (send_capacity cfg) (rt_timeout cfg) (conn_isn cfg random)))
    by (by apply fill_new).
  cbn [mbind outcome_bind mret outcome_ret]. rewrite (syn_no_keep_alive _ _ _ Hs).
  simpl. unfold with_ack_info. by rewrite Eack, Ewin.
Qed.

(** A connection in [SYN_SENT] takes the SYN and ACK of the peer. *)
Lemma syn_sent_receives {mem : OverRead} {total : TotalOverRead mem} cfg i p seg q :
  cfg_ok cfg -> wi_valid i -> wi_valid p -> is_syn p seg -> ack (header seg) = true ->
  TCPHeader.ackno (header seg) = wrap 1 i -> 0 <= win (header seg) < 2 ^ 16 ->
  exists c, segment_received (mkTCPConnection cfg (TCPReceiver.new (recv_capacity cfg)) (syn_waiting cfg i)
                                q true true 0) seg = Ok c /\
    state c = official ESTABLISHED /\ active c = true /\
    TCPReceiver.ackno (_receiver c) = Some (wrap 1 p) /\
    _segments_out c = q ++ [ack_info (wrap 1 p) (recv_capacity cfg) TCPSegment_default].
Proof.
  intros Hc Hi Hp Hs Hack Hno Hwin. pose proof Hc as [Hc1 _ _ _].
  destruct (receive_syn (recv_capacity cfg) p seg Hc1 Hp Hs) as (r' & Er & Est & Eack & Ewin & _).
  destruct (syn_waiting_acked cfg i (win (header seg)) Hc Hi Hwin) as (t & b & a & f & Et & _ & Ht & He & Hf).
  set (c1 := mkTCPConnection _ _ _ _ _ _ _).
  eexists. split; [|split; [|split; [|split]]].
  { unfold segment_received. rewrite (sy_rst _ _ Hs). unfold dispatch.
    change (state (set_time c1 0)) with (official SYN_SENT). cbn -[on_syn_sent keep_alive syn_waiting].
    unfold on_syn_sent, to_receiver, to_sender. rewrite (sy_syn _ _ Hs), Hack. cbn [andb].
    change (_receiver (set_time c1 0)) with (TCPReceiver.new (recv_capacity cfg)).
    rewrite Er. cbn [mbind outcome_bind mret outcome_ret].
    change (_sender (set_receiver (set_time c1 0) r')) with (syn_waiting cfg i). rewrite Hno, Et.
    cbn [mbind outcome_bind mret outcome_ret]. unfold push_ack, _add_ack_info.
    cbn [set_sender set_receiver set_time _receiver c1]. rewrite Eack.
    cbn [opt_value mbind outcome_bind mret outcome_ret]. rewrite Ewin. apply (syn_no_keep_alive _ _ _ Hs). }
  - by eapply established_state.
  - done.
  - done.
  - done.
Qed.

(** Passive open: a new connection that receives a SYN goes to [SYN_RCVD] and
    queues exactly one segment, the SYN with its own ISN that acknowledges the
    peer's SYN and advertises the receive capacity (truncated to 16 bits). *)
Theorem passive_open {mem : OverRead} {total : TotalOverRead mem} cfg random p seg :
  cfg_ok cfg -> wi_valid p -> is_syn p seg ->
  exists c', segment_received (new cfg random) seg = Ok c' /\ state c' = official SYN_RCVD /\
    _segments_out c' =
      [ack_info (wrap 1 p) (recv_capacity cfg) (syn_segment (conn_isn cfg random))].
Proof.
  intros Hc Hp Hs. destruct (listen_receives cfg random p seg Hc Hp Hs) as (r & a & _ & _ & Est & _ & E).
  eexists. split; [exact E|]. split; [|done]. unfold state, state_of. simpl. by rewrite receiver_summary_name, Est.
Qed.

(** Active open: [connect] queues exactly the SYN and the connection is in
    [SYN_SENT]; the peer's SYN and ACK takes it to [ESTABLISHED], and it queues
    the acknowledgment of the peer's SYN.  That segment's own sequence number is
    left at 0, the default, whatever the ISN is. *)
Theorem active_open {mem : OverRead} {total : TotalOverRead mem} cfg random p seg :
  cfg_ok cfg -> wi_valid p -> is_syn p seg -> ack (header seg) = true ->
  TCPHeader.ackno (header seg) = wrap 1 (conn_isn cfg random) -> 0 <= win (header seg) < 2 ^ 16 ->
  exists c1 c2, connect (new cfg random) = Ok c1 /\ state c1 = official SYN_SENT /\
    _segments_out c1 = [syn_segment (conn_isn cfg random)] /\
    segment_received c1 seg = Ok c2 /\ state c2 = official ESTABLISHED /\
    _segments_out c2 = [syn_segment (conn_isn cfg random);
      ack_info (wrap 1 p) (recv_capacity cfg) (set_seqno (mkWrappingInt32 0) TCPSegment_default)].
Proof.
  intros Hc Hp Hs Hack Hno Hwin. pose proof (conn_isn_valid cfg random Hc) as Hi.
  destruct (syn_sent_receives cfg _ p seg [syn_segment (conn_isn cfg random)] Hc Hi Hp Hs Hack Hno Hwin)
    as (c2 & E & Hst & _ & _ & Hq).
  rewrite (connect_new cfg random Hc). by eexists _, c2.
Qed.


(** C24. Lingering: in [TIME_WAIT] with nothing outstanding, [tick] keeps the
    connection active in [TIME_WAIT] as long as fewer than ten retransmission
    timeouts have passed since the last segment, then makes it inactive and
    [CLOSED]; it queues nothing. *)
Theorem time_wait_lingers c ms :
  state c = official TIME_WAIT -> _buffer (_window (_sender c)) = [] ->
  0 <= TCPSender._consecutive_retransmission_count (_sender c) <= MAX_RETX_ATTEMPTS ->
  0 <= ms -> 0 <= _time_since_last_segment_received c ->
  _time_since_last_segment_received c + ms < 2 ^ 64 ->
  exists c', tick c ms = Ok c' /\ _segments_out c' = _segments_out c /\
    _time_since_last_segment_received c' = _time_since_last_segment_received c + ms /\
    let over := 10 * rt_timeout (_cfg c) <=? _time_since_last_segment_received c + ms in
    active c' = negb over /\ state c' = official (if over then CLOSED else TIME_WAIT).
Proof.
  intros Hst Hb Hc Hms Ht0 Ht. pose proof (f_equal TCPState._sender Hst) as H1.
  pose proof (f_equal TCPState._receiver Hst) as H2. pose proof (f_equal TCPState._active Hst) as H3.
  pose proof (f_equal TCPState._linger_after_streams_finish Hst) as H4. simpl in H1, H2, H3, H4.
  rewrite H3 in H4. unfold tick. rewrite (u64_small (_ + ms)) by lia. cbv zeta.
  set (c1 := set_time c _). change (state c1) with (state c). rewrite Hst.
  change (_linger_after_streams_finish c1) with (_linger_after_streams_finish c).
  change (_time_since_last_segment_received c1) with (_time_since_last_segment_received c + ms).
  change (_cfg c1) with (_cfg c). rewrite H4. change (in_state (official TIME_WAIT) TIME_WAIT) with true.
  cbn [andb]. rewrite Z.geb_leb. set (over := 10 * rt_timeout (_cfg c) <=? _).
  set (c2 := if over then _ else c1).
  assert (Hc2 : _sender c2 = _sender c /\ _receiver c2 = _receiver c /\ _active c2 = negb over /\
    _segments_out c2 = _segments_out c /\
    _time_since_last_segment_received c2 = _time_since_last_segment_received c + ms /\
    _linger_after_streams_finish c2 = negb over).
  { unfold c2. by destruct over. }
  destruct Hc2 as (E1 & E2 & E3 & E4 & E5 & E6). rewrite E1, tick_nothing by done.
  replace (consecutive_retransmissions (_sender (set_sender c2 (_sender c))) >? MAX_RETX_ATTEMPTS) with false.
  2: { symmetry. unfold consecutive_retransmissions, MAX_RETX_ATTEMPTS in *. simpl.
       rewrite u32_small, Z.gtb_ltb by lia. apply Z.ltb_ge. lia. }
  cbn -[set_sender]. eexists. split; [reflexivity|]. simpl. split_and!; [done|done|done|].
  unfold state, state_of, active. simpl. rewrite H1, E2, H2, E3, E6. by destruct over.
Qed.

(** C25. Giving up: when [tick] brings the number of consecutive retransmissions
    above eight, the connection is aborted: both streams carry the error, it is
    inactive and in [RESET], and behind what is already queued it queues one RST.
    This RST is a default segment: its sequence number is 0, not one of the
    sender's, and it carries no acknowledgment. *)
Theorem tick_gives_up c ms :
  MAX_RETX_ATTEMPTS < consecutive_retransmissions (TCPSender.tick (_sender c) ms) ->
  exists c', tick c ms = Ok c' /\ state c' = official RESET /\ active c' = false /\
    ByteStream.error (inbound_stream c') = true /\ ByteStream.error (outbound_stream c') = true /\
    _segments_out c' = _segments_out c ++ [set_rst true TCPSegment_default].
Proof.
  intros Hr. unfold tick. cbv zeta. set (c1 := set_time c _). set (b := in_state _ _ && _ && _).
  set (c2 := if b then _ else c1).
  assert (Hc2 : _sender c2 = _sender c /\ _segments_out c2 = _segments_out c) by (unfold c2; by destruct b).
  destruct Hc2 as [E1 E2]. rewrite E1. cbn [set_sender _sender].
  rewrite Z.gtb_ltb. case_bool; [|lia]. eexists. split; [reflexivity|]. split; [by apply state_error|].
  split_and!; try done. simpl. by rewrite E2.
Qed.

(** ** Sample connections

    A server with ISN 5 and buffers of 16 bytes whose peer has ISN 100. *)
Definition srv_cfg : TCPConfig := mkTCPConfig 1000 16 16 (Some (mkWrappingInt32 5)).

Definition srv_segment (is_syn is_fin is_ack : bool) (sq ak : Z) : TCPSegment :=
  set_window_size 10 (set_ackno (mkWrappingInt32 ak) (set_ack is_ack (set_seqno (mkWrappingInt32 sq)
    (set_fin is_fin (set_syn is_syn TCPSegment_default))))).

Definition srv_receive (c : TCPConnection) (seg : TCPSegment) : TCPConnection :=
  match segment_received (mem := word_over_read 0) c seg with Ok c' => c' | _ => c end.
Definition srv_end (c : TCPConnection) : TCPConnection :=
  match end_input_stream c with Ok c' => c' | _ => c end.
Definition srv_tick (c : TCPConnection) (ms : Z) : TCPConnection :=
  match tick c ms with Ok c' => c' | _ => c end.

Definition srv_established : TCPConnection :=
  srv_receive (srv_receive (new srv_cfg 0) (srv_segment true false false 100 0))
    (srv_segment false false true 101 6).
Definition srv_close_wait : TCPConnection :=
  srv_receive srv_established (srv_segment false true true 101 6).
Definition srv_fin_wait_2 : TCPConnection :=
  srv_receive (srv_end srv_established) (srv_segment false false true 101 7).
Definition srv_time_wait : TCPConnection :=
  srv_receive srv_fin_wait_2 (srv_segment false true true 101 7).

(** A client whose SYN was retransmitted eight times. *)
Definition cli_retried : TCPConnection :=
  foldl srv_tick (match connect (new srv_cfg 0) with Ok c => c | _ => new srv_cfg 0 end)
    [1000; 2000; 4000; 8000; 16000; 32000; 64000; 128000].

Lemma srv_cfg_ok : cfg_ok srv_cfg.
Proof. constructor; simpl; [lia..|]. intros i [= <-]. by split; vm_compute. Qed.

Lemma close_wait_ignores_acks_witness :
  segment_received (mem := word_over_read 0) srv_close_wait (srv_segment false false true 102 6) =
    Ok (set_time srv_close_wait 0).
Proof.
  apply (close_wait_ignores_acks (mem := word_over_read 0) srv_close_wait
    (srv_segment false false true 102 6) (mkWrappingInt32 102));
    [vm_compute; reflexivity | vm_compute; reflexivity | reflexivity | reflexivity | right; vm_compute; congruence].
Defined.

Lemma fin_wait_2_ignores_data_witness :
  let seg := set_payload (srv_segment false false true 101 7) (Buffer_of hi) in
  segment_received (mem := word_over_read 0) srv_fin_wait_2 seg = Ok (set_time srv_fin_wait_2 0).
Proof.
  apply (fin_wait_2_ignores_data (mem := word_over_read 0) srv_fin_wait_2
    (set_payload (srv_segment false false true 101 7) (Buffer_of hi)) (mkWrappingInt32 101));
    [vm_compute; reflexivity | vm_compute; reflexivity | reflexivity | reflexivity | left; vm_compute; congruence].
Defined.

Lemma passive_open_witness :
  exists c', segment_received (mem := word_over_read 0) (new srv_cfg 0)
      (srv_segment true false false 100 0) = Ok c' /\ state c' = official SYN_RCVD /\
    _segments_out c' =
      [ack_info (wrap 1 (mkWrappingInt32 100)) (recv_capacity srv_cfg) (syn_segment (conn_isn srv_cfg 0))].
Proof.
  apply (passive_open (mem := word_over_read 0) srv_cfg 0 (mkWrappingInt32 100)
    (srv_segment true false false 100 0));
    [apply srv_cfg_ok | split; vm_compute; congruence | constructor; reflexivity].
Defined.

Lemma active_open_witness :
  exists c1 c2, connect (new srv_cfg 0) = Ok c1 /\ state c1 = official SYN_SENT /\
    _segments_out c1 = [syn_segment (conn_isn srv_cfg 0)] /\
    segment_received (mem := word_over_read 0) c1 (srv_segment true false true 100 6) = Ok c2 /\
    state c2 = official ESTABLISHED /\
    _segments_out c2 = [syn_segment (conn_isn srv_cfg 0);
      ack_info (wrap 1 (mkWrappingInt32 100)) (recv_capacity srv_cfg)
        (set_seqno (mkWrappingInt32 0) TCPSegment_default)].
Proof.
  apply (active_open (mem := word_over_read 0) srv_cfg 0 (mkWrappingInt32 100)
    (srv_segment true false true 100 6));
    [apply srv_cfg_ok | split; vm_compute; congruence | constructor; reflexivity | reflexivity
    | vm_compute; reflexivity | vm_compute; split; congruence].
Defined.

(** The receiver and the sender of the small examples, joined. *)
Definition joined : TCPConnection :=
  mkTCPConnection srv_cfg (demo_r1 4) hi_sent [] true true 0.
Definition joined_segment : TCPSegment :=
  set_window_size 10 (set_ackno (wrap 5 hi_isn) (set_ack true demo_a)).

Lemma joined_inv : conn_inv hi demo_stream hi_isn demo_isn 1 joined.
Proof.
  constructor; [apply (reach_good hi 8 1000); [apply hi_params | apply hi_sent_reach]|].
  destruct (rreach_inv (mem := word_over_read 0) demo_stream demo_isn 4 1 (demo_r1 4) []) as (_ & _ & a & Hi & _);
    [apply demo_sizes; lia | apply demo_r1_reach; by right | lia |].
  exists a. split; [done|]. rewrite <- (rinv_error _ _ _ _ _ Hi). by vm_compute.
Qed.

Lemma joined_segment_ok : sender_segment demo_stream demo_isn 1 joined_segment.
Proof. demo_segment_ok. Qed.

Lemma joined_acceptable : acceptable demo_stream 1 (demo_r1 4) joined_segment.
Proof. demo_acceptable. Qed.


Lemma time_wait_lingers_witness :
  exists c', tick srv_time_wait 9999 = Ok c' /\ _segments_out c' = _segments_out srv_time_wait /\
    _time_since_last_segment_received c' = _time_since_last_segment_received srv_time_wait + 9999 /\
    active c' = true /\ state c' = official TIME_WAIT.
Proof.
  apply (time_wait_lingers srv_time_wait 9999);
    [vm_compute; reflexivity | vm_compute; reflexivity | vm_compute; split; congruence | lia
    | vm_compute; congruence | vm_compute; reflexivity].
Defined.

Lemma tick_gives_up_witness :
  exists c', tick cli_retried 256000 = Ok c' /\ state c' = official RESET /\ active c' = false /\
    ByteStream.error (inbound_stream c') = true /\ ByteStream.error (outbound_stream c') = true /\
    _segments_out c' = _segments_out cli_retried ++ [set_rst true TCPSegment_default].
Proof. apply (tick_gives_up cli_retried 256000). vm_compute. reflexivity. Defined.
