(* ===== verification/ConnectionParts.v ===== *)
(** * What every operation of a connection leaves alone

    A connection is a sender, a receiver and a queue of segments, and its operations
    change them only through the operations of the two halves.  So a property of
    the three that the halves keep is kept by the connection, whatever the
    network delivers. *)

From S2P Require Import Prelude WrappingIntegers ByteStream StreamReassembler Buffer TCPHeader.
From S2P Require Import TCPSegment TCPConfig TCPReceiver TCPSendingWindow TCPSender TCPState TCPConnection.

(** What is said of the sender, the receiver and the segments that leave *)
Record parts (S : TCPSender -> Prop) (R : TCPReceiver -> Prop) (Q : TCPSegment -> Prop) (c : TCPConnection) : Prop := {
  pt_sender : S (_sender c);
  pt_receiver : R (_receiver c);
  pt_queue : Forall Q (_segments_out c)
}.

(** The two halves keep it. *)
Class Halves {mem : OverRead} (S : TCPSender -> Prop) (R : TCPReceiver -> Prop) (Q : TCPSegment -> Prop) := {
  hv_fill t : S t -> sat (fill_window t) S;
  hv_ack t ackno n : S t -> sat (TCPSender.ack_received t ackno n) S;
  hv_tick t ms : S t -> S (TCPSender.tick t ms);
  hv_empty t : S t -> S (send_empty_segment t);
  hv_push t seg : S t -> Q seg -> S (set_segments_out t (TCPSender._segments_out t ++ [seg]));
  hv_flush t : S t -> S (set_segments_out t []) /\ Forall Q (TCPSender._segments_out t);
  hv_sender_error t : S t -> S (set_stream t (set_error (_stream t)));
  hv_receive r seg : R r -> sat (TCPReceiver.segment_received r seg) R;
  hv_receiver_error r : R r -> R (set_stream_out r (set_error (TCPReceiver.stream_out r)));
  hv_bare : Q TCPSegment_default;
  hv_reset : Q (set_rst true TCPSegment_default);
  hv_acked r seg : Q seg -> Q (with_ack_info r seg)
}.

Section connection.
  Context {mem : OverRead} {S : TCPSender -> Prop} {R : TCPReceiver -> Prop} {Q : TCPSegment -> Prop}.
  Context {H : Halves S R Q}.

Notation kept := (parts S R Q).

Lemma parts_same c c' :
  kept c -> _sender c' = _sender c -> _receiver c' = _receiver c -> _segments_out c' = _segments_out c -> kept c'.
Proof. intros [? ? ?] E1 E2 E3. constructor; by rewrite ?E1, ?E2, ?E3. Qed.

Lemma parts_sender c t : kept c -> S t -> kept (set_sender c t).
Proof. intros [_ ? ?] ?. by constructor. Qed.

Lemma parts_push c seg : kept c -> Q seg -> kept (push_out c seg).
Proof. intros [? ? ?] ?. constructor; simpl; [done..|]. apply Forall_app. split; [done|by apply Forall_singleton]. Qed.

Lemma add_ack_info_parts c seg : Q seg -> sat (_add_ack_info c seg) Q.
Proof.
  intros Hq x E. unfold _add_ack_info in E. pose proof (hv_acked (_receiver c) seg Hq) as Ha.
  unfold with_ack_info in Ha. destruct (TCPReceiver.ackno (_receiver c)); [|done].
  cbn [opt_value mbind outcome_bind mret outcome_ret] in E. injection E as <-. exact Ha.
Qed.

Lemma collect_parts c : kept c -> sat (_collect_sender_segments_out c) kept.
Proof.
  intros [Hs Hr Hq] c' E. pose proof (hv_fill _ Hs) as Hf.
  destruct (fill_window (_sender c)) as [t| |] eqn:Et.
  - rewrite (collect_eq _ _ Et) in E. simplify_eq. destruct (hv_flush t (Hf _ eq_refl)) as [Ht Hqt].
    constructor; simpl; [done..|]. apply Forall_app. split; [done|]. apply Forall_fmap.
    eapply Forall_impl; [exact Hqt|]. intros seg. apply hv_acked.
  - unfold _collect_sender_segments_out in E. by rewrite Et in E.
  - unfold _collect_sender_segments_out in E. by rewrite Et in E.
Qed.

Lemma push_ack_parts c : kept c -> sat (push_ack c) kept.
Proof.
  intros Hc. unfold push_ack. eapply sat_bind; [apply add_ack_info_parts, hv_bare|]. intros seg Hseg.
  by apply sat_ok, parts_push.
Qed.

Lemma to_receiver_parts c seg : kept c -> sat (to_receiver c seg) kept.
Proof.
  intros [Hs Hr Hq]. unfold to_receiver. eapply sat_bind; [by apply hv_receive|].
  intros r Hr'. by apply sat_ok.
Qed.

Lemma to_sender_parts c seg : kept c -> sat (to_sender c seg) kept.
Proof.
  intros Hc. unfold to_sender. eapply sat_bind; [by apply hv_ack, Hc|].
  intros t Ht. by apply sat_ok, parts_sender.
Qed.

Lemma reset_parts c : kept c -> kept (_reset_received c).
Proof. intros [? ? ?]. constructor; simpl; [by apply hv_sender_error|by apply hv_receiver_error|done]. Qed.

(** Walk through a handler call by call. *)
Ltac keep_parts :=
  repeat first
    [ progress case_bool
    | apply sat_ok; (done || by eapply parts_same)
    | eapply sat_bind; [apply to_receiver_parts; (done || by eapply parts_same) | intros ? ?]
    | eapply sat_bind; [apply to_sender_parts; done | intros ? ?]
    | eapply sat_bind; [apply collect_parts; done | intros ? ?]
    | apply collect_parts; done
    | apply to_sender_parts; done
    | apply push_ack_parts; done ].

Lemma established_parts c st seg : kept c -> sat (on_established c st seg) kept.
Proof.
  intros Hc. unfold on_established. cbv zeta. set (c1 := if _ && _ then _ else c).
  assert (H1 : kept c1) by (unfold c1; case_bool; [by eapply parts_same|done]). clearbody c1.
  apply (sat_bind _ _ kept).
  - case_bool; [|by apply sat_ok]. eapply sat_bind; [by apply to_receiver_parts|]. intros c2 H2.
    eapply sat_bind; [apply add_ack_info_parts, hv_bare|]. intros ack_seg Ha. apply collect_parts, parts_sender; [done|].
    apply hv_push; [apply H2|done].
  - intros c2 H2. keep_parts.
Qed.

Lemma dispatch_parts c seg : kept c -> sat (dispatch c seg) kept.
Proof.
  intros Hc. unfold dispatch. cbv zeta.
  unfold on_listen, on_syn_sent, on_syn_rcvd, on_fin_wait_2, on_last_ack, on_closing,
    on_close_wait, on_time_wait, connect.
  repeat match goal with |- sat (if in_state _ _ then _ else _) _ => case_bool end; try by keep_parts.
  case_bool; [by apply established_parts|]. keep_parts.
Qed.

(** Any segment at all *)
Lemma segment_received_parts c seg : kept c -> sat (TCPConnection.segment_received c seg) kept.
Proof.
  intros Hc. unfold TCPConnection.segment_received.
  assert (Ht : kept (set_time c 0)) by by eapply parts_same.
  case_bool; [by apply sat_ok, reset_parts|].
  eapply sat_bind; [by apply dispatch_parts|]. intros c' H'. unfold keep_alive.
  destruct (TCPReceiver.ackno _); [|by apply sat_ok]. case_bool; [|by apply sat_ok].
  apply collect_parts, parts_sender; [done|]. apply hv_empty, H'.
Qed.

Lemma tick_parts c ms : kept c -> sat (tick c ms) kept.
Proof.
  intros Hc. unfold tick. cbv zeta. set (c1 := set_time c _).
  set (c2 := if _ && _ && _ then _ else c1).
  assert (H2 : kept c2) by (unfold c2, c1; case_bool; by eapply parts_same). clearbody c2.
  assert (H3 : kept (set_sender c2 (TCPSender.tick (_sender c2) ms))) by (apply parts_sender; [done|apply hv_tick, H2]).
  case_bool; [apply sat_ok, parts_push; [by apply reset_parts|apply hv_reset]|].
  case_bool; [by apply collect_parts|by apply sat_ok].
Qed.

Lemma connect_parts c : kept c -> sat (connect c) kept.
Proof. apply collect_parts. Qed.

(** The owner's calls: [S] is what holds of the sender once its stream has changed. *)
Lemma write_parts c data c' n :
  parts (fun t => forall bs, ByteStream.write (_stream t) data = Ok (bs, n) -> S (set_stream t bs)) R Q c ->
  write c data = Ok (c', n) -> kept c'.
Proof.
  intros [Hs Hr Hq] E. unfold write in E. destruct (ByteStream.write _ data) as [[bs m]| |] eqn:Eb; [|done..].
  cbn [mbind outcome_bind] in E. destruct (_collect_sender_segments_out _) as [c1| |] eqn:Ec; [|done..].
  injection E as <- <-. eapply collect_parts; [|exact Ec].
  constructor; simpl; [by apply Hs|done..].
Qed.

Lemma end_parts c :
  parts (fun t => S (set_stream t (end_input (_stream t)))) R Q c -> sat (end_input_stream c) kept.
Proof. intros [Hs Hr Hq]. apply collect_parts. by constructor. Qed.
End connection.
