(* ===== verification/Encodable.v ===== *)
(** * Every segment fits a datagram

    Whatever a peer sends and the owner does, every segment a connection sends can
    be serialized without loss and fits an IPv4 datagram: all fields within their
    widths, no options, and at most [MAX_PAYLOAD_SIZE] bytes. *)

From S2P Require Import Prelude WrappingIntegers ByteStream StreamReassembler Buffer Parser TCPHeader.
From S2P Require Import TCPSegment TCPConfig FdAdapter TCPReceiver TCPSendingWindow TCPSender SenderSegments.
From S2P Require Import TCPState TCPConnection ConnectionParts.

Record encodable (seg : TCPSegment) : Prop := {
  en_header : header_valid (header seg);
  en_doff : doff (header seg) = 5;
  en_payload : buffer_ok (payload seg);
  en_length : len (str (payload seg)) <= MAX_PAYLOAD_SIZE
}.

Lemma encodable_fits seg : encodable seg -> fits seg.
Proof. intros [? E ? ?]. unfold fits, segment_valid, MAX_PAYLOAD_SIZE in *. rewrite E. split_and!; (done || lia). Qed.

Lemma encodable_default : encodable TCPSegment_default.
Proof. constructor; [apply header_default_valid|done|done|vm_compute; congruence]. Qed.

(** The setters the connection uses *)
Ltac setter := intros [[] ? ? ?]; constructor; [constructor|..]; simpl; done.

Lemma encodable_seqno a seg : wi_valid a -> encodable seg -> encodable (set_seqno a seg).
Proof. intros ?. setter. Qed.
Lemma encodable_ackno a seg : wi_valid a -> encodable seg -> encodable (set_ackno a seg).
Proof. intros ?. setter. Qed.
Lemma encodable_window n seg : encodable seg -> encodable (set_window_size n seg).
Proof. pose proof (u16_range n). setter. Qed.
Lemma encodable_syn b seg : encodable seg -> encodable (set_syn b seg).
Proof. setter. Qed.
Lemma encodable_fin b seg : encodable seg -> encodable (set_fin b seg).
Proof. setter. Qed.
Lemma encodable_ack b seg : encodable seg -> encodable (set_ack b seg).
Proof. setter. Qed.
Lemma encodable_rst b seg : encodable seg -> encodable (set_rst b seg).
Proof. setter. Qed.
Lemma encodable_payload data seg :
  len data <= MAX_PAYLOAD_SIZE -> encodable seg -> encodable (set_payload seg (Buffer_of data)).
Proof.
  intros Hl [? ? ? ?]. constructor; [done|done|apply Buffer_of_ok; unfold MAX_PAYLOAD_SIZE in Hl; simpl; lia|done].
Qed.

#[local] Hint Resolve encodable_default encodable_seqno encodable_ackno encodable_window encodable_syn
  encodable_fin encodable_ack encodable_rst encodable_payload wrap_valid : core.

(** ** The sender *)

Definition encodes (t : TCPSender) : Prop :=
  stocked encodable encodable t /\ exists b, rep (_stream t) b.

Lemma encodes_add t seg : encodes t -> encodable seg -> sat (add_and_send t seg) encodes.
Proof.
  intros [Hs Hb] Hseg t' E. split; [by eapply (add_and_send_stocked encodable encodable)|].
  unfold add_and_send in E. destruct (add_segment _ _ _); [|done..]. by injection E as <-.
Qed.

Lemma fill_body_encodes t :
  encodes t -> sat (fill_body t) (fun x => match x with inl t' => encodes t' | inr t' => encodes t' end).
Proof.
  intros [Hs (b & R)]. unfold fill_body. case_bool; [|by apply sat_ok; split; [|by exists b]].
  case_bool; [by apply sat_ok; split; [|by exists b]|]. set (n := Z.min (space _) _).
  assert (Hn : 0 <= n <= MAX_PAYLOAD_SIZE).
  { unfold n, space, MAX_PAYLOAD_SIZE. rewrite (buffer_size_eq _ _ R).
    pose proof (u64_range (_window_size (_window t) - TCPSendingWindow.bytes_in_flight (_window t))). lia. }
  destruct (read_rep _ _ n R) as (bs & -> & R'); [lia|]. cbn [mbind outcome_bind]. cbv zeta.
  assert (Ht : encodes (set_stream t bs)).
  { split; [by apply (stocked_same _ _ t)|by eexists]. }
  case_bool; [|by apply sat_ok]. eapply sat_bind; [apply encodes_add; [exact Ht|]|intros; by apply sat_ok].
  apply encodable_fin, encodable_payload; [rewrite len_ztake; lia|]. apply encodable_seqno; [apply wrap_valid|auto].
Qed.

Lemma fill_window_encodes t : encodes t -> sat (fill_window t) encodes.
Proof.
  intros Ht. unfold fill_window. apply (sat_bind _ _ encodes).
  - case_bool; [|by apply sat_ok]. apply encodes_add; [done|]. apply encodable_seqno; [apply wrap_valid|auto].
  - intros t' Ht'. by apply (while_sat _ encodes); [apply fill_body_encodes|].
Qed.

#[global] Instance encodes_halves {mem : OverRead} : Halves encodes (fun _ => True) encodable.
Proof.
  split; try done.
  - apply fill_window_encodes.
  - intros t ackno n [Hs Hb]. apply (ack_received_stocked encodable encodable); [|done].
    intros t' E Hs'. apply fill_window_encodes. split; [done|by rewrite E].
  - intros t ms [Hs Hb]. split; [by apply tick_stocked|by rewrite tick_stream].
  - intros t [Hs Hb]. split; [|done]. apply send_stocked; [done|]. apply encodable_seqno; [apply wrap_valid|auto].
  - intros t seg [Hs Hb] Hq. split; [by apply send_stocked|done].
  - intros t [[Hb Hq] Hr]. by split.
  - intros t [Hs (b & R)]. split; [by apply (stocked_same _ _ t)|]. exists (spec_set_error b). by apply set_error_rep.
  - intros r seg Hq. unfold with_ack_info, TCPReceiver.ackno. case_bool; [done|].
    apply encodable_window, encodable_ackno; [apply wrap_valid|auto].
Qed.

(** ** The connection *)

Definition conn_encodes : TCPConnection -> Prop := parts encodes (fun _ => True) encodable.

Lemma new_encodes cfg random : 0 <= send_capacity cfg < 2 ^ 63 - 1 -> conn_encodes (TCPConnection.new cfg random).
Proof.
  intros Hc. constructor; [|done|done]. split; [by constructor|]. eexists. by apply rep_new.
Qed.

Lemma write_encodes {mem : OverRead} c data c' n : conn_encodes c -> write c data = Ok (c', n) -> conn_encodes c'.
Proof.
  intros [[Hs (b & R)] Hr Hq] E. eapply (write_parts c data c' n); [|exact E]. constructor; [|done|done].
  intros bs Eb. split; [by apply (stocked_same _ _ (_sender c))|].
  destruct (write_rep _ _ data R) as (bs' & Eb' & R'). rewrite Eb in Eb'. simplify_eq. by eexists.
Qed.

Lemma end_encodes {mem : OverRead} c c' : conn_encodes c -> end_input_stream c = Ok c' -> conn_encodes c'.
Proof.
  intros [[Hs (b & R)] Hr Hq] E. eapply (end_parts c); [|exact E]. constructor; [|done|done].
  split; [by apply (stocked_same _ _ (_sender c))|]. exists (spec_end b). by apply end_input_rep.
Qed.

(** ** Any history *)

(** What can happen to a connection: the calls of its owner, the clock, any segment at
    all, its queue being emptied, and in the end its destruction. *)
Inductive call {mem : OverRead} (c : TCPConnection) : TCPConnection -> Prop :=
  | call_connect c' : connect c = Ok c' -> call c c'
  | call_write data c' n : write c data = Ok (c', n) -> call c c'
  | call_end c' : end_input_stream c = Ok c' -> call c c'
  | call_read n bs data : ByteStream.read (inbound_stream c) n = Ok (bs, data) ->
      call c (set_receiver c (set_stream_out (_receiver c) bs))
  | call_segment seg c' : TCPConnection.segment_received c seg = Ok c' -> call c c'
  | call_tick ms c' : tick c ms = Ok c' -> call c c'
  | call_sent : call c (set_queue c [])
  | call_destroy : call c (destroy c).

Lemma call_encodes {mem : OverRead} c c' : conn_encodes c -> call c c' -> conn_encodes c'.
Proof.
  intros Hc Hcall. pose proof Hc as [Hs _ Hq].
  destruct Hcall as [c' E|data c' n E|c' E|n bs data E|seg c' E|ms c' E| |].
  - exact (connect_parts _ Hc _ E).
  - by eapply write_encodes.
  - by eapply end_encodes.
  - by constructor.
  - exact (segment_received_parts _ _ Hc _ E).
  - exact (tick_parts _ _ Hc _ E).
  - by constructor.
  - unfold destroy. case_bool; [|done]. apply parts_push; [|apply hv_reset].
    apply reset_parts, parts_sender; [done|by apply hv_empty].
Qed.

Lemma calls_encode {mem : OverRead} c c' : conn_encodes c -> rtc call c c' -> conn_encodes c'.
Proof. intros Hc H. induction H as [|c c1 c2 Hcall _ IH]; [done|]. by eapply IH, call_encodes. Qed.

(** C27. Whatever the peer sends and the owner does, in any order, every segment a
    connection queues goes through a datagram: with any pseudo-header sum it
    serializes to 20 bytes and at most [MAX_PAYLOAD_SIZE] more, which parse back to it
    with the checksum filled in. *)
Theorem every_segment_fits {mem : OverRead} cfg random c seg pseudo :
  cfg_ok cfg -> rtc call (TCPConnection.new cfg random) c -> seg ∈ _segments_out c -> 0 <= pseudo < 2 ^ 20 ->
  exists bl ck seg', serialize seg pseudo = Ok bl /\
    len (concatenate bl) = 20 + len (str (payload seg)) /\ len (str (payload seg)) <= MAX_PAYLOAD_SIZE /\
    parse TCPSegment_default (Buffer_of (concatenate bl)) pseudo = Ok (NoError, seg') /\
    seg' ≡ mkTCPSegment (TCPSegment.with_cksum ck (header seg)) (payload seg).
Proof.
  intros [_ Hcap _ _] Hc Hin Hp. pose proof (calls_encode _ _ (new_encodes cfg random Hcap) Hc) as [_ _ Hq].
  rewrite Forall_forall in Hq. pose proof (Hq _ Hin) as He. destruct (encodable_fits _ He) as [Hv _].
  destruct (serialize_bytes seg pseudo Hv Hp) as (bl & ck & Es & Hck & Eb & Ec & Hl).
  destruct (parse_serialized_segment TCPSegment_default seg pseudo (Buffer_of (concatenate bl)) ck Hv Hck)
    as (seg' & E & Heq); [apply Buffer_of_ok; lia|done..|].
  exists bl, ck, seg'. split; [done|]. split; [|split; [apply He|done]].
  rewrite Eb, (en_doff _ He), !length_app, length_replicate. pose proof (len_unparse_fields (TCPSegment.with_cksum ck (header seg))). lia.
Qed.

Definition srv_connected : TCPConnection :=
  match connect (TCPConnection.new srv_cfg 0) with Ok c => c | _ => TCPConnection.new srv_cfg 0 end.

(** Also the RST of a connection that is destroyed while its SYN is out *)
Lemma every_segment_fits_witness :
  exists bl ck seg', serialize (set_rst true TCPSegment_default) 1234 = Ok bl /\
    len (concatenate bl) = 20 + 0 /\ 0 <= MAX_PAYLOAD_SIZE /\
    parse TCPSegment_default (Buffer_of (concatenate bl)) 1234 = Ok (NoError, seg') /\
    seg' ≡ mkTCPSegment (TCPSegment.with_cksum ck (header (set_rst true TCPSegment_default)))
      (payload (set_rst true TCPSegment_default)).
Proof.
  apply (every_segment_fits (mem := word_over_read 0) srv_cfg 0 (destroy srv_connected)
    (set_rst true TCPSegment_default) 1234); [apply srv_cfg_ok| |right; by left|lia].
  eapply rtc_l; [by apply call_connect|]. apply rtc_once, call_destroy.
Defined.
