(* ===== verification/EndToEnd.v ===== *)
(** * One direction of a conversation

    A sender, a network that may lose, repeat and reorder segments, and a
    receiver.  The sender's theorems supply what the receiver's theorems assume
    of the segments it is given. *)

From S2P Require Import Prelude WrappingIntegers ByteStream StreamReassembler Buffer TCPHeader.
From S2P Require Import TCPSegment SegmentSpec TCPConfig TCPReceiver TCPSendingWindow TCPSender.

(** [net] holds every segment that was ever queued; [out] is what the receiving
    application has read and [count] how many segments were delivered. *)
Record system := mkSystem {
  snd : TCPSender;
  net : list TCPSegment;
  rcv : TCPReceiver;
  out : list byte;
  count : Z
}.

(** The absolute sequence number of a segment of a stream below 2^32. *)
Definition seg_pos (i : WrappingInt32) (seg : TCPSegment) : Z :=
  u32 (raw_value (seqno (header seg)) - raw_value i).

Section conversation.
  Context {mem : OverRead} (s : list byte) (i : WrappingInt32).

#[local] Unset Elimination Schemes.
Inductive sys_step : system -> system -> Prop :=
  | sys_send x t' :
      sstep s (snd x) t' ->
      sys_step x (mkSystem t' (net x ++ TCPSender._segments_out t') (rcv x) (out x) (count x))
  | sys_deliver x seg r' :
      seg ∈ net x -> length_in_sequence_space seg <> 0 ->
      acceptable s (seg_pos i seg) (rcv x) seg -> TCPReceiver.segment_received (rcv x) seg = Ok r' ->
      sys_step x (mkSystem (snd x) (net x) r' (out x) (count x + 1))
  | sys_read x n bs data :
      0 <= n -> read (TCPReceiver.stream_out (rcv x)) n = Ok (bs, data) ->
      sys_step x (mkSystem (snd x) (net x) (set_stream_out (rcv x) bs) (out x ++ data) (count x)).
#[local] Set Elimination Schemes.

Definition sys_new (send_capacity rt recv_capacity : Z) : system :=
  mkSystem (TCPSender.new send_capacity rt (Some i) 0) [] (TCPReceiver.new recv_capacity) [] 0.

Definition sys_reach (send_capacity rt recv_capacity : Z) : system -> Prop :=
  rtc sys_step (sys_new send_capacity rt recv_capacity).
End conversation.

(** A segment of the sender is found again at its position. *)
Lemma sender_segment_pos s i pos seg :
  sender_segment s i pos seg -> len s + 2 < 2 ^ 32 -> seg_pos i seg = pos.
Proof.
  intros H Hs. pose proof (ss_pos _ _ _ _ H). destruct (ss_data _ _ _ _ H) as (Hd & Hl & _).
  unfold seg_pos. rewrite (ss_seqno _ _ _ _ H). unfold wrap; simpl. rewrite u32_u64.
  unfold data_index in Hl, Hd. unfold u32. rewrite Zminus_mod_idemp_l.
  replace (pos + raw_value i - raw_value i) with pos by lia. apply Z.mod_small. case_bool; lia.
Qed.

Section invariant.
  Context {mem : OverRead} (s : list byte) (i : WrappingInt32) (sc rt rc : Z).
  Context (Hp : sender_params_ok s sc rt i).

(** Sender and receiver are reachable on their own, and the network holds only
    segments of the stream. *)
Record sys_inv (x : system) : Prop := {
  sy_sender : sreach s sc rt i (snd x);
  sy_net : Forall (fun seg => length_in_sequence_space seg = 0 \/
                              exists pos, sender_segment s i pos seg) (net x);
  sy_receiver : rreach s i rc (count x) (rcv x) (out x)
}.

Lemma net_segment x seg :
  sys_inv x -> seg ∈ net x -> length_in_sequence_space seg <> 0 ->
  sender_segment s i (seg_pos i seg) seg.
Proof.
  intros Hx Hin Hl. pose proof (sy_net _ Hx) as Hn. rewrite Forall_forall in Hn.
  destruct (Hn seg Hin) as [?|[pos Hs]]; [done|].
  rewrite (sender_segment_pos _ _ _ _ Hs); [done|]. apply Hp.
Qed.

Lemma sys_reach_inv x : sys_reach s i sc rt rc x -> sys_inv x.
Proof.
  intros Hr. unfold sys_reach in Hr. apply (rtc_ind_r sys_inv) in Hr; [done|..].
  - constructor; [apply rtc_refl|constructor|constructor].
  - intros x' y _ Hst Hx. destruct Hst as [x' t' Hst|x' seg r' Hin Hl Ha E|x' n bs data Hn E].
    + assert (Hr' : sreach s sc rt i t') by (eapply rtc_r; [apply Hx|done]).
      constructor; [done| |apply Hx]. simpl. apply Forall_app. split; [apply Hx|].
      destruct (reach_good _ _ _ _ t' Hp Hr') as (_ & _ & Hi & b & a & f & H).
      rewrite <- Hi. eapply Forall_impl; [apply (sv_out _ _ _ _ _ H)|].
      intros seg [?|(_ & _ & pos & Hs & _)]; [by left|right; by exists pos].
    + constructor; [apply Hx|apply Hx|]. simpl. eapply rreach_segment; [apply Hx| |done|done].
      by eapply net_segment.
    + constructor; [apply Hx|apply Hx|]. simpl. eapply rreach_read; [apply Hx|done|done].
Qed.
End invariant.

(** ** Properties *)

(** C7. End to end, under two conditions on the network: a segment arrives inside the
    window, and a FIN without payload arrives only when everything before it has been
    assembled ([acceptable]); and no acknowledgment takes back window ([sstep]).
    Then, whatever the sending application does and whatever is lost, repeated or
    reordered, the bytes the receiving application has read and can read are a prefix of
    the bytes that were written, the end of the stream is seen only after all of them,
    and every such segment is taken without an exception.  Without the condition on
    FINs the code ends the stream early ([receiver_early_fin_loses]). *)
Theorem end_to_end {mem : OverRead} {total : TotalOverRead mem} s i sc rt rc x :
  sender_params_ok s sc rt i -> sizes_ok s i rc -> sys_reach s i sc rt rc x -> count x < 2 ^ 64 - 1 ->
  (exists buffered,
     peek_output (TCPReceiver.stream_out (rcv x)) (ByteStream.buffer_size (TCPReceiver.stream_out (rcv x))) =
       Ok buffered /\
     out x ++ buffered `prefix_of` s /\
     (input_ended (TCPReceiver.stream_out (rcv x)) = true -> out x ++ buffered = s)) /\
  (forall seg, seg ∈ net x -> length_in_sequence_space seg <> 0 ->
     acceptable s (seg_pos i seg) (rcv x) seg ->
     exists r', TCPReceiver.segment_received (rcv x) seg = Ok r').
Proof.
  intros Hp Hsz Hr Hk. pose proof (sys_reach_inv _ _ _ _ _ Hp _ Hr) as Hx.
  destruct (rreach_inv _ _ _ _ _ _ Hsz (sy_receiver _ _ _ _ _ _ Hx) ltac:(lia)) as (Hk0 & _ & a & Hi & Ha).
  split.
  - destruct Hi as [Hi _ _ _ _ _ _]. pose proof (inv_rep _ _ _ _ Hi) as R. exists (s_pending a).
    unfold TCPReceiver.stream_out, StreamReassembler.stream_out.
    rewrite (buffer_size_eq _ _ R), (peek_rep _ _ _ R), ztake_all by lia. split; [done|].
    rewrite <- Ha. change (s_read a ++ s_pending a) with (s_history a).
    rewrite (inv_history _ _ _ _ Hi). split; [exists (zdrop (_first_unassembled (_reassembler (rcv x))) s);
      by rewrite ztake_zdrop|].
    unfold input_ended. rewrite (rep_ended _ _ R), (inv_ended _ _ _ _ Hi).
    intros [He Hf]%andb_true_iff. pose proof (inv_eof _ _ _ _ Hi He). apply ztake_all. lia.
  - intros seg Hin Hl Hacc. pose proof (net_segment _ _ _ _ _ Hp _ _ Hx Hin Hl) as Hs.
    destruct (_is_set (rcv x) || syn (header seg)) eqn:Eset.
    + destruct (receive_inv _ _ _ _ _ _ _ Hi ltac:(lia) ltac:(apply Hsz) Hs Hacc Eset) as (r' & _ & E & _).
      by exists r'.
    + apply orb_false_iff in Eset as [E1 E2]. exists (rcv x). by apply segment_ignored.
Qed.

(** The small sender of three bytes after its SYN, which was delivered. *)
Definition talk_syn : TCPSegment := set_seqno hi_isn (set_syn true TCPSegment_default).
Definition talk_rcv : TCPReceiver :=
  match TCPReceiver.segment_received (mem := word_over_read 0) (TCPReceiver.new 4) talk_syn with
  | Ok r => r
  | _ => TCPReceiver.new 4
  end.
Definition talk : system := mkSystem hi_syn [talk_syn] talk_rcv [] 1.

Lemma talk_reach : sys_reach (mem := word_over_read 0) hi hi_isn 8 1000 4 talk.
Proof.
  set (x0 := sys_new hi_isn 8 1000 4).
  set (x1 := mkSystem hi_written [] (rcv x0) [] 0). set (x2 := mkSystem hi_ended [] (rcv x0) [] 0).
  set (x3 := mkSystem hi_syn [talk_syn] (rcv x0) [] 0).
  eapply rtc_l; [|eapply rtc_l; [|eapply rtc_l; [|eapply rtc_l; [|apply rtc_refl]]]].
  - apply (sys_send hi hi_isn x0 hi_written).
    apply (sstep_write hi hi_new hi (_stream hi_written) 3); [vm_compute; reflexivity|].
    split_and!; vm_compute; congruence.
  - apply (sys_send hi hi_isn x1 hi_ended). apply (sstep_end hi hi_written). vm_compute. reflexivity.
  - apply (sys_send hi hi_isn x2 hi_syn). apply sstep_fill. vm_compute. reflexivity.
  - apply (sys_deliver (mem := word_over_read 0) hi hi_isn x3 talk_syn talk_rcv);
      [by left | vm_compute; congruence | demo_acceptable | vm_compute; reflexivity].
Qed.

Lemma end_to_end_witness :
  (exists buffered,
     peek_output (TCPReceiver.stream_out (rcv talk)) (ByteStream.buffer_size (TCPReceiver.stream_out (rcv talk))) =
       Ok buffered /\
     out talk ++ buffered `prefix_of` hi /\
     (input_ended (TCPReceiver.stream_out (rcv talk)) = true -> out talk ++ buffered = hi)) /\
  (forall seg, seg ∈ net talk -> length_in_sequence_space seg <> 0 ->
     acceptable hi (seg_pos hi_isn seg) (rcv talk) seg ->
     exists r', TCPReceiver.segment_received (mem := word_over_read 0) (rcv talk) seg = Ok r').
Proof.
  apply (end_to_end (mem := word_over_read 0) hi hi_isn 8 1000 4 talk);
    [apply hi_params | repeat split; vm_compute; congruence | apply talk_reach | vm_compute; reflexivity].
Defined.
