(* ===== verification/ConnectionInvariant.v ===== *)
(** * What a connection keeps

    The invariant of a [TCPConnection] that talks to a peer of the same kind, and
    that every handler (with every call it makes) and every call of the owner
    ends with a value and keeps it.  [Conversation] joins two such connections. *)

From S2P Require Import Prelude WrappingIntegers ByteStream StreamReassembler Buffer TCPHeader.
From S2P Require Import TCPSegment SegmentSpec TCPConfig TCPReceiver TCPSendingWindow TCPSender TCPState.
From S2P Require Import TCPConnection SenderSegments.

(** ** What the sender puts into its queue

    A sender never sets RST, and sets ACK on nothing: acknowledgments are added
    when [_collect_sender_segments_out] takes a segment, or by a connection whose
    receiver has an acknowledgment number ([acks]). *)
Definition quiet (acks : bool) (seg : TCPSegment) : Prop :=
  rst (header seg) = false /\
  (length_in_sequence_space seg = 0 -> str (payload seg) = []) /\
  (ack (header seg) = true -> acks = true).

Definition quiet_sender (acks : bool) : TCPSender -> Prop := stocked (quiet false) (quiet acks).

Lemma quiet_weaken acks acks' seg :
  (acks = true -> acks' = true) -> quiet acks seg -> quiet acks' seg.
Proof. unfold quiet. tauto. Qed.

Lemma quiet_sender_weaken acks acks' t :
  (acks = true -> acks' = true) -> quiet_sender acks t -> quiet_sender acks' t.
Proof.
  intros Ha [H1 H2]. constructor; [done|]. eapply Forall_impl; [done|]. intros. by eapply quiet_weaken.
Qed.

Lemma fill_body_quiet acks t :
  quiet_sender acks t ->
  sat (fill_body t) (fun x => match x with inl t' => quiet_sender acks t' | inr t' => quiet_sender acks t' end).
Proof.
  intros Hq. unfold fill_body. case_bool; [|by apply sat_ok]. case_bool; [by apply sat_ok|].
  apply (sat_bind _ _ (fun _ => True)); [done|]. intros [bs data] _. cbv zeta.
  assert (Hq' : quiet_sender acks (set_stream t bs)) by (by destruct Hq).
  case_bool; [|by apply sat_ok]. eapply sat_bind; [apply add_and_send_stocked; [|exact Hq'|]|].
  - intros seg. by apply quiet_weaken.
  - split; [done|]. split; [|done]. intros El. by rewrite El in Heqb1.
  - intros t' Ht'. by apply sat_ok.
Qed.

Lemma fill_window_quiet acks t : quiet_sender acks t -> sat (fill_window t) (quiet_sender acks).
Proof.
  intros Hq. unfold fill_window. apply (sat_bind _ _ (quiet_sender acks)).
  - case_bool; [|by apply sat_ok]. apply add_and_send_stocked; [|done|done]. intros seg. by apply quiet_weaken.
  - intros t' Ht'. by apply (while_sat _ (quiet_sender acks)); [apply fill_body_quiet|].
Qed.

Lemma ack_received_quiet acks t ackno n :
  quiet_sender acks t -> sat (TCPSender.ack_received t ackno n) (quiet_sender acks).
Proof. intros Hq. apply (ack_received_stocked _ _ _ _ _ _ (fun t' _ => fill_window_quiet acks t') Hq). Qed.

Lemma tick_quiet acks t ms : quiet_sender acks t -> quiet_sender acks (TCPSender.tick t ms).
Proof. apply tick_stocked. intros seg. by apply quiet_weaken. Qed.

(** The initial timeout is never changed. *)
Lemma fill_window_initial t :
  sat (fill_window t)
    (fun t' => _initial_retransmission_timeout t' = _initial_retransmission_timeout t).
Proof.
  set (P := fun t' => _initial_retransmission_timeout t' = _initial_retransmission_timeout t).
  assert (Hadd : forall t1 seg, P t1 -> sat (add_and_send t1 seg) P).
  { intros t1 seg H1. unfold add_and_send, add_segment. case_bool; [done|]. by apply sat_ok. }
  unfold fill_window. apply (sat_bind _ _ P).
  - case_bool; [by apply Hadd|by apply sat_ok].
  - intros t1 H1. apply (while_sat _ P); [|done]. clear t1 H1. intros t1 H1. unfold fill_body.
    case_bool; [|by apply sat_ok]. case_bool; [by apply sat_ok|].
    apply (sat_bind _ _ (fun _ => True)); [done|]. intros [bs data] _. cbv zeta.
    case_bool; [|by apply sat_ok]. apply (sat_bind _ _ P); [by apply Hadd|]. intros. by apply sat_ok.
Qed.

Lemma ack_received_initial t ackno n :
  sat (TCPSender.ack_received t ackno n)
    (fun t' => _initial_retransmission_timeout t' = _initial_retransmission_timeout t).
Proof.
  unfold TCPSender.ack_received. apply (sat_bind _ _ (fun _ => True)); [done|]. intros [ret w] _. cbv zeta.
  eapply sat_mono; [apply fill_window_initial|]. intros t' ->. by destruct ret.
Qed.

(** ** Segments that carry nothing

    They may have any sequence number (the connection leaves it at 0 in the
    acknowledgments it makes itself), and a receiver takes them all. *)
Definition bare (seg : TCPSegment) : Prop :=
  str (payload seg) = [] /\ syn (header seg) = false /\ fin (header seg) = false.

Lemma rinv_weaken s p k r a : rinv s p k r a -> rinv s p (k + 1) r a.
Proof.
  intros [Hi ? ? ? ? ? ?]. constructor; try done. destruct Hi. constructor; try done.
  by eapply cells_ok_weaken.
Qed.

(** How far the receiver may acknowledge: the SYN, what is assembled, the FIN. *)
Definition top (s : list byte) (r : TCPReceiver) : Z := left (_reassembler r) + 1 + fin_taken s r.

Lemma fin_taken_range s r : 0 <= fin_taken s r <= 1.
Proof. unfold fin_taken. case_bool; lia. Qed.

Lemma top_mono s p k r a r' :
  rinv s p k r' a -> left (_reassembler r) <= left (_reassembler r') ->
  (TCPReceiver._ended r = true -> TCPReceiver._ended r' = true) -> top s r <= top s r'.
Proof.
  intros Hr Hl He. destruct (rinv_indices _ _ _ _ _ Hr) as (HL & HL2 & _). unfold top, fin_taken.
  destruct (TCPReceiver._ended r); simpl; [rewrite He by done; simpl|];
    repeat case_bool; lia.
Qed.

Lemma receive_bare {mem : OverRead} {total : TotalOverRead mem} s p k r a seg :
  rinv s p k r a -> 0 <= k < 2 ^ 64 - 1 -> bare seg ->
  exists r' a', TCPReceiver.segment_received r seg = Ok r' /\ rinv s p (k + 1) r' a' /\
    s_read a' = s_read a /\ s_error a' = s_error a /\
    TCPReceiver._is_set r' = TCPReceiver._is_set r /\
    TCPReceiver._ended r' = TCPReceiver._ended r /\
    left (_reassembler r) <= left (_reassembler r') /\
    (forall j, covered (_reassembler r') j -> covered (_reassembler r) j).
Proof.
  intros Hr Hk (Hd & Hs & Hf). destruct (TCPReceiver._is_set r) eqn:Eset.
  2: { exists r, a. rewrite segment_ignored by done. split; [done|]. split; [by apply rinv_weaken|].
       by split_and!. }
  pose proof Hr as [Hi Hri Hc Hu He Hcap Hb].
  destruct (push_inv s k (_reassembler r) a [] 0 false Hi Hk) as
    (ra & a' & E & Hi' & Hrd & Her & Hcp & Heo & Hsz & Hcov).
  { split; [|done]. split_and!; simpl; (lia || done). }
  destruct (push_frontier _ _ _ _ _ _ _ _ _ _ Hi Hi' Hsz Hcov) as [[Hmono _] _].
  assert (Epush : forall index, push_substring (_reassembler r) [] index false = Ok ra).
  { intros index. transitivity (push_substring (_reassembler r) [] 0 false); [done|]. rewrite E.
    case_bool; [done|]. by destruct (total_over_read (len (s_read a) +
      StreamReassembler._capacity (_reassembler r))) as [w ->]. }
  unfold TCPReceiver.segment_received. rewrite Hs, Eset, Hd, Hf. cbn [negb]. cbv zeta.
  rewrite Epush. cbn [mbind outcome_bind mret outcome_ret].
  set (index := unwrap _ _ _). set (r2 := set_reassembler r ra).
  exists (update_checkpoint r2 index seg), a'. split; [done|].
  rewrite (update_checkpoint_frame r2). cbn [set_checkpoint _is_set _ended _reassembler].
  split; [|split_and!; try done; intros j Hj; apply Hcov in Hj as [?|[? _]]; [done|simpl in *; lia]].
  assert (Hr2 : forall c, 1 <= c <= left ra + 1 + fin_taken s r2 ->
                  rinv s p (k + 1) (set_checkpoint r2 c) a').
  { intros c Hc2. constructor; simpl; try done; try congruence. by rewrite Heo, orb_false_r, He. }
  apply Hr2. specialize (Hc Eset).
  assert (Hr1 : rinv s p (k + 1) (set_checkpoint r2 1) a').
  { apply Hr2. pose proof (co_fu _ _ _ _ (inv_cells _ _ _ _ Hi)). unfold fin_taken. simpl.
    pose proof (inv_first _ _ _ _ Hi'). unfold left. case_bool; lia. }
  destruct (rinv_indices _ _ _ _ _ Hr1) as (HL & HL2 & Hdist). simpl in HL, HL2, Hdist.
  pose proof (top_mono s p _ r _ _ Hr1 Hmono ltac:(done)) as Htop. unfold top in Htop.
  assert (Hlen : length_in_sequence_space seg = 0)
    by (unfold length_in_sequence_space; by rewrite Hd, Hs, Hf).
  change (fin_taken s (set_checkpoint r2 1)) with (fin_taken s r2) in Htop.
  unfold update_checkpoint. rewrite Hlen, Z.add_0_r. cbn [r2 set_reassembler set_checkpoint _checkpoint _reassembler _ended].
  change (left (_reassembler (set_checkpoint r2 1))) with (left ra) in Htop.
  destruct ((index =? 0) || (index =? TCPReceiver._checkpoint r)) eqn:Ei; [|simpl; lia].
  assert (Hidx : u64 index = 0 \/ u64 index = TCPReceiver._checkpoint r).
  { apply orb_true_iff in Ei. rewrite !Z.eqb_eq in Ei. pose proof (fin_taken_range s r).
    destruct Ei as [->| ->]; [by left|right]. apply u64_small.
    destruct (rinv_indices _ _ _ _ _ Hr) as (HL0 & HL20 & _). lia. }
  rewrite Hdist, (u64_small (left ra + 1)) by lia. unfold fin_taken in *.
  change (TCPReceiver._ended r2) with (TCPReceiver._ended r) in *. change (_reassembler r2) with ra in *.
  destruct (Z.ltb_spec (u64 index) (left ra + 1)); simpl; [|lia].
  destruct (TCPReceiver._ended r && (left ra =? len s)); simpl; rewrite ?u64_small by lia; lia.
Qed.

(** ** The sender of a connection *)

(** The retransmission timer: while a connection has not given up, its timeout
    is at most the initial one doubled for each retransmission. *)
Record timer_ok (t : TCPSender) : Prop := {
  tm_initial : 0 <= _initial_retransmission_timeout t < 2 ^ 16;
  tm_count : 0 <= _consecutive_retransmission_count t <= MAX_RETX_ATTEMPTS;
  tm_rto : _rto t <= _initial_retransmission_timeout t * 2 ^ _consecutive_retransmission_count t
}.

Lemma timer_bound t : timer_ok t -> 2 * _rto t < 2 ^ 32 /\ _consecutive_retransmission_count t < 2 ^ 64 - 1.
Proof.
  intros [Hi Hc Hr]. unfold MAX_RETX_ATTEMPTS in *.
  pose proof (Z.pow_le_mono_r 2 (_consecutive_retransmission_count t) 8 ltac:(lia) ltac:(lia)) as Hp.
  change (2 ^ 8) with 256 in Hp. split; nia.
Qed.

Lemma timer_same t t' :
  timer_ok t -> _rto t' = _rto t ->
  _initial_retransmission_timeout t' = _initial_retransmission_timeout t ->
  _consecutive_retransmission_count t' = _consecutive_retransmission_count t -> timer_ok t'.
Proof. intros [? ? ?] E1 E2 E3. constructor; rewrite ?E1, ?E2, ?E3; done. Qed.

(** An acknowledgment that does not pull back the right edge of the window. *)
Record ack_edge (t : TCPSender) (m n : Z) : Prop := {
  ae_m : 1 <= m < 2 ^ 31;
  ae_n : 0 <= n < 2 ^ 16;
  ae_edge : _first_seqno (_window t) <= m ->
    _first_seqno (_window t) + _window_size (_window t) <= m + Z.max n 1
}.

Lemma ack_edge_same t t' m n :
  ack_edge t m n -> _first_seqno (_window t') = _first_seqno (_window t) ->
  _window_size (_window t') = _window_size (_window t) -> ack_edge t' m n.
Proof. intros [? ? ?] E1 E2. constructor; rewrite ?E1, ?E2; done. Qed.

Section sender.
  Context (s : list byte) (i : WrappingInt32) (acks : bool) (Hs : len s + 2 < 2 ^ 31).

Record sender_ok (t : TCPSender) : Prop := {
  so_good : good s i t;
  so_quiet : quiet_sender acks t;
  so_timer : timer_ok t
}.

(** The same window edge. *)
Definition same_edge (t t' : TCPSender) : Prop :=
  _first_seqno (_window t') = _first_seqno (_window t) /\
  _window_size (_window t') = _window_size (_window t).

Lemma ack_edge_ok t m n : good s i t -> ack_edge t m n -> ack_ok t m n.
Proof.
  intros (_ & _ & _ & b & a & f & H) [H1 H2 H3]. pose proof (sinv_next_bound _ _ _ _ _ H).
  pose proof (sv_flow _ _ _ _ _ H). pose proof (wn_first _ _ (sv_window _ _ _ _ _ H)).
  pose proof (wn_bounds _ _ (sv_window _ _ _ _ _ H)).
  constructor; [lia|lia| |lia]. unfold in_reach. lia.
Qed.

Lemma sender_fill t :
  sender_ok t ->
  returns (fill_window t) (fun t' => sender_ok t' /\ same_edge t t' /\ grown t t').
Proof.
  intros [Hg Hq Ht]. pose proof Hg as (_ & _ & _ & b & a & f & H).
  destruct (fill_window_inv s _ b a f H) as (t' & b' & f' & E & H' & _ & Hgr & _).
  exists t'. split; [done|]. destruct (gr_timer _ _ Hgr) as (T1 & T2 & T3 & _).
  split; [constructor|by split; [split; apply Hgr|]].
  - eapply step_good; [done|by apply sstep_fill].
  - by apply (fill_window_quiet acks t Hq).
  - by eapply timer_same.
Qed.

Lemma sender_ack t m n :
  sender_ok t -> ack_edge t m n ->
  returns (TCPSender.ack_received t (wrap m i) n)
    (fun t' => sender_ok t' /\
       (_first_seqno (_window t') = _first_seqno (_window t) \/ _first_seqno (_window t') = m)).
Proof.
  intros [Hg Hq Ht] He. pose proof (ack_edge_ok _ _ _ Hg He) as Hok.
  pose proof Hg as (_ & _ & Hi & b & a & f & H).
  destruct (ack_received_inv s t b a f m n H Hok)
    as (t' & b' & a' & f' & E & H' & _ & _ & _ & E1 & E2 & E3 & E4).
  assert (Hg' : good s i t') by (eapply step_good; [exact Hg|by apply (sstep_ack s _ m n)]).
  rewrite Hi in E. exists t'. split; [done|]. split; [constructor; [done| |]|rewrite E1; case_bool; auto].
  - by apply (ack_received_quiet acks _ _ _ Hq _ E).
  - assert (Ei : _initial_retransmission_timeout t' = _initial_retransmission_timeout t).
    { by apply (ack_received_initial t (wrap m i) n). }
    destruct Ht as [H1 H2 H3]. constructor; rewrite ?Ei, ?E2, ?E3; [done| |];
      case_bool; (done || unfold MAX_RETX_ATTEMPTS; lia).
Qed.

Lemma tick_frame t ms :
  _initial_retransmission_timeout (TCPSender.tick t ms) = _initial_retransmission_timeout t /\
  same_edge t (TCPSender.tick t ms) /\ _next_seqno (_window (TCPSender.tick t ms)) = _next_seqno (_window t).
Proof. unfold TCPSender.tick, TCPSendingWindow.tick. by destruct (segment <$> filter _ _). Qed.

(** A tick after which the connection does not give up. *)
Lemma sender_tick_ok t ms :
  sender_ok t -> 0 <= ms -> consecutive_retransmissions (TCPSender.tick t ms) <= MAX_RETX_ATTEMPTS ->
  sender_ok (TCPSender.tick t ms).
Proof.
  intros [Hg Hq Ht] Hms Hcr. destruct (timer_bound _ Ht) as [B1 B2].
  assert (Hg' : good s i (TCPSender.tick t ms)) by (eapply step_good; [exact Hg|by apply sstep_tick]).
  constructor; [done|by apply tick_quiet|]. destruct Hg as (Htv & Hc0 & _).
  destruct (tick_spec t ms Htv Hms B1 B2 Hc0) as [_ Hsp]. destruct (tick_frame t ms) as (Ei & _ & _).
  destruct Ht as [H1 H2 H3]. destruct (_buffer (_window t)) as [|x buf]; [by rewrite Hsp|].
  destruct (Z.ltb_spec ms (remaining_rto x)); destruct Hsp as (_ & E2 & E3);
    [by eapply timer_same; [constructor|..]|].
  unfold consecutive_retransmissions, MAX_RETX_ATTEMPTS in *. rewrite E3 in Hcr. rewrite u32_small in Hcr by lia.
  constructor; rewrite ?Ei, ?E2, ?E3; unfold MAX_RETX_ATTEMPTS; [done|lia|]. rewrite Z.pow_add_r by lia.
  case_bool; [|lia]. etransitivity; [exact H3|]. nia.
Qed.

Lemma sender_push t seg :
  sender_ok t -> length_in_sequence_space seg = 0 -> quiet acks seg ->
  sender_ok (set_segments_out t (TCPSender._segments_out t ++ [seg])).
Proof.
  intros [Hg Hq Ht] Hl Hqs. constructor; [by apply good_push_empty|by apply send_stocked|by eapply timer_same].
Qed.

Lemma sender_flush t : sender_ok t -> sender_ok (set_segments_out t []).
Proof.
  intros [Hg [Hq1 Hq2] Ht]. constructor; [|by constructor|by eapply timer_same].
  eapply step_good; [exact Hg|].
  replace [] with (drop (length (TCPSender._segments_out t)) (TCPSender._segments_out t)) by apply drop_all.
  apply sstep_take.
Qed.

Lemma sender_write t data bs n :
  sender_ok t -> ByteStream.write (_stream t) data = Ok (bs, n) ->
  excerpt s (ztake n data) (bytes_written (_stream t)) -> sender_ok (set_stream t bs).
Proof.
  intros [Hg [Hq1 Hq2] Ht] E Hx. constructor; [|by constructor|by eapply timer_same].
  eapply step_good; [exact Hg|by eapply sstep_write].
Qed.

Lemma sender_end t :
  sender_ok t -> bytes_written (_stream t) = len s -> sender_ok (set_stream t (end_input (_stream t))).
Proof.
  intros [Hg [Hq1 Hq2] Ht] E. constructor; [|by constructor|by eapply timer_same].
  eapply step_good; [exact Hg|by eapply sstep_end].
Qed.
End sender.

Lemma sender_ok_weaken s i acks acks' t :
  (acks = true -> acks' = true) -> sender_ok s i acks t -> sender_ok s i acks' t.
Proof. intros Ha [Hg Hq Ht]. constructor; [done|by eapply quiet_sender_weaken|done]. Qed.

(** ** What a connection puts on the wire

    The segments of a connection that sends [s] from the initial sequence number
    [i] to a peer with initial sequence number [p], when at most [n] of the
    peer's sequence numbers may be acknowledged. *)
Record wire (s : list byte) (i p : WrappingInt32) (n : Z) (seg : TCPSegment) : Prop := {
  wr_rst : rst (header seg) = false;
  wr_data : bare seg \/ exists pos, sender_segment s i pos seg;
  wr_fin : fin (header seg) = true -> ack (header seg) = true;
  wr_ack : ack (header seg) = true ->
    exists m, TCPHeader.ackno (header seg) = wrap m p /\ 1 <= m <= n /\ 0 <= win (header seg) < 2 ^ 16
}.

Lemma wire_mono s i p n n' seg : n <= n' -> wire s i p n seg -> wire s i p n' seg.
Proof.
  intros Hn [? ? ? Ha]. constructor; try done. intros E. destruct (Ha E) as (m & ? & ? & ?).
  exists m. split; [done|]. lia.
Qed.

Lemma wire_conveyed s i p n seg seg' : conveyed seg seg' -> wire s i p n seg -> wire s i p n seg'.
Proof.
  intros Hc [Hr Hd Hf Ha]. pose proof Hc as [(sp & dp & ck & Eh) Ed]. constructor; rewrite ?Eh; try done.
  destruct Hd as [Hd|(pos & Hp)]; [left|right; exists pos; by eapply sender_segment_conveyed].
  unfold bare in *. by rewrite Eh, Ed.
Qed.

Lemma bare_of_length seg : str (payload seg) = [] -> length_in_sequence_space seg = 0 -> bare seg.
Proof.
  intros Hd Hl. unfold length_in_sequence_space in Hl. rewrite Hd in Hl. split; [done|].
  by destruct (syn (header seg)), (fin (header seg)).
Qed.

(** Before the peer's SYN only our own SYN is sent. *)
Lemma first_segment_no_fin s i seg : sent_segment s i 1 seg -> fin (header seg) = false.
Proof.
  intros (_ & Hl & pos & Hp & Hn). destruct (fin (header seg)) eqn:Ef; [|done].
  rewrite segment_length, Ef, (ss_syn _ _ _ _ Hp) in Hn by (unfold MAX_PAYLOAD_SIZE in *; lia).
  pose proof (ss_pos _ _ _ _ Hp). simpl in Hn. destruct (Z.eqb_spec pos 0); simpl in Hn; lia.
Qed.

Section wire.
  Context (s_out s_in : list byte) (i p : WrappingInt32).

Lemma rinv_ackno k r a :
  rinv s_in p k r a -> TCPReceiver._is_set r = true ->
  exists m, TCPReceiver.ackno r = Some (wrap m p) /\ 1 <= m <= top s_in r.
Proof.
  intros Hr Hset. exists (TCPReceiver._checkpoint r). unfold TCPReceiver.ackno.
  rewrite Hset, (ri_isn _ _ _ _ _ Hr Hset). split; [by destruct p|]. apply (ri_acked _ _ _ _ _ Hr Hset).
Qed.

Lemma with_ack_info_wire k r a next seg :
  rinv s_in p k r a -> length_in_sequence_space seg = 0 \/ sent_segment s_out i next seg ->
  quiet (TCPReceiver._is_set r) seg -> (TCPReceiver._is_set r = false -> next <= 1) ->
  wire s_out i p (top s_in r) (with_ack_info r seg).
Proof.
  intros Hr Hseg (Hq1 & Hq2 & Hq3) Hn.
  assert (Hd : bare seg \/ exists pos, sender_segment s_out i pos seg).
  { destruct Hseg as [Hl|(_ & _ & pos & Hp & _)]; [left|right; by exists pos].
    apply bare_of_length; [by apply Hq2|done]. }
  destruct (TCPReceiver._is_set r) eqn:Hset.
  - destruct (rinv_ackno _ _ _ Hr Hset) as (m & Em & Hm). unfold with_ack_info. rewrite Em.
    constructor; [done| |done|].
    + destruct Hd as [Hd|(pos & Hd)]; [left; exact Hd|right; exists pos]. destruct Hd. by constructor.
    + intros _. exists m. split; [done|]. split; [done|]. apply u16_range.
  - unfold with_ack_info, TCPReceiver.ackno. rewrite Hset. cbn [negb].
    assert (Ha : ack (header seg) = false) by (destruct (ack (header seg)); [by rewrite Hq3|done]).
    constructor; [done|done| |by rewrite Ha].
    intros Hf. exfalso. destruct Hseg as [Hl|Hsent].
    + destruct (bare_of_length seg) as (_ & _ & ?); [by apply Hq2|done|congruence].
    + rewrite (first_segment_no_fin s_out i seg) in Hf; [done|]. eapply sent_segment_mono; [|done]. by apply Hn.
Qed.
End wire.

(** ** One connection of the conversation

    [s_out] and [s_in] are the streams the two applications write, [i] and [p]
    the initial sequence numbers of the two sides, [k] bounds the number of
    segments received and [got] is what the application has read. *)
Section connection.
  Context {mem : OverRead} {total : TotalOverRead mem}.
  Context (s_out s_in : list byte) (i p : WrappingInt32).
  Context (Hout : len s_out + 2 < 2 ^ 31) (Hin : len s_in + 2 < 2 ^ 31) (Hp : wi_valid p).

Record conn_ok (k : Z) (got : list byte) (c : TCPConnection) : Prop := {
  cn_sender : sender_ok s_out i (TCPReceiver._is_set (_receiver c)) (_sender c);
  cn_receiver : exists a, rinv s_in p k (_receiver c) a /\ s_error a = false /\ s_read a = got;
  cn_unset : TCPReceiver._is_set (_receiver c) = false -> _first_seqno (_window (_sender c)) = 0;
  cn_queue : Forall (wire s_out i p (top s_in (_receiver c))) (_segments_out c)
}.

Lemma conn_ok_frame k got c c' :
  conn_ok k got c -> _sender c' = _sender c -> _receiver c' = _receiver c ->
  _segments_out c' = _segments_out c -> conn_ok k got c'.
Proof. intros [? ? ? ?] E1 E2 E3. constructor; rewrite ?E1, ?E2, ?E3; done. Qed.

Lemma conn_ok_weaken k got c : conn_ok k got c -> conn_ok (k + 1) got c.
Proof.
  intros [? (a & Hr & Ha) ? ?]. constructor; try done. exists a. split; [by apply rinv_weaken|done].
Qed.

(** What a handler that was given a segment with the acknowledgment number [m]
    and the window [n] has reached from [c0]; [fresh] as long as the sender has
    not taken the acknowledgment. *)
Record progress (c0 : TCPConnection) (m n k : Z) (got : list byte) (fresh : bool)
    (c : TCPConnection) : Prop := {
  pg_conn : conn_ok k got c;
  pg_first : _first_seqno (_window (_sender c)) <= Z.max (_first_seqno (_window (_sender c0))) m;
  pg_top : top s_in (_receiver c0) <= top s_in (_receiver c);
  pg_set : TCPReceiver._is_set (_receiver c0) = true -> TCPReceiver._is_set (_receiver c) = true;
  pg_fresh : fresh = true -> ack_edge (_sender c) m n
}.

Lemma progress_weaken c0 m n k got fresh c :
  progress c0 m n k got fresh c -> progress c0 m n (k + 1) got false c.
Proof. intros [? ? ? ? ?]. constructor; try done. by apply conn_ok_weaken. Qed.

Lemma progress_frame c0 m n k got fresh c c' :
  progress c0 m n k got fresh c -> _sender c' = _sender c -> _receiver c' = _receiver c ->
  _segments_out c' = _segments_out c -> progress c0 m n k got fresh c'.
Proof.
  intros [? ? ? ? ?] E1 E2 E3. constructor; rewrite ?E1, ?E2; try done. by eapply conn_ok_frame.
Qed.

Lemma progress_base c0 c0' m n k got fresh c :
  progress c0 m n k got fresh c -> _sender c0' = _sender c0 -> _receiver c0' = _receiver c0 ->
  progress c0' m n k got fresh c.
Proof. intros [? ? ? ? ?] E1 E2. constructor; rewrite ?E1, ?E2; done. Qed.

Lemma progress_spent c0 m n k got fresh c :
  progress c0 m n k got fresh c -> progress c0 m n k got false c.
Proof. intros [? ? ? ? ?]. by constructor. Qed.

Lemma progress_later c0 m n k got fresh c :
  progress c0 m n k got fresh c -> progress c0 m n (k + 1) got fresh c.
Proof. intros [? ? ? ? ?]. constructor; try done. by apply conn_ok_weaken. Qed.

(** [_collect_sender_segments_out] *)
Lemma collect_ok k got c :
  conn_ok k got c ->
  returns (_collect_sender_segments_out c)
    (fun c' => conn_ok k got c' /\ _receiver c' = _receiver c /\ same_edge (_sender c) (_sender c')).
Proof.
  intros [Hs (a & Hr & Ha) Hu Hq].
  destruct (sender_fill s_out i _ _ Hs) as (t & Et & Hst & Hed & Hgr).
  exists (mkTCPConnection (_cfg c) (_receiver c) (set_segments_out t [])
    (_segments_out c ++ (with_ack_info (_receiver c) <$> TCPSender._segments_out t))
    (_linger_after_streams_finish c) (_active c) (_time_since_last_segment_received c)).
  split; [by apply collect_eq|]. split; [|by split]. constructor; simpl.
  - by apply sender_flush.
  - by exists a.
  - intros E. destruct Hed as [-> _]. by apply Hu.
  - apply Forall_app. split; [done|]. apply Forall_fmap, Forall_forall. intros seg Hseg. simpl.
    destruct Hst as [(_ & _ & Hi & b & a' & f & H) [_ Hqq] _].
    rewrite Forall_forall in Hqq. pose proof (sv_out _ _ _ _ _ H) as Ho. rewrite Forall_forall in Ho.
    rewrite <- Hi. eapply with_ack_info_wire; [exact Hr|by apply Ho|by apply Hqq|].
    intros E. destruct Hed as [Hf _]. rewrite (Hu E) in Hf. pose proof (sv_flow _ _ _ _ _ H).
    pose proof (sv_unacked _ _ _ _ _ H Hf). lia.
Qed.

Lemma collect_progress c0 m n k got fresh c :
  progress c0 m n k got fresh c ->
  returns (_collect_sender_segments_out c) (progress c0 m n k got fresh).
Proof.
  intros [Hc Hf Ht Hs Hfr]. eapply returns_mono; [by apply collect_ok|].
  intros c' (Hc' & Er & [E1 E2]). constructor; rewrite ?Er, ?E1; try done.
  intros E. by eapply ack_edge_same; [apply Hfr| |].
Qed.

(** [push_ack] *)
Lemma add_ack_info_eq c seg :
  TCPReceiver._is_set (_receiver c) = true ->
  _add_ack_info c seg = Ok (with_ack_info (_receiver c) seg).
Proof. intros E. unfold _add_ack_info, with_ack_info, TCPReceiver.ackno. by rewrite E. Qed.

Lemma push_ack_progress c0 m n k got fresh c :
  progress c0 m n k got fresh c -> TCPReceiver._is_set (_receiver c) = true ->
  returns (push_ack c) (progress c0 m n k got fresh).
Proof.
  intros [Hc Hf Ht Hs Hfr] Hset. unfold push_ack. rewrite add_ack_info_eq by done.
  apply returns_ok. constructor; try done. destruct Hc as [? (a & Hr & Ha) ? Hq]. constructor; try done.
  - by exists a.
  - simpl. apply Forall_app. split; [done|]. apply Forall_singleton.
    eapply (with_ack_info_wire _ _ _ _ _ _ _ 0); [exact Hr|by left|done|lia].
Qed.

(** An empty segment in the sender's queue. *)
Lemma queue_progress c0 m n k got fresh c seg :
  progress c0 m n k got fresh c -> length_in_sequence_space seg = 0 ->
  quiet (TCPReceiver._is_set (_receiver c)) seg ->
  progress c0 m n k got fresh
    (set_sender c (set_segments_out (_sender c) (TCPSender._segments_out (_sender c) ++ [seg]))).
Proof.
  intros [[Hs Hr Hu Hq] Hf Ht Hset Hfr] Hl Hqs. constructor; try done.
  - constructor; try done. by apply sender_push.
  - intros E. by eapply ack_edge_same; [apply Hfr| |].
Qed.
(** A segment of the peer that the receiver can take. *)
Definition arrives (c : TCPConnection) (seg : TCPSegment) : Prop :=
  bare seg \/ exists pos, sender_segment s_in p pos seg /\ acceptable s_in pos (_receiver c) seg.

Lemma receiver_takes k r a seg :
  rinv s_in p k r a -> 0 <= k < 2 ^ 64 - 1 ->
  (bare seg \/ exists pos, sender_segment s_in p pos seg /\ acceptable s_in pos r seg) ->
  exists r' a', TCPReceiver.segment_received r seg = Ok r' /\ rinv s_in p (k + 1) r' a' /\
    s_read a' = s_read a /\ s_error a' = s_error a /\ top s_in r <= top s_in r' /\
    (TCPReceiver._is_set r || syn (header seg) = true -> TCPReceiver._is_set r' = true) /\
    (TCPReceiver._is_set r' = false -> TCPReceiver._is_set r = false).
Proof.
  intros Hr Hk [Hb|(pos & Hs & Hac)].
  - destruct (receive_bare _ _ _ _ _ _ Hr Hk Hb) as (r' & a' & E & Hr' & E1 & E2 & E3 & E4 & Hl & _).
    exists r', a'. split_and!; try done; [eapply top_mono; [done..|congruence]| |congruence].
    destruct Hb as (_ & -> & _). rewrite orb_false_r. congruence.
  - destruct (TCPReceiver._is_set r || syn (header seg)) eqn:Eset.
    + destruct (receive_inv _ _ _ _ _ _ _ Hr Hk Hp Hs Hac Eset)
        as (r' & a' & E & Hr' & E1 & E2 & _ & Hset & He & Hl & _).
      exists r', a'. split_and!; try done; [|congruence].
      eapply top_mono; [done..|]. intros Ee. by rewrite He, Ee.
    + apply orb_false_iff in Eset as [E1 E2]. exists r, a. rewrite segment_ignored by done.
      split_and!; try done. by apply rinv_weaken.
Qed.

(** [to_sender] *)
Lemma sender_progress c0 m k got c seg :
  progress c0 m (win (header seg)) k got true c -> TCPReceiver._is_set (_receiver c) = true ->
  TCPHeader.ackno (header seg) = wrap m i ->
  returns (to_sender c seg)
    (fun c' => progress c0 m (win (header seg)) k got false c' /\ _receiver c' = _receiver c).
Proof.
  intros [[Hs Hr Hu Hq] Hf Ht Hset Hfr] Hset' Hno. unfold to_sender. rewrite Hno.
  destruct (sender_ack s_out i _ Hout _ m (win (header seg)) Hs (Hfr eq_refl)) as (t & E & Ht' & Hfirst).
  rewrite E. apply returns_ok. split; [|done]. constructor; simpl; try done; [|lia].
  constructor; simpl; try done. intros. congruence.
Qed.

(** ** The handlers *)

(** What is known of the segment a handler is given. *)
Record incoming (m : Z) (c : TCPConnection) (seg : TCPSegment) : Prop := {
  in_arrives : arrives c seg;
  in_rst : rst (header seg) = false;
  in_fin : fin (header seg) = true -> ack (header seg) = true;
  in_ack : ack (header seg) = true -> TCPHeader.ackno (header seg) = wrap m i /\
    ack_edge (_sender c) m (win (header seg))
}.

Section handlers.
  Context (m k : Z) (got : list byte) (c : TCPConnection) (seg : TCPSegment).
  Context (Hc : conn_ok k got c) (Hk : 0 <= k < 2 ^ 64 - 1) (Hseg : incoming m c seg).

Notation result := (progress c m (win (header seg)) (k + 1) got false).

Lemma start : progress c m (win (header seg)) k got (ack (header seg)) c.
Proof. constructor; try done; [lia|]. intros E. by apply (in_ack _ _ _ Hseg). Qed.

Lemma done_handler : returns (mret c) result.
Proof. apply returns_ok. eapply progress_weaken, start. Qed.

(** The receiver first; what follows starts from a connection that has it. *)
Lemma receiver_first (f : TCPConnection -> outcome TCPConnection) (Q : TCPConnection -> Prop) :
  (forall c', progress c m (win (header seg)) (k + 1) got (ack (header seg)) c' ->
     (TCPReceiver._is_set (_receiver c) || syn (header seg) = true ->
      TCPReceiver._is_set (_receiver c') = true) ->
     returns (f c') Q) ->
  returns (c' ← to_receiver c seg; f c') Q.
Proof.
  intros Hf. destruct Hc as [Hs (a & Hr & Her & Hrd) Hu Hq].
  destruct (receiver_takes _ _ _ _ Hr Hk (in_arrives _ _ _ Hseg))
    as (r' & a' & E & Hr' & E1 & E2 & Htop & Hs1 & Hs2).
  assert (Hmon : TCPReceiver._is_set (_receiver c) = true -> TCPReceiver._is_set r' = true)
    by (intros Ec; apply Hs1; by rewrite Ec).
  unfold to_receiver. rewrite E. cbn [mbind outcome_bind mret outcome_ret]. apply Hf; [|done].
  constructor; simpl; try done; [|lia|intros Ea; by apply (in_ack _ _ _ Hseg)]. constructor; simpl.
  - by eapply sender_ok_weaken.
  - exists a'. by rewrite E1, E2.
  - auto.
  - eapply Forall_impl; [exact Hq|]. intros seg'. by apply wire_mono.
Qed.

Lemma on_listen_ok : returns (on_listen c seg) result.
Proof.
  unfold on_listen. case_bool; [|by apply done_handler]. apply receiver_first. intros c' Hc' _.
  eapply returns_bind; [by apply collect_progress|]. intros c2 Hc2. apply returns_ok.
  eapply progress_frame; [by eapply progress_spent|done..].
Qed.

(** The sender next, once the receiver has an acknowledgment number. *)
Lemma sender_next k' c' (f : TCPConnection -> outcome TCPConnection) :
  progress c m (win (header seg)) k' got (ack (header seg)) c' -> ack (header seg) = true ->
  TCPReceiver._is_set (_receiver c') = true ->
  (forall c2, progress c m (win (header seg)) k' got false c2 ->
     TCPReceiver._is_set (_receiver c2) = true -> returns (f c2) result) ->
  returns (c2 ← to_sender c' seg; f c2) result.
Proof.
  intros Hpg Ha Hset Hf. rewrite Ha in Hpg. eapply returns_bind; [apply sender_progress; [done|done|]|].
  - by apply (in_ack _ _ _ Hseg).
  - intros c2 [Hpg2 Er]. apply Hf; [done|]. by rewrite Er.
Qed.

Lemma on_syn_sent_ok : returns (on_syn_sent c seg) result.
Proof.
  unfold on_syn_sent. destruct (syn (header seg)) eqn:Es; [|by apply done_handler].
  destruct (ack (header seg)) eqn:Ea; cbn [andb]; apply receiver_first; intros c' Hc' Hset;
    rewrite Es, orb_true_r in Hset; specialize (Hset eq_refl).
  - eapply sender_next; [exact Hc'|done|done|]. intros c2 Hc2 Hset2. by apply push_ack_progress.
  - rewrite Ea in Hc'. by apply push_ack_progress.
Qed.

Section synchronized.
  Context (Hset : TCPReceiver._is_set (_receiver c) = true).

Lemma on_syn_rcvd_ok : returns (on_syn_rcvd c seg) result.
Proof.
  unfold on_syn_rcvd. destruct (ack (header seg)) eqn:Ea; [|by apply done_handler].
  apply receiver_first. intros c' Hc' Hset'. rewrite Hset in Hset'.
  eapply (returns_mono _ _ _); [eapply sender_progress; [by rewrite Ea in Hc'|by apply Hset'|]|].
  - by apply (in_ack _ _ _ Hseg).
  - by intros c2 [? _].
Qed.

Lemma on_fin_wait_2_ok : returns (on_fin_wait_2 c seg) result.
Proof.
  unfold on_fin_wait_2. case_bool; [|by apply done_handler].
  apply andb_true_iff in Heqb as [_ Ea]. apply receiver_first. intros c' Hc' Hset'. rewrite Hset in Hset'.
  eapply sender_next; [exact Hc'|done|by apply Hset'|]. intros c2 Hc2 Hset2. by apply push_ack_progress.
Qed.

Lemma on_last_ack_ok : returns (on_last_ack c seg) result.
Proof.
  unfold on_last_ack. destruct (ack (header seg)) eqn:Ea; [|by apply done_handler].
  eapply sender_next; [by apply start|done|done|]. intros c2 Hc2 _. apply returns_ok.
  case_bool; [|by eapply progress_weaken]. eapply progress_frame; [by eapply progress_weaken|done..].
Qed.

Lemma on_closing_ok : returns (on_closing c seg) result.
Proof.
  unfold on_closing. destruct (ack (header seg)) eqn:Ea; [|by apply done_handler].
  apply receiver_first. intros c' Hc' Hset'. rewrite Hset in Hset'.
  eapply sender_next; [exact Hc'|done|by apply Hset'|]. intros c2 Hc2 Hset2. by apply collect_progress.
Qed.

(** [CLOSE_WAIT] and [TIME_WAIT] answer a FIN in the same way. *)
Lemma answer_fin_ok :
  ack (header seg) = true -> returns (c2 ← to_sender c seg; push_ack c2) result.
Proof.
  intros Ea. eapply sender_next; [by apply start|done|done|]. intros c2 Hc2 Hset2.
  apply push_ack_progress; [by eapply progress_weaken|done].
Qed.

(** What [on_established] does once it has dealt with [_linger_after_streams_finish]. *)
Lemma established_ok :
  returns
    (c' ← (if negb (length_in_sequence_space seg =? 0) || negb (ack (header seg)) then
             c ← to_receiver c seg;
             ack_seg ← _add_ack_info c TCPSegment_default;
             let t := _sender c in
             _collect_sender_segments_out
               (set_sender c (set_segments_out t (TCPSender._segments_out t ++ [ack_seg])))
           else mret c);
     if ack (header seg) then
       c ← to_sender c' seg;
       _collect_sender_segments_out c
     else mret c') result.
Proof.
  eapply (returns_bind _ _ (fun c' => progress c m (win (header seg)) (k + 1) got (ack (header seg)) c' /\
    TCPReceiver._is_set (_receiver c') = true)).
  - case_bool; [|apply returns_ok; split; [by apply progress_later, start|done]].
    apply receiver_first. intros c' Hc' Hset'. rewrite Hset in Hset'. specialize (Hset' eq_refl).
    rewrite add_ack_info_eq by done. cbn [mbind outcome_bind]. cbv zeta.
    assert (Hq : progress c m (win (header seg)) (k + 1) got (ack (header seg))
      (set_sender c' (set_segments_out (_sender c') (TCPSender._segments_out (_sender c') ++
         [with_ack_info (_receiver c') TCPSegment_default])))).
    { apply queue_progress; [done| |].
      - by rewrite (proj1 (with_ack_info_carries _ _ [] i 0)).
      - unfold with_ack_info, TCPReceiver.ackno. by rewrite Hset'. }
    eapply returns_mono; [by eapply collect_progress|]. intros c2 Hc2. split; [done|].
    by apply (pg_set _ _ _ _ _ _ _ Hc2).
  - intros c' [Hc' Hset']. destruct (ack (header seg)) eqn:Ea; [|by apply returns_ok].
    rewrite <- Ea in Hc'. eapply sender_next; [exact Hc'|done|done|]. intros c2 Hc2 _.
    by apply collect_progress.
Qed.
End synchronized.
End handlers.

(** The receiver's half of the official state. *)
Lemma state_is_set c st :
  state c = official st -> st <> LISTEN -> st <> SYN_SENT -> st <> RESET ->
  TCPReceiver._is_set (_receiver c) = true.
Proof.
  intros Hst H1 H2 H3. pose proof (f_equal TCPState._receiver Hst) as Hr. simpl in Hr.
  unfold receiver_summary, TCPReceiver.ackno in Hr. destruct (TCPReceiver._is_set (_receiver c)); [done|].
  destruct (ByteStream.error _), st; done.
Qed.

Lemma incoming_frame m c c' seg :
  incoming m c seg -> _sender c' = _sender c -> _receiver c' = _receiver c -> incoming m c' seg.
Proof.
  intros [Ha ? ? ?] E1 E2. constructor; rewrite ?E1; try done. unfold arrives in *. by rewrite E2.
Qed.

Lemma dispatch_ok m k got c seg :
  conn_ok k got c -> 0 <= k < 2 ^ 64 - 1 -> incoming m c seg ->
  returns (dispatch c seg) (progress c m (win (header seg)) (k + 1) got false).
Proof.
  intros Hc Hk Hseg. unfold dispatch. cbv zeta.
  assert (Hset : forall st, in_state (state c) st = true -> st <> LISTEN -> st <> SYN_SENT -> st <> RESET ->
    TCPReceiver._is_set (_receiver c) = true).
  { intros st E. apply state_eqb_eq in E. by apply state_is_set. }
  case_bool; [by apply on_listen_ok|]. case_bool; [by apply on_syn_sent_ok|].
  case_bool; [by apply on_syn_rcvd_ok; [..|eapply Hset]|].
  case_bool.
  { unfold on_established. cbv zeta. set (c1 := if _ && _ then _ else c).
    assert (Hc1 : _sender c1 = _sender c /\ _receiver c1 = _receiver c /\ _segments_out c1 = _segments_out c)
      by (unfold c1; by case_bool). destruct Hc1 as (E1 & E2 & E3).
    eapply returns_mono; [apply (established_ok m k got c1)|].
    - by eapply conn_ok_frame.
    - done.
    - by eapply incoming_frame.
    - rewrite E2. apply orb_true_iff in Heqb2 as [E|E]; by eapply Hset.
    - intros c' Hc'. by eapply progress_base. }
  case_bool; [by apply on_fin_wait_2_ok; [..|eapply Hset]|].
  case_bool; [by apply on_last_ack_ok; [..|eapply Hset]|].
  case_bool; [by apply on_closing_ok; [..|eapply Hset]|].
  case_bool.
  { unfold on_close_wait. case_bool; [|by apply done_handler].
    apply answer_fin_ok; [done..|by eapply Hset|by apply (in_fin _ _ _ Hseg)]. }
  case_bool; [|by apply done_handler].
  unfold on_time_wait. case_bool; [|by apply done_handler]. apply andb_true_iff in Heqb8 as [_ Ea].
  apply answer_fin_ok; [done..|by eapply Hset|done].
Qed.

Lemma keep_alive_ok c0 m n k got c seg :
  progress c0 m n k got false c -> returns (keep_alive c seg) (progress c0 m n k got false).
Proof.
  intros Hc. unfold keep_alive. destruct (TCPReceiver.ackno (_receiver c)); [|by apply returns_ok].
  case_bool; [|by apply returns_ok]. apply collect_progress. by apply queue_progress.
Qed.

(** The handler of an incoming segment. *)
Lemma segment_received_ok m k got c seg :
  conn_ok k got c -> 0 <= k < 2 ^ 64 - 1 -> incoming m c seg ->
  returns (TCPConnection.segment_received c seg) (progress c m (win (header seg)) (k + 1) got false).
Proof.
  intros Hc Hk Hseg. unfold TCPConnection.segment_received. rewrite (in_rst _ _ _ Hseg).
  eapply returns_bind; [apply (dispatch_ok m k got)|].
  - by eapply conn_ok_frame.
  - done.
  - by eapply incoming_frame.
  - intros c' Hc'. apply keep_alive_ok. by eapply progress_base.
Qed.

(** The calls of the owner: they leave the edge of the window where it is. *)
Definition kept (k : Z) (got : list byte) (c c' : TCPConnection) : Prop :=
  conn_ok k got c' /\ _receiver c' = _receiver c /\
  _first_seqno (_window (_sender c')) = _first_seqno (_window (_sender c)).

Lemma collect_kept k got c c1 :
  conn_ok k got c1 -> _receiver c1 = _receiver c ->
  _first_seqno (_window (_sender c1)) = _first_seqno (_window (_sender c)) ->
  returns (_collect_sender_segments_out c1) (kept k got c).
Proof.
  intros H1 E1 E2. eapply returns_mono; [by apply collect_ok|].
  intros c' (Hc' & Er & [Ef _]). split; [done|]. split; congruence.
Qed.

Lemma conn_ok_sender k got c t :
  conn_ok k got c -> sender_ok s_out i (TCPReceiver._is_set (_receiver c)) t ->
  _first_seqno (_window t) = _first_seqno (_window (_sender c)) -> conn_ok k got (set_sender c t).
Proof. intros [? ? Hu ?] Ht Ef. constructor; try done. simpl. by rewrite Ef. Qed.

Lemma connect_ok k got c : conn_ok k got c -> returns (connect c) (kept k got c).
Proof. intros Hc. by apply collect_kept. Qed.

Lemma end_input_stream_ok k got c :
  conn_ok k got c -> bytes_written (outbound_stream c) = len s_out ->
  returns (end_input_stream c) (kept k got c).
Proof.
  intros Hc E. apply collect_kept; [|done|done].
  apply conn_ok_sender; [done| |done]. apply sender_end; [apply Hc|done].
Qed.

Lemma write_ok k got c data bs n :
  conn_ok k got c -> ByteStream.write (outbound_stream c) data = Ok (bs, n) ->
  excerpt s_out (ztake n data) (bytes_written (outbound_stream c)) ->
  returns (write c data) (fun x => kept k got c x.1 /\ x.2 = n).
Proof.
  intros Hc E Hx. unfold write. rewrite E. cbn [mbind outcome_bind].
  eapply returns_bind; [apply (collect_kept k got c)|].
  - apply conn_ok_sender; [done| |done]. eapply sender_write; [apply Hc|done|done].
  - done.
  - done.
  - intros c' Hc'. by apply returns_ok.
Qed.

Lemma tick_ok k got c ms :
  conn_ok k got c -> 0 <= ms ->
  consecutive_retransmissions (TCPSender.tick (_sender c) ms) <= MAX_RETX_ATTEMPTS ->
  returns (tick c ms) (kept k got c).
Proof.
  intros Hc Hms Hr. unfold tick. cbv zeta. set (c1 := set_time c _). set (b := in_state _ _ && _ && _).
  set (c2 := if b then _ else c1).
  assert (Hc2 : _sender c2 = _sender c /\ _receiver c2 = _receiver c /\ _segments_out c2 = _segments_out c)
    by (unfold c2; by destruct b). destruct Hc2 as (E1 & E2 & E3). rewrite E1.
  destruct (tick_frame (_sender c) ms) as (_ & [Ef _] & _).
  assert (Hc3 : conn_ok k got (set_sender c2 (TCPSender.tick (_sender c) ms))).
  { apply conn_ok_sender; [by eapply conn_ok_frame| |by rewrite E1].
    rewrite E2. eapply sender_tick_ok; [apply Hc|done|done]. }
  cbn [set_sender _sender]. rewrite Z.gtb_ltb. case_bool; [lia|].
  case_bool; [by apply collect_kept|]. apply returns_ok. by split.
Qed.

(** Reading from the inbound stream. *)
Lemma read_ok k got c n bs data :
  conn_ok k got c -> 0 <= n -> read (inbound_stream c) n = Ok (bs, data) ->
  conn_ok k (got ++ data) (set_receiver c (set_stream_out (_receiver c) bs)).
Proof.
  intros [Hs (a & Hr & He & Hg) Hu Hq] Hn E. destruct (rinv_read _ _ _ _ _ _ _ _ Hr Hn E) as [Hr' ->].
  constructor; try done. exists (spec_pop a n). split; [done|]. split; [done|]. simpl. by rewrite Hg.
Qed.

Lemma read_returns k got c n : conn_ok k got c -> 0 <= n -> returns (read (inbound_stream c) n) (fun _ => True).
Proof.
  intros [_ (a & Hr & _ & _) _ _] Hn. pose proof (inv_rep _ _ _ _ (ri_reassembler _ _ _ _ _ Hr)) as R.
  destruct (read_rep _ _ n R Hn) as (bs & E & _). by eexists.
Qed.
End connection.
