(* ===== verification/Handshake.v ===== *)
(** * The three-way handshake

    One connection connects, another one listens, and the network between them
    delivers the three segments: both sides become established.  [set_queue c []]
    is what handing the queue to the network leaves. *)

From S2P Require Import Prelude WrappingIntegers ByteStream StreamReassembler Buffer TCPHeader.
From S2P Require Import TCPSegment SegmentSpec TCPConfig TCPReceiver TCPSendingWindow TCPSender TCPState.
From S2P Require Import TCPConnection ConnectionInvariant.

Section handshake.
  Context {mem : OverRead} {total : TotalOverRead mem}.

(** A receiver that has the SYN and is given a bare acknowledgment *)
Lemma syn_recv_bare p k r a seg :
  rinv [] p k r a -> s_error a = false -> 0 <= k < 2 ^ 64 - 1 -> bare seg ->
  TCPReceiver.state r = TCPReceiver.SYN_RECV ->
  exists r', TCPReceiver.segment_received r seg = Ok r' /\
    TCPReceiver.state r' = TCPReceiver.SYN_RECV /\ TCPReceiver.ackno r' = Some (wrap 1 p).
Proof.
  intros Hr He Hk Hb Hst. destruct (receive_bare [] p k r a seg Hr Hk Hb)
    as (r' & a' & E & Hr' & _ & He' & Hset & Hend & _).
  exists r'. split; [done|].
  rewrite (rinv_state _ _ _ _ _ Hr) in Hst by (by rewrite (rinv_error _ _ _ _ _ Hr)).
  rewrite (rinv_state _ _ _ _ _ Hr') by (by rewrite (rinv_error _ _ _ _ _ Hr'), He').
  rewrite <- Hset in Hst.
  destruct (rinv_indices _ _ _ _ _ Hr) as (HL & HL2 & _), (rinv_indices _ _ _ _ _ Hr') as (HL' & HL2' & _).
  simpl in HL2, HL2'. rewrite Hend. replace (left (_reassembler r')) with 0 by lia.
  replace (left (_reassembler r)) with 0 in Hst by lia. split; [exact Hst|].
  destruct (TCPReceiver._is_set r') eqn:Eset; [|done].
  destruct (TCPReceiver._ended r) eqn:Ee; [done|].
  destruct (rinv_ackno [] p (k + 1) r' a' Hr' Eset) as (m & Em & Hm).
  unfold top, fin_taken in Hm. rewrite Hend in Hm. simpl in Hm. by replace m with 1 in Em by lia.
Qed.

(** The empty segment that answers a keep-alive changes neither half. *)
Lemma keep_alive_established c b a f seg :
  TCPReceiver.state (_receiver c) = TCPReceiver.SYN_RECV -> good [] (_isn (_window (_sender c))) (_sender c) ->
  sinv [] (_sender c) b a f -> s_ended b = false -> _first_seqno (_window (_sender c)) = 1 ->
  active c = true -> _linger_after_streams_finish c = true ->
  exists c', keep_alive c seg = Ok c' /\ state c' = official ESTABLISHED /\ active c' = true /\
    _receiver c' = _receiver c.
Proof.
  intros Hr Hg Ht He Hf Ha Hl. unfold keep_alive.
  assert (Hst : state c = official ESTABLISHED) by (by eapply established_state).
  destruct (TCPReceiver.ackno (_receiver c)) as [p|]; [|by exists c]. case_bool; [|by exists c].
  destruct (good_push_empty _ _ _ (set_seqno (next_seqno (_sender c)) TCPSegment_default) Hg)
    as (_ & _ & _ & b1 & a1 & f1 & H1); [done|].
  change (set_segments_out _ _) with (send_empty_segment (_sender c)) in H1.
  assert (He1 : s_ended b1 = false).
  { rewrite <- (rep_ended _ _ (sv_stream _ _ _ _ _ H1)), <- He. by apply rep_ended, Ht. }
  destruct (fill_window_inv _ _ _ _ _ H1) as (t & b2 & f2 & E & H2 & (_ & He2 & _) & Hgr & _).
  rewrite (collect_eq _ t) by exact E. eexists. split; [reflexivity|]. split; [|done].
  eapply (established_state _ b2 a1 f2); simpl; try done.
  - by destruct H2; constructor.
  - by rewrite He2.
  - by rewrite (gr_first _ _ Hgr).
Qed.

(** What a connection in [SYN_RCVD] does with an acknowledgment *)
Lemma syn_rcvd_receives c seg r t :
  state c = official SYN_RCVD -> rst (header seg) = false -> TCPHeader.ack (header seg) = true ->
  TCPReceiver.segment_received (_receiver c) seg = Ok r ->
  ack_received (_sender c) (TCPHeader.ackno (header seg)) (win (header seg)) = Ok t ->
  segment_received c seg =
    keep_alive (mkTCPConnection (_cfg c) r t (_segments_out c) (_linger_after_streams_finish c) (_active c) 0) seg.
Proof.
  intros Hst Hr Ha Er Et. unfold segment_received. rewrite Hr. unfold dispatch.
  change (state (set_time c 0)) with (state c). rewrite Hst. cbn -[on_syn_rcvd keep_alive].
  unfold on_syn_rcvd, to_receiver, to_sender. rewrite Ha. cbn [set_time _receiver]. rewrite Er.
  cbn [mbind outcome_bind mret outcome_ret set_receiver set_time _sender]. by rewrite Et.
Qed.

(** The handshake completes: whatever the configurations and the two initial
    sequence numbers, the SYN of a connection that connects, the SYN and ACK of
    the one that listens and the final acknowledgment take both to [ESTABLISHED],
    each side sending exactly one segment per step, and each then expects the
    first byte of the other. *)
Theorem three_way_handshake ca ra cb rb :
  cfg_ok ca -> cfg_ok cb ->
  let ia := conn_isn ca ra in
  let ib := conn_isn cb rb in
  exists a1 b1 a2 b2 syn synack ack,
    connect (new ca ra) = Ok a1 /\ state a1 = official SYN_SENT /\ _segments_out a1 = [syn] /\
    segment_received (new cb rb) syn = Ok b1 /\ state b1 = official SYN_RCVD /\ _segments_out b1 = [synack] /\
    segment_received (set_queue a1 []) synack = Ok a2 /\ _segments_out a2 = [ack] /\
    segment_received (set_queue b1 []) ack = Ok b2 /\
    state a2 = official ESTABLISHED /\ state b2 = official ESTABLISHED /\
    TCPReceiver.ackno (_receiver a2) = Some (wrap 1 ib) /\
    TCPReceiver.ackno (_receiver b2) = Some (wrap 1 ia).
Proof.
  intros Ha Hb ia ib. pose proof (conn_isn_valid ca ra Ha) as Hia. pose proof (conn_isn_valid cb rb Hb) as Hib.
  fold ia in Hia. fold ib in Hib.
  destruct (listen_receives cb rb ia (syn_segment ia) Hb Hia ltac:(done)) as (r & x & Hr & Hx & Est & Eack & E1).
  fold ib in E1. set (b1 := mkTCPConnection _ _ _ _ _ _ _) in E1.
  set (synack := ack_info _ _ (syn_segment ib)) in *.
  destruct (syn_sent_receives ca ia ib synack [] Ha Hia Hib) as (a2 & E2 & Hst2 & _ & Hack2 & Hq2); try done.
  { simpl. wrap_lia. }
  set (ack := ack_info _ _ TCPSegment_default) in *.
  destruct (syn_recv_bare ia 1 r x ack Hr Hx ltac:(lia) ltac:(done) Est) as (r2 & E3 & Est2 & Eack2).
  destruct (syn_waiting_acked cb ib (win (header ack)) Hb Hib) as (t & b & y & f & Et & Hg & Ht & He & Hf).
  { simpl. wrap_lia. }
  set (c2 := mkTCPConnection cb r2 t [] true true 0).
  destruct (keep_alive_established c2 b y f ack) as (b2 & E4 & Hst4 & _ & Er4); try done.
  { destruct Hg as (Hg1 & Hg2 & Hg3 & Hg4). simpl. by rewrite Hg3. }
  exists (mkTCPConnection ca (TCPReceiver.new (recv_capacity ca)) (syn_waiting ca ia) [syn_segment ia] true true 0),
    b1, a2, b2, (syn_segment ia), synack, ack.
  split; [by rewrite (connect_new ca ra Ha)|]. split; [done|]. split; [done|]. split; [exact E1|].
  split. { unfold state, state_of. simpl. by rewrite receiver_summary_name, Est. }
  split; [done|]. split; [exact E2|]. split; [exact Hq2|].
  split; [|by rewrite Er4].
  rewrite <- E4. apply syn_rcvd_receives; try done.
  unfold state, state_of. simpl. by rewrite receiver_summary_name, Est.
Qed.
End handshake.

Lemma three_way_handshake_witness :
  let ca := mkTCPConfig 1000 16 16 (Some (mkWrappingInt32 0)) in
  let cb := mkTCPConfig 1000 16 16 (Some (mkWrappingInt32 4294967295)) in
  exists a1 b1 a2 b2 syn synack ack,
    connect (new ca 0) = Ok a1 /\ state a1 = official SYN_SENT /\ _segments_out a1 = [syn] /\
    segment_received (mem := word_over_read 0) (new cb 0) syn = Ok b1 /\ state b1 = official SYN_RCVD /\
    _segments_out b1 = [synack] /\
    segment_received (mem := word_over_read 0) (set_queue a1 []) synack = Ok a2 /\ _segments_out a2 = [ack] /\
    segment_received (mem := word_over_read 0) (set_queue b1 []) ack = Ok b2 /\
    state a2 = official ESTABLISHED /\ state b2 = official ESTABLISHED /\
    TCPReceiver.ackno (_receiver a2) = Some (wrap 1 (conn_isn cb 0)) /\
    TCPReceiver.ackno (_receiver b2) = Some (wrap 1 (conn_isn ca 0)).
Proof.
  intros ca cb. apply (three_way_handshake (mem := word_over_read 0) ca 0 cb 0);
    (constructor; simpl; [lia..|]; by intros ? [= <-]).
Defined.
