(* ===== verification/Conversation.v ===== *)
(** * A conversation of two connections

    Two [TCPConnection]s and a network that may lose, repeat and reorder what
    they send.  The invariants of the two sides together give that each
    application reads what the other one wrote, and that what is acknowledged
    has arrived. *)

From S2P Require Import Prelude WrappingIntegers ByteStream StreamReassembler Buffer TCPHeader.
From S2P Require Import TCPSegment SegmentSpec TCPConfig TCPReceiver TCPSendingWindow TCPSender TCPState.
From S2P Require Import TCPConnection EndToEnd ConnectionInvariant.

(** ** Two sides and the network *)

(** What one side of the conversation is made with: the bytes its application
    writes, its configuration and what its [random_device] returns. *)
Record party := mkParty { p_stream : list byte; p_cfg : TCPConfig; p_random : Z }.

Definition p_isn (a : party) : WrappingInt32 := conn_isn (p_cfg a) (p_random a).

Record party_ok (a : party) : Prop := {
  po_cfg : cfg_ok (p_cfg a);
  po_stream : len (p_stream a) + 2 < 2 ^ 31
}.

(** A connection, everything it has ever handed to the network, what its
    application has read, and the number of segments it was given. *)
Record side := mkSide { conn : TCPConnection; sent : list TCPSegment; got : list byte; count : Z }.

Definition set_conn (x : side) (c : TCPConnection) : side := mkSide c (sent x) (got x) (count x).

Definition side_new (a : party) : side := mkSide (new (p_cfg a) (p_random a)) [] [] 0.

(** The absolute sequence number a segment acknowledges. *)
Definition ack_pos (i : WrappingInt32) (seg : TCPSegment) : Z :=
  u32 (raw_value (TCPHeader.ackno (header seg)) - raw_value i).

(** What the network may deliver: a segment inside the receive window, whose
    acknowledgment does not pull back the right edge of the send window, and a FIN
    without data only when all data has been assembled ([acceptable]; otherwise the
    stream would end early). *)
Record deliverable (me peer : party) (c : TCPConnection) (seg : TCPSegment) : Prop := {
  dl_window : length_in_sequence_space seg <> 0 ->
    acceptable (p_stream peer) (seg_pos (p_isn peer) seg) (_receiver c) seg;
  dl_edge : ack (header seg) = true ->
    let w := _window (_sender c) in
    _first_seqno w <= ack_pos (p_isn me) seg ->
    _first_seqno w + _window_size w <= ack_pos (p_isn me) seg + Z.max (win (header seg)) 1
}.

Section acts.
  Context {mem : OverRead} (me peer : party).

(** What one side does when [net] is what the peer has sent so far: the calls of
    its owner, the clock, and segments that arrive, in any order and any number
    of times. *)
Inductive act (net : list TCPSegment) : side -> side -> Prop :=
  | act_connect x c' : connect (conn x) = Ok c' -> act net x (set_conn x c')
  | act_write x data bs n c' :
      ByteStream.write (outbound_stream (conn x)) data = Ok (bs, n) ->
      excerpt (p_stream me) (ztake n data) (bytes_written (outbound_stream (conn x))) ->
      write (conn x) data = Ok (c', n) -> act net x (set_conn x c')
  | act_end x c' :
      bytes_written (outbound_stream (conn x)) = len (p_stream me) ->
      end_input_stream (conn x) = Ok c' -> act net x (set_conn x c')
  | act_read x n bs data :
      0 <= n -> read (inbound_stream (conn x)) n = Ok (bs, data) ->
      act net x (mkSide (set_receiver (conn x) (set_stream_out (_receiver (conn x)) bs))
                   (sent x) (got x ++ data) (count x))
  | act_tick x ms c' :
      0 <= ms ->
      consecutive_retransmissions (TCPSender.tick (_sender (conn x)) ms) <= MAX_RETX_ATTEMPTS ->
      tick (conn x) ms = Ok c' -> act net x (set_conn x c')
  | act_send x :
      act net x (mkSide (set_queue (conn x) []) (sent x ++ _segments_out (conn x)) (got x) (count x))
  | act_deliver x sent_seg seg c' :
      sent_seg ∈ net -> conveyed sent_seg seg -> deliverable me peer (conn x) seg -> count x < 2 ^ 64 - 1 ->
      TCPConnection.segment_received (conn x) seg = Ok c' ->
      act net x (mkSide c' (sent x) (got x) (count x + 1)).
End acts.

Section conversation.
  Context {mem : OverRead} (a b : party).

Inductive conv_step : side * side -> side * side -> Prop :=
  | step_left x y x' : act a b (sent y) x x' -> conv_step (x, y) (x', y)
  | step_right x y y' : act b a (sent x) y y' -> conv_step (x, y) (x, y').

Definition conv_reach : side * side -> Prop := rtc conv_step (side_new a, side_new b).
End conversation.

(** ** The invariant of the two sides *)
Section invariant.
  Context {mem : OverRead} {total : TotalOverRead mem}.

(** Side [x] of party [me] against side [y] of [peer]. *)
Record side_inv (me peer : party) (x y : side) : Prop := {
  si_conn : conn_ok (p_stream me) (p_stream peer) (p_isn me) (p_isn peer) (count x) (got x) (conn x);
  si_count : 0 <= count x;
  si_sent : Forall (wire (p_stream me) (p_isn me) (p_isn peer) (top (p_stream peer) (_receiver (conn x))))
    (sent x);
  si_acked : _first_seqno (_window (_sender (conn x))) <= top (p_stream me) (_receiver (conn y))
}.

Lemma top_bounds s p k r x : rinv s p k r x -> 1 <= top s r <= len s + 2.
Proof.
  intros Hr. destruct (rinv_indices _ _ _ _ _ Hr) as (HL & HL2 & _).
  pose proof (fin_taken_range s r). unfold top. lia.
Qed.

(** The acknowledgment number of a segment of the peer. *)
Lemma ack_pos_wrap i m seg :
  0 <= m < 2 ^ 32 -> TCPHeader.ackno (header seg) = wrap m i -> ack_pos i seg = m.
Proof.
  intros Hm E. unfold ack_pos. rewrite E. unfold wrap; simpl. rewrite u32_u64. unfold u32.
  rewrite Zminus_mod_idemp_l. replace (m + raw_value i - raw_value i) with m by lia. by apply Z.mod_small.
Qed.

Lemma bare_length seg : bare seg -> length_in_sequence_space seg = 0.
Proof. intros (E1 & E2 & E3). unfold length_in_sequence_space. by rewrite E1, E2, E3. Qed.

(** What arrives from the peer is something the handler expects. *)
Lemma delivered_incoming me peer x y sent_seg seg :
  party_ok me -> party_ok peer -> side_inv me peer x y -> side_inv peer me y x -> sent_seg ∈ sent y ->
  conveyed sent_seg seg -> deliverable me peer (conn x) seg ->
  exists m, incoming (p_stream peer) (p_isn me) (p_isn peer) m (conn x) seg /\
    m <= top (p_stream me) (_receiver (conn y)).
Proof.
  intros Hme Hpeer Hx Hy Hseg Hcv [Hw He]. pose proof (si_sent _ _ _ _ Hy) as Hs.
  rewrite Forall_forall in Hs. destruct (wire_conveyed _ _ _ _ _ _ Hcv (Hs _ Hseg)) as [Hrst Hd Hfin Hack].
  destruct (cn_receiver _ _ _ _ _ _ _ (si_conn _ _ _ _ Hy)) as (ay & Hry & _).
  pose proof (top_bounds _ _ _ _ _ Hry) as Htop. pose proof (po_stream _ Hme) as Hlen.
  assert (Hm : ack (header seg) = true ->
    TCPHeader.ackno (header seg) = wrap (ack_pos (p_isn me) seg) (p_isn me) /\
    1 <= ack_pos (p_isn me) seg <= top (p_stream me) (_receiver (conn y)) /\
    0 <= win (header seg) < 2 ^ 16).
  { intros E. destruct (Hack E) as (m & Em & Hm & Hwin).
    by rewrite (ack_pos_wrap (p_isn me) m seg ltac:(lia) Em). }
  exists (if ack (header seg) then ack_pos (p_isn me) seg else 1).
  split; [|destruct (ack (header seg)); [by apply Hm|lia]]. constructor; [|done|done|].
  - destruct (decide (length_in_sequence_space seg = 0)) as [El|El].
    + left. destruct Hd as [Hd|(pos & Hp)]; [done|]. apply bare_of_length; [|done].
      destruct (ss_data _ _ _ _ Hp) as (Hd1 & Hd2 & _). pose proof (po_stream _ Hpeer).
      rewrite segment_length in El by lia. apply len_nil.
      destruct (syn (header seg)), (fin (header seg)); simpl in El; lia.
    + destruct Hd as [Hd|(pos & Hp)]; [by rewrite bare_length in El|]. right. exists pos.
      split; [done|]. pose proof (po_stream _ Hpeer).
      rewrite <- (sender_segment_pos _ _ _ _ Hp) at 1; [by apply Hw|lia].
  - intros E. destruct (Hm E) as (Em & Hm1 & Hwin). rewrite E. split; [done|].
    constructor; [lia|done|by apply He].
Qed.

Lemma side_new_inv me peer : party_ok me -> party_ok peer -> side_inv me peer (side_new me) (side_new peer).
Proof.
  intros [Hc Hs] [Hc' Hs']. constructor; [|done|done|].
  - constructor; [|exists (spec_new (recv_capacity (p_cfg me)))|done|done].
    + constructor; [|by constructor|].
      * apply (new_good _ (send_capacity (p_cfg me)) (rt_timeout (p_cfg me))). destruct Hc as [? ? ? ?].
        split_and!; try lia. by apply conn_isn_valid.
      * destruct Hc as [_ _ Hrt _]. constructor; simpl; [done|unfold MAX_RETX_ATTEMPTS; lia|lia].
    + split; [|done]. destruct Hc as [? ? ? ?]. apply rinv_new; lia.
  - unfold top, fin_taken. simpl. lia.
Qed.

(** What one side does keeps its invariant, and the peer's. *)
Lemma act_inv me peer x y x' :
  party_ok me -> party_ok peer -> side_inv me peer x y -> side_inv peer me y x ->
  act me peer (sent y) x x' -> side_inv me peer x' y /\ side_inv peer me y x'.
Proof.
  intros Hme Hpeer Hx Hy Hst. pose proof Hx as [Hc Hk Hs Hf]. pose proof Hy as [Hcy Hky Hsy Hfy].
  pose proof (po_stream _ Hme) as Hlen. pose proof (po_stream _ Hpeer) as Hlen'.
  assert (Hkept : forall c', kept (p_stream me) (p_stream peer) (p_isn me) (p_isn peer)
      (count x) (got x) (conn x) c' ->
    side_inv me peer (set_conn x c') y /\ side_inv peer me y (set_conn x c')).
  { intros c' (Hc' & Er & Ef). split; constructor; simpl; rewrite ?Er, ?Ef; done. }
  destruct Hst as [x c' E|x data bs n c' Ew Hx1 E|x c' Hl E|x n bs data Hn E|x ms c' Hms Hr E|x|x seg0 seg c' Hseg Hcv Hd Hb E].
  - apply Hkept. eapply returns_eq; [by apply connect_ok|done].
  - apply Hkept. eapply returns_eq in E; [|by eapply (write_ok _ _ _ _ _ _ _ _ _ _ Hc Ew)]. by destruct E.
  - apply Hkept. eapply returns_eq; [by apply end_input_stream_ok|done].
  - split; [constructor; [eapply read_ok; [exact Hc|exact Hn|exact E]|done..]|by constructor].
  - apply Hkept. eapply returns_eq; [eapply tick_ok; [exact Hc|exact Hms|exact Hr]|exact E].
  - split; [|by constructor]. constructor; simpl; [|done| |done].
    + destruct Hc. by constructor.
    + apply Forall_app. split; [done|apply Hc].
  - destruct (delivered_incoming me peer x y seg0 seg) as (m & Hi & Hm); [done..|].
    assert (Hvp : wi_valid (p_isn peer)) by (apply conn_isn_valid, Hpeer).
    pose proof (segment_received_ok _ _ _ _ Hlen Hvp _ _ _ _ _ Hc ltac:(lia) Hi) as Hr.
    destruct (returns_eq _ _ _ Hr E) as [Hc' Hf' Ht' _ _].
    split; constructor; simpl; try done; try lia.
    + eapply Forall_impl; [exact Hs|]. intros seg'. by apply wire_mono.
Qed.
End invariant.

(** ** What the invariant gives *)

(** What the owner of [x] wrote reaches the owner of [y]: it has read and can read
    a prefix of it, the end of the stream comes after all of it, and once [x] has
    everything acknowledged, [y] has everything. *)
Definition conveys (me : party) (x y : side) : Prop :=
  exists buffered,
    peek_output (inbound_stream (conn y)) (ByteStream.buffer_size (inbound_stream (conn y))) = Ok buffered /\
    got y ++ buffered `prefix_of` p_stream me /\
    (input_ended (inbound_stream (conn y)) = true -> got y ++ buffered = p_stream me) /\
    (TCPSender.state (_sender (conn x)) = TCPSender.FIN_ACKED ->
     got y ++ buffered = p_stream me /\ input_ended (inbound_stream (conn y)) = true).

(** The bytes at the receiver are those below the frontier. *)
Lemma rinv_output s p k r a :
  rinv s p k r a ->
  peek_output (TCPReceiver.stream_out r) (ByteStream.buffer_size (TCPReceiver.stream_out r)) =
    Ok (s_pending a) /\
  s_read a ++ s_pending a = ztake (left (_reassembler r)) s /\
  input_ended (TCPReceiver.stream_out r) = (TCPReceiver._ended r && (left (_reassembler r) =? len s)).
Proof.
  intros [Hi _ _ _ He _ _]. pose proof (inv_rep _ _ _ _ Hi) as R.
  unfold TCPReceiver.stream_out, StreamReassembler.stream_out.
  rewrite (buffer_size_eq _ _ R), (peek_rep _ _ _ R), ztake_all by lia. split; [done|].
  split; [apply (inv_history _ _ _ _ Hi)|]. unfold input_ended.
  rewrite (rep_ended _ _ R), (inv_ended _ _ _ _ Hi), He. unfold left.
  destruct (_eofed (_reassembler r)) eqn:E; [|done]. simpl. rewrite (inv_eof _ _ _ _ Hi) by done.
  by rewrite Z.eqb_sym.
Qed.

(** A sender that has everything acknowledged has sent its whole stream and the FIN. *)
Lemma fin_acked_first s i t :
  good s i t -> TCPSender.state t = TCPSender.FIN_ACKED -> _first_seqno (_window t) = len s + 2.
Proof.
  intros (_ & _ & _ & b & a & f & H) Hst. rewrite (state_phase _ _ _ _ _ H) in Hst. unfold phase in Hst.
  pose proof (sv_next _ _ _ _ _ H) as Hn. destruct (Z.eqb_spec (_next_seqno (_window t)) 0); [done|].
  destruct (Z.eqb_spec (_first_seqno (_window t)) 0); [done|].
  destruct f; [|done]. cbn [negb] in Hst. case_bool; [|done].
  destruct (sv_fin _ _ _ _ _ H eq_refl) as [He Hpend].
  pose proof (sv_ended _ _ _ _ _ H He) as Hh. unfold s_history in Hh. rewrite Hpend, app_nil_r in Hh.
  rewrite Hh in Hn. simpl in Hn. lia.
Qed.

Lemma side_conveys me peer x y :
  side_inv me peer x y -> side_inv peer me y x -> conveys me x y.
Proof.
  intros Hx Hy. destruct (cn_receiver _ _ _ _ _ _ _ (si_conn _ _ _ _ Hy)) as (a & Hr & _ & Hg).
  destruct (rinv_output _ _ _ _ _ Hr) as (Ep & Eh & Ee). destruct (rinv_indices _ _ _ _ _ Hr) as (HL & HL2 & _).
  unfold conveys, inbound_stream. exists (s_pending a). rewrite <- Hg, Eh, Ee. split; [done|].
  split; [exists (zdrop (left (_reassembler (_receiver (conn y)))) (p_stream me)); by rewrite ztake_zdrop|].
  split; [intros [_ E%Z.eqb_eq]%andb_true_iff; apply ztake_all; lia|].
  intros Hst. pose proof (si_acked _ _ _ _ Hx) as Ha.
  rewrite (fin_acked_first _ _ _ (so_good _ _ _ _ (cn_sender _ _ _ _ _ _ _ (si_conn _ _ _ _ Hx))) Hst) in Ha.
  unfold top, fin_taken in Ha. destruct (_ && _) eqn:E; [|lia]. split; [|done]. apply ztake_all.
  apply andb_true_iff in E as [_ E%Z.eqb_eq]. lia.
Qed.

Lemma conv_reach_inv {mem : OverRead} {total : TotalOverRead mem} a b x y :
  party_ok a -> party_ok b -> conv_reach a b (x, y) -> side_inv a b x y /\ side_inv b a y x.
Proof.
  intros Ha Hb Hr. unfold conv_reach in Hr.
  apply (rtc_ind_r (fun z => side_inv a b z.1 z.2 /\ side_inv b a z.2 z.1)) in Hr; [done|..].
  - split; by apply side_new_inv.
  - intros z z' _ Hst [Hx Hy]. destruct Hst as [x1 y1 x2 Hact|x1 y1 y2 Hact]; simpl in *.
    + by eapply act_inv.
    + destruct (act_inv _ _ _ _ _ Hb Ha Hy Hx Hact). by split.
Qed.

(** The calls and segments that a side of a conversation takes. *)
Definition unhindered {mem : OverRead} (me peer : party) (x y : side) : Prop :=
  (forall sent_seg seg, sent_seg ∈ sent y -> conveyed sent_seg seg ->
     deliverable me peer (conn x) seg -> count x < 2 ^ 64 - 1 ->
     exists c', TCPConnection.segment_received (conn x) seg = Ok c') /\
  (exists c', connect (conn x) = Ok c') /\
  (forall data, excerpt (p_stream me) data (bytes_written (outbound_stream (conn x))) ->
     exists c', write (conn x) data = Ok (c',
       if input_ended (outbound_stream (conn x)) then 0
       else Z.min (len data) (remaining_outbound_capacity (conn x)))) /\
  (bytes_written (outbound_stream (conn x)) = len (p_stream me) ->
     exists c', end_input_stream (conn x) = Ok c') /\
  (forall n, 0 <= n -> exists r, read (inbound_stream (conn x)) n = Ok r) /\
  (forall ms, 0 <= ms ->
     consecutive_retransmissions (TCPSender.tick (_sender (conn x)) ms) <= MAX_RETX_ATTEMPTS ->
     exists c', tick (conn x) ms = Ok c').

Lemma side_unhindered {mem : OverRead} {total : TotalOverRead mem} me peer x y :
  party_ok me -> party_ok peer -> side_inv me peer x y -> side_inv peer me y x ->
  unhindered me peer x y.
Proof.
  intros Ha Hb Hx Hy. pose proof (si_conn _ _ _ _ Hx) as Hc. split_and!.
  - intros seg0 seg Hseg Hcv Hd Hk. destruct (delivered_incoming me peer x y seg0 seg) as (m & Hi & _); [done..|].
    destruct (segment_received_ok _ _ _ _ (po_stream _ Ha) (conn_isn_valid _ _ (po_cfg _ Hb)) m _ _ _ seg Hc)
       as (c' & E & _); [split; [apply Hx|done]|done|]. by exists c'.
  - destruct (connect_ok _ _ _ _ _ _ _ Hc) as (c' & E & _). by exists c'.
  - intros data Hd.
    destruct (cn_sender _ _ _ _ _ _ _ Hc) as [(_ & _ & _ & st & ? & ? & H) _ _].
    pose proof (sv_stream _ _ _ _ _ H) as R. destruct (write_rep _ _ data R) as (bs & E & _).
    destruct (write_ok _ _ _ _ _ _ _ _ _ _ Hc E) as ([c' n] & Ec & _ & En);
      [by apply excerpt_ztake|].
    simpl in En. exists c'. rewrite Ec, En.
    unfold spec_accepted, remaining_outbound_capacity, outbound_stream, input_ended, stream_in.
    by rewrite (remaining_capacity_eq _ _ R), <- (rep_ended _ _ R).
  - intros E. destruct (end_input_stream_ok _ _ _ _ _ _ _ Hc E) as (c' & E' & _). by exists c'.
  - intros n Hn. destruct (read_returns _ _ _ _ _ _ _ n Hc Hn) as (r & E & _). by exists r.
  - intros ms Hms Hcr. destruct (tick_ok _ _ _ _ _ _ _ _ Hc Hms Hcr) as (c' & E & _). by exists c'.
Qed.

(** ** Properties *)

(** C1. Reliable delivery in both directions: two connections that talk over a
    network that loses, repeats and reorders their segments and fills in ports and
    checksums, with any calls of the two applications in between, hand each
    application a prefix of what the other one wrote, the end of the stream only
    after all of it; and when a side counts its FIN as acknowledged, the other
    side has every byte and the end of the stream.  [deliverable] restricts the
    network: a segment is delivered only inside the window, an empty FIN only when
    everything before it has been assembled (else see [conversation_early_fin]), and
    an acknowledgment only when it does not take back window; streams are shorter
    than 2^31 - 2, ticks stop short of giving up, and the read past the end of
    [_count] returns some word. *)
Theorem conversation {mem : OverRead} {total : TotalOverRead mem} a b x y :
  party_ok a -> party_ok b -> conv_reach a b (x, y) -> conveys a x y /\ conveys b y x.
Proof.
  intros Ha Hb Hr. destruct (conv_reach_inv _ _ _ _ Ha Hb Hr) as [Hx Hy].
  split; by eapply side_conveys.
Qed.

(** C2. Nothing in such a conversation throws or is undefined: in every reachable
    state each side takes any segment that is [deliverable], and its owner can connect,
    write the next bytes of its stream (as many as there is room for are taken) and end
    it, read, and let time pass short of giving up.  The one read that is undefined
    in the source, past the end of [_count] ([reassembler_over_read_iff]), is taken to
    return some word ([TotalOverRead]). *)
Theorem conversation_total {mem : OverRead} {total : TotalOverRead mem} a b x y :
  party_ok a -> party_ok b -> conv_reach a b (x, y) -> unhindered a b x y /\ unhindered b a y x.
Proof.
  intros Ha Hb Hr. destruct (conv_reach_inv _ _ _ _ Ha Hb Hr) as [Hx Hy].
  split; by apply side_unhindered.
Qed.

(** ** A small conversation

    Alice connects and writes three bytes, Bob answers the SYN, takes the bytes
    and his application reads them. *)
Definition alice : party := mkParty hi (mkTCPConfig 1000 16 16 (Some (mkWrappingInt32 5))) 0.
Definition bob : party := mkParty [] (mkTCPConfig 1000 16 16 (Some (mkWrappingInt32 100))) 0.

Definition or_else (c : TCPConnection) (o : outcome TCPConnection) : TCPConnection :=
  match o with Ok c' => c' | _ => c end.
Definition say_send (x : side) : side :=
  mkSide (set_queue (conn x) []) (sent x ++ _segments_out (conn x)) (got x) (count x).
Definition say_deliver (x : side) (seg : TCPSegment) : side :=
  mkSide (or_else (conn x) (TCPConnection.segment_received (mem := word_over_read 0) (conn x) seg))
    (sent x) (got x) (count x + 1).
Definition say_tick (x : side) (ms : Z) : side := set_conn x (or_else (conn x) (tick (conn x) ms)).
Definition say_segment (x : side) (n : nat) : TCPSegment := nth n (sent x) TCPSegment_default.

Definition alice0 : side := side_new alice.
Definition bob0 : side := side_new bob.
Definition alice1 : side :=
  set_conn alice0 (match write (conn alice0) hi with Ok (c, _) => c | _ => conn alice0 end).
Definition alice2 : side := Eval vm_compute in say_send alice1.
Definition bob1 : side := Eval vm_compute in say_send (say_deliver bob0 (say_segment alice2 0)).
Definition alice3 : side := Eval vm_compute in say_tick (say_deliver alice2 (say_segment bob1 0)) 0.
Definition alice4 : side := Eval vm_compute in say_send alice3.
Definition bob2 : side := Eval vm_compute in say_deliver bob1 (say_segment alice4 2).
Definition bob3 : side := Eval vm_compute in
  match read (inbound_stream (conn bob2)) 3 with
  | Ok (bs, data) =>
      mkSide (set_receiver (conn bob2) (set_stream_out (_receiver (conn bob2)) bs)) (sent bob2)
        (got bob2 ++ data) (count bob2)
  | _ => bob2
  end.

Ltac say_deliverable :=
  constructor;
  [ intros _; constructor;
    [ (left; vm_compute; reflexivity) || (right; split; vm_compute; [congruence | left; congruence])
    | vm_compute; congruence
    | intros E; vm_compute in E; first [discriminate | right; vm_compute; reflexivity] ]
  | intros E; cbv zeta; vm_compute in E; vm_compute; congruence ].

Lemma small_reach : conv_reach (mem := word_over_read 0) alice bob (alice4, bob3).
Proof.
  pose (bob1' := say_deliver bob0 (say_segment alice2 0)).
  pose (alice3' := say_deliver alice2 (say_segment bob1 0)).
  eapply (rtc_l _ _ (alice1, bob0)); [apply step_left|].
  { eapply (act_write alice bob _ alice0 hi _ 3); [vm_compute; reflexivity| |vm_compute; reflexivity].
    split_and!; vm_compute; congruence. }
  eapply (rtc_l _ _ (alice2, bob0)); [apply step_left, (act_send alice bob)|].
  eapply (rtc_l _ _ (alice2, bob1')); [apply step_right|].
  { apply (act_deliver bob alice _ bob0 (say_segment alice2 0) (say_segment alice2 0)); [by left|apply conveyed_refl|say_deliverable|done|].
    vm_compute. reflexivity. }
  eapply (rtc_l _ _ (alice2, bob1)); [apply step_right, (act_send bob alice _ bob1')|].
  eapply (rtc_l _ _ (alice3', bob1)); [apply step_left|].
  { apply (act_deliver alice bob _ alice2 (say_segment bob1 0) (say_segment bob1 0)); [by left|apply conveyed_refl|say_deliverable|done|].
    vm_compute. reflexivity. }
  eapply (rtc_l _ _ (alice3, bob1)); [apply step_left|].
  { apply (act_tick alice bob _ alice3' 0); [lia|vm_compute; congruence|vm_compute; reflexivity]. }
  eapply (rtc_l _ _ (alice4, bob1)); [apply step_left, (act_send alice bob _ alice3)|].
  eapply (rtc_l _ _ (alice4, bob2)); [apply step_right|].
  { apply (act_deliver bob alice _ bob1 (say_segment alice4 2) (say_segment alice4 2));
      [do 2 right; by left|apply conveyed_refl|say_deliverable|done|]. vm_compute. reflexivity. }
  eapply (rtc_l _ _ (alice4, bob3)); [apply step_right|apply rtc_refl].
  eapply (act_read bob alice _ bob2 3); [lia|vm_compute; reflexivity].
Qed.

Lemma party_ok_small data n : len data <= 100 -> 0 <= n < 2 ^ 32 ->
  party_ok (mkParty data (mkTCPConfig 1000 16 16 (Some (mkWrappingInt32 n))) 0).
Proof.
  intros Hd Hn. constructor; [|simpl; lia]. constructor; simpl; [lia..|]. by intros ? [= <-].
Qed.

Lemma alice_ok : party_ok alice.
Proof. apply party_ok_small; vm_compute; split || idtac; congruence. Qed.
Lemma bob_ok : party_ok bob.
Proof. apply party_ok_small; vm_compute; split || idtac; congruence. Qed.

Lemma conversation_witness : conveys alice alice4 bob3 /\ conveys bob bob3 alice4.
Proof.
  apply (conversation (mem := word_over_read 0) alice bob alice4 bob3);
    [apply alice_ok | apply bob_ok | apply small_reach].
Defined.

Lemma conversation_total_witness :
  unhindered (mem := word_over_read 0) alice bob alice4 bob3 /\
  unhindered (mem := word_over_read 0) bob alice bob3 alice4.
Proof.
  apply (conversation_total (mem := word_over_read 0) alice bob alice4 bob3);
    [apply alice_ok | apply bob_ok | apply small_reach].
Defined.

(** What [deliverable] leaves out: Alice's FIN has no payload, and here it reaches
    the established Bob before her three bytes.  His application sees the end of the
    stream without having read anything, and in [CLOSE_WAIT] the bytes are ignored
    when they come. *)
Definition alice5 : side :=
  Eval vm_compute in say_send (set_conn alice4 (or_else (conn alice4) (end_input_stream (conn alice4)))).
Definition bob_open : side := Eval vm_compute in say_deliver bob1 (say_segment alice5 1).

Example conversation_early_fin :
  exists c1 c2, fin (header (say_segment alice5 3)) = true /\ str (payload (say_segment alice5 2)) = hi /\
    state (conn bob_open) = official ESTABLISHED /\
    TCPConnection.segment_received (mem := word_over_read 0) (conn bob_open) (say_segment alice5 3) = Ok c1 /\
    state c1 = official CLOSE_WAIT /\
    eof (inbound_stream c1) = true /\ bytes_read (inbound_stream c1) = 0 /\
    TCPConnection.segment_received (mem := word_over_read 0) c1 (say_segment alice5 2) = Ok c2 /\
    bytes_written (inbound_stream c2) = 0 /\ _segments_out c2 = _segments_out c1.
Proof. eexists _, _. cbv zeta. repeat (split; [vm_compute; reflexivity|]). vm_compute. reflexivity. Qed.
