(* ===== verification/SessionHalves.v ===== *)
(** * The two halves of a connection at rest

    A sender that has sent everything it was given, and a receiver whose data has
    no gap: what each call and each segment makes of them.  A session moves
    through such points. *)

From S2P Require Import Prelude WrappingIntegers ByteStream StreamReassembler Buffer TCPHeader.
From S2P Require Import TCPSegment SegmentSpec TCPConfig TCPReceiver TCPSendingWindow TCPSender TCPState.
From S2P Require Import TCPConnection EndToEnd ConnectionInvariant.

(** ** The sending half

    [f] is acknowledged, everything up to [n] is sent, the peer's window is [w],
    nothing waits in the stream, and when the stream has ended the FIN is sent. *)
Record snd_at (s : list byte) (i : WrappingInt32) (t : TCPSender) (f n w : Z) (e : bool) : Prop := {
  sa_inv : exists b a, sinv s t b a e /\ s_pending b = [] /\ s_ended b = e;
  sa_first : _first_seqno (_window t) = f;
  sa_next : _next_seqno (_window t) = n;
  sa_size : _window_size (_window t) = w;
  sa_isn : _isn (_window t) = i;
  sa_started : 1 <= n;
  sa_room : 1 <= ByteStream._capacity (_stream t)
}.

Lemma wrap_inj m n i : 0 <= m < 2 ^ 32 -> 0 <= n < 2 ^ 32 -> wrap m i = wrap n i -> m = n.
Proof.
  intros Hm Hn E. injection E as E. rewrite !u32_u64 in E. unfold u32 in E.
  rewrite <- (Z.mod_small m (2 ^ 32)), <- (Z.mod_small n (2 ^ 32)) by done.
  replace m with (m + raw_value i - raw_value i) by lia. replace n with (n + raw_value i - raw_value i) by lia.
  by rewrite (Zminus_mod (m + _)), (Zminus_mod (n + _)), E.
Qed.

(** The capacity of the outbound stream never changes. *)
Definition outbound_capacity (t : TCPSender) : Z := ByteStream._capacity (_stream t).

Lemma read_capacity bs n :
  sat (read bs n) (fun x => ByteStream._capacity x.1 = ByteStream._capacity bs).
Proof.
  unfold read. apply (sat_bind _ _ (fun _ => True)); [done|]. intros data _. by apply sat_ok.
Qed.

Lemma fill_window_capacity t : sat (fill_window t) (fun t' => outbound_capacity t' = outbound_capacity t).
Proof.
  set (P := fun t' => outbound_capacity t' = outbound_capacity t).
  assert (Hadd : forall t1 seg, P t1 -> sat (add_and_send t1 seg) P).
  { intros t1 seg H1. unfold add_and_send, add_segment. case_bool; [done|]. by apply sat_ok. }
  unfold fill_window. apply (sat_bind _ _ P).
  - case_bool; [by apply Hadd|by apply sat_ok].
  - intros t1 H1. apply (while_sat _ P); [|done]. clear t1 H1. intros t1 H1. unfold fill_body.
    case_bool; [|by apply sat_ok]. case_bool; [by apply sat_ok|].
    eapply sat_bind; [apply read_capacity|]. intros [bs data] Hbs. cbv zeta.
    assert (H2 : P (set_stream t1 bs)) by (unfold P, outbound_capacity in *; simpl in *; congruence).
    case_bool; [|by apply sat_ok]. apply (sat_bind _ _ P); [by apply Hadd|]. intros. by apply sat_ok.
Qed.

Lemma ack_received_capacity t a w :
  sat (TCPSender.ack_received t a w) (fun t' => outbound_capacity t' = outbound_capacity t).
Proof.
  unfold TCPSender.ack_received. apply (sat_bind _ _ (fun _ => True)); [done|]. intros [ret win] _. cbv zeta.
  eapply sat_mono; [apply fill_window_capacity|]. intros t' ->. by destruct ret.
Qed.

Section sender.
  Context (s : list byte) (i : WrappingInt32).

(** Empty segments come and segments go without moving it. *)
Lemma snd_at_queue t f n w e q :
  snd_at s i t f n w e ->
  Forall (fun seg => length_in_sequence_space seg = 0 \/
    sent_segment s (_isn (_window t)) (_next_seqno (_window t)) seg) q ->
  snd_at s i (set_segments_out t q) f n w e.
Proof.
  intros [(b & a & H & Hp & He) Hf Hn Hw Hi H1 Hr] Hq. constructor; try done.
  exists b, a. split; [|done]. destruct H. by constructor.
Qed.

Lemma snd_at_push t f n w e seg :
  snd_at s i t f n w e -> length_in_sequence_space seg = 0 ->
  snd_at s i (set_segments_out t (TCPSender._segments_out t ++ [seg])) f n w e.
Proof.
  intros Ha Hl. apply snd_at_queue; [done|]. destruct (sa_inv _ _ _ _ _ _ _ Ha) as (b & a & H & _).
  apply Forall_app. split; [apply (sv_out _ _ _ _ _ H)|]. apply Forall_singleton. by left.
Qed.

(** A sender without work that has sent at least as much as before is where it was. *)
Lemma sinv_stays t b a e t' b' a' f' :
  sinv s t b a e -> s_pending b = [] -> s_ended b = e -> 1 <= _next_seqno (_window t) ->
  sinv s t' b' a' f' -> same_content b b' -> _next_seqno (_window t) <= _next_seqno (_window t') ->
  _isn (_window t') = i -> 1 <= outbound_capacity t' ->
  snd_at s i t' (_first_seqno (_window t')) (_next_seqno (_window t)) (_window_size (_window t')) e.
Proof.
  intros H Hp He H1 H' (Eh & Ee & _) Hge Hi Hcap. pose proof (sv_next _ _ _ _ _ H) as Hn.
  pose proof (sv_next _ _ _ _ _ H') as Hn'. pose proof (sv_fin _ _ _ _ _ H') as Hf'.
  rewrite (proj2 (Z.eqb_neq _ _)) in Hn by lia. rewrite (proj2 (Z.eqb_neq _ _)) in Hn' by lia.
  unfold s_history in Eh. rewrite Hp, app_nil_r in Eh. apply (f_equal length) in Eh. rewrite length_app in Eh.
  assert (f' = e /\ s_pending b' = [] /\ len (s_read b') = len (s_read b)) as (-> & Hp' & Hl).
  { destruct f'; cbn [Z.b2z] in *.
    - destruct (Hf' eq_refl) as [E1 E2]. rewrite E2 in Eh. simpl in Eh. split_and!; [congruence|done|lia].
    - destruct e; cbn [Z.b2z] in *; [lia|]. split_and!; [done|apply len_nil; lia|lia]. }
  constructor; [exists b', a'; split_and!; [done..|congruence]|done|lia|done|done|done|done].
Qed.

Lemma snd_at_fill t f n w e :
  snd_at s i t f n w e ->
  returns (fill_window t) (fun t' => snd_at s i t' f n w e /\ grown t t').
Proof.
  intros [(b & a & H & Hp & He) Hf Hn Hw Hi H1 Hr]. subst f n w.
  destruct (fill_window_inv s t b a e H) as (t' & b' & f' & E & H' & Hc & Hg & _).
  exists t'. split; [done|]. split; [|done]. rewrite <- (gr_first _ _ Hg), <- (gr_size _ _ Hg).
  eapply (sinv_stays t b a e); try done; [apply Hg|by rewrite (gr_isn _ _ Hg)|].
  by rewrite (fill_window_capacity _ _ E).
Qed.

(** One more thing to send: a byte, or the FIN. *)
Lemma snd_at_sends t b a n w (e : bool) :
  sinv s t b a false -> _isn (_window t) = i -> _first_seqno (_window t) = n -> _next_seqno (_window t) = n ->
  _window_size (_window t) = w -> 1 <= n -> 1 <= outbound_capacity t ->
  (if e then s_pending b = [] /\ s_ended b = true else len (s_pending b) = 1 /\ s_ended b = false) ->
  returns (fill_window t) (fun t' => snd_at s i t' n (n + 1) w e /\ grown t t' /\
    exists seg, TCPSender._segments_out t' = TCPSender._segments_out t ++ [seg] /\
      sender_segment s i n seg /\ length_in_sequence_space seg = 1).
Proof.
  intros H Hi Hf Hn Hsz H1 Hcap Hw. destruct (fill_window_inv s t b a false H) as (t' & b' & f' & E & H' & Hc & Hg & Hx & _).
  exists t'. split; [done|].
  pose proof (sv_next _ _ _ _ _ H) as Hn0. pose proof (sv_next _ _ _ _ _ H') as Hn'.
  pose proof (gr_next _ _ Hg) as Hge. pose proof (sv_fin _ _ _ _ _ H') as Hf'.
  rewrite (proj2 (Z.eqb_neq _ _)) in Hn0 by lia. rewrite (proj2 (Z.eqb_neq _ _)) in Hn' by lia. cbn [Z.b2z] in Hn0.
  destruct (sinv_space _ _ _ _ _ H') as [Esp _]. pose proof (sv_wsize _ _ _ _ _ H') as Hws.
  destruct Hc as (Eh & Ee & _). unfold s_history in Eh. apply (f_equal length) in Eh. rewrite !length_app in Eh.
  assert (Hall : f' = e /\ s_pending b' = [] /\ s_ended b' = e /\ _next_seqno (_window t') = n + 1).
  { pose proof (gr_first _ _ Hg). destruct e; destruct Hw as [Hw1 Hw2]; [rewrite Hw1 in Eh; simpl in Eh|];
      rewrite Hw2 in Ee; unfold exhausted in Hx; rewrite Ee in Hf', Hx.
    - destruct f'; cbn [Z.b2z] in *; [destruct (Hf' eq_refl) as [_ E2]; rewrite E2 in Eh; simpl in Eh;
        split_and!; [done..|lia]|]. exfalso. destruct Hx as [Hx|[_ Hx]]; [lia|by specialize (Hx eq_refl)].
    - destruct f'; cbn [Z.b2z] in *; [by destruct (Hf' eq_refl)|].
      assert (len (s_pending b') = 0) as Ep.
      { destruct Hx as [Hx|[-> _]]; [|done]. lia. }
      split_and!; [done|by apply len_nil|done|lia]. }
  destruct Hall as (-> & Hp' & He' & Hnx).
  split; [constructor; [by exists b', a|by rewrite (gr_first _ _ Hg)|done|by rewrite (gr_size _ _ Hg)|by rewrite (gr_isn _ _ Hg)|lia|]|].
  { change (1 <= outbound_capacity t'). by rewrite (fill_window_capacity _ _ E). } split; [done|].
  destruct (gr_buffer _ _ Hg) as (new & Eo & Eb). pose proof (sv_window _ _ _ _ _ H) as Hwin.
  rewrite (proj2 (winv_empty _ _ Hwin)) in Eb by lia. simpl in Eb.
  assert (a = n) as ->.
  { pose proof (wn_chain _ _ Hwin) as Hch. rewrite (proj2 (winv_empty _ _ Hwin)) in Hch by lia. simpl in Hch. lia. }
  pose proof (wn_chain _ _ (sv_window _ _ _ _ _ H')) as Hch. rewrite Eb, Hnx, (gr_isn _ _ Hg), Hi in Hch.
  destruct new as [|seg rest]; [simpl in Hch; lia|]. cbn [fmap list_fmap chain segment] in Hch.
  destruct Hch as (Hseq & Hl & Hch). pose proof (chain_le _ _ _ _ Hch) as Hle.
  assert (rest = []) as ->.
  { destruct rest as [|x rest]; [done|]. cbn [fmap list_fmap chain segment] in Hch.
    destruct Hch as (_ & Hl2 & Hch). apply chain_le in Hch. lia. }
  simpl in Hch. exists seg. split; [done|]. split; [|lia].
  pose proof (sv_buffer _ _ _ _ _ H') as Hbuf. rewrite Eb in Hbuf. cbn [fmap list_fmap] in Hbuf.
  apply Forall_cons in Hbuf as [(_ & _ & pos & Hs & Hpn) _]. cbn [segment] in *.
  rewrite (gr_isn _ _ Hg), Hi in Hs. replace n with pos; [done|].
  pose proof (sv_bound _ _ _ _ _ H). pose proof (sinv_next_bound _ _ _ _ _ H').
  pose proof (ss_pos _ _ _ _ Hs). apply (wrap_inj pos n i); [lia|lia|].
  by rewrite <- (ss_seqno _ _ _ _ Hs).
Qed.

(** An acknowledgment of what was sent. *)
Lemma snd_at_ack t f n w e m win :
  len s + 2 < 2 ^ 31 -> snd_at s i t f n w e ->
  1 <= m -> f <= m <= n -> 0 <= win < 2 ^ 16 -> n <= m + Z.max win 1 ->
  returns (TCPSender.ack_received t (wrap m i) win) (fun t' => snd_at s i t' m n (Z.max win 1) e).
Proof.
  intros Hs [(b & a & H & Hp & He) Hf Hn Hw Hi H1 Hr] H1m Hm Hwin Hshrink. subst f n w.
  pose proof (sinv_next_bound _ _ _ _ _ H).
  assert (Hok : ack_ok t m win) by (constructor; unfold in_reach; lia).
  destruct (ack_received_window s t b a e m win H Hok)
    as (t' & b' & a' & f' & E & H' & Hc & _ & _ & (Ef & _ & _ & Ei) & Hge & Hws & _).
  rewrite Hi in E. exists t'. split; [done|]. rewrite <- (Hws Hm).
  replace m with (_first_seqno (_window t')) at 1; [eapply (sinv_stays t b a e); try done; [congruence|by rewrite (ack_received_capacity _ _ _ _ E)]|].
  rewrite Ef. case_bool; [done|]. apply andb_false_iff in Heqb0. rewrite Z.ltb_ge, Z.leb_gt in Heqb0. lia.
Qed.

(** Writing one byte, and ending the stream. *)
Lemma snd_at_write t n w x :
  snd_at s i t n n w false -> excerpt s [x] (n - 1) ->
  exists bs b a, ByteStream.write (_stream t) [x] = Ok (bs, 1) /\ bytes_written (_stream t) = n - 1 /\
    sinv s (set_stream t bs) b a false /\ len (s_pending b) = 1 /\ s_ended b = false /\
    1 <= outbound_capacity (set_stream t bs).
Proof.
  intros [(b & a & H & Hp & He) Hf Hn Hw Hi H1 Hr] Hx. pose proof (sv_stream _ _ _ _ _ H) as R.
  destruct (write_rep _ _ [x] R) as (bs & E & R').
  assert (Hacc : spec_accepted b [x] = 1).
  { unfold spec_accepted. rewrite He, Hp, <- (rep_capacity _ _ R). simpl. lia. }
  rewrite Hacc in E. pose proof (sv_next _ _ _ _ _ H) as Hnx. rewrite (proj2 (Z.eqb_neq _ _)) in Hnx by lia.
  assert (Hbw : bytes_written (_stream t) = n - 1).
  { unfold bytes_written. rewrite (rep_bytes_written _ _ R). unfold s_history. rewrite Hp, app_nil_r.
    pose proof (sinv_next_bound _ _ _ _ _ H). pose proof (sv_bound _ _ _ _ _ H). simpl in Hnx. rewrite u64_small; lia. }
  exists bs, (spec_write b [x]), a. split; [done|]. split; [done|]. split.
  - eapply write_inv; [done|exact E|]. by rewrite Hbw.
  - simpl. rewrite Hacc, Hp. split; [done|]. split; [done|]. unfold outbound_capacity. simpl.
    rewrite (rep_capacity _ _ R'). simpl. by rewrite <- (rep_capacity _ _ R).
Qed.

Lemma snd_at_end t n w :
  snd_at s i t n n w false -> n = len s + 1 ->
  bytes_written (_stream t) = len s /\
  exists b a, sinv s (set_stream t (end_input (_stream t))) b a false /\ s_pending b = [] /\ s_ended b = true.
Proof.
  intros [(b & a & H & Hp & He) Hf Hn Hw Hi H1 Hr] Hl. pose proof (sv_stream _ _ _ _ _ H) as R.
  pose proof (sv_next _ _ _ _ _ H) as Hnx. rewrite (proj2 (Z.eqb_neq _ _)) in Hnx by lia. simpl in Hnx.
  assert (Hbw : bytes_written (_stream t) = len s).
  { unfold bytes_written. rewrite (rep_bytes_written _ _ R). unfold s_history. rewrite Hp, app_nil_r.
    pose proof (sv_bound _ _ _ _ _ H). rewrite u64_small; lia. }
  split; [done|]. exists (spec_end b), a. split; [by apply end_inv|done].
Qed.
End sender.

(** ** The receiving half

    Everything below [c] has been received and nothing beyond; [u] bytes wait for
    the reader, and [e] says whether the FIN is among what was received. *)
Record rcv_at (s : list byte) (r : TCPReceiver) (c u : Z) (e : bool) : Prop := {
  ra_set : TCPReceiver._is_set r = true;
  ra_checkpoint : TCPReceiver._checkpoint r = c;
  ra_left : left (_reassembler r) + 1 + Z.b2z e = c;
  ra_ended : TCPReceiver._ended r = e;
  ra_last : e = true -> left (_reassembler r) = len s;
  ra_unread : ByteStream.buffer_size (TCPReceiver.stream_out r) = u;
  ra_clear : forall j, covered (_reassembler r) j -> j < left (_reassembler r)
}.

Section receiver.
  Context {mem : OverRead} {total : TotalOverRead mem} (s : list byte) (p : WrappingInt32) (Hp : wi_valid p).

Lemma receive_capacity r seg :
  sat (TCPReceiver.segment_received r seg) (fun r' => TCPReceiver._capacity r' = TCPReceiver._capacity r).
Proof.
  unfold TCPReceiver.segment_received. set (r1 := if syn (header seg) then _ else r).
  assert (E1 : TCPReceiver._capacity r1 = TCPReceiver._capacity r) by (unfold r1; by case_bool).
  case_bool; [by apply sat_ok|]. cbv zeta. set (r2 := if fin (header seg) then _ else r1).
  assert (E2 : TCPReceiver._capacity r2 = TCPReceiver._capacity r) by (unfold r2; by case_bool).
  apply (sat_bind _ _ (fun _ => True)); [done|]. intros ra _. apply sat_ok. by rewrite update_checkpoint_frame.
Qed.

(** What is stored after a segment was stored before or came with it. *)
Lemma receive_covered k r a pos seg r' :
  rinv s p k r a -> 0 <= k < 2 ^ 64 - 1 -> sender_segment s p pos seg -> acceptable s pos r seg ->
  TCPReceiver._is_set r || syn (header seg) = true -> TCPReceiver.segment_received r seg = Ok r' ->
  forall j, covered (_reassembler r') j ->
    covered (_reassembler r) j \/ j < data_index pos + len (str (payload seg)).
Proof.
  intros Hr Hk Hs Ha Hset E. pose proof Hs as [Hp0 _ _ Hd Hfin]. pose proof Ha as [_ Hw Hf].
  pose proof (rinv_bytes_read _ _ _ _ _ Hr) as Hbr.
  assert (Hv : valid_push s (_reassembler r) (str (payload seg)) (data_index pos) (fin (header seg))).
  { split; [done|]. intros Ef. split; [by apply Hfin|].
    destruct (Hf Ef) as [Hne|Hall]; [left|by right]. split; [done|].
    rewrite <- (Hfin Ef), <- (ri_capacity _ _ _ _ _ Hr). exact Hw. }
  destruct (segment_push _ _ _ _ _ _ _ Hr Hk Hs Ha) as (ra & _ & Era & _).
  destruct (push_inv s k _ a _ _ _ (ri_reassembler _ _ _ _ _ Hr) Hk Hv) as (ra' & a' & E' & _ & _ & _ & _ & _ & _ & Hcov).
  assert (ra' = ra) as ->.
  { rewrite Era in E'. case_bool; [congruence|]. destruct (over_read _); cbn in E'; congruence. }
  rewrite (segment_received_eq _ _ _ _ _ _ _ _ Hr Hp Hs (ac_reach _ _ _ _ Ha) Hset Era) in E.
  injection E as <-. rewrite (update_checkpoint_frame _). cbn [set_checkpoint _reassembler].
  intros j Hj. apply Hcov in Hj as [?|[? _]]; [by left|right; lia].
Qed.

(** The segment that is expected, when nothing beyond it is stored. *)
Lemma receive_exact k r a pos seg :
  rinv s p k r a -> 0 <= k < 2 ^ 64 - 1 -> sender_segment s p pos seg -> acceptable s pos r seg ->
  TCPReceiver._is_set r || syn (header seg) = true ->
  pos = 0 \/ pos = TCPReceiver._checkpoint r ->
  data_index pos = left (_reassembler r) -> (forall j, covered (_reassembler r) j -> j < left (_reassembler r)) ->
  returns (TCPReceiver.segment_received r seg) (fun r' =>
    TCPReceiver._is_set r' = true /\ TCPReceiver._ended r' = TCPReceiver._ended r || fin (header seg) /\
    left (_reassembler r') = left (_reassembler r) + len (str (payload seg)) /\
    (forall j, covered (_reassembler r') j -> j < left (_reassembler r')) /\
    pos + length_in_sequence_space seg <= TCPReceiver._checkpoint r' <=
      left (_reassembler r') + 1 + fin_taken s r' /\
    ByteStream.buffer_size (TCPReceiver.stream_out r') =
      ByteStream.buffer_size (TCPReceiver.stream_out r) + len (str (payload seg))).
Proof.
  intros Hr Hk Hs Ha Hset Hpos Hdi Hclear.
  destruct (receive_inv _ _ _ _ _ _ _ Hr Hk Hp Hs Ha Hset)
    as (r' & a' & E & Hr' & E1 & _ & _ & Hset' & He & Hl & Hck).
  exists r'. split; [done|]. pose proof (receive_covered _ _ _ _ _ _ Hr Hk Hs Ha Hset E) as Hcov.
  assert (Hck' : left (_reassembler r') + 1 <= TCPReceiver._checkpoint r' /\
    pos + length_in_sequence_space seg <= TCPReceiver._checkpoint r').
  { destruct Hpos as [->| ->]; [done|]. by rewrite Z.eqb_refl, orb_true_r in Hck. }
  pose proof (ri_acked _ _ _ _ _ Hr' Hset') as Hac.
  destruct (segment_push _ _ _ _ _ _ _ Hr Hk Hs Ha) as (ra & _ & Era & _ & _ & _ & _ & _ & _ & Hge).
  assert (Era' : _reassembler r' = ra).
  { rewrite (segment_received_eq _ _ _ _ _ _ _ _ Hr Hp Hs (ac_reach _ _ _ _ Ha) Hset Era) in E.
    injection E as <-. by rewrite (update_checkpoint_frame _). }
  rewrite <- Era' in Hge. specialize (Hge ltac:(lia)).
  assert (Hle : left (_reassembler r') <= left (_reassembler r) + len (str (payload seg))).
  { destruct (Z.le_gt_cases (left (_reassembler r')) (left (_reassembler r) + len (str (payload seg))))
      as [?|Hgt]; [done|exfalso].
    destruct (Hcov (left (_reassembler r) + len (str (payload seg)))) as [Hc|Hc]; [|apply Hclear in Hc; lia|lia].
    eapply frontier_covered; [apply Hr'|]. destruct (rinv_indices _ _ _ _ _ Hr) as (HL & _). unfold left in *. lia. }
  split; [done|]. split; [done|]. split; [lia|]. split.
  { intros j Hj. destruct (Hcov j Hj) as [Hc|Hc]; [apply Hclear in Hc|]; lia. }
  split; [lia|].
  pose proof (inv_rep _ _ _ _ (ri_reassembler _ _ _ _ _ Hr)) as R. pose proof (inv_rep _ _ _ _ (ri_reassembler _ _ _ _ _ Hr')) as R'.
  unfold TCPReceiver.stream_out, StreamReassembler.stream_out. rewrite (buffer_size_eq _ _ R), (buffer_size_eq _ _ R').
  pose proof (f_equal length (inv_history _ _ _ _ (ri_reassembler _ _ _ _ _ Hr))) as Hh.
  pose proof (f_equal length (inv_history _ _ _ _ (ri_reassembler _ _ _ _ _ Hr'))) as Hh'.
  unfold s_history in Hh, Hh'. rewrite length_app in Hh, Hh'. rewrite E1 in Hh'.
  destruct (rinv_indices _ _ _ _ _ Hr) as (HL & HL2 & _), (rinv_indices _ _ _ _ _ Hr') as (HL' & HL2' & _).
  unfold left in *.
  pose proof (len_ztake (_first_unassembled (_reassembler r)) s ltac:(lia)).
  pose proof (len_ztake (_first_unassembled (_reassembler r')) s ltac:(lia)). lia.
Qed.

(** The payload of a segment that takes one sequence number after the SYN. *)
Lemma single_segment pos seg :
  sender_segment s p pos seg -> len s < 2 ^ 62 -> length_in_sequence_space seg = 1 ->
  len (str (payload seg)) = Z.b2z (negb (pos =? 0) && negb (fin (header seg))) /\
  (pos = 0 -> fin (header seg) = false).
Proof.
  intros Hs Hl H1. destruct (ss_data _ _ _ _ Hs) as (Hd1 & Hd2 & _).
  rewrite segment_length, (ss_syn _ _ _ _ Hs) in H1 by lia.
  destruct (Z.eqb_spec pos 0), (fin (header seg)); simpl in *; split; (done || lia).
Qed.

Lemma rinv_unread k r a :
  rinv s p k r a ->
  bytes_read (TCPReceiver.stream_out r) + ByteStream.buffer_size (TCPReceiver.stream_out r) = left (_reassembler r) /\
  0 <= ByteStream.buffer_size (TCPReceiver.stream_out r) <= TCPReceiver._capacity r /\
  TCPReceiver._capacity r < 2 ^ 63.
Proof.
  intros Hr. rewrite (rinv_bytes_read _ _ _ _ _ Hr). pose proof (ri_reassembler _ _ _ _ _ Hr) as Hi.
  pose proof (inv_rep _ _ _ _ Hi) as R. unfold TCPReceiver.stream_out, StreamReassembler.stream_out.
  rewrite (buffer_size_eq _ _ R). pose proof (f_equal length (inv_history _ _ _ _ Hi)) as Hh.
  unfold s_history in Hh. rewrite length_app in Hh. destruct (rinv_indices _ _ _ _ _ Hr) as (HL & HL2 & _).
  unfold left in *. pose proof (len_ztake (_first_unassembled (_reassembler r)) s ltac:(lia)).
  pose proof (rep_fits _ _ R). pose proof (rep_bound _ _ R). rewrite (ri_capacity _ _ _ _ _ Hr).
  pose proof (inv_capacity _ _ _ _ Hi). lia.
Qed.

Lemma rinv_window k r a :
  rinv s p k r a ->
  TCPReceiver.window_size r = TCPReceiver._capacity r - ByteStream.buffer_size (TCPReceiver.stream_out r).
Proof.
  intros Hr. destruct (rinv_unread _ _ _ Hr) as (_ & Hu & Hc). pose proof (ri_capacity _ _ _ _ _ Hr).
  unfold TCPReceiver.window_size, capacity_value. rewrite u64_small; lia.
Qed.

Lemma rcv_at_acceptable k r a c u seg :
  rinv s p k r a -> rcv_at s r c u false -> sender_segment s p c seg -> length_in_sequence_space seg = 1 ->
  u + 1 <= TCPReceiver._capacity r -> acceptable s c r seg.
Proof.
  intros Hr [_ Hck Hl _ _ Hu _] Hs H1 Hcap. destruct (single_segment _ _ Hs (ri_bound _ _ _ _ _ Hr) H1) as [Hd _].
  destruct (rinv_unread _ _ _ Hr) as (Hbr & _). destruct (rinv_indices _ _ _ _ _ Hr) as (HL & HL2 & _).
  simpl in Hl. assert (Hdi : data_index c = left (_reassembler r)) by (unfold data_index; case_cmp; lia).
  constructor.
  - right. rewrite Hck. apply in_reach_refl.
  - rewrite Hdi, Hd. destruct (_ && _); simpl; lia.
  - intros Hf. right. pose proof (ss_fin _ _ _ _ Hs Hf). rewrite Hf, andb_false_r in Hd. simpl in Hd. lia.
Qed.

Lemma rcv_at_next k r a c u seg :
  rinv s p k r a -> 0 <= k < 2 ^ 64 - 1 -> rcv_at s r c u false ->
  sender_segment s p c seg -> length_in_sequence_space seg = 1 -> u + 1 <= TCPReceiver._capacity r ->
  returns (TCPReceiver.segment_received r seg)
    (fun r' => rcv_at s r' (c + 1) (if fin (header seg) then u else u + 1) (fin (header seg))).
Proof.
  intros Hr Hk Ha Hs H1 Hcap. pose proof (rcv_at_acceptable _ _ _ _ _ _ Hr Ha Hs H1 Hcap) as Hac.
  destruct (single_segment _ _ Hs (ri_bound _ _ _ _ _ Hr) H1) as [Hd _].
  destruct Ha as [Hset Hck Hl He _ Hu Hcl]. simpl in Hl. destruct (rinv_indices _ _ _ _ _ Hr) as (HL & HL2 & _).
  assert (Hdi : data_index c = left (_reassembler r)) by (unfold data_index; case_cmp; lia).
  rewrite (proj2 (Z.eqb_neq c 0)) in Hd by lia. cbn [negb andb] in Hd.
  eapply returns_mono; [eapply (receive_exact k r a c seg); try done; [by rewrite Hset|by right]|].
  intros r' (E1 & E2 & E3 & E4 & E5 & E6). rewrite He in E2. cbn [orb] in E2. unfold fin_taken in E5. rewrite E2 in E5.
  pose proof (ss_fin _ _ _ _ Hs) as Hf. rewrite H1 in E5.
  destruct (fin (header seg)); cbn [negb Z.b2z andb] in *.
  - specialize (Hf eq_refl). rewrite Hd in *. destruct (Z.eqb_spec (left (_reassembler r')) (len s)); [|lia].
    constructor; simpl; (done || lia).
  - constructor; simpl; (done || lia).
Qed.

(** The SYN opens a new receiver. *)
Lemma rcv_at_syn k capacity a seg :
  rinv s p k (TCPReceiver.new capacity) a -> 0 <= k < 2 ^ 64 - 1 ->
  sender_segment s p 0 seg -> length_in_sequence_space seg = 1 ->
  returns (TCPReceiver.segment_received (TCPReceiver.new capacity) seg) (fun r' => rcv_at s r' 1 0 false).
Proof.
  intros Hr Hk Hs H1. destruct (single_segment _ _ Hs (ri_bound _ _ _ _ _ Hr) H1) as [Hd Hf].
  specialize (Hf eq_refl). simpl in Hd. destruct (rinv_unread _ _ _ Hr) as (Hbr & Hu & _).
  assert (Hac : acceptable s 0 (TCPReceiver.new capacity) seg).
  { constructor; [by left| |by rewrite Hf]. rewrite Hd. change (data_index 0) with 0. simpl. simpl in Hu. lia. }
  eapply returns_mono; [eapply (receive_exact k _ a 0 seg); try done|].
  - by rewrite (ss_syn _ _ _ _ Hs).
  - by left.
  - intros j [Hj (n & Hn & Hn0)]. cbn in Hn. apply lookup_replicate in Hn as [-> _]. lia.
  - intros r' (E1 & E2 & E3 & E4 & E5 & E6). rewrite Hf, orb_false_r in E2. unfold fin_taken in E5.
    change (TCPReceiver._ended (TCPReceiver.new capacity)) with false in E2.
    rewrite E2, H1 in E5. rewrite Hd in E3, E6. cbn [andb] in E5.
    rewrite (rinv_bytes_read _ _ _ _ _ Hr) in Hbr.
    change (left (_reassembler (TCPReceiver.new capacity))) with 0 in E3, Hbr.
    constructor; cbn [Z.b2z]; (done || lia).
Qed.

(** A bare acknowledgment right after the SYN changes nothing. *)
Lemma rcv_at_bare k r a seg :
  rinv s p k r a -> s_error a = false -> 0 <= k < 2 ^ 64 - 1 -> rcv_at s r 1 0 false -> bare seg ->
  returns (TCPReceiver.segment_received r seg) (fun r' => rcv_at s r' 1 0 false /\
    TCPReceiver._capacity r' = TCPReceiver._capacity r /\ exists a', rinv s p (k + 1) r' a' /\ s_error a' = false).
Proof.
  intros Hr Her Hk [Hset Hck Hl He _ Hu Hcl] Hb. simpl in Hl.
  destruct (receive_bare _ _ _ _ _ _ Hr Hk Hb) as (r' & a' & E & Hr' & E1 & E2 & E3 & E4 & Hle & Hcov).
  exists r'. split; [done|].
  assert (Hcl' : forall j, covered (_reassembler r') j -> j < 0) by (intros j Hj; apply Hcov, Hcl in Hj; lia).
  destruct (rinv_indices _ _ _ _ _ Hr') as (HL & HL2 & _).
  assert (Hl0 : left (_reassembler r') = 0).
  { destruct (Z.eq_dec (left (_reassembler r')) 0) as [?|Hn]; [done|]. exfalso.
    assert (H0 : covered (_reassembler r') 0) by (eapply frontier_covered; [apply Hr'|unfold left in *; lia]).
    apply Hcl' in H0. lia. }
  rewrite Hset in E3. rewrite He in E4.
  pose proof (ri_acked _ _ _ _ _ Hr' E3) as Hac. unfold fin_taken in Hac. rewrite E4, Hl0 in Hac. simpl in Hac.
  split; [|split; [|exists a'; split; [done|congruence]]].
  - constructor; rewrite ?Hl0; try done; [lia|].
    destruct (rinv_unread _ _ _ Hr') as (U1 & U2 & _). rewrite (rinv_bytes_read _ _ _ _ _ Hr') in U1. lia.
  - apply (receive_capacity _ _ _ E).
Qed.
End receiver.
