(* ===== verification/SessionPoints.v ===== *)
(** * The points of a session

    One [TCPConnection] with both halves at rest, its flags, and what each call of
    the owner and each segment of the peer does there: the handlers of
    [segment_received] from the opening to the close, one step at a time. *)

From S2P Require Import Prelude WrappingIntegers ByteStream StreamReassembler Buffer TCPHeader.
From S2P Require Import TCPSegment SegmentSpec TCPConfig TCPReceiver TCPSendingWindow TCPSender TCPState.
From S2P Require Import TCPConnection EndToEnd ConnectionInvariant Handshake Conversation SessionHalves.

(** ** One connection

    A point of the session: both halves of one side, and its two flags. *)
Record point := mkPoint {
  p_first : Z;
  p_next : Z;
  p_window : Z;
  p_ended : bool;
  p_rcvd : Z;
  p_unread : Z;
  p_fin : bool;
  p_linger : bool;
  p_active : bool
}.

Definition at_ack (m w : Z) (x : point) : point :=
  mkPoint m (p_next x) w (p_ended x) (p_rcvd x) (p_unread x) (p_fin x) (p_linger x) (p_active x).
Definition at_next (e : bool) (x : point) : point :=
  mkPoint (p_first x) (p_next x + 1) (p_window x) e (p_rcvd x) (p_unread x) (p_fin x) (p_linger x) (p_active x).
Definition at_rcvd (e : bool) (x : point) : point :=
  mkPoint (p_first x) (p_next x) (p_window x) (p_ended x) (p_rcvd x + 1)
    (if e then p_unread x else p_unread x + 1) e (p_linger x) (p_active x).
Definition at_read (x : point) : point :=
  mkPoint (p_first x) (p_next x) (p_window x) (p_ended x) (p_rcvd x) 0 (p_fin x) (p_linger x) (p_active x).
Definition at_flags (l a : bool) (x : point) : point :=
  mkPoint (p_first x) (p_next x) (p_window x) (p_ended x) (p_rcvd x) (p_unread x) (p_fin x) l a.

Section connection.
  Context {mem : OverRead} {total : TotalOverRead mem}.
  Context (s_out s_in : list byte) (i p : WrappingInt32) (cfg : TCPConfig).
  Context (Hout : len s_out + 2 < 2 ^ 31) (Hin : len s_in + 2 < 2 ^ 31) (Hp : wi_valid p).
  Context (Hcap : 1 <= recv_capacity cfg < 2 ^ 16).

(** The receiver has been given at most [k] segments. *)
Record conn_at (k : Z) (c : TCPConnection) (x : point) : Prop := {
  ct_snd : snd_at s_out i (_sender c) (p_first x) (p_next x) (p_window x) (p_ended x);
  ct_rcv : rcv_at s_in (_receiver c) (p_rcvd x) (p_unread x) (p_fin x);
  ct_inv : exists a, rinv s_in p k (_receiver c) a /\ s_error a = false;
  ct_cfg : _cfg c = cfg;
  ct_capacity : TCPReceiver._capacity (_receiver c) = recv_capacity cfg;
  ct_linger : _linger_after_streams_finish c = p_linger x;
  ct_active : _active c = p_active x;
  ct_time : _time_since_last_segment_received c = 0
}.

(** The acknowledgment a connection at [x] puts on its segments *)
Definition acknowledges (x : point) (seg : TCPSegment) : Prop :=
  ack (header seg) = true /\ TCPHeader.ackno (header seg) = wrap (p_rcvd x) p /\
  win (header seg) = recv_capacity cfg - p_unread x.

Lemma conn_at_state k c x :
  conn_at k c x ->
  state c = mkTCPState
    (sender_name (if p_first x =? 0 then TCPSender.SYN_SENT else if negb (p_ended x) then TCPSender.SYN_ACKED
                  else if p_first x =? p_next x then TCPSender.FIN_ACKED else TCPSender.FIN_SENT))
    (receiver_name (if p_fin x then TCPReceiver.FIN_RECV else TCPReceiver.SYN_RECV))
    (p_active x) (if p_active x then p_linger x else false).
Proof.
  intros [[(b & a & H & _ & _) Hf Hn _ _ H1 _] [Hset _ _ He Hla _ _] (ar & Hr & Her) _ _ Hl Ha _].
  unfold state, state_of, active. rewrite (sinv_summary _ _ _ _ _ H), (state_phase _ _ _ _ _ H).
  unfold phase. rewrite Hf, Hn, (proj2 (Z.eqb_neq (p_next x) 0)) by lia.
  rewrite receiver_summary_name, (rinv_state _ _ _ _ _ Hr), Hset, He, Ha, Hl
    by (by rewrite (rinv_error _ _ _ _ _ Hr)). cbn [negb].
  destruct (p_fin x); [|done]. by rewrite Hla, Z.eqb_refl.
Qed.

Lemma with_ack_info_at k c x seg :
  conn_at k c x -> acknowledges x (with_ack_info (_receiver c) seg).
Proof.
  intros [_ [Hset Hck _ _ _ Hu _] (a & Hr & _) _ Hc _ _ _]. unfold with_ack_info, TCPReceiver.ackno.
  rewrite Hset, (ri_isn _ _ _ _ _ Hr Hset), Hck. destruct (rinv_unread _ _ _ _ _ Hr) as (_ & Hb & _).
  split; [done|]. split; [by destruct p|]. cbn. rewrite (rinv_window _ _ _ _ _ Hr), Hu, Hc. unfold u16.
  rewrite Z.mod_small; lia.
Qed.

(** [_collect_sender_segments_out] of a connection that has nothing new to send *)
Lemma collect_at k c x :
  conn_at k c x ->
  returns (_collect_sender_segments_out c) (fun c' => conn_at k c' x /\
    _segments_out c `prefix_of` _segments_out c' /\
    forall seg, seg ∈ TCPSender._segments_out (_sender c) -> with_ack_info (_receiver c) seg ∈ _segments_out c').
Proof.
  intros [Hs Hr Hi Eg Hc Hl Ha Htm]. destruct (snd_at_fill _ _ _ _ _ _ _ Hs) as (t & E & Ht & Hg).
  eexists. split; [by apply collect_eq|]. split; [|split].
  - constructor; simpl; try done. by apply snd_at_queue.
  - simpl. by apply prefix_app_r.
  - intros seg Hseg. simpl. apply elem_of_app. right. apply list_elem_of_fmap_2.
    destruct (gr_out _ _ Hg) as [l ->]. apply elem_of_app. by left.
Qed.

Lemma push_ack_at k c x :
  conn_at k c x ->
  returns (push_ack c) (fun c' => conn_at k c' x /\
    exists seg, _segments_out c' = _segments_out c ++ [seg] /\ acknowledges x seg /\ bare seg).
Proof.
  intros Hc. unfold push_ack. rewrite add_ack_info_eq by apply Hc. apply returns_ok. split.
  - destruct Hc as [? ? ? ? ? ? ? ?]. by constructor.
  - eexists. split; [done|]. split; [by eapply with_ack_info_at|]. unfold with_ack_info.
    by destruct (TCPReceiver.ackno _).
Qed.

(** The reply to a keep-alive changes nothing. *)
Lemma keep_alive_at k c x seg :
  conn_at k c x ->
  returns (keep_alive c seg) (fun c' => conn_at k c' x /\ _segments_out c `prefix_of` _segments_out c').
Proof.
  intros Hc. unfold keep_alive. destruct (TCPReceiver.ackno _); [|by apply returns_ok].
  case_bool; [|by apply returns_ok].
  eapply returns_mono; [apply (collect_at k _ x)|by intros c' (? & ? & _)].
  destruct Hc as [? ? ? ? ? ? ? ?]. constructor; try done. by apply snd_at_push.
Qed.

(** An acknowledgment of [m] with the window [w], as a connection at [x] expects it *)
Record acking (x : point) (m w : Z) (seg : TCPSegment) : Prop := {
  ak_flag : ack (header seg) = true;
  ak_no : TCPHeader.ackno (header seg) = wrap m i;
  ak_win : win (header seg) = w;
  ak_range : 1 <= m /\ p_first x <= m <= p_next x;
  ak_window : 0 <= w < 2 ^ 16 /\ p_next x <= m + Z.max w 1;
  ak_edge : p_first x + p_window x <= m + Z.max w 1
}.

Lemma to_sender_at k c x m w seg :
  conn_at k c x -> acking x m w seg ->
  returns (to_sender c seg) (fun c' => conn_at k c' (at_ack m (Z.max w 1) x) /\
    _segments_out c' = _segments_out c).
Proof.
  intros [Hs Hr Hi Eg Hc Hl Ha Htm] [_ Em Ew Hm Hw _]. unfold to_sender. rewrite Em, Ew.
  eapply returns_bind; [eapply snd_at_ack; [exact Hout|exact Hs|lia..]|].
  intros t Ht. apply returns_ok. split; [|done]. by constructor.
Qed.

(** The next segment, with a byte or the FIN *)
Record arriving (x : point) (seg : TCPSegment) : Prop := {
  ar_segment : sender_segment s_in p (p_rcvd x) seg;
  ar_length : length_in_sequence_space seg = 1;
  ar_fin : p_fin x = false;
  ar_room : p_unread x + 1 <= recv_capacity cfg
}.

Lemma to_receiver_at k c x seg :
  conn_at k c x -> 0 <= k < 2 ^ 64 - 1 -> arriving x seg ->
  returns (to_receiver c seg) (fun c' => conn_at (k + 1) c' (at_rcvd (fin (header seg)) x) /\
    _segments_out c' = _segments_out c /\ _sender c' = _sender c).
Proof.
  intros [Hs Hr (a & Hi & He) Eg Hc Hl Ha Htm] Hk [Hseg H1 Hf Hroom]. rewrite Hf in Hr. unfold to_receiver.
  pose proof (rcv_at_acceptable _ _ _ _ _ _ _ _ Hi Hr Hseg H1 ltac:(lia)) as Hac.
  destruct (rcv_at_next _ _ Hp _ _ _ _ _ _ Hi Hk Hr Hseg H1 ltac:(lia)) as (r' & E & Hr').
  destruct (receive_inv _ _ _ _ _ _ _ Hi Hk Hp Hseg Hac) as (r2 & a2 & E2 & Hi2 & _ & He2 & Hc2 & _);
    [by rewrite (ra_set _ _ _ _ _ Hr)|].
  rewrite E in E2. injection E2 as <-. rewrite E. apply returns_ok. split; [|done].
  constructor; simpl; try done; [|congruence]. exists a2. split; [done|congruence].
Qed.

(** ** The handlers at the points of the session *)

Lemma conn_at_frame k c c' x l a :
  conn_at k c x -> _sender c' = _sender c -> _receiver c' = _receiver c ->
  _cfg c' = _cfg c -> _linger_after_streams_finish c' = l -> _active c' = a ->
  _time_since_last_segment_received c' = 0 -> conn_at k c' (at_flags l a x).
Proof. intros [? ? ? ? ? ? ? ?] E1 E2 E3 E4 E5 E6. constructor; rewrite ?E1, ?E2, ?E3, ?E4, ?E5, ?E6; done. Qed.

Lemma dispatch_official c seg st :
  state c = official st ->
  dispatch c seg =
    match st with
    | LISTEN => on_listen c seg
    | SYN_SENT => on_syn_sent c seg
    | SYN_RCVD => on_syn_rcvd c seg
    | ESTABLISHED | FIN_WAIT_1 => on_established c (official st) seg
    | FIN_WAIT_2 => on_fin_wait_2 c seg
    | LAST_ACK => on_last_ack c seg
    | CLOSING => on_closing c seg
    | CLOSE_WAIT => on_close_wait c seg
    | TIME_WAIT => on_time_wait c seg
    | CLOSED | RESET => mret c
    end.
Proof. intros E. unfold dispatch. rewrite E. by destruct st. Qed.

(** A handler, and then the reply to a keep-alive *)
Lemma segment_received_at k c seg x d (Q : TCPConnection -> Prop) :
  rst (header seg) = false -> dispatch (set_time c 0) seg = d ->
  returns d (fun c' => conn_at k c' x /\ Q c') ->
  (forall c1 c2, Q c1 -> _segments_out c1 `prefix_of` _segments_out c2 -> Q c2) ->
  returns (TCPConnection.segment_received c seg) (fun c' => conn_at k c' x /\ Q c').
Proof.
  intros Hr <- Hf HQ. unfold TCPConnection.segment_received. rewrite Hr.
  eapply returns_bind; [exact Hf|]. intros c1 [H1 H2].
  eapply returns_mono; [by apply keep_alive_at|]. intros c2 [H3 H4]. split; [done|by eapply HQ].
Qed.

(** The reply to what arrives is in the queue. *)
Definition replies (x : point) (c : TCPConnection) : Prop :=
  exists seg, seg ∈ _segments_out c /\ acknowledges x seg /\ bare seg.

Lemma replies_grow x c1 c2 :
  replies x c1 -> _segments_out c1 `prefix_of` _segments_out c2 -> replies x c2.
Proof. intros (seg & H & ?) [l E]. exists seg. rewrite E. split; [apply elem_of_app; by left|done]. Qed.

Definition established (x : point) : Prop :=
  1 <= p_first x /\ p_ended x = false /\ p_fin x = false /\ p_linger x = true /\ p_active x = true.

Lemma established_official k c x : conn_at k c x -> established x -> state c = official ESTABLISHED.
Proof.
  intros Hc (H1 & H2 & H3 & H4 & H5). rewrite (conn_at_state _ _ _ Hc), H2, H3, H4, H5.
  by rewrite (proj2 (Z.eqb_neq (p_first x) 0)) by lia.
Qed.

Lemma established_takes k c x m w seg :
  conn_at k c x -> established x -> 0 <= k < 2 ^ 64 - 1 -> arriving x seg -> acking x m w seg ->
  rst (header seg) = false ->
  let x' := at_ack m (Z.max w 1) (at_flags (negb (fin (header seg))) true (at_rcvd (fin (header seg)) x)) in
  returns (TCPConnection.segment_received c seg) (fun c' => conn_at (k + 1) c' x' /\ replies x' c').
Proof.
  intros Hc He Hk Har Hak Hr x'. pose proof (established_official _ _ _ Hc He) as Hst.
  destruct He as (H1 & H2 & H3 & H4 & H5).
  eapply segment_received_at; [done|apply (dispatch_official (set_time c 0) seg _ Hst)| |by apply replies_grow].
  unfold on_established. cbv zeta. rewrite (ak_flag _ _ _ _ Hak), (ar_length _ _ Har).
  change (in_state (official ESTABLISHED) FIN_WAIT_1) with false. rewrite andb_true_r. cbn [Z.eqb negb orb].
  set (c1 := if fin (header seg) then _ else _).
  assert (Hc1 : conn_at k c1 (at_flags (negb (fin (header seg))) true x)).
  { eapply conn_at_frame; [exact Hc|..]; unfold c1; destruct (fin (header seg)); try done; simpl.
    - by rewrite (ct_linger _ _ _ Hc).
    - by rewrite (ct_active _ _ _ Hc).
    - by rewrite (ct_active _ _ _ Hc). }
  eapply (returns_bind _ _ (fun c' => conn_at (k + 1) c' (at_rcvd (fin (header seg)) (at_flags (negb (fin (header seg))) true x)) /\ replies x' c')).
  - eapply returns_bind; [eapply (to_receiver_at k c1); [exact Hc1|done|destruct Har; by constructor]|].
    intros c2 (Hc2 & _ & _). rewrite add_ack_info_eq by apply Hc2. cbn [mbind outcome_bind]. cbv zeta.
    set (ack_seg := with_ack_info _ _).
    assert (Hl : length_in_sequence_space ack_seg = 0)
      by (unfold ack_seg; by rewrite (proj1 (with_ack_info_carries _ _ [] i 0))).
    eapply returns_mono.
    { eapply (collect_at (k + 1) _ (at_rcvd (fin (header seg)) (at_flags (negb (fin (header seg))) true x))).
      destruct Hc2. constructor; [|done..]. by apply snd_at_push. }
    intros c3 (Hc3 & _ & Hq). split; [exact Hc3|]. exists (with_ack_info (_receiver c2) ack_seg).
    split; [apply Hq, elem_of_app; right; by apply list_elem_of_singleton|]. split.
    + eapply (with_ack_info_at _ _ _ ack_seg Hc2).
    + unfold ack_seg, with_ack_info. by destruct (TCPReceiver.ackno _).
  - intros c2 [Hc2 Hq]. eapply returns_bind; [eapply to_sender_at; [exact Hc2|destruct Hak; by constructor]|].
    intros c3 [Hc3 Eq]. eapply returns_mono; [by eapply collect_at|]. intros c4 (Hc4 & Hpre & _).
    split; [exact Hc4|]. eapply replies_grow; [|exact Hpre]. destruct Hq as (q & Hq). exists q. by rewrite Eq.
Qed.

(** A bare acknowledgment while data may still arrive, in [ESTABLISHED] and [FIN_WAIT_1] *)
Lemma established_acked k c x m w seg :
  conn_at k c x -> p_fin x = false -> p_linger x = true -> p_active x = true ->
  (if p_ended x then 1 <= p_first x < p_next x else 1 <= p_first x) ->
  acking x m w seg -> bare seg -> rst (header seg) = false ->
  returns (TCPConnection.segment_received c seg) (fun c' =>
    conn_at k c' (at_ack m (Z.max w 1) x) /\ _segments_out c `prefix_of` _segments_out c').
Proof.
  intros Hc H3 H4 H5 Hf Hak Hb Hr.
  assert (Hst : state c = official (if p_ended x then FIN_WAIT_1 else ESTABLISHED)).
  { rewrite (conn_at_state _ _ _ Hc), H3, H4, H5. destruct (p_ended x); cbn [negb].
    - by rewrite !(proj2 (Z.eqb_neq _ _)) by lia.
    - by rewrite (proj2 (Z.eqb_neq _ _)) by lia. }
  eapply (segment_received_at _ _ _ _ (on_established (set_time c 0) (official (if p_ended x then FIN_WAIT_1 else ESTABLISHED)) seg));
    [done|rewrite (dispatch_official (set_time c 0) seg _ Hst); by destruct (p_ended x)| |intros; by etransitivity].
  unfold on_established. cbv zeta. pose proof (bare_length _ Hb) as Hl. destruct Hb as (_ & _ & Hfin).
  rewrite Hfin, (ak_flag _ _ _ _ Hak), Hl. cbn [Z.eqb negb orb andb mbind outcome_bind mret outcome_ret].
  assert (Hc0 : conn_at k (set_time c 0) x) by (by destruct Hc).
  eapply returns_bind; [by eapply to_sender_at|]. intros c2 [Hc2 Eq].
  eapply returns_mono; [by eapply collect_at|]. intros c3 (Hc3 & Hpre & _). split; [done|].
  by rewrite Eq in Hpre.
Qed.

(** The FIN of the peer in [FIN_WAIT_2] *)
Lemma fin_wait_2_takes k c x m w seg :
  conn_at k c x -> p_ended x = true -> p_fin x = false -> p_linger x = true -> p_active x = true ->
  1 <= p_first x -> p_first x = p_next x ->
  0 <= k < 2 ^ 64 - 1 -> arriving x seg -> fin (header seg) = true -> acking x m w seg ->
  rst (header seg) = false ->
  let x' := at_ack m (Z.max w 1) (at_rcvd true x) in
  returns (TCPConnection.segment_received c seg) (fun c' => conn_at (k + 1) c' x' /\ replies x' c').
Proof.
  intros Hc H2 H3 H4 H5 Hf1 Hf2 Hk Har Hfin Hak Hr x'.
  assert (Hst : state c = official FIN_WAIT_2).
  { rewrite (conn_at_state _ _ _ Hc), H2, H3, H4, H5. cbn [negb].
    by rewrite (proj2 (Z.eqb_neq _ _)), (proj2 (Z.eqb_eq _ _)) by lia. }
  eapply segment_received_at; [done|apply (dispatch_official (set_time c 0) seg _ Hst)| |by apply replies_grow].
  unfold on_fin_wait_2. rewrite Hfin, (ak_flag _ _ _ _ Hak). cbn [andb].
  assert (Hc0 : conn_at k (set_time c 0) x) by (by destruct Hc).
  eapply returns_bind; [by eapply to_receiver_at|]. intros c2 (Hc2 & _ & _). rewrite Hfin in Hc2.
  eapply returns_bind; [eapply to_sender_at; [exact Hc2|destruct Hak; by constructor]|]. intros c3 [Hc3 _].
  eapply returns_mono; [by eapply push_ack_at|]. intros c4 (Hc4 & q & Eq & Hq). split; [exact Hc4|].
  exists q. rewrite Eq. split; [apply elem_of_app; right; by apply list_elem_of_singleton|done].
Qed.

(** The acknowledgment of our FIN in [LAST_ACK] *)
Lemma last_ack_acked k c x w seg :
  conn_at k c x -> p_ended x = true -> p_fin x = true -> p_linger x = false -> p_active x = true ->
  1 <= p_first x < p_next x -> acking x (p_next x) w seg -> rst (header seg) = false ->
  returns (TCPConnection.segment_received c seg) (fun c' =>
    conn_at k c' (at_flags false false (at_ack (p_next x) (Z.max w 1) x)) /\ True).
Proof.
  intros Hc H2 H3 H4 H5 Hf Hak Hr.
  assert (Hst : state c = official LAST_ACK).
  { rewrite (conn_at_state _ _ _ Hc), H2, H3, H4, H5. cbn [negb]. by rewrite !(proj2 (Z.eqb_neq _ _)) by lia. }
  eapply segment_received_at; [done|apply (dispatch_official (set_time c 0) seg _ Hst)| |done].
  unfold on_last_ack. rewrite (ak_flag _ _ _ _ Hak).
  assert (Hc0 : conn_at k (set_time c 0) x) by (by destruct Hc).
  eapply returns_bind; [by eapply to_sender_at|]. intros c2 [Hc2 _]. apply returns_ok. split; [|done].
  assert (E : TCPSender.state (_sender c2) = TCPSender.FIN_ACKED).
  { destruct Hc2 as [[(b & a & H & _ & _) E1 E2 _ _ _ _] _ _ _ _ _ _ _]. rewrite (state_phase _ _ _ _ _ H).
    unfold phase. rewrite E1, E2. simpl. rewrite H2, (proj2 (Z.eqb_neq _ _)), Z.eqb_refl by lia. done. }
  rewrite bool_decide_eq_true_2 by done. eapply conn_at_frame; [done..|apply Hc2].
Qed.

(** Time passes unnoticed by a sender with nothing outstanding. *)
Lemma tick_idle t ms : _buffer (_window t) = [] -> TCPSender.tick t ms = t.
Proof.
  intros E. destruct t as [? ? ? ? w ? ? ?], w. simpl in E. by subst.
Qed.

(** The clock in [TIME_WAIT], when ten timeouts have passed since the last segment *)
Lemma time_wait_closes k c x :
  conn_at k c x -> p_ended x = true -> p_fin x = true -> p_linger x = true -> p_active x = true ->
  1 <= p_first x -> p_first x = p_next x -> 0 <= rt_timeout cfg < 2 ^ 16 ->
  TCPSender.tick (_sender c) (10 * rt_timeout cfg) = _sender c /\
  (consecutive_retransmissions (_sender c) <= MAX_RETX_ATTEMPTS ->
   returns (tick c (10 * rt_timeout cfg)) (fun c' => state c' = official CLOSED /\ _receiver c' = _receiver c)).
Proof.
  intros Hc H2 H3 H4 H5 Hf1 Hf2 Hrt. set (ms := 10 * rt_timeout cfg).
  assert (Et : TCPSender.tick (_sender c) ms = _sender c).
  { destruct Hc as [[(b & a & H & _ & _) E1 E2 _ _ _ _] _ _ _ _ _ _ _].
    apply tick_idle, (winv_empty _ _ (sv_window _ _ _ _ _ H)); congruence. }
  split; [done|]. intros Hcr. unfold tick. rewrite (ct_time _ _ _ Hc). cbv zeta.
  rewrite Z.add_0_l, u64_small by lia. set (c1 := set_time c ms).
  assert (Hst : state c1 = official TIME_WAIT).
  { change (state c1) with (state c). rewrite (conn_at_state _ _ _ Hc), H2, H3, H4, H5. cbn [negb].
    by rewrite (proj2 (Z.eqb_neq _ _)), (proj2 (Z.eqb_eq _ _)) by lia. }
  assert (Eg : _linger_after_streams_finish c1 && (_time_since_last_segment_received c1 >=? 10 * rt_timeout (_cfg c1)) = true).
  { simpl. rewrite (ct_linger _ _ _ Hc), (ct_cfg _ _ _ Hc), H4. fold ms. simpl. lia. }
  rewrite Hst. change (in_state (official TIME_WAIT) TIME_WAIT) with true. cbn [andb]. rewrite Eg.
  set (c2 := set_active _ _). change (_sender c2) with (_sender c). rewrite Et.
  cbn [set_sender _sender].
  replace (consecutive_retransmissions (_sender c) >? MAX_RETX_ATTEMPTS) with false by lia.
  apply returns_ok. split; [|done].
  assert (Hc2 : conn_at k (set_time (set_sender c2 (_sender c)) 0) (at_flags false false x))
    by (by eapply conn_at_frame).
  change (state (set_time (set_sender c2 (_sender c)) 0) = official CLOSED).
  rewrite (conn_at_state _ _ _ Hc2). simpl. rewrite H2, H3. cbn [negb].
  by rewrite (proj2 (Z.eqb_neq _ _)), (proj2 (Z.eqb_eq _ _)) by lia.
Qed.

(** ** The calls of the owner *)

(** The segment that carries the next byte, or the FIN when [e] *)
Record sends (x : point) (e : bool) (seg : TCPSegment) : Prop := {
  sn_segment : sender_segment s_out i (p_next x) seg;
  sn_length : length_in_sequence_space seg = 1;
  sn_fin : fin (header seg) = e;
  sn_ack : acknowledges x seg
}.

(** [_collect_sender_segments_out] when there is one thing to send *)
Lemma collect_sends k c x t b a (e : bool) :
  conn_at k c x -> p_ended x = false -> p_first x = p_next x -> sinv s_out t b a false ->
  _window t = _window (_sender c) -> 1 <= outbound_capacity t ->
  (if e then s_pending b = [] /\ s_ended b = true else len (s_pending b) = 1 /\ s_ended b = false) ->
  (if e then p_next x = len s_out + 1 else p_next x <= len s_out) ->
  returns (_collect_sender_segments_out (set_sender c t)) (fun c' => conn_at k c' (at_next e x) /\
    exists seg, seg ∈ _segments_out c' /\ sends x e seg).
Proof.
  intros Hc He Hfn H Ew Hcap1 Hwork Hlen. pose proof Hc as [[_ Hf Hn Hw Hi H1 _] Hr Hi' Eg Hc' Hl Ha Htm].
  rewrite <- Ew in *.
  destruct (snd_at_sends s_out i t b a (p_next x) (p_window x) e H) as (t' & E & Ht' & _ & seg & Eq & Hseg & Hlen1);
    [done|congruence|done..|].
  eexists. split; [by apply collect_eq|]. split.
  - constructor; simpl; try done. rewrite Hfn. by apply snd_at_queue.
  - exists (with_ack_info (_receiver c) seg). simpl. split.
    { apply elem_of_app. right. apply list_elem_of_fmap_2. rewrite Eq. apply elem_of_app. right. by apply list_elem_of_singleton. }
    pose proof (with_ack_info_carries (_receiver c) seg s_out i (p_next x)) as [W1 W2].
    constructor; [by apply W2|by rewrite W1| |by eapply with_ack_info_at].
    assert (Ef : fin (header (with_ack_info (_receiver c) seg)) = fin (header seg))
      by (unfold with_ack_info; by destruct (TCPReceiver.ackno _)).
    rewrite Ef. destruct (single_segment s_out i _ _ Hseg ltac:(lia) Hlen1) as [Hd _].
    rewrite (proj2 (Z.eqb_neq _ _)) in Hd by lia. cbn [negb andb] in Hd.
    destruct (ss_data _ _ _ _ Hseg) as (_ & Hd2 & _). pose proof (ss_fin _ _ _ _ Hseg) as Hsf.
    unfold data_index in *. rewrite (proj2 (Z.eqb_neq _ _)) in Hd2, Hsf by lia.
    destruct e, (fin (header seg)); cbn [negb Z.b2z] in *; try done; [lia|]. specialize (Hsf eq_refl). lia.
Qed.

Lemma write_at k c x y :
  conn_at k c x -> p_ended x = false -> p_first x = p_next x -> excerpt s_out [y] (p_next x - 1) ->
  exists bs, ByteStream.write (outbound_stream c) [y] = Ok (bs, 1) /\
    bytes_written (outbound_stream c) = p_next x - 1 /\
    returns (write c [y]) (fun z => z.2 = 1 /\ conn_at k z.1 (at_next false x) /\
      exists seg, seg ∈ _segments_out z.1 /\ sends x false seg).
Proof.
  intros Hc He Hfn Hx. pose proof (ct_snd _ _ _ Hc) as Hs. rewrite He, Hfn in Hs.
  destruct (snd_at_write _ _ _ _ _ _ Hs Hx) as (bs & b & a & E & Hbw & H & Hp1 & He1 & Hr1).
  exists bs. split; [exact E|]. split; [exact Hbw|]. unfold write.
  change (outbound_stream c) with (_stream (_sender c)). rewrite E. cbn [mbind outcome_bind].
  eapply returns_bind.
  - eapply (collect_sends k c x (set_stream (_sender c) bs) b a false); try done.
    destruct Hx as (_ & Hx & _). simpl in Hx. lia.
  - intros c' Hc'. apply returns_ok. done.
Qed.

Lemma end_at k c x :
  conn_at k c x -> p_ended x = false -> p_first x = p_next x -> p_next x = len s_out + 1 ->
  bytes_written (outbound_stream c) = len s_out /\
  returns (end_input_stream c) (fun c' => conn_at k c' (at_next true x) /\
    exists seg, seg ∈ _segments_out c' /\ sends x true seg).
Proof.
  intros Hc He Hfn Hn. pose proof (ct_snd _ _ _ Hc) as Hs. rewrite He, Hfn in Hs.
  destruct (snd_at_end _ _ _ _ _ Hs Hn) as (Hbw & b & a & H & Hp1 & He1). split; [exact Hbw|].
  unfold end_input_stream.
  eapply (collect_sends k c x (set_stream (_sender c) (end_input (outbound_stream c))) b a true); try done.
  apply (sa_room _ _ _ _ _ _ _ Hs).
Qed.

(** The owner takes everything that has arrived. *)
Lemma read_at k c x :
  conn_at k c x ->
  exists bs data, read (inbound_stream c) (p_unread x) = Ok (bs, data) /\
    conn_at k (set_receiver c (set_stream_out (_receiver c) bs)) (at_read x).
Proof.
  intros [Hs [R1 R2 R3 R4 R5 R6 R7] (a & Hi & He) Eg Hc Hl Ha Htm].
  pose proof (inv_rep _ _ _ _ (ri_reassembler _ _ _ _ _ Hi)) as R.
  destruct (rinv_unread _ _ _ _ _ Hi) as (_ & Hu & _). rewrite R6 in Hu.
  destruct (read_rep _ _ (p_unread x) R ltac:(lia)) as (bs & E & R').
  exists bs, (ztake (p_unread x) (s_pending a)). split; [exact E|].
  destruct (rinv_read _ _ _ _ _ _ _ _ Hi ltac:(apply Hu) E) as [Hi' _].
  constructor; try done; [|by exists (spec_pop a (p_unread x))].
  constructor; try done. unfold TCPReceiver.stream_out, StreamReassembler.stream_out in *.
  rewrite (buffer_size_eq _ _ R) in R6. simpl. rewrite (buffer_size_eq _ _ R'). simpl. rewrite len_zdrop; lia.
Qed.
End connection.

(** ** Opening *)
Section opening.
  Context {mem : OverRead} {total : TotalOverRead mem}.
  Context (s_out s_in : list byte) (p : WrappingInt32) (cfg : TCPConfig) (random : Z).
  Context (Hcfg : cfg_ok cfg) (Hout : len s_out + 2 < 2 ^ 31) (Hin : len s_in + 2 < 2 ^ 31) (Hp : wi_valid p).
  Context (Hcap : 1 <= recv_capacity cfg < 2 ^ 16) (Hroom : 1 <= send_capacity cfg).

Notation i := (conn_isn cfg random).
Notation at_point := (conn_at s_out s_in i p cfg).

(** The two points of the handshake *)
Definition at_syn_rcvd : point := mkPoint 0 1 1 false 1 0 false true true.
Definition at_open (w : Z) : point := mkPoint 1 1 w false 1 0 false true true.

(** The sender after its SYN *)
Notation syn_sender := (syn_sent_sender (send_capacity cfg) (rt_timeout cfg) i).

Lemma syn_sender_at : snd_at s_out i (set_segments_out syn_sender []) 0 1 1 false.
Proof.
  pose proof (conn_isn_valid cfg random Hcfg) as Hi. destruct Hcfg as [H1 H2 H3 _].
  destruct (new_good s_out (send_capacity cfg) (rt_timeout cfg) i) as (_ & _ & _ & b & a & f & H).
  { split_and!; (done || lia). }
  destruct (fill_window_inv _ _ _ _ _ H) as (t & b' & f' & E & H' & _).
  rewrite fill_new in E by done. injection E as <-.
  pose proof (sv_stream _ _ _ _ _ H') as R. pose proof (rep_ended _ _ R) as He.
  change (false = s_ended b') in He.
  pose proof (rep_bytes_written _ _ R) as Hb. change (0 = u64 (len (s_history b'))) in Hb.
  pose proof (prefix_length _ _ (sv_prefix _ _ _ _ _ H')) as Hl. rewrite u64_small in Hb by lia.
  unfold s_history in Hb. rewrite length_app in Hb.
  assert (f' = false) as -> by (destruct f'; [by destruct (sv_fin _ _ _ _ _ H' eq_refl); congruence|done]).
  apply snd_at_queue; [|by constructor]. constructor; try done.
  exists b', a. split; [done|]. split; [apply len_nil; lia|done].
Qed.

(** The SYN is the first segment. *)
Lemma syn_segment_carries : sender_segment s_out i 0 (syn_segment i) /\ length_in_sequence_space (syn_segment i) = 1.
Proof.
  split; [|done]. constructor; [done|simpl; by rewrite wrap_0 by (by apply conn_isn_valid)|done| |done].
  change (str (payload (syn_segment i))) with (@nil byte). unfold excerpt, data_index. simpl. split_and!; (done || lia).
Qed.

(** A connection that has sent its SYN and waits *)
Definition waiting : TCPConnection :=
  mkTCPConnection cfg (TCPReceiver.new (recv_capacity cfg)) (set_segments_out syn_sender []) [] true true 0.

Lemma waiting_state : state waiting = official SYN_SENT.
Proof.
  destruct syn_sender_at as [(b & a & H & _ & _) E1 E2 _ _ _ _].
  unfold state, state_of, waiting. cbn [_sender]. rewrite (sinv_summary _ _ _ _ _ H), (state_phase _ _ _ _ _ H).
  unfold phase. by rewrite E1, E2.
Qed.

(** A SYN is acceptable to a new receiver. *)
Lemma syn_acceptable k a seg :
  rinv s_in p k (TCPReceiver.new (recv_capacity cfg)) a ->
  sender_segment s_in p 0 seg -> length_in_sequence_space seg = 1 ->
  acceptable s_in 0 (TCPReceiver.new (recv_capacity cfg)) seg.
Proof.
  intros Hr Hseg H1. destruct (single_segment s_in p _ _ Hseg ltac:(lia) H1) as [Hd Hf].
  specialize (Hf eq_refl). simpl in Hd.
  destruct (rinv_unread _ _ _ _ _ Hr) as (Hbr & Hu & _). constructor; [by left| |by rewrite Hf].
  rewrite Hd. change (data_index 0) with 0. cbn [Z.of_nat].
  cbn [TCPReceiver.new TCPReceiver._capacity] in *. rewrite (rinv_bytes_read _ _ _ _ _ Hr). lia.
Qed.

Lemma receive_syn_at k c a seg :
  rinv s_in p k (TCPReceiver.new (recv_capacity cfg)) a -> s_error a = false -> 0 <= k < 2 ^ 64 - 1 ->
  _cfg c = cfg -> _receiver c = TCPReceiver.new (recv_capacity cfg) -> _sender c = set_segments_out syn_sender [] ->
  _linger_after_streams_finish c = true -> _active c = true -> _time_since_last_segment_received c = 0 ->
  sender_segment s_in p 0 seg -> length_in_sequence_space seg = 1 ->
  returns (to_receiver c seg) (fun c' => at_point (k + 1) c' at_syn_rcvd).
Proof.
  intros Hr He Hk Eg Er Es El Ea Et Hseg H1. unfold to_receiver. rewrite Er.
  destruct (rcv_at_syn s_in p Hp k _ a seg Hr Hk Hseg H1) as (r' & E & Hr').
  pose proof (syn_acceptable k a seg Hr Hseg H1) as Hac.
  destruct (receive_inv _ _ _ _ _ _ _ Hr Hk Hp Hseg Hac) as (r2 & a2 & E2 & Hi2 & _ & He2 & Hc2 & _);
    [by rewrite (ss_syn _ _ _ _ Hseg)|].
  rewrite E in E2. injection E2 as <-. rewrite E. apply returns_ok.
  constructor; simpl; try done; [by rewrite Es; apply syn_sender_at|]. exists a2. split; [done|congruence].
Qed.

(** Connecting: the SYN goes out. *)
Lemma connects : connect (new cfg random) = Ok (set_queue waiting [syn_segment i]).
Proof. by rewrite connect_new by done. Qed.

Lemma syn_sent_takes k a m seg :
  rinv s_in p k (TCPReceiver.new (recv_capacity cfg)) a -> s_error a = false -> 0 <= k < 2 ^ 64 - 1 ->
  sender_segment s_in p 0 seg -> length_in_sequence_space seg = 1 -> rst (header seg) = false ->
  ack (header seg) = true -> TCPHeader.ackno (header seg) = wrap 1 i -> win (header seg) = m -> 1 <= m < 2 ^ 16 ->
  returns (TCPConnection.segment_received waiting seg) (fun c' =>
    at_point (k + 1) c' (at_open m) /\ replies p cfg (at_open m) c').
Proof.
  intros Hr He Hk Hseg H1 Hrst Hack Hno Hm Hm1.
  eapply (segment_received_at s_out s_in i p cfg);
    [done|apply (dispatch_official (set_time waiting 0) seg _ waiting_state)| |by apply replies_grow].
  unfold on_syn_sent. rewrite (ss_syn _ _ _ _ Hseg), Hack. cbn [Z.eqb andb].
  eapply returns_bind; [by apply (receive_syn_at k _ a seg Hr He Hk)|]. intros c1 Hc1.
  eapply returns_bind.
  { eapply (to_sender_at s_out s_in i p _ Hout _ _ _ 1 m); [exact Hc1|]. constructor; simpl; (done || lia). }
  intros c2 [Hc2 _]. eapply returns_mono; [eapply (push_ack_at s_out s_in i p cfg); eassumption|].
  rewrite Z.max_l in * by lia. intros c3 (Hc3 & q & Eq & Hq). split; [exact Hc3|]. exists q. rewrite Eq.
  split; [apply elem_of_app; right; by apply list_elem_of_singleton|done].
Qed.

(** Listening: the SYN of the peer is answered with the own SYN. *)
Lemma listen_takes k a seg :
  rinv s_in p k (TCPReceiver.new (recv_capacity cfg)) a -> s_error a = false -> 0 <= k < 2 ^ 64 - 1 ->
  sender_segment s_in p 0 seg -> length_in_sequence_space seg = 1 -> rst (header seg) = false ->
  returns (TCPConnection.segment_received (new cfg random) seg) (fun c' =>
    at_point (k + 1) c' at_syn_rcvd /\ exists q, q ∈ _segments_out c' /\ sender_segment s_out i 0 q /\
      length_in_sequence_space q = 1 /\ acknowledges p cfg at_syn_rcvd q).
Proof.
  intros Hr He Hk Hseg H1 Hrst.
  eapply (segment_received_at s_out s_in i p cfg);
    [done|apply (dispatch_official (set_time (new cfg random) 0) seg LISTEN); reflexivity| |].
  2: { intros c1 c2 (q & Hq & ?) [l El]. exists q. rewrite El. split; [apply elem_of_app; by left|done]. }
  unfold on_listen. rewrite (ss_syn _ _ _ _ Hseg). cbn [Z.eqb].
  destruct (receive_syn_at k waiting a seg) as (c1 & E1 & Hc1); try done.
  unfold to_receiver in *. cbn [set_time _receiver waiting new] in *.
  destruct (TCPReceiver.segment_received _ seg) as [r| |]; [|done..]. cbn [mbind outcome_bind mret outcome_ret] in *.
  injection E1 as <-. unfold connect.
  rewrite (collect_eq _ syn_sender) by (apply fill_new; by apply conn_isn_valid).
  cbn [mbind outcome_bind mret outcome_ret]. apply returns_ok. split.
  - destruct Hc1 as [? ? ? ? ? ? ? ?]. by constructor.
  - exists (with_ack_info r (syn_segment i)). split; [simpl; by left|].
    destruct syn_segment_carries as [S1 S2].
    destruct (with_ack_info_carries r (syn_segment i) s_out i 0) as [W1 W2].
    split; [by apply W2|]. split; [by rewrite W1|]. apply (with_ack_info_at s_out s_in i p cfg Hp Hcap (k + 1) (set_receiver waiting r) at_syn_rcvd _ Hc1).
Qed.

(** The last segment of the handshake *)
Lemma syn_rcvd_takes k c m seg :
  at_point k c at_syn_rcvd -> 0 <= k < 2 ^ 64 - 1 -> bare seg -> rst (header seg) = false ->
  ack (header seg) = true -> TCPHeader.ackno (header seg) = wrap 1 i -> win (header seg) = m -> 1 <= m < 2 ^ 16 ->
  returns (TCPConnection.segment_received c seg) (fun c' => at_point (k + 1) c' (at_open m) /\ True).
Proof.
  intros Hc Hk Hb Hrst Hack Hno Hm Hm1.
  assert (Hst : state c = official SYN_RCVD) by (by rewrite (conn_at_state _ _ _ _ _ _ _ _ Hc)).
  eapply (segment_received_at s_out s_in i p cfg);
    [done|apply (dispatch_official (set_time c 0) seg _ Hst)| |done].
  unfold on_syn_rcvd. rewrite Hack. destruct Hc as [Hs Hr (a & Hi & He) Eg Hc Hl Ha Ht].
  destruct (rcv_at_bare s_in p _ _ _ _ Hi He Hk Hr Hb) as (r' & E & Hr' & Hc' & Hi').
  unfold to_receiver. cbn [set_time _receiver]. rewrite E. cbn [mbind outcome_bind mret outcome_ret].
  eapply returns_mono; [eapply (to_sender_at s_out s_in i p cfg Hout (k + 1) _ at_syn_rcvd 1 m)|].
  - constructor; simpl; try done. congruence.
  - constructor; simpl; (done || lia).
  - rewrite Z.max_l by lia. by intros c' [? _].
Qed.
End opening.
