(* ===== verification/Session.v ===== *)
(** * A session from the first segment to the last

    Two connections open, transfer a stream in each direction and close, over a
    network that delivers everything: a run of [Conversation] that exists for all
    streams and all configurations with room for a byte.  The run is put together
    from exchanges between the points of [SessionPoints]. *)

From S2P Require Import Prelude WrappingIntegers ByteStream StreamReassembler Buffer TCPHeader.
From S2P Require Import TCPSegment SegmentSpec TCPConfig TCPReceiver TCPSendingWindow TCPSender TCPState.
From S2P Require Import TCPConnection EndToEnd ConnectionInvariant Handshake Conversation SessionHalves SessionPoints.

(** A side whose configuration leaves room for a byte in each direction *)
Record talker (me : party) : Prop := {
  tk_party : party_ok me;
  tk_recv : 1 <= recv_capacity (p_cfg me) < 2 ^ 16;
  tk_send : 1 <= send_capacity (p_cfg me)
}.

Lemma isn_valid me : talker me -> wi_valid (p_isn me).
Proof. intros [[? _] _ _]. by apply conn_isn_valid. Qed.

(** The facts about two talkers *)
Ltac talkers Ha Hb :=
  pose proof (tk_recv _ Ha) as Hca; pose proof (tk_recv _ Hb) as Hcb;
  pose proof (po_stream _ (tk_party _ Ha)) as Hsa; pose proof (po_stream _ (tk_party _ Hb)) as Hsb;
  pose proof (isn_valid _ Ha) as Hia; pose proof (isn_valid _ Hb) as Hib;
  pose proof (po_cfg _ (tk_party _ Ha)) as Hga; pose proof (po_cfg _ (tk_party _ Hb)) as Hgb.

Section session.
  Context {mem : OverRead} {total : TotalOverRead mem}.

Notation conn_of me peer := (conn_at (p_stream me) (p_stream peer) (p_isn me) (p_isn peer) (p_cfg me)).

(** Side [x] is at the point [px]; at most [N] segments have been given to it. *)
Record side_at (me peer : party) (N : Z) (x : side) (px : point) : Prop := {
  sd_count : 0 <= count x <= N;
  sd_conn : exists k, 0 <= k <= N /\ conn_of me peer k (conn x) px
}.

(** Both sides of a reachable state *)
Record meet (a b : party) (N : Z) (x y : side) (px py : point) : Prop := {
  mt_reach : conv_reach a b (x, y);
  mt_left : side_at a b N x px;
  mt_right : side_at b a N y py
}.

Lemma conv_reach_sym a b x y : conv_reach a b (x, y) -> conv_reach b a (y, x).
Proof.
  intros H. apply (rtc_congruence (fun z : side * side => (z.2, z.1)) (conv_step b a)) in H; [exact H|].
  intros z z' [? ? ? Ha|? ? ? Ha]; simpl; by constructor.
Qed.

Lemma meet_sym a b N x y px py : meet a b N x y px py -> meet b a N y x py px.
Proof. intros [? ? ?]. constructor; [by apply conv_reach_sym|done..]. Qed.

Lemma side_at_mono me peer N N' x px : N <= N' -> side_at me peer N x px -> side_at me peer N' x px.
Proof. intros Hn [? (k & ? & ?)]. constructor; [lia|]. exists k. split; [lia|done]. Qed.

(** ** One act *)
Section acts.
  Context (a b : party) (Ha : talker a) (Hb : talker b).

Notation s := (p_stream a).
Notation i := (p_isn a).
Notation p := (p_isn b).
Notation cfg := (p_cfg a).

Lemma acts_on x x' y : conv_reach a b (x, y) -> act a b (sent y) x x' -> conv_reach a b (x', y).
Proof. intros Hr Hx. eapply rtc_r; [exact Hr|by constructor]. Qed.

Lemma conn_at_flush k c px : conn_of a b k c px -> conn_of a b k (set_queue c []) px.
Proof. intros [? ? ? ? ? ? ? ?]. by constructor. Qed.

(** A call of the owner, and what it queued is handed to the network. *)
Lemma calls x y c' :
  conv_reach a b (x, y) -> act a b (sent y) x (set_conn x c') ->
  exists x', conv_reach a b (x', y) /\ conn x' = set_queue c' [] /\
    sent x' = sent x ++ _segments_out c' /\ count x' = count x.
Proof.
  intros Hr Hx. pose proof (acts_on _ _ _ Hr Hx) as Hr'.
  eexists. split; [eapply acts_on; [exact Hr'|apply act_send]|done].
Qed.

(** A segment is delivered, and the reply is handed to the network. *)
Lemma takes x y seg (P : TCPConnection -> Prop) :
  conv_reach a b (x, y) -> seg ∈ sent y -> deliverable a b (conn x) seg -> count x < 2 ^ 64 - 1 ->
  returns (TCPConnection.segment_received (conn x) seg) P ->
  exists x' c', conv_reach a b (x', y) /\ P c' /\ conn x' = set_queue c' [] /\
    sent x' = sent x ++ _segments_out c' /\ count x' = count x + 1.
Proof.
  intros Hr Hs Hd Hk (c' & E & HP). pose proof (act_deliver a b _ x seg seg c' Hs (conveyed_refl seg) Hd Hk E) as Hx.
  eexists _, c'. split; [eapply acts_on; [eapply acts_on; [exact Hr|exact Hx]|apply act_send]|done].
Qed.

(** No segment of a conversation carries RST. *)
Lemma sent_rst x y seg : conv_reach a b (x, y) -> seg ∈ sent y -> rst (header seg) = false.
Proof.
  intros Hr Hs. destruct (conv_reach_inv _ _ _ _ (tk_party _ Ha) (tk_party _ Hb) Hr) as [_ Hy].
  pose proof (si_sent _ _ _ _ Hy) as Hw. rewrite Forall_forall in Hw. by apply (wr_rst _ _ _ _ _ (Hw seg Hs)).
Qed.

(** What a connection at a point expects may be delivered to it. *)
Lemma deliverable_at k c px m w seg :
  conn_of a b k c px -> (length_in_sequence_space seg <> 0 -> arriving (p_stream b) p cfg px seg) ->
  acking i px m w seg -> deliverable a b c seg.
Proof.
  intros Hc Har Hak. pose proof (po_stream _ (tk_party _ Ha)). pose proof (po_stream _ (tk_party _ Hb)).
  pose proof Hc as [[(st & sa & H1 & _ & _) Ef En Ew _ _ _] Hr (r & Hi & _) Eg Ecap _ _ _].
  pose proof (sinv_next_bound _ _ _ _ _ H1) as Hnb. constructor.
  - intros Hl. destruct (Har Hl) as [Hseg H1' Hfin Hroom].
    rewrite (sender_segment_pos _ _ _ _ Hseg) by lia. rewrite Hfin in Hr.
    eapply (rcv_at_acceptable _ _ _ _ _ _ _ _ Hi Hr Hseg H1'). lia.
  - intros _ w0. subst w0. destruct Hak as [_ Em Ewin Hm Hw He].
    rewrite (ack_pos_wrap i m seg), Ewin, Ef, Ew by (done || lia). lia.
Qed.

(** The next byte, or the FIN, leaves. *)
Lemma says N x y px py (e : bool) :
  meet a b N x y px py -> p_ended px = false -> p_first px = p_next px ->
  (if e then p_next px = len s + 1 else p_next px <= len s) ->
  exists x' seg, meet a b N x' y (at_next e px) py /\ seg ∈ sent x' /\ sends s i p cfg px e seg.
Proof.
  intros [Hr [Hk (k & Hk1 & Hc)] Hy] He Hfn Hn. pose proof (po_stream _ (tk_party _ Ha)) as Hs.
  pose proof (isn_valid b Hb) as Hp. pose proof (tk_recv _ Ha) as Hcap.
  pose proof (sa_started _ _ _ _ _ _ _ (ct_snd _ _ _ _ _ _ _ _ Hc)) as H1.
  assert (exists c', act a b (sent y) x (set_conn x c') /\ conn_of a b k c' (at_next e px) /\
    exists seg, seg ∈ _segments_out c' /\ sends s i p cfg px e seg) as (c' & Hact & Hc' & seg & Hq & Hseg).
  { destruct e.
    - destruct (end_at s (p_stream b) i p cfg Hs Hp Hcap k (conn x) px Hc He Hfn Hn) as (Hbw & c' & E & Hc').
      exists c'. split; [by apply act_end|done].
    - set (data := ztake 1 (zdrop (p_next px - 1) s)).
      assert (Hl : len data = 1) by (unfold data; rewrite len_ztake, len_zdrop; lia).
      assert (Hx : excerpt s data (p_next px - 1)) by (unfold excerpt; rewrite Hl; split_and!; (done || lia)).
      destruct data as [|y0 [|? ?]] eqn:Ed; try (simpl in Hl; lia).
      destruct (write_at s (p_stream b) i p cfg Hs Hp Hcap k (conn x) px y0 Hc He Hfn Hx)
        as (bs & Ew & Hbw & [c' n] & E & En & Hc').
      simpl in En, Hc'. subst n. exists c'. split; [|done]. eapply act_write; [exact Ew| |exact E].
      by rewrite Hbw. }
  destruct (calls _ _ _ Hr Hact) as (x' & Hr' & Ec & Es & Ek). exists x', seg. split; [|split; [|done]].
  - constructor; [done| |done]. constructor; [lia|]. exists k. split; [done|]. rewrite Ec. by apply conn_at_flush.
  - rewrite Es. apply elem_of_app. by right.
Qed.

(** A segment arrives. *)
Lemma hears N x y px py px' seg m w (Q : TCPConnection -> Prop) :
  meet a b N x y px py -> N < 2 ^ 64 - 1 -> seg ∈ sent y ->
  (length_in_sequence_space seg <> 0 -> arriving (p_stream b) p cfg px seg) -> acking i px m w seg ->
  (forall k, 0 <= k <= N -> conn_of a b k (conn x) px -> rst (header seg) = false ->
     exists k', 0 <= k' <= N + 1 /\
       returns (TCPConnection.segment_received (conn x) seg) (fun c' => conn_of a b k' c' px' /\ Q c')) ->
  exists x' c', meet a b (N + 1) x' y px' py /\ Q c' /\ sent x' = sent x ++ _segments_out c'.
Proof.
  intros [Hr [Hk (k & Hk1 & Hc)] Hy] HN Hseg Har Hak Hstep.
  destruct (Hstep k Hk1 Hc (sent_rst _ _ _ Hr Hseg)) as (k' & Hk' & Hret).
  destruct (takes x y seg _ Hr Hseg (deliverable_at _ _ _ _ _ _ Hc Har Hak) ltac:(lia) Hret)
    as (x' & c' & Hr' & [Hc' HQ] & Ec & Es & Ek).
  exists x', c'. split; [|done]. constructor; [done| |eapply side_at_mono; [|done]; lia].
  constructor; [lia|]. exists k'. split; [done|]. rewrite Ec. by apply conn_at_flush.
Qed.

(** A bare reply that was queued is on the network. *)
Lemma reply_sent (x x' : side) c px :
  replies p cfg px c -> sent x' = sent x ++ _segments_out c ->
  exists seg, seg ∈ sent x' /\ acknowledges p cfg px seg /\ bare seg.
Proof.
  intros (seg & Hseg & ?) ->. exists seg. split; [apply elem_of_app; by right|done].
Qed.

(** The owner takes what has arrived. *)
Lemma reads N x y px py :
  meet a b N x y px py -> 0 <= p_unread px -> exists x', meet a b N x' y (at_read px) py.
Proof.
  intros [Hr [Hk (k & Hk1 & Hc)] Hy] Hu.
  destruct (read_at s (p_stream b) i p cfg k (conn x) px Hc) as (bs & data & E & Hc').
  eexists. constructor; [eapply acts_on; [exact Hr|by eapply act_read]| |done].
  constructor; [done|]. by exists k.
Qed.
End acts.

(** ** Exchanges *)
Section exchanges.
  Context (a b : party) (Ha : talker a) (Hb : talker b).

Notation cap me := (recv_capacity (p_cfg me)).

(** The acknowledgment of a connection at [py], as the peer at [px] sees it *)
Lemma acking_of i cfg px py seg :
  acknowledges i cfg py seg -> 1 <= p_rcvd py -> p_first px <= p_rcvd py <= p_next px ->
  0 <= recv_capacity cfg - p_unread py < 2 ^ 16 ->
  p_next px <= p_rcvd py + Z.max (recv_capacity cfg - p_unread py) 1 ->
  p_first px + p_window px <= p_rcvd py + Z.max (recv_capacity cfg - p_unread py) 1 ->
  acking i px (p_rcvd py) (recv_capacity cfg - p_unread py) seg.
Proof. intros (H1 & H2 & H3) ? ? ? ? ?. by constructor. Qed.

Lemma arriving_of s i p cfg cfg' px py e seg :
  sends s i p cfg px e seg -> p_rcvd py = p_next px -> p_fin py = false ->
  p_unread py + 1 <= recv_capacity cfg' -> arriving s i cfg' py seg.
Proof. intros [H1 H2 H3 H4] E ? ?. constructor; try done. by rewrite E. Qed.

(** A byte or the FIN goes from [x] to [y], both in [ESTABLISHED], and its
    acknowledgment back. *)
Lemma transfer N x y n w m w' (e : bool) :
  meet a b N x y (mkPoint n n w false m 0 false true true) (mkPoint m m w' false n 0 false true true) ->
  1 <= w <= cap b -> 1 <= w' <= cap a -> 1 <= n -> 1 <= m -> 0 <= N < 2 ^ 64 - 3 ->
  (if e then n = len (p_stream a) + 1 else n <= len (p_stream a)) ->
  exists x' y' w2, 1 <= w2 <= cap b /\ meet a b (N + 1 + 1) x' y' (mkPoint (n + 1) (n + 1) w2 e m 0 false true true)
      (mkPoint m m (cap a) false (n + 1) (if e then 0 else 1) e (negb e) true).
Proof.
  intros Hm Hw Hw' Hn1 Hm1 HN Hlen. talkers Ha Hb.
  destruct (says a b Ha Hb N x y _ _ e Hm) as (x1 & seg & Hm1' & Hin & Hsends); [done..|].
  set (py := mkPoint m m w' false n 0 false true true) in *.
  assert (Har : arriving (p_stream a) (p_isn a) (p_cfg b) py seg) by (eapply arriving_of; [exact Hsends|simpl; (done || lia)..]).
  assert (Hak : acking (p_isn b) py m (cap a - 0) seg).
  { eapply (acking_of _ (p_cfg a) py (mkPoint n n w false m 0 false true true)); [apply Hsends|simpl; lia..]. }
  set (py1 := at_ack m (Z.max (cap a - 0) 1) (at_flags (negb e) true (at_rcvd e py))).
  destruct (hears b a Hb Ha N y x1 py (at_next e (mkPoint n n w false m 0 false true true)) py1 seg m (cap a - 0)
      (replies (p_isn a) (p_cfg b) py1)) as (y1 & c1 & Hm2 & Hrep & Esent); [by apply meet_sym|lia|done|done|done| |].
  { intros k Hk Hc Hrst. exists (k + 1). split; [lia|]. unfold py1. rewrite <- (sn_fin _ _ _ _ _ _ _ Hsends).
    apply (established_takes (p_stream b) (p_stream a) (p_isn b) (p_isn a) (p_cfg b)); try done. lia. }
  destruct (reply_sent b a y y1 c1 py1 Hrep Esent) as (q & Hq & Hqa & Hqb).
  set (px1 := at_next e (mkPoint n n w false m 0 false true true)) in *.
  assert (Hak1 : acking (p_isn a) px1 (n + 1) (cap b - (if e then 0 else 1)) q).
  { eapply (acking_of _ (p_cfg b) px1 py1); [exact Hqa|destruct e; simpl; lia..]. }
  destruct (hears a b Ha Hb (N + 1) x1 y1 px1 py1 (at_ack (n + 1) (Z.max (cap b - (if e then 0 else 1)) 1) px1)
      q (n + 1) (cap b - (if e then 0 else 1)) (fun c' => _segments_out (conn x1) `prefix_of` _segments_out c'))
    as (x2 & c2 & Hm3 & _ & _); [by apply meet_sym|lia|done| |done| |].
  { by rewrite (bare_length _ Hqb). }
  { intros k Hk Hc Hrst. exists k. split; [lia|].
    apply (established_acked (p_stream a) (p_stream b) (p_isn a) (p_isn b) (p_cfg a)); try done.
    destruct e; simpl; lia. }
  exists x2, y1, (Z.max (cap b - (if e then 0 else 1)) 1). split; [destruct e; lia|].
  unfold py1, at_ack, at_flags, at_rcvd in Hm3. simpl in Hm3.
  by rewrite Z.sub_0_r, (Z.max_l (cap a) 1) in Hm3 by lia.
Qed.

(** Both sides are established; [n - 1] bytes went one way and [m - 1] the other. *)
Definition opened (N n m : Z) : Prop :=
  exists x y w w', 1 <= w <= cap b /\ 1 <= w' <= cap a /\
    meet a b N x y (mkPoint n n w false m 0 false true true) (mkPoint m m w' false n 0 false true true).

Lemma byte N n m :
  opened N n m -> 1 <= n <= len (p_stream a) -> 1 <= m -> 0 <= N < 2 ^ 64 - 3 -> opened (N + 1 + 1) (n + 1) m.
Proof.
  intros (x & y & w & w' & Hw & Hw' & Hm) Hn Hm1 HN. pose proof (tk_recv _ Ha).
  destruct (transfer N x y n w m w' false Hm) as (x' & y' & w2 & Hw2 & Hm2); [done..|lia|done|lia|lia|].
  destruct (reads b a _ y' x' _ _ (meet_sym _ _ _ _ _ _ _ Hm2)) as (y2 & Hm3); [simpl; lia|].
  exists x', y2, w2, (cap a). split; [done|]. split; [lia|]. by apply meet_sym.
Qed.

Lemma all_bytes N m :
  opened N 1 m -> 1 <= m -> 0 <= N <= 2 ^ 33 -> opened (N + 2 * len (p_stream a)) (len (p_stream a) + 1) m.
Proof.
  intros Ho Hm HN. pose proof (po_stream _ (tk_party _ Ha)) as Hs.
  assert (Hj : forall j, Z.of_nat j <= len (p_stream a) -> opened (N + 2 * Z.of_nat j) (Z.of_nat j + 1) m).
  { induction j as [|j IH]; intros Hj; [by replace (N + 2 * Z.of_nat 0) with N by lia|].
    replace (N + 2 * Z.of_nat (S j)) with (N + 2 * Z.of_nat j + 1 + 1) by lia.
    replace (Z.of_nat (S j)) with (Z.of_nat j + 1) by lia. apply byte; [apply IH|..]; lia. }
  by apply Hj.
Qed.
End exchanges.

Lemma opened_sym a b N n m : opened a b N n m -> opened b a N m n.
Proof. intros (x & y & w & w' & ? & ? & H). exists y, x, w', w. split_and!; try done; lia || by apply meet_sym. Qed.

(** ** The handshake *)
Section fresh.
  Context (a b : party) (Ha : talker a) (Hb : talker b).

Notation cap me := (recv_capacity (p_cfg me)).

(** The receiver before the first segment *)
Lemma fresh_receiver :
  rinv (p_stream b) (p_isn b) 0 (TCPReceiver.new (cap a)) (spec_new (cap a)) /\ s_error (spec_new (cap a)) = false.
Proof.
  pose proof (tk_recv _ Ha). pose proof (po_stream _ (tk_party _ Hb)). split; [|done]. apply rinv_new; lia.
Qed.

(** A SYN may be delivered to a side that has received nothing. *)
Lemma deliverable_syn c seg :
  _receiver c = TCPReceiver.new (cap a) -> sender_segment (p_stream b) (p_isn b) 0 seg ->
  length_in_sequence_space seg = 1 ->
  (ack (header seg) = true -> TCPHeader.ackno (header seg) = wrap 1 (p_isn a) /\
     _first_seqno (_window (_sender c)) + _window_size (_window (_sender c)) <= 2) ->
  deliverable a b c seg.
Proof.
  intros Er Hseg H1 Hack. pose proof (po_stream _ (tk_party _ Hb)). constructor.
  - intros _. rewrite (sender_segment_pos _ _ _ _ Hseg), Er by lia. destruct fresh_receiver as [Hr _].
    eapply (syn_acceptable (p_stream a) (p_stream b) (p_isn b) (p_cfg a)); try done; by apply tk_recv.
  - intros Hf w. destruct (Hack Hf) as [Em Hw]. rewrite (ack_pos_wrap (p_isn a) 1 seg) by (done || lia).
    unfold w. lia.
Qed.

End fresh.

Section handshake.
  Context (a b : party) (Ha : talker a) (Hb : talker b).

Notation cap me := (recv_capacity (p_cfg me)).

(** The SYN and the answer to it *)
Lemma syn_exchange :
  exists x y q, conv_reach a b (x, y) /\ conn x = waiting (p_cfg a) (p_random a) /\ count x = 0 /\ count y = 1 /\
    conn_of b a 1 (conn y) at_syn_rcvd /\ q ∈ sent y /\ sender_segment (p_stream b) (p_isn b) 0 q /\
    length_in_sequence_space q = 1 /\ acknowledges (p_isn a) (p_cfg b) at_syn_rcvd q.
Proof.
  talkers Ha Hb. set (syn := syn_segment (p_isn a)).
  destruct (calls a b (side_new a) (side_new b) (set_queue (waiting (p_cfg a) (p_random a)) [syn]))
    as (x & Hr1 & Ec1 & Es1 & Ek1); [apply rtc_refl|apply act_connect, connects; done|].
  destruct (syn_segment_carries (p_stream a) (p_stream b) (p_cfg a) (p_random a) Hga) as [Hsyn Hsyn1].
  change (conn_isn (p_cfg a) (p_random a)) with (p_isn a) in *. fold syn in Hsyn, Hsyn1.
  destruct (fresh_receiver b a Hb Ha) as [Hrb Heb].
  assert (Hsin : syn ∈ sent x) by (rewrite Es1; apply elem_of_app; right; by apply list_elem_of_singleton).
  pose proof (listen_takes (p_stream b) (p_stream a) (p_isn a) (p_cfg b) (p_random b) Hgb Hsb Hsa Hia Hcb
    (tk_send _ Hb) 0 _ syn Hrb Heb ltac:(lia) Hsyn Hsyn1 eq_refl) as Hret.
  destruct (takes b a (side_new b) x syn _ (conv_reach_sym _ _ _ _ Hr1) Hsin
    ltac:(by apply (deliverable_syn b a Hb Ha)) ltac:(simpl; lia) Hret)
    as (y & c & Hr2 & [Hc (q & Hq & Hqs)] & Ec & Es & Ek).
  exists x, y, q. split; [by apply conv_reach_sym|]. rewrite Ec, Es. do 3 (split; [done|]).
  split; [by apply (conn_at_flush b a)|]. split; [apply elem_of_app; by right|done].
Qed.

Lemma handshake : opened a b 2 1 1.
Proof.
  talkers Ha Hb. destruct (fresh_receiver a b Ha Hb) as [Hra Hea].
  destruct syn_exchange as (x1 & y1 & q & Hr2 & Ec1 & Ek1 & Eky & Hc1 & Hqin & Hqs & Hq1 & Q1 & Q2 & Q3).
  simpl in Q2, Q3.
  pose proof (syn_sent_takes (p_stream a) (p_stream b) (p_isn b) (p_cfg a) (p_random a) Hga Hsa Hsb Hib Hca
    (tk_send _ Ha) 0 _ (cap b - 0) q Hra Hea ltac:(lia) Hqs Hq1 (sent_rst a b Ha Hb _ _ _ Hr2 Hqin) Q1 Q2 Q3 ltac:(lia))
    as Hret.
  rewrite <- Ec1 in Hret.
  destruct (takes a b x1 y1 q _ Hr2 Hqin
    ltac:(rewrite Ec1; by apply (deliverable_syn a b Ha Hb)) ltac:(rewrite Ek1; simpl; lia) Hret)
    as (x2 & c2 & Hr3 & [Hc2 (q2 & Hq2 & (T1 & T2 & T3) & Hbare)] & Ecx & Esx & Ekx). clear Hret.
  simpl in T2, T3. pose proof (conv_reach_sym _ _ _ _ Hr3) as Hr3'.
  assert (Hq2in : q2 ∈ sent x2) by (rewrite Esx; apply elem_of_app; by right).
  pose proof (syn_rcvd_takes (p_stream b) (p_stream a) (p_isn a) (p_cfg b) (p_random b) Hsb 1 _ (cap a - 0) q2 Hc1
    ltac:(lia) Hbare (sent_rst b a Hb Ha _ _ _ Hr3' Hq2in) T1 T2 T3 ltac:(lia)) as Hret.
  assert (Hd : deliverable b a (conn y1) q2).
  { eapply (deliverable_at b a Hb Ha); [exact Hc1|by rewrite (bare_length _ Hbare)|].
    constructor; [done|exact T2|exact T3|simpl; lia..]. }
  destruct (takes b a y1 x2 q2 _ Hr3' Hq2in Hd ltac:(rewrite Eky; simpl; lia) Hret)
    as (y2 & c3 & Hr4 & [Hc3 _] & Ecy2 & Esy2 & Eky2).
  exists x2, y2, (cap b - 0), (cap a - 0). split; [lia|]. split; [lia|].
  constructor; [by apply conv_reach_sym|..]; (constructor; [rewrite ?Ekx, ?Ek1, ?Eky2, ?Eky; simpl; lia|]).
  - exists 1. split; [lia|]. rewrite Ecx. by apply (conn_at_flush a b).
  - exists 2. split; [lia|]. rewrite Ecy2. by apply (conn_at_flush b a).
Qed.
End handshake.

(** ** The close *)
Section closing.
  Context (a b : party) (Ha : talker a) (Hb : talker b).

Notation cap me := (recv_capacity (p_cfg me)).

(** With the FIN received and everything read, the owner has the whole stream. *)
Lemma finished N x y px py :
  meet a b N x y px py -> p_fin px = true -> p_unread px = 0 ->
  got x = p_stream b /\ input_ended (inbound_stream (conn x)) = true.
Proof.
  intros [Hr [_ (k & _ & Hc)] _] Hf Hu.
  destruct (conv_reach_inv _ _ _ _ (tk_party _ Ha) (tk_party _ Hb) Hr) as [Hx _].
  destruct (cn_receiver _ _ _ _ _ _ _ (si_conn _ _ _ _ Hx)) as (r & Hi & _ & Hg).
  destruct (rinv_output _ _ _ _ _ Hi) as (_ & Eh & Ee).
  pose proof (buffer_size_eq _ _ (inv_rep _ _ _ _ (ri_reassembler _ _ _ _ _ Hi))) as Eb.
  destruct (ct_rcv _ _ _ _ _ _ _ _ Hc) as [_ _ _ He Hl Hb' _]. rewrite Hf in *. specialize (Hl eq_refl).
  unfold TCPReceiver.stream_out, StreamReassembler.stream_out in Hb'. rewrite Hb', Hu in Eb.
  rewrite (len_nil (s_pending r)), app_nil_r, Hg, Hl, ztake_all in Eh by lia. split; [done|].
  unfold inbound_stream. by rewrite Ee, He, Hl, Z.eqb_refl.
Qed.

(** The FINs in both directions, and their acknowledgments *)
Lemma closing N :
  opened a b N (len (p_stream a) + 1) (len (p_stream b) + 1) -> 0 <= N < 2 ^ 64 - 5 ->
  exists x y n m w w', 1 <= n /\ 1 <= m /\
    meet a b (N + 1 + 1 + 1 + 1) x y (mkPoint n n w true m 0 true true true) (mkPoint m m w' true n 0 true false false).
Proof.
  talkers Ha Hb.
  set (n := len (p_stream a) + 1). set (m := len (p_stream b) + 1).
  intros (x & y & w & w' & Hw & Hw' & Hm) HN.
  destruct (transfer a b Ha Hb N x y n w m w' true Hm) as (x1 & y1 & w2 & Hw2 & Hm1); [done|done|lia..|].
  set (px := mkPoint (n + 1) (n + 1) w2 true m 0 false true true) in *. simpl negb in Hm1.
  set (py := mkPoint m m (cap a) false (n + 1) 0 true false true) in *.
  destruct (says b a Hb Ha _ y1 x1 py px true (meet_sym _ _ _ _ _ _ _ Hm1)) as (y2 & seg & Hm2 & Hin & Hsends); [done..|].
  assert (Har : arriving (p_stream b) (p_isn b) (p_cfg a) px seg) by (eapply arriving_of; [exact Hsends|simpl; (done || lia)..]).
  assert (Hak : acking (p_isn a) px (n + 1) (cap b - 0) seg).
  { eapply (acking_of _ (p_cfg b) px py); [apply Hsends|simpl; lia..]. }
  set (px1 := at_ack (n + 1) (Z.max (cap b - 0) 1) (at_rcvd true px)).
  destruct (hears a b Ha Hb (N + 1 + 1) x1 y2 px (at_next true py) px1 seg (n + 1) (cap b - 0) (replies (p_isn b) (p_cfg a) px1))
    as (x2 & c2 & Hm3 & Hrep & Esent); [by apply meet_sym|lia|done|done|done| |].
  { intros k Hk Hc Hrst. exists (k + 1). split; [lia|].
    apply (fin_wait_2_takes (p_stream a) (p_stream b) (p_isn a) (p_isn b) (p_cfg a)); try done; try (simpl; lia).
    apply Hsends. }
  destruct (reply_sent a b x1 x2 c2 px1 Hrep Esent) as (q & Hq & Hqa & Hqb).
  assert (Hak1 : acking (p_isn b) (at_next true py) (m + 1) (cap a - 0) q).
  { eapply (acking_of _ (p_cfg a) (at_next true py) px1); [exact Hqa|simpl; lia..]. }
  set (py1 := at_flags false false (at_ack (m + 1) (Z.max (cap a - 0) 1) (at_next true py))).
  destruct (hears b a Hb Ha (N + 1 + 1 + 1) y2 x2 (at_next true py) px1 py1 q (m + 1) (cap a - 0) (fun _ => True))
    as (y3 & c3 & Hm4 & _ & _); [by apply meet_sym|lia|done| |done| |].
  { by rewrite (bare_length _ Hqb). }
  { intros k Hk Hc Hrst. exists k. split; [lia|].
    apply (last_ack_acked (p_stream b) (p_stream a) (p_isn b) (p_isn a) (p_cfg b) Hsb k (conn y2) (at_next true py) (cap a - 0)); try done. simpl. lia. }
  exists x2, y3, (n + 1), (m + 1), (Z.max (cap b - 0) 1), (Z.max (cap a - 0) 1).
  split; [lia|]. split; [lia|]. by apply meet_sym.
Qed.

(** In [TIME_WAIT] the clock closes the connection. *)
Lemma times_out N x y n m w py :
  meet a b N x y (mkPoint n n w true m 0 true true true) py -> 1 <= n ->
  exists x', conv_reach a b (x', y) /\ state (conn x') = official CLOSED /\ got x' = got x /\
    inbound_stream (conn x') = inbound_stream (conn x).
Proof.
  intros [Hr [_ (k & Hk & Hc)] _] Hn. pose proof (po_cfg _ (tk_party _ Ha)) as Hg.
  destruct (conv_reach_inv _ _ _ _ (tk_party _ Ha) (tk_party _ Hb) Hr) as [Hx _].
  destruct (so_timer _ _ _ _ (cn_sender _ _ _ _ _ _ _ (si_conn _ _ _ _ Hx))) as [_ Hcr' _].
  assert (Hcr : consecutive_retransmissions (_sender (conn x)) <= MAX_RETX_ATTEMPTS)
    by (unfold consecutive_retransmissions, MAX_RETX_ATTEMPTS in *; rewrite u32_small; lia).
  destruct (time_wait_closes (p_stream a) (p_stream b) (p_isn a) (p_isn b) (p_cfg a) k (conn x)
    (mkPoint n n w true m 0 true true true) Hc) as [Et Hstep]; try done; [apply Hg|].
  destruct (Hstep Hcr) as (c' & E & Hst & Er).
  exists (set_conn x c'). split; [|split; [done|split; [done|]]].
  - apply (acts_on a b _ _ _ Hr). eapply act_tick; [|rewrite Et; exact Hcr|exact E].
    pose proof (co_rto _ Hg). lia.
  - unfold inbound_stream. simpl. by rewrite Er.
Qed.
End closing.
End session.

(** ** Properties *)

(** What is left when a session has ended well *)
Definition completed (me peer : party) (x : side) : Prop :=
  got x = p_stream peer /\ input_ended (inbound_stream (conn x)) = true /\ state (conn x) = official CLOSED.

(** C5. Progress: whatever the two byte streams (shorter than 2^31 - 2), the two
    initial sequence numbers and the two configurations (capacities of at least 1, to
    receive less than 2^16), a conversation in which nothing is lost can be carried to
    its end: the handshake, every byte in both directions, both FINs and the wait; each
    application has read exactly what the other one wrote and seen the end, and both
    connections are [CLOSED].  The read past the end of [_count] returns some word. *)
Theorem session_completes {mem : OverRead} {total : TotalOverRead mem} a b :
  talker a -> talker b ->
  exists x y, conv_reach a b (x, y) /\ completed a b x /\ completed b a y.
Proof.
  intros Ha Hb. pose proof (po_stream _ (tk_party _ Ha)) as Hsa. pose proof (po_stream _ (tk_party _ Hb)) as Hsb.
  pose proof (all_bytes a b Ha Hb 2 1 (handshake a b Ha Hb) ltac:(lia) ltac:(lia)) as H1.
  pose proof (all_bytes b a Hb Ha _ _ (opened_sym _ _ _ _ _ H1) ltac:(lia) ltac:(lia)) as H2.
  destruct (closing a b Ha Hb _ (opened_sym _ _ _ _ _ H2)) as (x & y & n & m & w & w' & Hn & Hm & Hmeet); [lia|].
  destruct (finished a b Ha Hb _ _ _ _ _ Hmeet) as [Hgx Hex]; [done..|].
  destruct (finished b a Hb Ha _ _ _ _ _ (meet_sym _ _ _ _ _ _ _ Hmeet)) as [Hgy Hey]; [done..|].
  destruct (times_out a b Ha Hb _ _ _ _ _ _ _ Hmeet Hn) as (x' & Hr & Hst & Eg & Es).
  exists x', y. split; [done|]. split; [unfold completed; by rewrite Eg, Es|]. split; [done|]. split; [done|].
  destruct (mt_right _ _ _ _ _ _ _ Hmeet) as [_ (k & _ & Hc)].
  rewrite (conn_at_state _ _ _ _ _ _ _ _ Hc). simpl. by rewrite (proj2 (Z.eqb_neq _ _)), Z.eqb_refl by lia.
Qed.

Lemma session_completes_witness :
  exists x y, conv_reach (mem := word_over_read 0) alice bob (x, y) /\ completed alice bob x /\ completed bob alice y.
Proof.
  apply (session_completes (mem := word_over_read 0) alice bob);
    constructor; first [apply alice_ok | apply bob_ok | vm_compute; split; congruence | vm_compute; congruence].
Defined.
