(* ===== verification/ConnectionStreams.v ===== *)
(** * What any segment leaves alone

    Whatever the network delivers, a connection that returns from a call has
    neither lost nor invented a byte of the two streams its owner sees: the bytes
    accepted for sending and the bytes already read are only changed by the
    owner's own calls. *)

From S2P Require Import Prelude WrappingIntegers ByteStream StreamReassembler Buffer TCPHeader.
From S2P Require Import TCPSegment TCPConfig TCPReceiver TCPSendingWindow TCPSender TCPState TCPConnection ConnectionParts.

(** The bytes accepted into a sender's stream and whether it was ended; the bytes
    read from a receiver's stream. *)
Definition sends (out : list byte) (ended : bool) (t : TCPSender) : Prop :=
  exists b, rep (_stream t) b /\ s_history b = out /\ s_ended b = ended.

Definition receives (inb : list byte) (r : TCPReceiver) : Prop :=
  exists b, rep (TCPReceiver.stream_out r) b /\ s_read b = inb.

Definition streams (out : list byte) (ended : bool) (inb : list byte) (c : TCPConnection) : Prop :=
  sends out ended (_sender c) /\ receives inb (_receiver c).

(** ** The sender *)

Section sender.
  Context (out : list byte) (ended : bool).

Lemma sends_same t t' : sends out ended t -> _stream t' = _stream t -> sends out ended t'.
Proof. unfold sends. by intros ? ->. Qed.

Lemma add_and_send_sends t seg : sends out ended t -> sat (add_and_send t seg) (sends out ended).
Proof. intros H. unfold add_and_send, add_segment. case_bool; [done|]. by apply sat_ok. Qed.

Lemma fill_window_sends t : sends out ended t -> sat (fill_window t) (sends out ended).
Proof.
  intros H. unfold fill_window. apply (sat_bind _ _ (sends out ended)).
  { case_bool; [by apply add_and_send_sends|by apply sat_ok]. }
  clear t H. intros t H. apply (while_sat _ (sends out ended)); [|done]. clear t H. intros t H.
  unfold fill_body. case_bool; [|by apply sat_ok]. case_bool; [by apply sat_ok|].
  destruct H as (b & R & Hh & He). destruct (read_rep (_stream t) b (Z.min (space (_window t))
    (Z.min MAX_PAYLOAD_SIZE (ByteStream.buffer_size (_stream t)))) R) as (bs & Er & R').
  { pose proof (u64_range (_window_size (_window t) - TCPSendingWindow.bytes_in_flight (_window t))).
    unfold space. rewrite (buffer_size_eq _ _ R). unfold MAX_PAYLOAD_SIZE. lia. }
  assert (H' : sends out ended (set_stream t bs)).
  { eexists. split; [exact R'|]. split; [|done]. unfold s_history in *. simpl.
    by rewrite <- app_assoc, ztake_zdrop. }
  rewrite Er. cbn [mbind outcome_bind]. cbv zeta. case_bool; [|by apply sat_ok].
  eapply sat_bind; [by apply add_and_send_sends|]. intros. by apply sat_ok.
Qed.

Lemma ack_received_sends t ackno n : sends out ended t -> sat (TCPSender.ack_received t ackno n) (sends out ended).
Proof.
  intros H. unfold TCPSender.ack_received. apply (sat_bind _ _ (fun _ => True)); [done|].
  intros [ret w] _. cbv zeta. apply fill_window_sends. by destruct ret.
Qed.

Lemma tick_sends t ms : sends out ended t -> sends out ended (TCPSender.tick t ms).
Proof.
  intros H. eapply sends_same; [done|]. unfold TCPSender.tick, TCPSendingWindow.tick.
  by destruct (segment <$> filter _ _).
Qed.
End sender.

(** ** The receiver *)

Section receiver.
  Context {mem : OverRead} (inb : list byte).

Lemma store_loop_output data : forall r index i,
  sat (store_loop r data index i) (fun r' => _output r' = _output r).
Proof.
  induction data as [|c data IH]; intros r index i; cbn [store_loop]; [by apply sat_ok|].
  cbv zeta. case_bool; [by apply sat_ok|].
  apply (sat_bind _ _ (fun _ => True)); [done|]. intros buf _.
  apply (sat_bind _ _ (fun _ => True)); [done|]. intros n _.
  apply (sat_bind _ _ (fun _ => True)); [done|]. intros cnt _.
  eapply sat_mono; [apply IH|]. by intros r' ->.
Qed.

Lemma push_substring_read r data index eof a :
  rep (_output r) a ->
  sat (push_substring r data index eof) (fun r' => exists a', rep (_output r') a' /\ s_read a' = s_read a).
Proof.
  intros R. unfold push_substring. eapply sat_bind; [apply store_loop_output|].
  intros r1 E. change (_output (set_eofed (_update_size r) eof)) with (_output r) in E.
  unfold _update_output. apply (sat_bind _ _ (fun _ => True)); [done|]. intros [s j] _. cbv zeta.
  change (_output (set_assembled r1 j)) with (_output r1). rewrite E.
  destruct (write_rep _ _ s R) as (bs & -> & R'). cbn [mbind outcome_bind]. apply sat_ok.
  case_bool; [exists (spec_end (spec_write a s))|by exists (spec_write a s)].
  split; [by apply end_input_rep|done].
Qed.

Lemma segment_received_reads r seg :
  receives inb r -> sat (TCPReceiver.segment_received r seg) (receives inb).
Proof.
  intros (b & R & Hb). unfold TCPReceiver.segment_received. set (r1 := if syn (header seg) then _ else _).
  assert (E1 : _reassembler r1 = _reassembler r) by (unfold r1; by case_bool).
  case_bool; [apply sat_ok; exists b; unfold TCPReceiver.stream_out; by rewrite E1|]. cbv zeta.
  set (r2 := if fin (header seg) then _ else _).
  assert (E2 : _reassembler r2 = _reassembler r) by (unfold r2; case_bool; by rewrite <- E1).
  rewrite E2. eapply sat_bind; [by apply push_substring_read|]. intros ra (b' & R' & Hb'). apply sat_ok.
  exists b'. split; [|congruence]. unfold TCPReceiver.stream_out. by rewrite update_checkpoint_frame.
Qed.
End receiver.

(** ** The connection *)

Section connection.
  Context {mem : OverRead} (out : list byte) (ended : bool) (inb : list byte).

Notation kept := (streams out ended inb).

(** Whatever the segments *)
#[local] Instance streams_halves : Halves (sends out ended) (receives inb) (fun _ => True).
Proof.
  split; try done.
  - apply fill_window_sends.
  - apply ack_received_sends.
  - apply tick_sends.
  - intros t Ht. split; [done|]. by apply Forall_true.
  - intros t (b & R & Hb). exists (spec_set_error b). split; [by apply set_error_rep|done].
  - apply segment_received_reads.
  - intros r (b & R & Hb). exists (spec_set_error b). split; [by apply set_error_rep|done].
Qed.

Lemma streams_parts c : kept c <-> parts (sends out ended) (receives inb) (fun _ => True) c.
Proof.
  split; [intros [? ?]; constructor; [done..|by apply Forall_true]|by intros [? ? _]].
Qed.

Ltac by_parts lemma :=
  intros ?%streams_parts; eapply sat_mono; [apply (lemma mem _ _ _ streams_halves); assumption|];
  intros ? ?; by apply streams_parts.

Lemma collect_streams c : kept c -> sat (_collect_sender_segments_out c) kept.
Proof. by_parts @collect_parts. Qed.

(** Any segment at all *)
Lemma segment_received_streams c seg : kept c -> sat (TCPConnection.segment_received c seg) kept.
Proof. by_parts @segment_received_parts. Qed.

Lemma tick_streams c ms : kept c -> sat (tick c ms) kept.
Proof. by_parts @tick_parts. Qed.

Lemma connect_streams c : kept c -> sat (connect c) kept.
Proof. apply collect_streams. Qed.
End connection.

(** ** The owner's calls *)

(** What is written and accepted is appended; nothing is refused while there is
    room and the stream has not been ended. *)
Lemma write_streams {mem : OverRead} out ended inb c data c' n :
  streams out ended inb c -> write c data = Ok (c', n) ->
  n = (if ended then 0 else Z.min (len data) (remaining_outbound_capacity c)) /\
  streams (out ++ ztake n data) ended inb c'.
Proof.
  intros [(b & R & Hh & He) Hr]. unfold write. destruct (write_rep _ _ data R) as (bs & E & R').
  unfold outbound_stream, stream_in. rewrite E. cbn [mbind outcome_bind].
  destruct (_collect_sender_segments_out _) as [c1| |] eqn:Ec; [|done..]. cbn [mbind outcome_bind mret outcome_ret].
  intros [= <- <-]. split.
  { unfold spec_accepted, remaining_outbound_capacity, outbound_stream, stream_in.
    by rewrite He, (remaining_capacity_eq _ _ R). }
  assert (Hs : sends (out ++ ztake (spec_accepted b data) data) ended (set_stream (_sender c) bs)).
  { exists (spec_write b data). split; [done|]. split; [|done]. unfold s_history in *. simpl.
    by rewrite app_assoc, Hh. }
  eapply collect_streams; [|exact Ec]. by split.
Qed.

Lemma end_streams {mem : OverRead} out ended inb c :
  streams out ended inb c -> sat (end_input_stream c) (streams out true inb).
Proof.
  intros [(b & R & Hh & He) Hr]. apply collect_streams. split; [|done].
  exists (spec_end b). split; [by apply end_input_rep|done].
Qed.
