(* ===== verification/TCPSpongeSocket.v ===== *)
(** * The socket that runs a connection

    Model of [libsponge/tcp_helpers/tcp_sponge_socket.hh] and [.cc], over any
    adapter: the four rules of the event loop, the loop of the TCP thread,
    connecting, listening and shutting down.  The two ends of the socket pair are
    [_owner] (the base object) and [_thread_data]. *)

From S2P Require Import Prelude WrappingIntegers ByteStream StreamReassembler Buffer TCPHeader.
From S2P Require Import Address FileDescriptor EventLoop TCPSegment TCPConfig FdAdapter Socket.
From S2P Require Import TCPReceiver TCPSendingWindow TCPSender TCPState TCPConnection ConnectionStreams.

(** ** The kernel

    [K] is the state of the kernel; other threads and the network change it
    between the calls.  [recv_dgram] and [send_dgram] are what the adapter calls
    on the socket or device below it. *)
Class DatagramIO (K I O : Type) := {
  recv_dgram : FDWrapper -> K -> outcome (FDWrapper * I * K);
  send_dgram : FDWrapper -> K -> O -> outcome (FDWrapper * K)
}.

(** The calls on the socket pair *)
Class PipeIO (K : Type) := {
  pipe_read : K -> Z -> (Z + list byte) * K;
  pipe_writev : K -> BufferViewList -> (Z + Z) * K;
  pipe_shutdown : K -> Z -> (Z + Z) * K
}.

Definition TCP_TICK_MS : Z := 10.

Record TCPSpongeSocket (A K : Type) := mkSponge {
  _owner : FDWrapper;
  _thread_data : FDWrapper;
  _datagram_adapter : A;
  _adapter_fd : FDWrapper;
  _tcp : option TCPConnection;
  _joinable : bool;
  _abort : bool;
  _inbound_shutdown : bool;
  _outbound_shutdown : bool;
  _fully_acked : bool;
  kernel : K
}.
Arguments mkSponge {A K} _ _ _ _ _ _ _ _ _ _ _.
Arguments _owner {A K} _.
Arguments _thread_data {A K} _.
Arguments _datagram_adapter {A K} _.
Arguments _adapter_fd {A K} _.
Arguments _tcp {A K} _.
Arguments _joinable {A K} _.
Arguments _abort {A K} _.
Arguments _inbound_shutdown {A K} _.
Arguments _outbound_shutdown {A K} _.
Arguments _fully_acked {A K} _.
Arguments kernel {A K} _.

Section setters.
  Context {A K : Type} (w : TCPSpongeSocket A K).

Definition set_tcp (c : option TCPConnection) : TCPSpongeSocket A K :=
  mkSponge (_owner w) (_thread_data w) (_datagram_adapter w) (_adapter_fd w) c (_joinable w)
    (_abort w) (_inbound_shutdown w) (_outbound_shutdown w) (_fully_acked w) (kernel w).
Definition set_adapter (a : A) : TCPSpongeSocket A K :=
  mkSponge (_owner w) (_thread_data w) a (_adapter_fd w) (_tcp w) (_joinable w)
    (_abort w) (_inbound_shutdown w) (_outbound_shutdown w) (_fully_acked w) (kernel w).
(** After a call on the descriptor below the adapter, or on [_thread_data]. *)
Definition set_adapter_fd (d : FDWrapper) (k : K) : TCPSpongeSocket A K :=
  mkSponge (_owner w) (_thread_data w) (_datagram_adapter w) d (_tcp w) (_joinable w)
    (_abort w) (_inbound_shutdown w) (_outbound_shutdown w) (_fully_acked w) k.
Definition set_thread_data (d : FDWrapper) (k : K) : TCPSpongeSocket A K :=
  mkSponge (_owner w) d (_datagram_adapter w) (_adapter_fd w) (_tcp w) (_joinable w)
    (_abort w) (_inbound_shutdown w) (_outbound_shutdown w) (_fully_acked w) k.
Definition set_owner (d : FDWrapper) (k : K) : TCPSpongeSocket A K :=
  mkSponge d (_thread_data w) (_datagram_adapter w) (_adapter_fd w) (_tcp w) (_joinable w)
    (_abort w) (_inbound_shutdown w) (_outbound_shutdown w) (_fully_acked w) k.
Definition set_joinable (b : bool) : TCPSpongeSocket A K :=
  mkSponge (_owner w) (_thread_data w) (_datagram_adapter w) (_adapter_fd w) (_tcp w) b
    (_abort w) (_inbound_shutdown w) (_outbound_shutdown w) (_fully_acked w) (kernel w).
Definition set_abort (b : bool) : TCPSpongeSocket A K :=
  mkSponge (_owner w) (_thread_data w) (_datagram_adapter w) (_adapter_fd w) (_tcp w) (_joinable w)
    b (_inbound_shutdown w) (_outbound_shutdown w) (_fully_acked w) (kernel w).
Definition set_inbound_shutdown : TCPSpongeSocket A K :=
  mkSponge (_owner w) (_thread_data w) (_datagram_adapter w) (_adapter_fd w) (_tcp w) (_joinable w)
    (_abort w) true (_outbound_shutdown w) (_fully_acked w) (kernel w).
Definition set_outbound_shutdown : TCPSpongeSocket A K :=
  mkSponge (_owner w) (_thread_data w) (_datagram_adapter w) (_adapter_fd w) (_tcp w) (_joinable w)
    (_abort w) (_inbound_shutdown w) true (_fully_acked w) (kernel w).
Definition set_fully_acked : TCPSpongeSocket A K :=
  mkSponge (_owner w) (_thread_data w) (_datagram_adapter w) (_adapter_fd w) (_tcp w) (_joinable w)
    (_abort w) (_inbound_shutdown w) (_outbound_shutdown w) true (kernel w).
Definition set_kernel (k : K) : TCPSpongeSocket A K :=
  mkSponge (_owner w) (_thread_data w) (_datagram_adapter w) (_adapter_fd w) (_tcp w) (_joinable w)
    (_abort w) (_inbound_shutdown w) (_outbound_shutdown w) (_fully_acked w) k.
End setters.

(** Descriptor 0 is the adapter's, descriptor 1 is [_thread_data]. *)
#[global] Instance sponge_fds {A K} : Fds (TCPSpongeSocket A K) := fun w n =>
  match n with 0%nat => _adapter_fd w | _ => _thread_data w end.

(** [operator->] and [operator*] of an empty [optional] are undefined. *)
Definition deref {A} (o : option A) : outcome A := match o with Some a => Ok a | None => UB end.

(** A [bool] of the connection; the rules are only asked while there is one. *)
Definition of_tcp {A K} (f : TCPConnection -> bool) (w : TCPSpongeSocket A K) : bool :=
  match _tcp w with Some c => f c | None => false end.

Definition set_inbound (c : TCPConnection) (bs : ByteStream) : TCPConnection :=
  set_receiver c (set_stream_out (_receiver c) bs).

Section code.
  Context {mem : OverRead} {A I O K : Type} {fa : FdAdapter A I O} {dg : DatagramIO K I O} {pp : PipeIO K}
    {rs : Resolver}.

Notation Sponge := (TCPSpongeSocket A K).

(** The messages on [cerr] name the peer, and [to_string] may throw. *)
Definition name_peer (w : Sponge) : outcome string :=
  Address.to_string (destination (config (_datagram_adapter w))).

(** ** Rule 1: a datagram has arrived *)

Definition report_acked (w : Sponge) : outcome Sponge :=
  if _eof (_thread_data w) then
    c ← opt_value (_tcp w);
    if (TCPConnection.bytes_in_flight c =? 0) && negb (_fully_acked w) then
      _ ← name_peer w; mret (set_fully_acked w)
    else mret w
  else mret w.

Definition rule1_callback (w : Sponge) : outcome Sponge :=
  '(d, i, k) ← recv_dgram (_adapter_fd w) (kernel w);
  let w := set_adapter_fd w d k in
  '(a, seg) ← FdAdapter.read (_datagram_adapter w) i;
  let w := set_adapter w a in
  w ← (match seg with
       | Some seg =>
           c ← deref (_tcp w);
           c ← TCPConnection.segment_received c seg;
           mret (set_tcp w (Some c))
       | None => mret w
       end);
  report_acked w.

Definition rule1_interest : Sponge -> bool := of_tcp active.

(** ** Rule 2: the owner has written bytes *)

Definition rule2_callback (w : Sponge) : outcome Sponge :=
  c ← deref (_tcp w);
  let limit := remaining_outbound_capacity c in
  let '(sys, k) := pipe_read (kernel w) (Z.min BUFFER_SIZE limit) in
  '(d, data) ← FileDescriptor.read (_thread_data w) limit sys;
  let w := set_thread_data w d k in
  '(c, amount_written) ← TCPConnection.write c data;
  let w := set_tcp w (Some c) in
  if negb (amount_written =? len data) then
    Throw (runtime_error "TCPConnection::write() accepted less than advertised length")
  else if _eof (_thread_data w) then
    c ← end_input_stream c;
    let w := set_outbound_shutdown (set_tcp w (Some c)) in
    _ ← name_peer w;
    mret w
  else mret w.

Definition rule2_interest (w : Sponge) : bool :=
  of_tcp active w && negb (_outbound_shutdown w) &&
  of_tcp (fun c => remaining_outbound_capacity c >? 0) w.

Definition rule2_cancel (w : Sponge) : outcome Sponge :=
  c ← deref (_tcp w);
  c ← end_input_stream c;
  mret (set_outbound_shutdown (set_tcp w (Some c))).

(** ** Rule 3: there are bytes for the owner *)

Definition rule3_callback (w : Sponge) : outcome Sponge :=
  c ← deref (_tcp w);
  let inbound := inbound_stream c in
  let amount_to_write := Z.min 65536 (ByteStream.buffer_size inbound) in
  buffer ← peek_output inbound amount_to_write;
  '(d, k, bytes_written) ← FileDescriptor.write pipe_writev (_thread_data w) (kernel w) [buffer] false;
  let w := set_thread_data w d k in
  let inbound := pop_output inbound bytes_written in
  let w := set_tcp w (Some (set_inbound c inbound)) in
  if eof inbound || ByteStream.error inbound then
    let '(sys, k) := pipe_shutdown (kernel w) SHUT_WR in
    _ ← answer "shutdown" sys;
    d ← shutdown_counts (_thread_data w) SHUT_WR;
    let w := set_inbound_shutdown (set_thread_data w d k) in
    _ ← name_peer w;
    mret w
  else mret w.

Definition rule3_interest (w : Sponge) : bool :=
  of_tcp (fun c => negb (ByteStream.buffer_empty (inbound_stream c))) w ||
  (of_tcp (fun c => eof (inbound_stream c) || ByteStream.error (inbound_stream c)) w &&
   negb (_inbound_shutdown w)).

(** ** Rule 4: the connection has segments to send *)

(** The [while] loop, over the queue that is left. *)
Fixpoint send_loop (w : Sponge) (c : TCPConnection) (queue : list TCPSegment) : outcome Sponge :=
  match queue with
  | [] => mret (set_tcp w (Some (set_queue c [])))
  | seg :: rest =>
      '(a, _, o) ← FdAdapter.write (_datagram_adapter w) seg;
      let w := set_adapter w a in
      '(d, k) ← (match o with
                 | Some o => send_dgram (_adapter_fd w) (kernel w) o
                 | None => mret (_adapter_fd w, kernel w)
                 end);
      send_loop (set_adapter_fd w d k) c rest
  end.

Definition rule4_callback (w : Sponge) : outcome Sponge :=
  c ← deref (_tcp w);
  send_loop w c (_segments_out c).

Definition rule4_interest : Sponge -> bool :=
  of_tcp (fun c => negb (bool_decide (_segments_out c = []))).

(** ** Setting up *)

Definition rules : list (Rule Sponge) :=
  [mkRule 0 In rule1_callback rule1_interest mret;
   mkRule 1 In rule2_callback rule2_interest rule2_cancel;
   mkRule 1 Out rule3_callback rule3_interest mret;
   mkRule 0 Out rule4_callback rule4_interest mret].

Definition _initialize_TCP (loop : list (Rule Sponge)) (w : Sponge) (cfg : TCPConfig) (random : Z) :
    list (Rule Sponge) * Sponge :=
  (foldl add_rule loop rules, set_tcp w (Some (new cfg random))).

(** ** The loop *)

(** What happens during one round: what other threads and the network do to the
    kernel before it, the answer of [poll], whether the owner has asked to abort,
    and the time after it. *)
Record round := mkRound {
  r_env : K -> K;
  r_poll : list pollfd -> Z + Z * list Z;
  r_abort : bool;
  r_now : Z
}.

Record loop_state := mkLoop { l_rules : list (Rule Sponge); l_world : Sponge; l_base_time : Z }.

(** One iteration; [true] when the loop is left. *)
Definition tcp_round (condition : Sponge -> bool) (x : loop_state) (rd : round) :
    outcome (loop_state * bool) :=
  if negb (condition (l_world x)) then mret (x, true)
  else
    let w := set_kernel (l_world x) (r_env rd (kernel (l_world x))) in
    '(ret, rs, w) ← wait_next_event (l_rules x) w (r_poll rd);
    let w := if r_abort rd then set_abort w true else w in
    if (match ret with Exit => true | _ => false end) || _abort w then
      mret (mkLoop rs w (l_base_time x), true)
    else
      c ← opt_value (_tcp w);
      if active c then
        let next_time := r_now rd in
        let elapsed := u64 (next_time - l_base_time x) in
        c ← TCPConnection.tick c elapsed;
        let w := set_tcp w (Some c) in
        let w := set_adapter w (FdAdapter.tick (_datagram_adapter w) elapsed) in
        mret (mkLoop rs w next_time, false)
      else mret (mkLoop rs w (l_base_time x), false).

(** [_tcp_loop]: as many rounds as are given, or until the loop is left. *)
Fixpoint _tcp_loop (condition : Sponge -> bool) (x : loop_state) (rounds : list round) :
    outcome (loop_state * bool) :=
  match rounds with
  | [] => mret (x, false)
  | rd :: rounds =>
      '(x, left_loop) ← tcp_round condition x rd;
      if (left_loop : bool) then mret (x, true) else _tcp_loop condition x rounds
  end.

(** ** Connecting and listening *)

Definition in_official (s : State) : Sponge -> bool :=
  of_tcp (fun c => in_state (TCPConnection.state c) s).

(** [connect] up to its loop *)
Definition connect_start (loop : list (Rule Sponge)) (w : Sponge) (c_tcp : TCPConfig) (random : Z)
    (c_ad : FdAdapterConfig) : outcome (list (Rule Sponge) * Sponge) :=
  if bool_decide (is_Some (_tcp w)) then
    Throw (runtime_error "connect() with TCPConnection already initialized")
  else
    let '(loop, w) := _initialize_TCP loop w c_tcp random in
    let w := set_adapter w (set_config c_ad (_datagram_adapter w)) in
    _ ← Address.to_string (destination c_ad);
    c ← deref (_tcp w);
    c ← TCPConnection.connect c;
    let w := set_tcp w (Some c) in
    if negb (in_state (TCPConnection.state c) SYN_SENT) then
      Throw (runtime_error ("After TCPConnection::connect(), state was " +:+ name (TCPConnection.state c) +:+
               " but expected " +:+ name (official SYN_SENT)))
    else mret (loop, w).

(** The thread is started once the loop has been left. *)
Definition start_thread (x : loop_state * bool) : loop_state * bool :=
  let '(x, left_loop) := x in
  (if (left_loop : bool) then mkLoop (l_rules x) (set_joinable (l_world x) true) (l_base_time x) else x,
   left_loop).

Definition connect (loop : list (Rule Sponge)) (w : Sponge) (c_tcp : TCPConfig) (random : Z)
    (c_ad : FdAdapterConfig) (now : Z) (rounds : list round) : outcome (loop_state * bool) :=
  '(loop, w) ← connect_start loop w c_tcp random c_ad;
  x ← _tcp_loop (in_official SYN_SENT) (mkLoop loop w now) rounds;
  mret (start_thread x).

(** [listen_and_accept] up to its loop *)
Definition listen_start (loop : list (Rule Sponge)) (w : Sponge) (c_tcp : TCPConfig) (random : Z)
    (c_ad : FdAdapterConfig) : outcome (list (Rule Sponge) * Sponge) :=
  if bool_decide (is_Some (_tcp w)) then
    Throw (runtime_error "listen_and_accept() with TCPConnection already initialized")
  else
    let '(loop, w) := _initialize_TCP loop w c_tcp random in
    let w := set_adapter w (set_config c_ad (_datagram_adapter w)) in
    mret (loop, set_adapter w (set_listening true (_datagram_adapter w))).

Definition listening_condition (w : Sponge) : bool :=
  in_official LISTEN w || in_official SYN_RCVD w || in_official SYN_SENT w.

Definition listen_and_accept (loop : list (Rule Sponge)) (w : Sponge) (c_tcp : TCPConfig) (random : Z)
    (c_ad : FdAdapterConfig) (now : Z) (rounds : list round) : outcome (loop_state * bool) :=
  '(loop, w) ← listen_start loop w c_tcp random c_ad;
  '(x, left_loop) ← _tcp_loop listening_condition (mkLoop loop w now) rounds;
  _ ← (if (left_loop : bool) then name_peer (l_world x) else mret EmptyString);
  mret (start_thread (x, left_loop)).

(** ** The thread and its end *)

(** [shutdown(SHUT_RDWR)] on the owner's end *)
Definition shutdown_owner (w : Sponge) : outcome Sponge :=
  let '(sys, k) := pipe_shutdown (kernel w) SHUT_RDWR in
  _ ← answer "shutdown" sys;
  d ← shutdown_counts (_owner w) SHUT_RDWR;
  mret (set_owner w d k).

(** [_tcp_main]; what it catches it throws again, which ends the program.  Also
    returned is the connection as its destructor, which [reset] runs, leaves it,
    before its memory is freed. *)
Definition _tcp_main (x : loop_state) (rounds : list round) :
    outcome (loop_state * option TCPConnection) :=
  if negb (bool_decide (is_Some (_tcp (l_world x)))) then Throw (runtime_error "no TCP")
  else
    '(x, left_loop) ← _tcp_loop (fun _ => true) x rounds;
    if (left_loop : bool) then
      w ← shutdown_owner (l_world x);
      c ← opt_value (_tcp w);
      mret (mkLoop (l_rules x) (set_tcp w None) (l_base_time x), Some (TCPConnection.destroy c))
    else mret (x, None).

(** [wait_until_closed]: [join] waits for the end of the thread. *)
Definition wait_until_closed (w : Sponge) : outcome Sponge :=
  w ← shutdown_owner w;
  mret (if _joinable w then set_joinable w false else w).

(** The destructor *)
Definition destroy (w : Sponge) : Sponge :=
  if _joinable w then set_joinable (set_abort w true) false else w.
End code.

(** ** Construction *)

Section construction.
  Context {calls : Kernel} {A K : Type}.

Definition socket_pair_helper (type : Z) : outcome (FDWrapper * FDWrapper) :=
  '(fd0, fd1) ← answer "socketpair" (k_socketpair AF_UNIX type 0);
  first ← FDWrapper_new fd0;
  second ← FDWrapper_new fd1;
  mret (first, second).

(** The constructor from a pair of descriptors, and the public one; [d] is the
    descriptor below the adapter [a]. *)
Definition TCPSpongeSocket_of_pair (data_socket_pair : FDWrapper * FDWrapper) (a : A) (d : FDWrapper)
    (k : K) : outcome (TCPSpongeSocket A K) :=
  owner ← LocalStreamSocket_of (fst data_socket_pair);
  thread_data ← LocalStreamSocket_of (snd data_socket_pair);
  _ ← set_blocking thread_data false;
  mret (mkSponge owner thread_data a d None false false false false false k).

Definition TCPSpongeSocket_new (a : A) (d : FDWrapper) (k : K) : outcome (TCPSpongeSocket A K) :=
  data_socket_pair ← socket_pair_helper SOCK_STREAM;
  TCPSpongeSocket_of_pair data_socket_pair a d k.
End construction.

(** ** CS144TCPSocket

    A socket over the device [tun144] at a random port of 169.254.144.9. *)
Section cs144.
  Context {calls : Kernel} {mem : OverRead} {K : Type} {rs : Resolver}
    {dg : DatagramIO K (list byte) BufferList} {pp : PipeIO K}.

Notation Adapter := TCPOverIPv4OverTunFdAdapter.

Definition tun144 : list byte := [Byte.x74; Byte.x75; Byte.x6e; Byte.x31; Byte.x34; Byte.x34].

Definition CS144TCPSocket_new (k : K) : outcome (TCPSpongeSocket Adapter K) :=
  d ← TunFD_new tun144;
  cfg ← FdAdapterConfig_default;
  TCPSpongeSocket_new (mkTunAdapter (mkFdAdapterBase cfg false)) d k.

(** [port_random] is what [random_device] returns for the port. *)
Definition CS144TCPSocket_connect (loop : list (Rule (TCPSpongeSocket Adapter K)))
    (w : TCPSpongeSocket Adapter K) (address : Address) (port_random isn_random now : Z)
    (rounds : list (round (K := K))) : outcome (loop_state * bool) :=
  let tcp_config := mkTCPConfig 100 DEFAULT_CAPACITY DEFAULT_CAPACITY None in
  multiplexer_config ← FdAdapterConfig_default;
  source ← of_names "169.254.144.9" (to_dec (u16 port_random));
  let multiplexer_config := set_destination address (set_source source multiplexer_config) in
  connect (I := list byte) (O := BufferList) loop w tcp_config isn_random multiplexer_config now rounds.
End cs144.

(** ** What the socket relies on

    [taken k] is what has been read from [_thread_data] so far and [given k] what
    has been written to it.  A receive registers a read on its descriptor. *)
Class SocketIOOk (K I O : Type) `{DatagramIO K I O} `{PipeIO K} (taken given : K -> list byte) := {
  io_recv d k d' i k' : recv_dgram d k = Ok (d', i, k') ->
    _read_count d' = u32 (_read_count d + 1) /\ taken k' = taken k /\ given k' = given k;
  io_send d k o d' k' : send_dgram d k o = Ok (d', k') -> taken k' = taken k /\ given k' = given k;
  io_read k n sys k' : 0 <= n -> pipe_read k n = (sys, k') ->
    given k' = given k /\
    match sys with
    | inl errno => 0 < errno /\ taken k' = taken k
    | inr data => len data <= n /\ taken k' = taken k ++ data
    end;
  io_write k vs sys k' : pipe_writev k vs = (sys, k') ->
    taken k' = taken k /\
    match sys with
    | inl errno => 0 < errno /\ given k' = given k
    | inr n => 0 <= n <= len (concat vs) /\ given k' = given k ++ ztake n (concat vs)
    end;
  io_shutdown k how sys k' : pipe_shutdown k how = (sys, k') -> taken k' = taken k /\ given k' = given k
}.

(** ** The socket is a conduit

    The bytes read from the owner are exactly those the connection has accepted
    for sending, the bytes given to the owner exactly those read from the
    inbound stream; and the outbound stream is ended when the flag says so. *)
Section conduit.
  Context {mem : OverRead} {A I O K : Type} {fa : FdAdapter A I O} {dg : DatagramIO K I O} {pp : PipeIO K}
    {rs : Resolver}.
  Context (taken given : K -> list byte) `{!SocketIOOk K I O taken given}.

Notation Sponge := (TCPSpongeSocket A K).

Definition carries (w : Sponge) (c : TCPConnection) : Prop :=
  streams (taken (kernel w)) (_outbound_shutdown w) (given (kernel w)) c.

Definition conduit (w : Sponge) : Prop := exists c, _tcp w = Some c /\ carries w c.

(** *** Where the loop can fail

    A datagram that was received in [w] and what the adapter made of it, bytes
    that were read from the owner, and segments of the queue that were sent. *)
Definition received_by (w : Sponge) (i : I) (a : A) (seg : option TCPSegment) : Prop :=
  exists d k, recv_dgram (_adapter_fd w) (kernel w) = Ok (d, i, k) /\
    FdAdapter.read (_datagram_adapter w) i = Ok (a, seg).

Definition read_from_owner (w : Sponge) (c : TCPConnection) (data : list byte) : Prop :=
  _tcp w = Some c /\
  exists d, FileDescriptor.read (_thread_data w) (remaining_outbound_capacity c)
    (pipe_read (kernel w) (Z.min BUFFER_SIZE (remaining_outbound_capacity c))).1 = Ok (d, data).

Inductive sent_from (w : Sponge) : list TCPSegment -> Sponge -> Prop :=
  | sent_from_none : sent_from w [] w
  | sent_from_one q w1 seg a seg' o d k :
      sent_from w q w1 -> FdAdapter.write (_datagram_adapter w1) seg = Ok (a, seg', o) ->
      match o with
      | Some o => send_dgram (_adapter_fd w1) (kernel w1) o
      | None => Ok (_adapter_fd w1, kernel w1)
      end = Ok (d, k) ->
      sent_from w (q ++ [seg]) (set_adapter_fd (set_adapter w1 a) d k).

(** The calls a callback or a cancellation makes when it is run in [w], failing
    with [f]: each with the arguments it has there. *)
Inductive call_fails (w : Sponge) (f : fault) : Prop :=
  | cf_recv : fails (recv_dgram (I := I) (_adapter_fd w) (kernel w)) f -> call_fails w f
  | cf_adapter_read d i k :
      recv_dgram (_adapter_fd w) (kernel w) = Ok (d, i, k) ->
      fails (FdAdapter.read (_datagram_adapter w) i) f -> call_fails w f
  | cf_segment i a seg c :
      received_by w i a (Some seg) -> _tcp w = Some c ->
      fails (TCPConnection.segment_received c seg) f -> call_fails w f
  | cf_read c errno k :
      _tcp w = Some c ->
      pipe_read (kernel w) (Z.min BUFFER_SIZE (remaining_outbound_capacity c)) = (inl errno, k) ->
      f = Thrown (unix_error "read" errno) -> call_fails w f
  | cf_write c data :
      read_from_owner w c data -> fails (TCPConnection.write c data) f -> call_fails w f
  | cf_end c data c' n :
      read_from_owner w c data -> TCPConnection.write c data = Ok (c', n) ->
      fails (end_input_stream c') f -> call_fails w f
  | cf_cancel c : _tcp w = Some c -> fails (end_input_stream c) f -> call_fails w f
  | cf_give c buffer e :
      _tcp w = Some c ->
      peek_output (inbound_stream c) (Z.min 65536 (ByteStream.buffer_size (inbound_stream c))) = Ok buffer ->
      FileDescriptor.write pipe_writev (_thread_data w) (kernel w) [buffer] false = Throw e ->
      write_fails e -> f = Thrown e -> call_fails w f
  | cf_shutdown c buffer d k n k' errno :
      _tcp w = Some c ->
      peek_output (inbound_stream c) (Z.min 65536 (ByteStream.buffer_size (inbound_stream c))) = Ok buffer ->
      FileDescriptor.write pipe_writev (_thread_data w) (kernel w) [buffer] false = Ok (d, k, n) ->
      pipe_shutdown k SHUT_WR = (inl errno, k') -> f = Thrown (unix_error "shutdown" errno) -> call_fails w f
  | cf_adapter_write c q seg rest w1 :
      _tcp w = Some c -> _segments_out c = q ++ seg :: rest -> sent_from w q w1 ->
      fails (FdAdapter.write (_datagram_adapter w1) seg) f -> call_fails w f
  | cf_send c q seg rest w1 a seg' o :
      _tcp w = Some c -> _segments_out c = q ++ seg :: rest -> sent_from w q w1 ->
      FdAdapter.write (_datagram_adapter w1) seg = Ok (a, seg', Some o) ->
      fails (send_dgram (_adapter_fd w1) (kernel w1) o) f -> call_fails w f
  | cf_name a :
      a = _datagram_adapter w \/ (exists i seg, received_by w i a seg) ->
      fails (Address.to_string (destination (config a))) f -> call_fails w f.

Notation ends := EventLoop.ends.

Lemma name_peer_step {C} (w0 w : Sponge) (v : outcome C) (Q : C -> Prop) :
  _datagram_adapter w = _datagram_adapter w0 \/ (exists i seg, received_by w0 i (_datagram_adapter w) seg) ->
  ends (call_fails w0) v Q -> ends (call_fails w0) (_ ← name_peer w; v) Q.
Proof. intros Ha Hv. apply EventLoop.ends_step; [intros e He; by eapply cf_name|done]. Qed.

Lemma report_acked_ends (w0 w : Sponge) (Q : Sponge -> Prop) c :
  (exists i seg, received_by w0 i (_datagram_adapter w) seg) ->
  _tcp w = Some c -> Q w -> Q (set_fully_acked w) -> ends (call_fails w0) (report_acked w) Q.
Proof.
  intros Ha Hc H1 H2. unfold report_acked. case_bool; [|done]. rewrite Hc. cbn [opt_value mbind outcome_bind].
  case_bool; [|done]. apply name_peer_step; [by right|done].
Qed.

(** *** The rules *)

Lemma rule1_ends w :
  conduit w ->
  ends (call_fails w) (rule1_callback w) (fun w' => conduit w' /\ _outbound_shutdown w' = _outbound_shutdown w /\
    _read_count (_adapter_fd w') <> _read_count (_adapter_fd w)).
Proof.
  intros (c & Hc & Hs). unfold rule1_callback.
  apply EventLoop.ends_step; [intros; by eapply cf_recv|]. intros [[d i] k] E.
  destruct (io_recv _ _ _ _ _ E) as (Hn & E1 & E2).
  assert (Hne : _read_count d <> _read_count (_adapter_fd w)) by (rewrite Hn; apply u32_succ_ne).
  apply EventLoop.ends_step; [intros; by eapply cf_adapter_read|]. intros [a seg] Ea.
  assert (Hrec : received_by w i a seg) by (by exists d, k).
  set (w1 := set_adapter (set_adapter_fd w d k) a).
  assert (H1 : carries w1 c) by (unfold carries; simpl; by rewrite E1, E2).
  assert (Hdone : forall c', carries w1 c' -> ends (call_fails w) (report_acked (set_tcp w1 (Some c')))
    (fun w' => conduit w' /\ _outbound_shutdown w' = _outbound_shutdown w /\
       _read_count (_adapter_fd w') <> _read_count (_adapter_fd w))).
  { intros c' Hc'. eapply (report_acked_ends _ _ _ c'); [by exists i, seg|done|..]; split; try done; by exists c'. }
  destruct seg as [seg|].
  - cbn [w1 set_adapter set_adapter_fd _tcp]. rewrite Hc. cbn [deref mbind outcome_bind].
    rewrite outcome_bind_assoc. apply EventLoop.ends_step; [intros; by eapply cf_segment|]. intros c' Eseg.
    apply Hdone. exact (segment_received_streams _ _ _ _ _ H1 _ Eseg).
  - cbn [mbind outcome_bind mret outcome_ret].
    eapply (report_acked_ends _ _ _ c); [by exists i, None|done|..]; split; try done; by exists c.
Qed.

Lemma shutdown_WR_ok d : shutdown_counts d SHUT_WR = Ok (register_write d).
Proof. done. Qed.

Lemma rule2_ends w :
  conduit w -> _outbound_shutdown w = false ->
  ends (call_fails w) (rule2_callback w) (fun w' => conduit w' /\
    _read_count (_thread_data w') <> _read_count (_thread_data w)).
Proof.
  intros (c & Hc & Hs) Hno. unfold rule2_callback. rewrite Hc. cbn [deref mbind outcome_bind]. cbv zeta.
  unfold carries in Hs. rewrite Hno in Hs.
  assert (Hcap : 0 <= remaining_outbound_capacity c) by (apply u64_range).
  destruct (pipe_read (kernel w) _) as [sys k] eqn:Er. pose proof Er as Er'. apply io_read in Er' as [Hg Hsys]; [|unfold BUFFER_SIZE; lia].
  apply EventLoop.ends_step.
  { intros e He. apply fd_read_faults in He as (errno & -> & ->);
      [by eapply cf_read|destruct sys; apply Hsys]. }
  intros [d data] E.
  assert (Hrd : read_from_owner w c data) by (split; [done|]; exists d; by rewrite Er).
  apply fd_read_ok in E as (-> & Hn & _); [|destruct sys; tauto]. destruct Hsys as [Hl Ht].
  apply EventLoop.ends_step; [intros; by eapply cf_write|]. intros [c1 n] Ew.
  destruct (write_streams _ _ _ _ _ _ _ Hs Ew) as [En Hs1]. rewrite Z.min_l in En by lia. subst n.
  rewrite Z.eqb_refl. cbn [negb]. rewrite ztake_all in Hs1 by lia. rewrite <- Ht, <- Hg in Hs1.
  assert (Hne : _read_count d <> _read_count (_thread_data w)) by (rewrite Hn; apply u32_succ_ne).
  case_bool.
  - apply EventLoop.ends_step; [intros; by eapply cf_end|]. intros c2 Ee. apply name_peer_step; [by left|].
    split; [|done]. exists c2. split; [done|]. exact (end_streams _ _ _ _ Hs1 _ Ee).
  - split; [|done]. exists c1. split; [done|]. unfold carries. simpl. by rewrite Hno.
Qed.

Lemma rule2_cancel_ends w :
  conduit w -> ends (call_fails w) (rule2_cancel w) conduit.
Proof.
  intros (c & Hc & Hs). unfold rule2_cancel. rewrite Hc. cbn [deref mbind outcome_bind].
  apply EventLoop.ends_step; [intros; by eapply cf_cancel|]. intros c' E. exists c'. split; [done|].
  exact (end_streams _ _ _ _ Hs _ E).
Qed.

Lemma rule3_ends w :
  conduit w ->
  ends (call_fails w) (rule3_callback w) (fun w' => conduit w' /\ _outbound_shutdown w' = _outbound_shutdown w /\
    _write_count (_thread_data w') <> _write_count (_thread_data w)).
Proof.
  intros (c & Hc & Hs & b & R & Hb). unfold rule3_callback. rewrite Hc.
  apply EventLoop.ends_step; [done|]. intros ? [= <-]. cbv zeta.
  apply EventLoop.ends_step.
  { intros e He. unfold inbound_stream in He. by rewrite (peek_rep _ _ _ R) in He. }
  intros buffer Ebuf. pose proof Ebuf as Epeek.
  unfold inbound_stream in Ebuf. rewrite (buffer_size_eq _ _ R), (peek_rep _ _ _ R) in Ebuf.
  injection Ebuf as Ebuf.
  assert (Hl : len buffer <= 65536) by (rewrite <- Ebuf, len_ztake; lia).
  apply EventLoop.ends_step.
  { intros e He. pose proof He as He'. apply fd_write_faults in He as (ex & -> & Hex); [| |lia].
    { apply (cf_give _ _ c buffer ex Hc Epeek); [by apply fails_thrown|exact Hex|reflexivity]. }
    intros sys k1 E1. apply io_write in E1 as [_ E1]. simpl in E1. rewrite app_nil_r in E1. destruct sys; tauto. }
  intros [[d k] n] E.
  pose proof E as Ewr. apply fd_write_part in E as (Ew & Hn & ->); [|intros sys k1 E1; apply io_write in E1; destruct sys; tauto|lia].
  apply io_write in Ew as (Et & _ & Eg). simpl in Eg. rewrite app_nil_r in Eg.
  assert (Hbuf : ztake n buffer = ztake n (s_pending b)).
  { subst buffer. unfold ztake in *. rewrite take_take. f_equal. rewrite length_take in Hn. lia. }
  pose proof (pop_rep _ _ n R ltac:(lia)) as R'. change (inbound_stream c) with (TCPReceiver.stream_out (_receiver c)).
  set (inbound := pop_output _ n) in *. set (w1 := set_tcp _ _).
  assert (Hw1 : conduit w1).
  { exists (set_inbound c inbound). split; [done|]. unfold carries, w1. simpl. rewrite Et.
    split; [exact Hs|]. exists (spec_pop b n). split; [exact R'|]. simpl. by rewrite Eg, Hb, Hbuf. }
  case_bool.
  - destruct (pipe_shutdown (kernel w1) SHUT_WR) as [sys k'] eqn:Esh.
    pose proof Esh as Esh'. apply io_shutdown in Esh' as [S1 S2].
    destruct sys as [errno|ret]; cbn [answer mbind outcome_bind mret outcome_ret]; [by eapply cf_shutdown|].
    rewrite shutdown_WR_ok. cbn [mbind outcome_bind]. apply name_peer_step; [by left|].
    destruct Hw1 as (c1 & Hc1 & Hs1). split; [|split; [done|]].
    + exists c1. split; [done|]. unfold carries in *. simpl in *. by rewrite S1, S2.
    + simpl. wrap_lia.
  - split; [done|]. split; [done|]. simpl. apply u32_succ_ne.
Qed.

Lemma send_loop_ends w0 c : forall rest q w,
  _tcp w0 = Some c -> _segments_out c = q ++ rest -> sent_from w0 q w -> carries w c ->
  ends (call_fails w0) (send_loop w c rest) (fun w' => exists c', _tcp w' = Some c' /\ carries w' c' /\
    _segments_out c' = [] /\ _outbound_shutdown w' = _outbound_shutdown w).
Proof.
  induction rest as [|seg rest IH]; intros q w Hc Eq Hq Hs; cbn [send_loop].
  { exists (set_queue c []). split_and!; try done. }
  apply EventLoop.ends_step; [intros; by eapply cf_adapter_write|]. intros [[a seg'] o] Ea. cbv zeta.
  apply EventLoop.ends_step.
  { intros e. destruct o as [o|]; [|done]. intros; by eapply cf_send. }
  intros [d k] E.
  assert (Hk : taken k = taken (kernel w) /\ given k = given (kernel w)).
  { destruct o as [o|]; [exact (io_send _ _ _ _ _ E)|]. by injection E as <- <-. }
  destruct Hk as [E1 E2].
  eapply EventLoop.ends_mono; [eapply (IH (q ++ [seg]))|]; [done| |by eapply sent_from_one| |done].
  - by rewrite <- app_assoc.
  - unfold carries in *. simpl. by rewrite E1, E2.
Qed.

Lemma rule4_ends w :
  conduit w ->
  ends (call_fails w) (rule4_callback w) (fun w' => conduit w' /\ _outbound_shutdown w' = _outbound_shutdown w /\
    rule4_interest w' = false).
Proof.
  intros (c & Hc & Hs). unfold rule4_callback. rewrite Hc. cbn [deref mbind outcome_bind].
  eapply EventLoop.ends_mono; [by apply (send_loop_ends w c _ []); [..|constructor|]|].
  intros w' (c' & Hc' & Hs' & Hq & Ho). split; [by exists c'|]. split; [done|].
  unfold rule4_interest, of_tcp. by rewrite Hc', Hq.
Qed.

(** *** The event loop *)

(** What happens to the world of the loop between two of its calls: other
    threads and the network act, a rule is served or cancelled, the owner's
    wish to abort is noticed, time passes. *)
Inductive loop_step (rounds : list (round (K := K))) : Sponge -> Sponge -> Prop :=
  | step_env rd w : rd ∈ rounds -> loop_step rounds w (set_kernel w (r_env rd (kernel w)))
  | step_callback r w w' :
      r ∈ rules (I := I) (O := O) -> callback r w = Ok w' -> loop_step rounds w w'
  | step_cancel r w w' :
      r ∈ rules (I := I) (O := O) -> cancel r w = Ok w' -> loop_step rounds w w'
  | step_abort rd w : rd ∈ rounds -> r_abort rd = true -> loop_step rounds w (set_abort w true)
  | step_tick rd base c c' w :
      rd ∈ rounds -> _tcp w = Some c -> active c = true ->
      let elapsed := u64 (r_now rd - base) in
      TCPConnection.tick c elapsed = Ok c' ->
      loop_step rounds w
        (set_adapter (set_tcp w (Some c')) (FdAdapter.tick (_datagram_adapter w) elapsed)).

(** The loop fails as [poll] reports an error on a descriptor, or as a call that
    a rule or the clock makes fails, in a world the loop came to. *)
Inductive loop_fails (w0 : Sponge) (rounds : list (round (K := K))) (f : fault) : Prop :=
  | lf_poll : f = Thrown (runtime_error "EventLoop: error on polled file descriptor") -> loop_fails w0 rounds f
  | lf_call w : rtc (loop_step rounds) w0 w -> conduit w -> call_fails w f -> loop_fails w0 rounds f
  | lf_tick w rd base c :
      rtc (loop_step rounds) w0 w -> conduit w -> rd ∈ rounds -> _tcp w = Some c -> active c = true ->
      fails (TCPConnection.tick c (u64 (r_now rd - base))) f -> loop_fails w0 rounds f.

(** Rule 2 relies on its own flag: it has not ended the outbound stream yet. *)
Definition rule_armed (_ : list (Rule Sponge)) (r : Rule Sponge) (w : Sponge) : Prop :=
  fd r = 1%nat -> direction r = In -> _outbound_shutdown w = false.

Section rounds.
  Context (w0 : Sponge) (rounds : list (round (K := K))).

(** The invariant does not depend on which rules are left. *)
Definition came_to (_ : list (Rule Sponge)) (w : Sponge) : Prop :=
  conduit w /\ rtc (loop_step rounds) w0 w.

(** A rule that is served in a world the loop came to *)
Lemma callback_ends l r w (Q : Sponge -> Prop) :
  came_to l w -> r ∈ rules (I := I) (O := O) ->
  ends (call_fails w) (callback r w) (fun w' => conduit w' /\ Q w') ->
  ends (loop_fails w0 rounds) (callback r w) (fun w' => came_to l w' /\ Q w').
Proof.
  intros [Hw Hr] Hin He. destruct (callback r w) as [w'|e|] eqn:E; simpl in *; [|by eapply lf_call..].
  destruct He as [Hc HQ]. split; [split; [done|]|done]. eapply rtc_r; [exact Hr|by eapply step_callback].
Qed.

Lemma cancel_ends l l' r w :
  came_to l w -> r ∈ rules (I := I) (O := O) ->
  ends (call_fails w) (cancel r w) conduit -> ends (loop_fails w0 rounds) (cancel r w) (came_to l').
Proof.
  intros [Hw Hr] Hin He. destruct (cancel r w) as [w'|e|] eqn:E; simpl in *; [|by eapply lf_call..].
  split; [done|]. eapply rtc_r; [exact Hr|by eapply step_cancel].
Qed.

Lemma rules_sat : Forall (rule_sat came_to rule_armed (loop_fails w0 rounds)) (rules (I := I) (O := O)).
Proof.
  apply Forall_forall. intros r Hin. split.
  - intros l w _ _ _ Hi Hf Hd. unfold rules in Hin. rewrite !elem_of_cons, elem_of_nil in Hin.
    destruct Hin as [->|[->|[->|[->|[]]]]]; try done. cbn [interest] in Hi. unfold rule2_interest in Hi.
    apply andb_true_iff in Hi as [[_ Hi]%andb_true_iff _]. by apply negb_true_iff in Hi.
  - intros l w _ Hw Ha. apply callback_ends; [done..|]. destruct Hw as [Hw _].
    unfold rules in Hin. rewrite !elem_of_cons, elem_of_nil in Hin.
    destruct Hin as [->|[->|[->|[->|[]]]]]; cbn [callback].
    + eapply EventLoop.ends_mono; [by apply rule1_ends|]. intros w' (H1 & _ & H3). split; [done|by left].
    + eapply EventLoop.ends_mono; [by apply rule2_ends; [|apply Ha]|]. intros w' (H1 & H3). split; [done|by left].
    + eapply EventLoop.ends_mono; [by apply rule3_ends|]. intros w' (H1 & _ & H3). split; [done|by left].
    + eapply EventLoop.ends_mono; [by apply rule4_ends|]. intros w' (H1 & _ & H3). split; [done|by right].
  - intros pre post w Hw. eapply cancel_ends; [done..|]. destruct Hw as [Hw _].
    unfold rules in Hin. rewrite !elem_of_cons, elem_of_nil in Hin.
    destruct Hin as [->|[->|[->|[->|[]]]]]; cbn [cancel]; try done. by apply rule2_cancel_ends.
Qed.

Lemma rules_compatible : compatible came_to rule_armed (rules (I := I) (O := O)).
Proof.
  repeat constructor; unfold rule_armed, came_to; cbn [fd direction callback cancel]; try done.
  all: try (intros l w w' _ _ [Hw _] Ha _ E Hf Hd; try done; specialize (Ha Hf Hd)).
  all: try (intros pre post w w' _ [Hw _] Ha E Hf Hd; try done; specialize (Ha Hf Hd); by injection E as <-).
  - pose proof (EventLoop.ends_eq _ _ _ _ (rule1_ends _ Hw) E) as (_ & -> & _). done.
  - pose proof (EventLoop.ends_eq _ _ _ _ (rule3_ends _ Hw) E) as (_ & -> & _). done.
  - pose proof (EventLoop.ends_eq _ _ _ _ (rule4_ends _ Hw) E) as (_ & -> & _). done.
Qed.

(** *** The thread *)

(** Other threads and the network do not undo what was read and written, and
    [poll] fills in one entry per descriptor. *)
Record round_ok (rd : round (K := K)) : Prop := {
  rk_env k : taken (r_env rd k) = taken k /\ given (r_env rd k) = given k;
  rk_poll ps : match r_poll rd ps with inl errno => 0 < errno | inr (n, rs) => length rs = length ps end
}.

Record loop_ok (x : loop_state (A := A) (K := K)) : Prop := {
  lk_conduit : conduit (l_world x);
  lk_rules : l_rules x `sublist_of` rules (I := I) (O := O)
}.

Definition loop_runs (x : loop_state (A := A) (K := K)) : Prop :=
  loop_ok x /\ rtc (loop_step rounds) w0 (l_world x).

Lemma tcp_round_ends condition x rd :
  loop_runs x -> rd ∈ rounds -> round_ok rd ->
  ends (loop_fails w0 rounds) (tcp_round (I := I) (O := O) condition x rd) (fun y => loop_runs y.1).
Proof.
  intros [[Hc Hs] Hr] Hrd [Henv Hpoll]. unfold tcp_round. case_bool; [done|]. cbv zeta.
  set (w := set_kernel _ _).
  assert (Hw : came_to (l_rules x) w).
  { split; [|by eapply rtc_r, step_env]. destruct Hc as (c & Ec & Hc). exists c. split; [done|].
    unfold carries, w in *. simpl. by destruct (Henv (kernel (l_world x))) as [-> ->]. }
  eapply EventLoop.ends_bind.
  { eapply (wait_next_event_ends came_to rule_armed (loop_fails w0 rounds));
      [by apply lf_poll| | |exact Hw|exact Hpoll].
    - eapply sublist_Forall; [exact Hs|apply rules_sat].
    - eapply compatible_sublist; [exact Hs|apply rules_compatible]. }
  intros [[ret rules1] w1] [[Hw1 Hr1] Hs1]. set (w2 := if r_abort rd then _ else w1).
  assert (Hw2 : conduit w2) by (unfold w2; by case_bool).
  assert (Hr2 : rtc (loop_step rounds) w0 w2)
    by (unfold w2; destruct (r_abort rd) eqn:Hab; [by eapply rtc_r, step_abort|done]).
  assert (Hs2 : rules1 `sublist_of` rules (I := I) (O := O)) by (by etrans).
  case_bool; [done|]. pose proof Hw2 as (c & Ec & Hc2). rewrite Ec.
  cbn [opt_value mbind outcome_bind]. destruct (active c) eqn:Hact; [|done].
  apply EventLoop.ends_step; [intros; by eapply lf_tick|]. intros c' E.
  split; [|eapply rtc_r; [exact Hr2|by apply (step_tick _ rd (l_base_time x) c c' w2)]]. constructor; [|done].
  exists c'. split; [done|]. exact (tick_streams _ _ _ _ _ Hc2 _ E).
Qed.
End rounds.

Lemma tcp_loop_ends condition w0 all rounds : forall x,
  loop_runs w0 all x -> Forall (fun rd => rd ∈ all /\ round_ok rd) rounds ->
  ends (loop_fails w0 all) (_tcp_loop (I := I) (O := O) condition x rounds) (fun y => loop_runs w0 all y.1).
Proof.
  induction rounds as [|rd rounds IH]; intros x Hx Hr; cbn [_tcp_loop]; [done|].
  inversion Hr as [|? ? [Hin Hok] Hrest]; subst.
  eapply EventLoop.ends_bind; [by apply tcp_round_ends|].
  intros [y b] Hy. case_bool; [done|]. by apply IH.
Qed.
End conduit.

(** ** The sockets and devices below the adapters

    [calls k] answers the calls on sockets in state [k] and [next k] is the state
    after one; [dev_read] and [dev_writev] are the calls on a device. *)
Section below.
  Context {K : Type} (calls : K -> Kernel) (next : K -> K).
  Context (dev_read : K -> Z -> (Z + list byte) * K) (dev_writev : K -> BufferViewList -> (Z + Z) * K).

(** [UDPSocket::recv()] with its default [mtu], and [sendto] *)
Definition udp_io : DatagramIO K received_datagram (Address * BufferList) := {|
  recv_dgram d k := '(d, i) ← Socket.recv (kernel := calls k) d 65536; mret (d, i, next k);
  send_dgram d k o :=
    d ← Socket.sendto (kernel := calls k) d (fst o) (BufferViewList_of_list (snd o)); mret (d, next k)
|}.

(** [FileDescriptor::read()] without a limit, and [write] of everything *)
Definition tun_io : DatagramIO K (list byte) BufferList := {|
  recv_dgram d k :=
    let '(sys, k) := dev_read k BUFFER_SIZE in
    '(d, data) ← FileDescriptor.read d (2 ^ 64 - 1) sys; mret (d, data, k);
  send_dgram d k o :=
    '(d, k, _) ← FileDescriptor.write dev_writev d k (BufferViewList_of_list o) true; mret (d, k)
|}.

Lemma udp_io_recv d k d' i k' :
  recv_dgram (DatagramIO := udp_io) d k = Ok (d', i, k') ->
  _read_count d' = u32 (_read_count d + 1) /\ k' = next k.
Proof.
  cbn [recv_dgram udp_io]. unfold recv.
  destruct (k_recvfrom _ _ _) as [errno|[[[n data] a] fl]]; cbn [answer mbind outcome_bind mret outcome_ret]; [done|].
  case_bool; [done|]. destruct (of_sockaddr _ fl) as [ad| |]; cbn [mbind outcome_bind mret outcome_ret]; [|done..].
  by intros [= <- _ <-].
Qed.

Lemma udp_io_send d k o d' k' : send_dgram (DatagramIO := udp_io) d k o = Ok (d', k') -> k' = next k.
Proof.
  cbn [send_dgram udp_io]. unfold sendto, sendmsg_helper.
  destruct (k_sendmsg _ _ _ _ _) as [errno|n]; cbn [answer mbind outcome_bind mret outcome_ret]; [done|].
  case_bool; cbn [mbind outcome_bind mret outcome_ret]; [done|]. by intros [= _ <-].
Qed.
End below.

(** ** Connecting a fresh socket *)

Lemma connect_start_new {mem : OverRead} {A I O K : Type} {fa : FdAdapter A I O} {dg : DatagramIO K I O}
    {pp : PipeIO K} {rs : Resolver} (taken given : K -> list byte) w cfg random c_ad peer now :
  cfg_ok cfg -> Address.to_string (destination c_ad) = Ok peer -> _tcp w = None ->
  exists w', connect_start (I := I) (O := O) [] w cfg random c_ad = Ok (rules, w') /\
    (exists c, _tcp w' = Some c /\ TCPConnection.state c = official SYN_SENT /\
       _segments_out c = [syn_segment (conn_isn cfg random)]) /\
    (taken (kernel w) = [] -> given (kernel w) = [] -> _outbound_shutdown w = false ->
     loop_ok (A := A) (I := I) (O := O) taken given (mkLoop rules w' now)).
Proof.
  intros Hc Hpeer Ew. unfold connect_start. rewrite Ew.
  rewrite bool_decide_eq_false_2 by (by intros [? ?]). unfold _initialize_TCP.
  rewrite Hpeer. cbn [mbind outcome_bind set_tcp set_adapter _tcp deref].
  pose proof (connect_new cfg random Hc) as Econn. rewrite Econn. cbn [mbind outcome_bind].
  set (c1 := mkTCPConnection _ _ _ _ _ _ _) in *.
  change (in_state (TCPConnection.state c1) SYN_SENT) with true. cbn [negb].
  eexists. split; [reflexivity|]. split; [by exists c1|]. intros Ht Hg Ho. constructor; [|done].
  exists c1. split; [done|]. unfold carries. simpl. rewrite Ht, Hg, Ho.
  eapply connect_streams; [|exact Econn]. destruct Hc as [H1 H2 _ _]. split.
  - exists (spec_new (send_capacity cfg)). split; [by apply rep_new|done].
  - exists (spec_new (recv_capacity cfg)). split; [|done]. apply rep_new. lia.
Qed.

(** ** Properties *)

Section properties.
  Context {mem : OverRead} {A I O K : Type} {fa : FdAdapter A I O} {dg : DatagramIO K I O} {pp : PipeIO K}
    {rs : Resolver}.
  Context (taken given : K -> list byte) `{io : !SocketIOOk K I O taken given}.

(** C6. The socket is a conduit: from a world in which it is one, whatever arrives
    from the network and however the owner reads and writes, after any number of
    rounds of the TCP thread's loop the bytes read from the owner are exactly the
    bytes the connection accepted for sending and the bytes given to the owner
    are exactly those taken from the inbound stream, in order; the outbound
    stream is ended exactly when the flag says so.  When the loop fails, then
    either [poll] reported an error on a descriptor, or there is a world the
    loop came to, with both streams still in order, in which the call that
    failed was made with the arguments the rule takes from that world
    ([call_fails]: receiving from the socket below, the adapter's read and write,
    [segment_received] of that world's connection on the segment the adapter
    returned, its [write] of what was read from the owner, ending its input, its
    [tick], naming the peer, or a failed system call): the rules themselves
    never dereference an absent connection, peek past the inbound stream, read
    past a vector, complain of a busy wait or find that [TCPConnection::write]
    accepted less than was read.  Other threads neither take back what was
    read nor what was written, and [poll] fills in one entry per descriptor
    ([round_ok]). *)
Theorem sponge_conduit condition x rounds :
  loop_ok (I := I) (O := O) taken given x -> Forall (round_ok taken given) rounds ->
  match _tcp_loop (I := I) (O := O) condition x rounds with
  | Ok (y, _) => loop_ok (I := I) (O := O) taken given y
  | Throw e => loop_fails (I := I) (O := O) taken given (l_world x) rounds (Thrown e)
  | UB => loop_fails (I := I) (O := O) taken given (l_world x) rounds Undefined
  end.
Proof.
  intros Hx Hr. assert (Hrun : loop_runs (I := I) (O := O) taken given (l_world x) rounds x) by (split; [done|apply rtc_refl]).
  assert (Hall : Forall (fun rd => rd ∈ rounds /\ round_ok taken given rd) rounds).
  { apply Forall_forall. intros rd Hin. split; [done|]. by eapply Forall_forall in Hr. }
  pose proof (tcp_loop_ends taken given condition (l_world x) rounds rounds x Hrun Hall) as H.
  destruct (_tcp_loop condition x rounds) as [[y b]| |]; [apply H|exact H..].
Qed.

(** Connecting: on a socket that has no connection yet, [connect] sets up the
    four rules and a connection in [SYN_SENT] with exactly its SYN to send, never
    reports an unexpected state, and starts its loop with the conduit's invariant;
    on a socket that has one it throws. *)
Theorem sponge_connect w cfg random c_ad peer now :
  cfg_ok cfg -> Address.to_string (destination c_ad) = Ok peer ->
  match _tcp w with
  | Some _ => connect_start [] w cfg random c_ad =
      Throw (runtime_error "connect() with TCPConnection already initialized")
  | None => exists w', connect_start (I := I) (O := O) [] w cfg random c_ad = Ok (rules, w') /\
      (exists c, _tcp w' = Some c /\ TCPConnection.state c = official SYN_SENT /\
         _segments_out c = [syn_segment (conn_isn cfg random)]) /\
      (taken (kernel w) = [] -> given (kernel w) = [] -> _outbound_shutdown w = false ->
       loop_ok (I := I) (O := O) taken given (mkLoop rules w' now))
  end.
Proof.
  intros Hc Hpeer. destruct (_tcp w) as [c|] eqn:Ew; [|by apply (connect_start_new _ _ _ _ _ _ peer)].
  unfold connect_start. by rewrite Ew.
Qed.

(** The thread ends: once the connection is inactive, its queue and its inbound
    stream are empty and the owner was told the end, the next round leaves the
    loop, whatever the network still delivers. *)
Theorem sponge_loop_exits x rd c :
  l_rules x `sublist_of` rules (I := I) (O := O) ->
  _tcp (l_world x) = Some c -> active c = false -> _segments_out c = [] ->
  ByteStream.buffer_empty (inbound_stream c) = true -> _inbound_shutdown (l_world x) = true ->
  _closed (_adapter_fd (l_world x)) = false -> _closed (_thread_data (l_world x)) = false ->
  (forall r, r ∈ l_rules x -> direction r = In -> _eof (fd_state (l_world x) (fd r)) = false) ->
  exists y, tcp_round (I := I) (O := O) (fun _ => true) x rd = Ok (y, true).
Proof.
  intros Hs Hc Ha Hq Hb Hi Hc0 Hc1 Heof. unfold tcp_round. cbn [negb]. cbv zeta. set (w := set_kernel _ _).
  assert (Hidle : forall r, r ∈ rules (I := I) (O := O) -> interest r w = false).
  { intros r Hr. unfold rules in Hr. rewrite !elem_of_cons, elem_of_nil in Hr.
    destruct Hr as [->|[->|[->|[->|[]]]]]; cbn [interest];
      unfold rule1_interest, rule2_interest, rule3_interest, rule4_interest, of_tcp, w;
      cbn [set_kernel _tcp _inbound_shutdown]; rewrite Hc, ?Ha, ?Hq, ?Hb, ?Hi; cbn [negb andb orb]; try done.
    by rewrite andb_false_r. }
  assert (Hset : forall l, l `sublist_of` l_rules x ->
    exists ps, setup l w = Ok (l, ps, false, w)).
  { induction l as [|r l IH]; intros Hl; cbn [setup]; [by exists []|].
    assert (Hin : r ∈ l_rules x) by (eapply elem_of_sublist; [exact Hl|by left]).
    destruct IH as [ps Eps]; [etrans; [by apply sublist_cons|exact Hl]|].
    replace (bool_decide (direction r = In) && _eof (fd_state w (fd r))) with false.
    2: { symmetry. case_bool_decide as Hd; [|done]. simpl. by apply Heof. }
    replace (_closed (fd_state w (fd r))) with false by (by destruct (fd r)).
    rewrite Eps, Hidle by (by eapply elem_of_sublist). by eexists. }
  destruct (Hset (l_rules x)) as [ps Eps]; [done|]. unfold wait_next_event. rewrite Eps.
  cbn [mbind outcome_bind negb orb mret outcome_ret]. by eexists.
Qed.

(** C26. Aborting an open connection sends no RST: when the owner has asked to abort,
    the round that sees it is the last one.  After its events the thread only
    shuts down the owner's end; the destructor of the connection queues a RST
    behind what was still waiting, and this queue is freed without a call on the
    datagram interface. *)
Theorem sponge_abort_sends_no_rst x rd rounds ret live w c n k :
  is_Some (_tcp (l_world x)) -> r_abort rd = true ->
  wait_next_event (l_rules x) (set_kernel (l_world x) (r_env rd (kernel (l_world x)))) (r_poll rd) =
    Ok (ret, live, w) ->
  _tcp w = Some c -> active c = true -> pipe_shutdown (kernel w) SHUT_RDWR = (inr n, k) ->
  exists y c', _tcp_main (I := I) (O := O) x (rd :: rounds) = Ok (y, Some c') /\
    kernel (l_world y) = k /\ _tcp (l_world y) = None /\
    _datagram_adapter (l_world y) = _datagram_adapter w /\ _adapter_fd (l_world y) = _adapter_fd w /\
    _segments_out c' = _segments_out c ++ [set_rst true TCPSegment_default] /\ active c' = false.
Proof.
  intros Hx Hab Ew Hc Ha Hsh. unfold _tcp_main. rewrite bool_decide_eq_true_2 by done. cbn [negb].
  assert (Er : _tcp_loop (I := I) (O := O) (fun _ => true) x (rd :: rounds) =
    Ok (mkLoop live (set_abort w true) (l_base_time x), true)).
  { cbn [_tcp_loop]. unfold tcp_round. cbn [negb]. cbv zeta. rewrite Ew.
    cbn [mbind outcome_bind]. rewrite Hab. cbn [set_abort _abort]. by rewrite orb_true_r. }
  assert (Eo : shutdown_owner (set_abort w true) =
    Ok (set_owner (set_abort w true) (register_write (register_read (_owner w))) k)).
  { unfold shutdown_owner. cbn [set_abort kernel]. by rewrite Hsh. }
  rewrite Er. cbn [mbind outcome_bind l_world]. rewrite Eo. cbn [mbind outcome_bind set_owner set_abort _tcp].
  rewrite Hc. cbn [opt_value mbind outcome_bind mret outcome_ret]. eexists _, _. split; [reflexivity|].
  cbn [l_world set_tcp set_owner kernel _tcp _datagram_adapter _adapter_fd].
  unfold TCPConnection.destroy. rewrite Ha. done.
Qed.
End properties.

(** ** A sample socket

    Over UDP to 10.0.0.1:80; the owner has written three bytes, and the kernel
    takes and gives whatever it is asked for. *)
Record demo_kernel := mkDemo { d_owner : list byte; d_taken : list byte; d_given : list byte }.

#[local] Existing Instance numeric_resolver.

#[local] Instance demo_io : DatagramIO demo_kernel received_datagram (Address * BufferList) :=
  udp_io (fun _ => sample_kernel) id.

#[local] Instance demo_pipe : PipeIO demo_kernel := {|
  pipe_read k n :=
    let data := ztake n (d_owner k) in
    (inr data, mkDemo (zdrop n (d_owner k)) (d_taken k ++ data) (d_given k));
  pipe_writev k vs := (inr (len (concat vs)), mkDemo (d_owner k) (d_taken k) (d_given k ++ concat vs));
  pipe_shutdown k _ := (inr 0, k)
|}.

#[local] Instance demo_io_ok :
  SocketIOOk demo_kernel received_datagram (Address * BufferList) d_taken d_given.
Proof.
  split.
  - intros d k d' i k' E. apply udp_io_recv in E as [Hn ->]. done.
  - intros d k o d' k' E. by apply udp_io_send in E as ->.
  - intros k n sys k' Hn [= <- <-]. split; [done|]. split; [|done]. rewrite len_ztake; lia.
  - intros k vs sys k' [= <- <-]. split; [done|]. split; [lia|]. cbn [d_given]. by rewrite ztake_all by lia.
  - by intros k how sys k' [= <- <-].
Qed.

Definition demo_cfg : TCPConfig := mkTCPConfig 1000 16 16 (Some (mkWrappingInt32 5)).
Definition demo_peer : FdAdapterConfig :=
  mkFdAdapterConfig (ipv4_address 167772162 9090) (ipv4_address 167772161 80) 0 0.
Definition demo_socket : TCPSpongeSocket TCPOverUDPSocketAdapter demo_kernel :=
  mkSponge (mkFDWrapper 8 false false 0 0) (mkFDWrapper 9 false false 0 0)
    (mkUDPAdapter (mkFdAdapterBase demo_peer false)) sample_socket None false false false false false
    (mkDemo [Byte.x68; Byte.x69; Byte.x21] [] []).

(** Everything that was asked for is ready. *)
Definition demo_round (now : Z) : round (K := demo_kernel) :=
  mkRound id (fun ps => inr (len ps, events <$> ps)) false now.

Definition demo_rules := rules (mem := word_over_read 0) (A := TCPOverUDPSocketAdapter)
  (I := received_datagram) (O := Address * BufferList) (K := demo_kernel).

Definition demo_connected : TCPSpongeSocket TCPOverUDPSocketAdapter demo_kernel :=
  match connect_start (mem := word_over_read 0) (I := received_datagram) (O := Address * BufferList)
          [] demo_socket demo_cfg 0 demo_peer with
  | Ok (_, w) => w
  | _ => demo_socket
  end.

Definition demo_run := _tcp_loop (I := received_datagram)
   (O := Address * BufferList) (in_official SYN_SENT) (mkLoop demo_rules demo_connected 0)
   [demo_round 10; demo_round 20].

Lemma demo_cfg_ok : cfg_ok demo_cfg.
Proof. constructor; simpl; [lia..|]. intros i [= <-]. by split; vm_compute. Qed.

Lemma demo_connected_ok :
  loop_ok (mem := word_over_read 0) (I := received_datagram) (O := Address * BufferList)
    d_taken d_given (mkLoop demo_rules demo_connected 0).
Proof.
  destruct (connect_start_new (mem := word_over_read 0) (I := received_datagram) (O := Address * BufferList)
    d_taken d_given demo_socket demo_cfg 0 demo_peer "167772161:80" 0) as (w' & E & _ & Hok);
    [apply demo_cfg_ok|vm_compute; reflexivity|done|].
  unfold demo_connected. rewrite E. by apply Hok.
Qed.

Lemma sponge_conduit_witness :
  exists y left_loop, demo_run = Ok (y, left_loop) /\
    loop_ok (mem := word_over_read 0) (I := received_datagram) (O := Address * BufferList) d_taken d_given y.
Proof.
  pose proof (sponge_conduit (mem := word_over_read 0) (I := received_datagram) (O := Address * BufferList)
    d_taken d_given (in_official SYN_SENT) (mkLoop demo_rules demo_connected 0) [demo_round 10; demo_round 20]
    demo_connected_ok ltac:(repeat constructor; simpl; intros ps; by rewrite length_fmap)) as H.
  fold demo_run in H. assert (Hok : match demo_run with Ok _ => True | _ => False end) by (vm_compute; exact Logic.I).
  destruct demo_run as [[y b]|e|]; [|done|done]. by exists y, b.
Defined.

Lemma sponge_connect_witness :
  exists w', connect_start (mem := word_over_read 0) (I := received_datagram) (O := Address * BufferList)
      [] demo_socket demo_cfg 0 demo_peer = Ok (demo_rules, w') /\
    (exists c, _tcp w' = Some c /\ TCPConnection.state c = official SYN_SENT /\
       _segments_out c = [syn_segment (conn_isn demo_cfg 0)]) /\
    (d_taken (kernel demo_socket) = [] -> d_given (kernel demo_socket) = [] ->
     _outbound_shutdown demo_socket = false ->
     loop_ok (mem := word_over_read 0) (I := received_datagram) (O := Address * BufferList)
       d_taken d_given (mkLoop demo_rules w' 0)).
Proof.
  apply (sponge_connect (mem := word_over_read 0) (I := received_datagram) (O := Address * BufferList)
    d_taken d_given demo_socket demo_cfg 0 demo_peer "167772161:80" 0);
    [apply demo_cfg_ok | vm_compute; reflexivity].
Defined.

(** A connection that was reset, and whose owner knows. *)
Definition demo_finished : TCPSpongeSocket TCPOverUDPSocketAdapter demo_kernel :=
  set_inbound_shutdown (set_tcp demo_socket (Some (_reset_received (new demo_cfg 0)))).

Lemma sponge_loop_exits_witness :
  exists y, tcp_round (fun _ => true) (mkLoop demo_rules demo_finished 0) (demo_round 10) = Ok (y, true).
Proof.
  apply (sponge_loop_exits (mem := word_over_read 0) (I := received_datagram) (O := Address * BufferList)
    (mkLoop demo_rules demo_finished 0) (demo_round 10) (_reset_received (new demo_cfg 0)));
    try reflexivity.
  intros r _ _. by destruct (fd r).
Defined.

(** The owner aborts while the SYN is waiting to be sent. *)
Definition demo_abort : round (K := demo_kernel) :=
  mkRound id (fun ps => inr (0, events <$> ps)) true 10.

Definition demo_syn_sent : TCPConnection :=
  match _tcp demo_connected with Some c => c | None => new demo_cfg 0 end.

Lemma sponge_abort_sends_no_rst_witness :
  exists y c', _tcp_main (I := received_datagram) (O := Address * BufferList)
      (mkLoop demo_rules demo_connected 0) [demo_abort] = Ok (y, Some c') /\
    kernel (l_world y) = kernel demo_connected /\ _tcp (l_world y) = None /\
    _datagram_adapter (l_world y) = _datagram_adapter demo_connected /\
    _adapter_fd (l_world y) = _adapter_fd demo_connected /\
    _segments_out c' = _segments_out demo_syn_sent ++ [set_rst true TCPSegment_default] /\
    active c' = false.
Proof.
  apply (sponge_abort_sends_no_rst (I := received_datagram)
    (O := Address * BufferList) (mkLoop demo_rules demo_connected 0) demo_abort [] Timeout demo_rules
    demo_connected demo_syn_sent 0); [by eexists|reflexivity..].
Defined.
