(* ===== verification/SpongeSide.v ===== *)
(** * One socket of a conversation

    The thread of a [TCPSpongeSocket], seen as one side of a [Conversation]: every
    callback of its event loop is a run of calls and deliveries of that side.  So what
    is proved of two connections holds of two sockets, from owner to owner. *)

From S2P Require Import Prelude WrappingIntegers ByteStream StreamReassembler Buffer TCPHeader.
From S2P Require Import Address FileDescriptor EventLoop TCPSegment TCPConfig FdAdapter Socket SegmentSpec AdapterLink.
From S2P Require Import TCPReceiver TCPSendingWindow TCPSender TCPState TCPConnection ConnectionParts Encodable.
From S2P Require Import EndToEnd ConnectionInvariant Conversation ConnectionStreams TCPSpongeSocket.

(** ** What the kernel promises

    [own k] is all the owner will write before it ends its stream; [inbox k] are the
    datagrams that have arrived and [outbox k] those that were sent. *)
Class SocketNetOk (K I O : Type) `{DatagramIO K I O} `{PipeIO K} (own taken given : K -> list byte)
    (inbox : K -> list I) (outbox : K -> list O) := {
  sn_io :: SocketIOOk K I O taken given;
  sn_own k : taken k `prefix_of` own k;
  sn_recv d k d' i k' : recv_dgram d k = Ok (d', i, k') ->
    i ∈ inbox k /\ own k' = own k /\ inbox k' ⊆ inbox k /\ outbox k' = outbox k;
  sn_send d k o d' k' : send_dgram d k o = Ok (d', k') ->
    own k' = own k /\ inbox k' ⊆ inbox k /\ outbox k' = outbox k ++ [o];
  sn_read k n sys k' : pipe_read k n = (sys, k') ->
    own k' = own k /\ inbox k' ⊆ inbox k /\ outbox k' = outbox k /\
    (0 < n -> sys = inr [] -> taken k = own k);
  sn_write k vs sys k' : pipe_writev k vs = (sys, k') ->
    own k' = own k /\ inbox k' ⊆ inbox k /\ outbox k' = outbox k;
  sn_shutdown k how sys k' : pipe_shutdown k how = (sys, k') ->
    own k' = own k /\ inbox k' ⊆ inbox k /\ outbox k' = outbox k
}.

(** How a thread of a conversation may fail: because a system call, the resolver that names
    the peer in a message, or sending through an adapter that has no peer yet fails; but
    not because of the connection, of a datagram, or of an adapter that has its peer. *)
Inductive outside_fails {A I O K : Type} {fa : FdAdapter A I O} {dg : DatagramIO K I O} {pp : PipeIO K} {rs : Resolver}
    (f : fault) : Prop :=
  | ot_poll : f = Thrown (runtime_error "EventLoop: error on polled file descriptor") -> outside_fails f
  | ot_recv d (k : K) : fails (recv_dgram (I := I) d k) f -> outside_fails f
  | ot_send d (k : K) (o : O) : fails (send_dgram d k o) f -> outside_fails f
  | ot_unaddressed (a : A) seg : listening a = true -> fits seg -> fails (FdAdapter.write a seg) f -> outside_fails f
  | ot_fd_read errno : f = Thrown (unix_error "read" errno) -> outside_fails f
  | ot_fd_write e : write_fails e -> f = Thrown e -> outside_fails f
  | ot_shutdown errno : f = Thrown (unix_error "shutdown" errno) -> outside_fails f
  | ot_name (w : TCPSpongeSocket A K) : fails (name_peer w) f -> outside_fails f.

(** Undefined behaviour can come from outside only: from the socket or device below the
    adapter, or from an adapter that is made to write before it has a peer. *)
Definition undefined_below (A I O K : Type) `{FdAdapter A I O} `{DatagramIO K I O} : Prop :=
  (exists d (k : K), recv_dgram (I := I) d k = UB) \/
  (exists d (k : K) (o : O), send_dgram d k o = UB) \/
  (exists (a : A) seg, listening a = true /\ fits seg /\ FdAdapter.write a seg = UB).

Lemma outside_undefined {A I O K : Type} {fa : FdAdapter A I O} {dg : DatagramIO K I O} {pp : PipeIO K} {rs : Resolver} :
  outside_fails (A := A) (I := I) (O := O) (K := K) Undefined -> undefined_below A I O K.
Proof.
  intros [H|d k H|d k o H|a seg Hl Hf H|? H|? _ H|? H|w H]; try discriminate H.
  - left. exists d, k. by destruct (recv_dgram d k).
  - right. left. exists d, k, o. by destruct (send_dgram d k o).
  - right. right. exists a, seg. do 2 (split; [done|]). by destruct (FdAdapter.write a seg).
  - exfalso. pose proof (to_string_defined (destination (config (_datagram_adapter w)))) as Hd.
    unfold name_peer in H. by destruct (to_string _).
Qed.

Section side.
  Context {mem : OverRead} {total : TotalOverRead mem}.
  Context {A I O K : Type} {fa : FdAdapter A I O} {tr : Transport I O} {lk : FdAdapterLink A I O}.
  Context {dg : DatagramIO K I O} {pp : PipeIO K} {rs : Resolver}.
  Context (own taken given : K -> list byte) (inbox : K -> list I) (outbox : K -> list O).
  Context {net : SocketNetOk K I O own taken given inbox outbox}.

Notation Sponge := (TCPSpongeSocket A K).
Notation ends := (EventLoop.ends (outside_fails (A := A) (I := I) (O := O) (K := K))).

(** ** A socket and a side *)

(** The socket [w] of party [me], whose adapter is at [sa:sp] and whose peer is [peer] at
    [da:dp], is the side [x]. *)
Record sim (me peer : party) (sa sp da dp : Z) (w : Sponge) (x : side) : Prop := {
  sm_tcp : _tcp w = Some (conn x);
  sm_got : given (kernel w) = got x;
  sm_carries : carries taken given w (conn x);
  sm_own : own (kernel w) = p_stream me;
  sm_eof : _eof (_thread_data w) || _outbound_shutdown w = true -> taken (kernel w) = p_stream me;
  sm_open : _closed (_thread_data w) = false;
  sm_told : _inbound_shutdown w = true -> got x = p_stream peer;
  sm_link : linked (_datagram_adapter w) sa sp da dp;
  sm_encodes : conn_encodes (conn x)
}.

(** The datagram is one of the segments of the list, as an adapter at [sa:sp] that has
    its peer wrote it. *)
Definition written (sa sp da dp : Z) (segs : list TCPSegment) (o : O) : Prop :=
  exists seg (a a' : A) seg', seg ∈ segs /\ fits seg /\ endpoints (config a) sa sp da dp /\
    FdAdapter.write a seg = Ok (a', seg', Some o).

Lemma written_mono sa sp da dp segs segs' o : segs ⊆ segs' -> written sa sp da dp segs o -> written sa sp da dp segs' o.
Proof. intros Hs (seg & a & a' & seg' & Hin & H). exists seg, a, a', seg'. split; [by apply Hs|done]. Qed.

Definition posted (sa sp da dp : Z) (k : K) (x : side) : Prop :=
  Forall (written sa sp da dp (sent x)) (outbox k).

(** ** Running *)
Section run.
  Context (me peer : party) (sa sp da dp : Z) (x0 y : side).
  Context (Hme : party_ok me) (Hpeer : party_ok peer).

(** From the side [x0] to [x] while the peer is at [y]; [w] is the socket at [x]. *)
Record running (w : Sponge) (x : side) : Prop := {
  rn_sim : sim me peer sa sp da dp w x;
  rn_run : rtc (act me peer (sent y)) x0 x;
  rn_inv : side_inv me peer x y;
  rn_peer : side_inv peer me y x
}.

Lemma running_act w x w' x' :
  running w x -> act me peer (sent y) x x' -> sim me peer sa sp da dp w' x' -> running w' x'.
Proof.
  intros [_ Hr Hx Hy] Hact Hs. destruct (act_inv _ _ _ _ _ Hme Hpeer Hx Hy Hact).
  constructor; [done|by eapply rtc_r|done..].
Qed.

(** Nothing happened to the side. *)
Lemma running_same w w' x : running w x -> sim me peer sa sp da dp w' x -> running w' x.
Proof. intros [_ ? ? ?] ?. by constructor. Qed.

Lemma running_total w x : running w x -> unhindered me peer x y.
Proof. intros [_ _ Hx Hy]. by apply side_unhindered. Qed.

(** What the connection has taken from its owner is a prefix of the stream. *)
Lemma sim_taken w x :
  sim me peer sa sp da dp w x ->
  exists rest, p_stream me = taken (kernel w) ++ rest /\
    bytes_written (outbound_stream (conn x)) = len (taken (kernel w)).
Proof.
  intros [Hc _ [(b & R & Hh & _) _] Ho _ _ _ _ _]. destruct (sn_own (kernel w)) as [rest Hr].
  rewrite Ho in Hr. exists rest. split; [done|]. unfold outbound_stream, stream_in, bytes_written.
  rewrite (rep_bytes_written _ _ R), Hh. apply u64_small. pose proof (po_stream _ Hme) as Hl.
  rewrite Hr, length_app in Hl. lia.
Qed.

Lemma acked_report_ends (w : Sponge) (Q : Sponge -> Prop) :
  is_Some (_tcp w) -> Q w -> Q (set_fully_acked w) -> ends (report_acked w) Q.
Proof.
  intros [c Hc] H1 H2. unfold report_acked. case_bool; [|done]. rewrite Hc. cbn [opt_value mbind outcome_bind].
  case_bool; [|done]. apply EventLoop.ends_step; [intros; by eapply ot_name|done].
Qed.

(** *** Ending the outbound stream *)

Lemma end_edge k got c :
  conn_ok (p_stream me) (p_stream peer) (p_isn me) (p_isn peer) k got c ->
  bytes_written (outbound_stream c) = len (p_stream me) ->
  returns (end_input_stream c) (fun c' => _receiver c' = _receiver c /\ same_edge (_sender c) (_sender c')).
Proof.
  intros Hc E. eapply returns_mono; [apply (collect_ok (p_stream me) (p_stream peer) (p_isn me) (p_isn peer) k got)|].
  - apply conn_ok_sender; [done| |done]. apply sender_end; [apply Hc|done].
  - intros c' (_ & Er & Ef). done.
Qed.

(** What the network may deliver depends on the receiver and the edges of the
    window only. *)
Lemma deliverable_same c c' seg :
  _receiver c' = _receiver c -> same_edge (_sender c) (_sender c') ->
  deliverable me peer c seg -> deliverable me peer c' seg.
Proof. intros Er [Ef Ew] [H1 H2]. constructor; rewrite ?Er; [done|]. cbv zeta. by rewrite Ef, Ew. Qed.

Lemma ended_at w x :
  running w x -> taken (kernel w) = p_stream me ->
  exists c', end_input_stream (conn x) = Ok c' /\
    running (set_outbound_shutdown (set_tcp w (Some c'))) (set_conn x c') /\
    _receiver c' = _receiver (conn x) /\ same_edge (_sender (conn x)) (_sender c').
Proof.
  intros Hr Et. pose proof Hr as [Hs _ Hx _]. destruct (sim_taken _ _ Hs) as (rest & _ & Ew).
  rewrite Et in Ew. destruct (end_edge _ _ _ (si_conn _ _ _ _ Hx) Ew) as (c' & E & Er & Hed).
  exists c'. split; [done|]. split; [|done]. eapply running_act; [exact Hr|by apply act_end|].
  destruct Hs as [H1 H2 H3 H4 H5 H6 H7 H8 H9]. constructor; simpl; try done.
  - exact (end_streams _ _ _ _ H3 _ E).
  - by eapply end_encodes.
Qed.

Lemma rule2_cancel_at w x :
  running w x -> _eof (_thread_data w) = true ->
  exists c', rule2_cancel w = Ok (set_outbound_shutdown (set_tcp w (Some c'))) /\
    running (set_outbound_shutdown (set_tcp w (Some c'))) (set_conn x c') /\
    (forall seg, deliverable me peer (conn x) seg -> deliverable me peer c' seg).
Proof.
  intros Hr He. pose proof (rn_sim _ _ Hr) as Hs.
  assert (Et : taken (kernel w) = p_stream me) by (apply (sm_eof _ _ _ _ _ _ _ _ Hs); by rewrite He).
  destruct (ended_at _ _ Hr Et) as (c' & E & Hr' & Er & Hed). exists c'. unfold rule2_cancel.
  rewrite (sm_tcp _ _ _ _ _ _ _ _ Hs). cbn [deref mbind outcome_bind]. rewrite E. split; [done|]. split; [done|].
  intros seg. by apply deliverable_same.
Qed.

(** *** Rule 1: a segment is delivered *)

(** What lies in the inbox was written by the peer. *)
Definition from_peer (k : K) : Prop :=
  forall i, i ∈ inbox k -> exists o, i = carry (ipv4_address da dp) o /\ written da dp sa sp (sent y) o.

Lemma rule1_at w x :
  running w x -> from_peer (kernel w) -> posted sa sp da dp (kernel w) x -> count x < 2 ^ 64 - 1 ->
  (forall i a' seg, i ∈ inbox (kernel w) -> FdAdapter.read (_datagram_adapter w) i = Ok (a', Some seg) ->
     deliverable me peer (conn x) seg) ->
  ends (rule1_callback w) (fun w' => exists x', running w' x' /\ count x' <= count x + 1 /\
    inbox (kernel w') ⊆ inbox (kernel w) /\ posted sa sp da dp (kernel w') x').
Proof.
  intros Hr Hnet Hpost Hk Hdel. pose proof (rn_sim _ _ Hr) as Hs. unfold rule1_callback.
  apply EventLoop.ends_step; [intros; by eapply ot_recv|]. intros [[d i] k] E.
  destruct (sn_recv _ _ _ _ _ E) as (Hin & Eo & Hib & Eout). destruct (io_recv _ _ _ _ _ E) as (_ & Et & Eg).
  destruct (Hnet i Hin) as (o & -> & seg0 & a0 & a1 & seg1 & Hin0 & Hfit & Hep & Ew).
  rewrite <- (ep_source _ _ _ _ _ Hep) in Hin |- *.
  destruct (fl_read _ _ _ _ _ _ _ _ _ _ Hep (sm_link _ _ _ _ _ _ _ _ Hs) Hfit Ew) as (a & seg & Ea & Hlink & _ & Har).
  cbn [set_adapter_fd _datagram_adapter]. rewrite Ea. cbn [mbind outcome_bind].
  set (w1 := set_adapter (set_adapter_fd w d k) a).
  assert (H1 : sim me peer sa sp da dp w1 x).
  { destruct Hs. constructor; simpl; rewrite ?Eo, ?Et, ?Eg; try done. unfold carries in *. simpl. by rewrite Et, Eg. }
  assert (Hpk : posted sa sp da dp k x) by (unfold posted; by rewrite Eout).
  destruct seg as [seg|].
  - destruct (Har seg eq_refl) as [_ Hcv%arrives_conveyed]. pose proof (Hdel _ _ _ Hin Ea) as Hd.
    destruct (running_total _ _ Hr) as [Htot _]. destruct (Htot _ _ Hin0 Hcv Hd Hk) as (c' & Ec).
    cbn [w1 set_adapter set_adapter_fd _tcp]. rewrite (sm_tcp _ _ _ _ _ _ _ _ Hs).
    cbn [deref mbind outcome_bind]. rewrite Ec. cbn [mbind outcome_bind mret outcome_ret].
    set (x' := mkSide c' (sent x) (got x) (count x + 1)).
    assert (H2 : forall w2, w2 = set_tcp w1 (Some c') \/ w2 = set_fully_acked (set_tcp w1 (Some c')) -> running w2 x').
    { intros w2 Hw2. eapply running_act; [exact Hr|exact (act_deliver me peer _ x seg0 seg c' Hin0 Hcv Hd Hk Ec)|].
      destruct H1 as [G1 G2 G3 G4 G5 G6 G7 G8 G9]. destruct Hw2 as [-> | ->].
      all: constructor; simpl; try done; [exact (segment_received_streams _ _ _ _ _ G3 _ Ec)|
        by eapply (segment_received_parts _ _ G9)]. }
    apply acked_report_ends; [by eexists|..]; exists x'; (split; [apply H2; auto|]); simpl; split_and!; (done || lia).
  - cbn [mbind outcome_bind mret outcome_ret].
    apply acked_report_ends; [exists (conn x); apply H1|..]; exists x; simpl; split_and!; (done || lia || idtac);
      (eapply running_same; [exact Hr|]); [exact H1|]. destruct H1. by constructor.
Qed.

(** *** Rule 2: the owner's bytes are written *)

(** The calls of the owner leave the network and the adapter alone. *)
Record local_to (w : Sponge) (x : side) (w' : Sponge) (x' : side) : Prop := {
  lc_count : count x' = count x;
  lc_sent : sent x' = sent x;
  lc_adapter : _datagram_adapter w' = _datagram_adapter w;
  lc_outbox : outbox (kernel w') = outbox (kernel w);
  lc_inbox : inbox (kernel w') ⊆ inbox (kernel w)
}.

(** What is read from the owner next is the next part of the stream. *)
Lemma next_bytes w x k data :
  sim me peer sa sp da dp w x -> own k = own (kernel w) -> taken k = taken (kernel w) ++ data ->
  excerpt (p_stream me) data (bytes_written (outbound_stream (conn x))) /\
  (_eof (_thread_data w) = true -> taken k = p_stream me).
Proof.
  intros Hs Eo Et. destruct (sim_taken _ _ Hs) as (rest & Hrest & Hbw). destruct Hs as [_ _ _ S4 S5 _ _ _ _].
  destruct (sn_own k) as [rest' Hr']. rewrite Eo, S4, Et in Hr'. split.
  - rewrite Hbw, Hr'. unfold excerpt. rewrite <- app_assoc, !length_app. split_and!; [lia..|].
    unfold ztake, zdrop. by rewrite !Nat2Z.id, drop_app_length, take_app_length.
  - intros Hd. rewrite Hd in S5. specialize (S5 eq_refl). rewrite Et, S5 in *.
    rewrite <- app_assoc in Hr'. apply (f_equal length) in Hr'. rewrite !length_app in Hr'.
    destruct data; [by rewrite app_nil_r|simpl in Hr'; lia].
Qed.

(** The connection takes what there is room for. *)
Lemma written_at w x data d k :
  running w x -> _outbound_shutdown w = false -> len data <= remaining_outbound_capacity (conn x) ->
  own k = own (kernel w) -> given k = given (kernel w) -> taken k = taken (kernel w) ++ data ->
  _closed d = false -> (_eof d = true -> taken k = p_stream me) ->
  exists c', write (conn x) data = Ok (c', len data) /\
    running (set_tcp (set_thread_data w d k) (Some c')) (set_conn x c').
Proof.
  intros Hr Hno Hl Eo Hg Ht Hcl Heof. pose proof (rn_sim _ _ Hr) as Hs.
  destruct (next_bytes _ _ _ _ Hs Eo Ht) as [Hx _]. destruct Hs as [S1 S2 S3 S4 S5 S6 S7 S8 S9].
  destruct (running_total _ _ Hr) as (_ & _ & Hwr & _).
  assert (exists c1 n, write (conn x) data = Ok (c1, n)) as (c1 & n & Ew) by (destruct (Hwr data Hx); by eexists _, _).
  destruct (write_streams _ _ _ _ _ _ _ S3 Ew) as [En Hs1]. rewrite Hno in En. rewrite Z.min_l in En by lia. subst n.
  rewrite ztake_all, Hno, <- Ht, <- Hg in Hs1 by lia.
  assert (exists bs, ByteStream.write (outbound_stream (conn x)) data = Ok (bs, len data)) as (bs & Eb).
  { unfold write in Ew. destruct (ByteStream.write _ data) as [[bs m]| |]; [|done..]. cbn [mbind outcome_bind] in Ew.
    destruct (_collect_sender_segments_out _); [|done..]. injection Ew as _ <-. by exists bs. }
  exists c1. split; [done|].
  eapply running_act; [exact Hr|eapply act_write; [exact Eb| |exact Ew]; by rewrite ztake_all by lia|].
  constructor; simpl; rewrite ?Hg, ?Eo, ?Hno, ?orb_false_r, ?Hcl; try done.
  - by unfold carries; simpl; rewrite Hno.
  - by eapply write_encodes.
Qed.

Lemma rule2_at w x :
  running w x -> _outbound_shutdown w = false ->
  ends (rule2_callback w) (fun w' => exists x', running w' x' /\ local_to w x w' x').
Proof.
  intros Hr Hno. pose proof (rn_sim _ _ Hr) as Hs.
  unfold rule2_callback. rewrite (sm_tcp _ _ _ _ _ _ _ _ Hs). cbn [deref mbind outcome_bind]. cbv zeta.
  set (limit := remaining_outbound_capacity (conn x)).
  assert (Hcap : 0 <= limit) by (apply u64_range).
  destruct (pipe_read (kernel w) (Z.min BUFFER_SIZE limit)) as [sys k] eqn:Er.
  destruct (sn_read _ _ _ _ Er) as (Eo & Hib & Eout & Hlast).
  apply io_read in Er as [Hg Hsys]; [|unfold BUFFER_SIZE; lia].
  apply EventLoop.ends_step.
  { intros e He. apply fd_read_faults in He as (errno & _ & ->); [by eapply ot_fd_read|]. destruct sys; apply Hsys. }
  intros [d data] E.
  apply fd_read_ok in E as Ed; [|destruct sys; tauto]. destruct Ed as (-> & _ & Hcl & _). destruct Hsys as [Hl Ht].
  assert (Heof : _eof d = true -> taken k = p_stream me).
  { rewrite (fd_read_eof _ _ _ _ _ E). intros [Hd|[Hlim%Z.gtb_lt Hz%Z.eqb_eq]%andb_true_iff]%orb_true_iff.
    - by eapply next_bytes.
    - destruct data; [|simpl in Hz; lia]. rewrite Ht, app_nil_r, <- (sm_own _ _ _ _ _ _ _ _ Hs).
      apply Hlast; [unfold BUFFER_SIZE; lia|done]. }
  rewrite (sm_open _ _ _ _ _ _ _ _ Hs) in Hcl.
  destruct (written_at w x data d k) as (c1 & Ew & Hr1); [done|done|unfold limit in Hl; lia|done..|].
  rewrite Ew. cbn [mbind outcome_bind]. rewrite Z.eqb_refl. cbn [negb]. case_bool.
  - destruct (ended_at _ _ Hr1 (Heof Heqb)) as (c2 & E2 & Hr2 & _).
    cbn [set_conn conn] in E2. rewrite E2. cbn [mbind outcome_bind].
    apply EventLoop.ends_step; [intros; by eapply ot_name|]. intros _ _. exists (set_conn (set_conn x c1) c2). by split.
  - exists (set_conn x c1). by split.
Qed.

(** *** Rule 3: the owner gets the bytes that have arrived *)

(** Nobody has raised the error flag of the inbound stream, and it ends only after
    all of the peer's bytes. *)
Lemma eof_told x :
  side_inv me peer x y -> side_inv peer me y x ->
  ByteStream.error (inbound_stream (conn x)) = false /\ got x `prefix_of` p_stream peer /\
  (eof (inbound_stream (conn x)) = true -> got x = p_stream peer).
Proof.
  intros Hx Hy. destruct (side_conveys peer me y x Hy Hx) as (buffered & Ep & Hpre & Hend & _).
  destruct (cn_receiver _ _ _ _ _ _ _ (si_conn _ _ _ _ Hx)) as (a & Hr & Her & _).
  pose proof (inv_rep _ _ _ _ (ri_reassembler _ _ _ _ _ Hr)) as R.
  unfold inbound_stream, TCPReceiver.stream_out, StreamReassembler.stream_out in *.
  split; [by rewrite <- Her; apply (rep_error _ _ R)|]. split; [etrans; [|exact Hpre]; by eexists|].
  rewrite (buffer_size_eq _ _ R), (peek_rep _ _ _ R), ztake_all in Ep by lia. injection Ep as <-.
  rewrite (eof_eq _ _ R). intros [He Hz%Z.eqb_eq]%andb_true_iff.
  rewrite <- Hend; [|by unfold input_ended; rewrite (rep_ended _ _ R)].
  destruct (s_pending a); [by rewrite app_nil_r|simpl in Hz; lia].
Qed.

(** The side after its owner has been given the bytes [data]. *)
Definition given_side (x : side) (bs : ByteStream) (data : list byte) : side :=
  mkSide (set_inbound (conn x) bs) (sent x) (got x ++ data) (count x).

Lemma given_at w x n bs data d k :
  running w x -> 0 <= n -> ByteStream.read (inbound_stream (conn x)) n = Ok (bs, data) ->
  given k = given (kernel w) ++ data -> taken k = taken (kernel w) -> own k = own (kernel w) ->
  _eof d = _eof (_thread_data w) -> _closed d = _closed (_thread_data w) ->
  running (set_tcp (set_thread_data w d k) (Some (set_inbound (conn x) bs))) (given_side x bs data).
Proof.
  intros Hr Hn Hread Eg Et Eo Ee Ec. pose proof Hr as [Hs _ Hx Hy]. pose proof Hs as [S1 S2 S3 S4 S5 S6 S7 S8 S9].
  assert (Hact : act me peer (sent y) x (given_side x bs data)) by (by apply (act_read me peer _ x n bs data)).
  destruct (act_inv _ _ _ _ _ Hme Hpeer Hx Hy Hact) as [Hx' Hy'].
  destruct (eof_told _ Hx' Hy') as (_ & Hpre & _).
  eapply running_act; [exact Hr|exact Hact|]. constructor; simpl; rewrite ?Eg, ?Eo, ?Et, ?Ee, ?Ec; try done.
  - by rewrite S2.
  - destruct S3 as [So (b & R & Hb)]. unfold carries. simpl. rewrite Et, Eg. split; [exact So|].
    destruct (read_rep _ _ n R Hn) as (bs' & E & R'). unfold inbound_stream in Hread. rewrite E in Hread.
    injection Hread as -> <-. exists (spec_pop b n). split; [exact R'|]. simpl. by rewrite Hb.
  - intros Ht. apply (anti_symm prefix); [exact Hpre|]. rewrite <- (S7 Ht). by eexists.
  - by destruct S9.
Qed.

(** The owner is told that no more will come. *)
Lemma told_at w x how sys k :
  running w x -> eof (inbound_stream (conn x)) = true -> pipe_shutdown (kernel w) how = (sys, k) ->
  running (set_inbound_shutdown (set_thread_data w (register_write (_thread_data w)) k)) x.
Proof.
  intros Hr He Esh. pose proof Hr as [Hs _ Hx Hy]. pose proof Hs as [S1 S2 S3 S4 S5 S6 S7 S8 S9].
  destruct (eof_told _ Hx Hy) as (_ & _ & Heof).
  destruct (sn_shutdown _ _ _ _ Esh) as (Eo & _ & _). apply io_shutdown in Esh as [Et Eg].
  eapply running_same; [exact Hr|]. constructor; simpl; rewrite ?Eg, ?Eo, ?Et; try done.
  - unfold carries in *. simpl. by rewrite Et, Eg.
  - intros _. by apply Heof.
Qed.

Lemma rule3_at w x :
  running w x -> ends (rule3_callback w) (fun w' => exists x', running w' x' /\ local_to w x w' x').
Proof.
  intros Hr. pose proof (sm_tcp _ _ _ _ _ _ _ _ (rn_sim _ _ Hr)) as S1.
  pose proof (sm_carries _ _ _ _ _ _ _ _ (rn_sim _ _ Hr)) as [_ (b & R & _)].
  change (TCPReceiver.stream_out (_receiver (conn x))) with (inbound_stream (conn x)) in R.
  unfold rule3_callback. rewrite S1. apply EventLoop.ends_step; [done|]. intros ? [= <-]. cbv zeta.
  rewrite (buffer_size_eq _ _ R), (peek_rep _ _ _ R). apply EventLoop.ends_step; [done|]. intros buffer [= <-].
  set (buffer := ztake _ (s_pending b)).
  assert (Hl : len buffer <= 65536) by (unfold buffer; rewrite len_ztake; lia).
  apply EventLoop.ends_step.
  { intros e He. apply fd_write_faults in He as (ex & -> & Hex); [by eapply ot_fd_write| |lia].
    intros sys k1 E1. apply io_write in E1 as [_ E1]. simpl in E1. rewrite app_nil_r in E1. destruct sys; tauto. }
  intros [[d k] n] E.
  apply fd_write_part in E as (Ew & Hn & ->); [|intros sys k1 E1; apply io_write in E1; destruct sys; tauto|lia].
  destruct (sn_write _ _ _ _ Ew) as (Eo & Hib & Eout).
  apply io_write in Ew as (Et & _ & Eg). simpl in Eg. rewrite app_nil_r in Eg.
  assert (Hdata : ztake n buffer = ztake n (s_pending b)).
  { unfold buffer, ztake in *. rewrite take_take. f_equal. rewrite length_take in Hn. lia. }
  rewrite Hdata in Eg. set (inbound := pop_output _ n).
  assert (Hread : ByteStream.read (inbound_stream (conn x)) n = Ok (inbound, ztake n (s_pending b))).
  { unfold ByteStream.read. by rewrite (peek_rep _ _ _ R). }
  pose proof (given_at w x n _ _ (register_write (_thread_data w)) k Hr ltac:(lia) Hread Eg Et Eo eq_refl eq_refl) as Hr1.
  set (x' := given_side _ _ _) in Hr1. set (w1 := set_tcp _ _) in Hr1 |- *. clearbody inbound.
  destruct (eof_told _ (rn_inv _ _ Hr1) (rn_peer _ _ Hr1)) as (Herr & _).
  change (inbound_stream (conn x')) with inbound in Herr. rewrite Herr, orb_false_r.
  assert (Hloc : local_to w x w1 x') by done. case_bool; [|by exists x'].
  destruct (pipe_shutdown (kernel w1) SHUT_WR) as [sys k'] eqn:Esh.
  destruct sys as [errno|ret]; cbn [answer mbind outcome_bind mret outcome_ret]; [by eapply ot_shutdown|].
  rewrite shutdown_WR_ok. cbn [mbind outcome_bind]. apply EventLoop.ends_step; [intros; by eapply ot_name|].
  intros _ _. exists x'. split; [by eapply told_at|].
  destruct (sn_shutdown _ _ _ _ Esh) as (_ & Hib' & Eout'). destruct Hloc as [? ? ? L1 L2].
  constructor; cbn; try done; [by rewrite Eout'|by etrans].
Qed.

(** *** Rule 4: what the connection wants to send goes out *)

(** While the adapter listens, it has nobody to write to. *)
Definition posted_or_listens (w : Sponge) (segs : list TCPSegment) : Prop :=
  listening (_datagram_adapter w) = true \/ Forall (written sa sp da dp segs) (outbox (kernel w)).

(** What sending changes: the adapter, the descriptor below it and the network. *)
Record sending (w w' : Sponge) : Prop := {
  sg_thread : _thread_data w' = _thread_data w;
  sg_inbound : _inbound_shutdown w' = _inbound_shutdown w;
  sg_outbound : _outbound_shutdown w' = _outbound_shutdown w;
  sg_own : own (kernel w') = own (kernel w);
  sg_taken : taken (kernel w') = taken (kernel w);
  sg_given : given (kernel w') = given (kernel w);
  sg_inbox : inbox (kernel w') ⊆ inbox (kernel w);
  sg_config : config (_datagram_adapter w') = config (_datagram_adapter w);
  sg_listening : listening (_datagram_adapter w') = listening (_datagram_adapter w)
}.

Lemma sending_linked w w' :
  sending w w' -> linked (_datagram_adapter w) sa sp da dp -> linked (_datagram_adapter w') sa sp da dp.
Proof. intros [_ _ _ _ _ _ _ Ec El]. unfold linked. by rewrite Ec, El. Qed.

Lemma sending_trans w1 w2 w3 : sending w1 w2 -> sending w2 w3 -> sending w1 w3.
Proof. intros [] []. constructor; (by etrans) || congruence. Qed.

Lemma send_at c segs q : forall w,
  linked (_datagram_adapter w) sa sp da dp -> Forall encodable q -> q ⊆ segs -> posted_or_listens w segs ->
  ends (send_loop w c q) (fun w' => sending w w' /\ _tcp w' = Some (set_queue c []) /\ posted_or_listens w' segs).
Proof.
  induction q as [|seg q IH]; intros w Hl He Hq Hp; cbn [send_loop]; [by split; [constructor|]|].
  inversion He as [|? ? Hseg He']; subst.
  apply EventLoop.ends_step.
  { intros e Hno. pose proof (encodable_fits _ Hseg) as Hf. destruct Hl as [[_ Hep]|[Hlis _]]; [|by eapply ot_unaddressed].
    by destruct (fl_writes _ _ _ _ _ _ Hep Hf) as [r Er]; rewrite Er in Hno. }
  intros [[a seg'] o] Ew. cbv zeta.
  destruct (fl_write _ _ _ _ _ Ew) as [Ec El].
  apply EventLoop.ends_step.
  { intros e. destruct o as [o|]; [|done]. intros; by eapply ot_send. }
  intros [d k] E. set (w1 := set_adapter_fd (set_adapter w a) d k).
  assert (H1 : sending w w1 /\ posted_or_listens w1 segs).
  { destruct o as [o|].
    2: { injection E as <- <-. split; [by constructor|]. unfold posted_or_listens in *. simpl. by rewrite El. }
    destruct (sn_send _ _ _ _ _ E) as (Eo & Hib & Eout).
    apply io_send in E as [Et Eg]. split; [by constructor|]. unfold posted_or_listens in *. simpl. rewrite El, Eout.
    destruct Hp as [Hp|Hp]; [by left|]. destruct Hl as [[_ Hep]|[Hlis _]]; [|by left]. right.
    apply Forall_app. split; [done|]. constructor; [|done]. exists seg, (_datagram_adapter w), a, seg'.
    split_and!; [apply Hq; by left|by apply encodable_fits|done..]. }
  destruct H1 as [H1 Hp1]. eapply EventLoop.ends_mono; [apply (IH w1); try done|].
  - by apply (sending_linked w).
  - intros s Hs. apply Hq. by right.
  - intros w' [H2 H3]. split; [by eapply sending_trans|done].
Qed.

Lemma rule4_at w x :
  running w x -> posted_or_listens w (sent x) ->
  ends (rule4_callback w) (fun w' => exists x', running w' x' /\ count x' = count x /\
    inbox (kernel w') ⊆ inbox (kernel w) /\ posted_or_listens w' (sent x')).
Proof.
  intros Hr Hp. pose proof (rn_sim _ _ Hr) as [S1 S2 S3 S4 S5 S6 S7 S8 S9].
  unfold rule4_callback. rewrite S1. cbn [deref mbind outcome_bind].
  eapply EventLoop.ends_mono.
  { apply (send_at (conn x) (sent x ++ _segments_out (conn x))); [done|apply S9|set_solver|].
    destruct Hp as [Hp|Hp]; [by left|right]. eapply Forall_impl; [exact Hp|]. intros o. apply written_mono. set_solver. }
  intros w' (Hsg & Ec & Hp'). exists (mkSide (set_queue (conn x) []) (sent x ++ _segments_out (conn x)) (got x) (count x)).
  split; [|split; [done|split; [apply Hsg|exact Hp']]].
  eapply running_act; [exact Hr|apply act_send|]. pose proof (sending_linked _ _ Hsg S8) as Hl.
  destruct Hsg as [E1 E2 E3 E4 E5 E6 _ _ _]. constructor; simpl; rewrite ?E1, ?E2, ?E3, ?E4, ?E5, ?E6; try done.
  - unfold carries in *. rewrite E3, E5, E6. done.
  - destruct S9. by constructor.
Qed.

(** *** Time passes *)

Lemma tick_at w x ms c' :
  running w x -> 0 <= ms -> TCPConnection.tick (conn x) ms = Ok c' ->
  consecutive_retransmissions (TCPSender.tick (_sender (conn x)) ms) <= MAX_RETX_ATTEMPTS ->
  running (set_adapter (set_tcp w (Some c')) (FdAdapter.tick (_datagram_adapter w) ms)) (set_conn x c').
Proof.
  intros Hr Hms E Hn. pose proof (rn_sim _ _ Hr) as [S1 S2 S3 S4 S5 S6 S7 S8 S9].
  destruct (fl_tick (_datagram_adapter w) ms) as [Ec El].
  eapply running_act; [exact Hr|by apply (act_tick me peer _ x ms)|]. constructor; simpl; try done.
  - exact (tick_streams _ _ _ _ _ S3 _ E).
  - unfold linked. by rewrite Ec, El.
  - by eapply (tick_parts _ _ S9).
Qed.
End run.
End side.
