(* ===== verification/FrontEnds.v ===== *)
(** * The front ends

    Model of [main] of [apps/tcp_udp.cc] and [apps/tcp_ipv4.cc]: the command line, the
    socket below, the [TCPSpongeSocket] over a lossy adapter, the connection, the copy
    between terminal and socket and the end.  The exit code is the result, [None]
    while the program still runs; [K] is the kernel that the three parts share. *)

From S2P Require Import Prelude WrappingIntegers ByteStream StreamReassembler Buffer TCPHeader Text.
From S2P Require Import Address FileDescriptor EventLoop TCPSegment TCPConfig FdAdapter Socket StreamCopy CommandLine.
From S2P Require Import TCPReceiver TCPSendingWindow TCPSender TCPState TCPConnection TCPSpongeSocket.
#[local] Open Scope string_scope.
#[local] Open Scope list_scope.
#[local] Open Scope Z_scope.

(** ** The usage

    [show_usage] of the two programs and of [apps/udp_tcpdump.cc], as what they leave in
    [cout]; a literal that the code writes over several lines is written line by line. *)
Section usage.
#[local] Open Scope text_scope.
Let n := String nl "".

Definition usage_message (msg : option string) (cout : ostream) : ostream :=
  (match msg with Some msg => cout << msg | None => cout end) << n.

Definition udp_show_usage (argv0 : string) (msg : option string) (cout : ostream) : ostream :=
  usage_message msg (cout << "Usage: " << argv0 << " [options] <host> <port>" << n << n
    << "   Option                                                          Default" << n
    << "   --                                                              --" << n << n
    << "   -l              Server (listen) mode.                           (client mode)" << n
    << "                   In server mode, <host>:<port> is the address to bind." << n << n
    << "   -w <winsz>      Use a window of <winsz> bytes                   " << MAX_PAYLOAD_SIZE << n << n
    << "   -t <tmout>      Set rt_timeout to tmout                         " << TIMEOUT_DFLT << n << n
    << "   -Lu <loss>      Set uplink loss to <rate> (float in 0..1)       (no loss)" << n
    << "   -Ld <loss>      Set downlink loss to <rate> (float in 0..1)     (no loss)" << n << n
    << "   -h              Show this message and quit." << n << n).

Definition ipv4_show_usage (argv0 : string) (msg : option string) (cout : ostream) : ostream :=
  usage_message msg (cout << "Usage: " << argv0 << " [options] <host> <port>" << n << n
    << "   Option                                                          Default" << n
    << "   --                                                              --" << n << n
    << "   -l              Server (listen) mode.                           (client mode)" << n
    << "                   In server mode, <host>:<port> is the address to bind." << n << n
    << "   -a <addr>       Set source address (client mode only)           " << LOCAL_ADDRESS_DFLT << n
    << "   -s <port>       Set source port (client mode only)              (random)" << n << n
    << "   -w <winsz>      Use a window of <winsz> bytes                   " << MAX_PAYLOAD_SIZE << n << n
    << "   -t <tmout>      Set rt_timeout to tmout                         " << TIMEOUT_DFLT << n << n
    << "   -d <tundev>     Connect to tun <tundev>                         " << TUN_DFLT << n << n
    << "   -Lu <loss>      Set uplink loss to <rate> (float in 0..1)       (no loss)" << n
    << "   -Ld <loss>      Set downlink loss to <rate> (float in 0..1)     (no loss)" << n << n
    << "   -h              Show this message." << n << n).

Definition dump_show_usage (arg0 : string) (errmsg : option string) (cout : ostream) : ostream :=
  let cout := cout << "Usage: " << arg0 << " [-i <intf>] [-F <file>] [-h|--help] <expression>" << n << n
    << "  -i <intf>    only capture packets from <intf> (default: all)" << n << n
    << "  -F <file>    reads in a filter expression from <file>" << n
    << "               <expression> is ignored if -F is supplied." << n << n
    << "  -h, --help   show this message" << n << n
    << "  <expression> a filter expression in pcap-filter(7) syntax" << n in
  (match errmsg with Some errmsg => cout << nl << errmsg | None => cout end) << n.
End usage.

Section front_ends.
  Context {mem : OverRead} {calls : Kernel} {rs : Resolver} {clib : CLib}.
  Context {K : Type} {pp : PipeIO K} {io : CopyIO K}.

(** What [main] learns from outside: the words of the random generators, the
    initial sequence number's, and what happens in the rounds of the two loops and
    at what time *)
Record surroundings := mkSurroundings {
  su_loss : nat -> Z;
  su_isn : Z;
  su_port : Z;
  su_now : Z;
  su_connecting : list (TCPSpongeSocket.round (K := K));
  su_copying : list (StreamCopy.round (K := K))
}.

Section socket.
  Context {A I O : Type} {fa : FdAdapter A I O} {dg : DatagramIO K I O}.

(** From the socket on: connect or listen, copy, and wait for the end *)
Definition run_socket (tcp_socket : TCPSpongeSocket A K) (c_fsm : TCPConfig) (c_filt : FdAdapterConfig) (listen : bool)
    (su : surroundings) : outcome (option Z) :=
  '(x, connected) ←
    (if listen
     then listen_and_accept (I := I) (O := O) [] tcp_socket c_fsm (su_isn su) c_filt (su_now su) (su_connecting su)
     else TCPSpongeSocket.connect (I := I) (O := O) [] tcp_socket c_fsm (su_isn su) c_filt (su_now su) (su_connecting su));
  if negb connected then mret None
  else
    let w := l_world x in
    '(_, c, returned) ← bidirectional_stream_copy (_owner w) (TCPSpongeSocket.kernel w) (su_copying su);
    if negb returned then mret None
    else
      _ ← wait_until_closed (set_owner w (_socket c) (StreamCopy.kernel c));
      mret (Some 0).
End socket.

(** The [catch] of [main] *)
Definition caught (body : outcome (option Z)) : outcome (option Z) :=
  match body with Throw _ => Ok (Some 1) | r => r end.

(** [tcp_udp] *)
Definition udp_main {dg : DatagramIO K received_datagram (Address * BufferList)} (argv : list string) (k : K)
    (su : surroundings) : outcome (option Z) :=
  caught (
    if argc argv <? 3 then mret (Some 1)
    else
      r ← udp_get_config argv;
      match r with
      | Leave code => mret (Some code)
      | Go (c_fsm, c_filt, listen) =>
          udp_sock ← UDPSocket_new;
          _ ← (if (listen : bool) then bind udp_sock (source c_filt) else mret tt);
          cfg ← FdAdapterConfig_default;
          tcp_socket ← TCPSpongeSocket_new
            (mkLossy (su_loss su) 0 (mkUDPAdapter (mkFdAdapterBase cfg false))) udp_sock k;
          run_socket (I := received_datagram) (O := Address * BufferList) tcp_socket c_fsm c_filt listen su
      end).

(** [tcp_ipv4] *)
Definition ipv4_main {dg : DatagramIO K (list byte) BufferList} (argv : list string) (k : K) (su : surroundings) :
    outcome (option Z) :=
  caught (
    if argc argv <? 3 then mret (Some 1)
    else
      r ← ipv4_get_config argv (su_port su);
      match r with
      | Leave code => mret (Some code)
      | Go (c_fsm, c_filt, listen, tun_dev_name) =>
          tun ← TunFD_new (String.list_byte_of_string (default TUN_DFLT tun_dev_name));
          cfg ← FdAdapterConfig_default;
          tcp_socket ← TCPSpongeSocket_new
            (mkLossy (su_loss su) 0 (mkTunAdapter (mkFdAdapterBase cfg false))) tun k;
          run_socket (I := list byte) (O := BufferList) tcp_socket c_fsm c_filt listen su
      end).

(** ** Asking for help

    [-h] is documented to show the usage and quit, but the options end two
    arguments before the last, and fewer than two operands are an error. *)

(** Alone it is an error; before a single operand it is taken for the host; only before
    two operands it is the option, and ends the program with 0. *)
Theorem udp_help_needs_operands {dg : DatagramIO K received_datagram (Address * BufferList)} program k su c_filt :
  FdAdapterConfig_default = Ok c_filt ->
  udp_main [program; "-h"] k su = Ok (Some 1) /\
  (forall service, udp_get_config [program; "-h"; service] =
     (a ← of_names "-h" service; Ok (Go (TCPConfig_default, set_destination a c_filt, false)))) /\
  (forall host service, udp_main [program; "-h"; host; service] k su = Ok (Some 0)).
Proof.
  intros Hd. split; [done|]. split.
  - intros service. by apply (udp_command_line_read program [] "-h" service).
  - intros host service. unfold udp_main. change (argc [program; "-h"; host; service] <? 3) with false.
    unfold udp_get_config. cbv iota. rewrite (bind_ok _ _ _ Hd). by rewrite (while_exit _ _ (Leave 0)).
Qed.

Theorem ipv4_help_needs_operands {dg : DatagramIO K (list byte) BufferList} program k su c_filt :
  FdAdapterConfig_default = Ok c_filt ->
  ipv4_main [program; "-h"] k su = Ok (Some 1) /\
  (forall host service, ipv4_main [program; "-h"; host; service] k su = Ok (Some 0)).
Proof.
  intros Hd. split; [done|]. intros host service. unfold ipv4_main.
  change (argc [program; "-h"; host; service] <? 3) with false.
  unfold ipv4_get_config. cbv iota. rewrite (bind_ok _ _ _ Hd). by rewrite (while_exit _ _ (Leave 0)).
Qed.
End front_ends.
