(* ===== verification/Benchmark.v ===== *)
(** * The benchmark

    Model of [apps/tcp_benchmark.cc]: two connections in one process, the segments
    of each handed to the other, in order or in reverse.  The benchmark's random
    bytes are an argument, and so is the configuration, the default one in the
    program. *)

From S2P Require Import Prelude WrappingIntegers ByteStream StreamReassembler Buffer TCPHeader.
From S2P Require Import Address TCPSegment TCPConfig TCPReceiver TCPSendingWindow TCPSender TCPState.
From S2P Require Import TCPConnection ConnectionStreams.

Section code.
  Context {mem : OverRead}.

(** The two [for] loops: [segment_received] on each segment. *)
Fixpoint receive_all (y : TCPConnection) (segments : list TCPSegment) : outcome TCPConnection :=
  match segments with
  | [] => mret y
  | it :: segments => y ← TCPConnection.segment_received y it; receive_all y segments
  end.

(** [segments] is empty before and after. *)
Definition move_segments (x y : TCPConnection) (reorder : bool) : outcome (TCPConnection * TCPConnection) :=
  let segments := _segments_out x in
  let x := set_queue x [] in
  y ← receive_all y (if reorder then reverse segments else segments);
  mret (x, y).

(** The variables of [main_loop] *)
Record bench := mkBench {
  b_x : TCPConnection;
  b_y : TCPConnection;
  bytes_to_send : Buffer;
  x_closed : bool;
  string_received : list byte
}.

(** [while (bytes_to_send.size() and x.remaining_outbound_capacity())] *)
Definition write_input_body (s : TCPConnection * Buffer) :
    outcome (TCPConnection * Buffer + TCPConnection * Buffer) :=
  let '(x, bytes) := s in
  if negb (Buffer.size bytes =? 0) && negb (remaining_outbound_capacity x =? 0) then
    let want := Z.min (remaining_outbound_capacity x) (Buffer.size bytes) in
    '(x, written) ← TCPConnection.write x (ztake want (str bytes));
    if negb (want =? written) then
      Throw (runtime_error ("want = " +:+ to_dec want +:+ ", written = " +:+ to_dec written))
    else
      bytes ← Buffer.remove_prefix bytes written;
      mret (inl (x, bytes))
  else mret (inr (x, bytes)).

(** The lambda [loop] *)
Definition loop (reorder : bool) (s : bench) : outcome bench :=
  '(x, bytes) ← while_ write_input_body (b_x s, bytes_to_send s);
  '(x, closed) ← (if (Buffer.size bytes =? 0) && negb (x_closed s)
                  then x ← end_input_stream x; mret (x, true) else mret (x, x_closed s));
  '(x, y) ← move_segments x (b_y s) reorder;
  '(y, x) ← move_segments y x false;
  let available_output := ByteStream.buffer_size (inbound_stream y) in
  '(y, received) ←
    (if available_output >? 0 then
       '(bs, data) ← ByteStream.read (inbound_stream y) available_output;
       mret (set_receiver y (set_stream_out (_receiver y) bs), string_received s ++ data)
     else mret (y, string_received s));
  x ← TCPConnection.tick x 1000;
  y ← TCPConnection.tick y 1000;
  mret (mkBench x y bytes closed received).

(** [while (condition) loop();], at most [fuel] times; [true] when it has ended. *)
Fixpoint loop_while (reorder : bool) (condition : bench -> bool) (fuel : nat) (s : bench) :
    outcome (bench * bool) :=
  if negb (condition s) then mret (s, true)
  else
    match fuel with
    | O => mret (s, false)
    | S fuel => s ← loop reorder s; loop_while reorder condition fuel s
    end.

Definition bench_start (config : TCPConfig) (string_to_send : list byte) (x_random y_random : Z) :
    outcome bench :=
  let x := TCPConnection.new config x_random in
  let y := TCPConnection.new config y_random in
  x ← TCPConnection.connect x;
  y ← end_input_stream y;
  mret (mkBench x y (Buffer_of string_to_send) false []).

Definition sending (s : bench) : bool := negb (eof (inbound_stream (b_y s))).
Definition closing (s : bench) : bool := active (b_x s) || active (b_y s).

(** The output of the throughput, between the loops, is left out. *)
Definition main_loop (reorder : bool) (config : TCPConfig) (string_to_send : list byte)
    (x_random y_random : Z) (fuel : nat) : outcome (bench * bool) :=
  s ← bench_start config string_to_send x_random y_random;
  '(s, ended) ← loop_while reorder sending fuel s;
  if negb ended then mret (s, false)
  else if negb (bool_decide (string_received s = string_to_send)) then
    Throw (runtime_error "strings sent vs. received don't match")
  else loop_while reorder closing fuel s.

(** [main]: the loop without and with reordering, each with a random string; the exit
    code, [None] while a loop still runs. *)
Definition main (string1 string2 : list byte) (randoms : Z * Z * (Z * Z)) (fuel : nat) : outcome (option Z) :=
  let '(x1, y1, (x2, y2)) := randoms in
  let body :=
    '(_, ended) ← main_loop false TCPConfig_default string1 x1 y1 fuel;
    if negb ended then mret None
    else
      '(_, ended) ← main_loop true TCPConfig_default string2 x2 y2 fuel;
      mret (if ended : bool then Some 0 else None) in
  match body with Throw _ => mret (Some 1) | r => r end.
End code.

(** ** Runs

    A capacity of 16 bytes in place of 64000 and fixed initial sequence numbers,
    so that short strings already fill the window. *)
Definition small_config : TCPConfig := mkTCPConfig TIMEOUT_DFLT 16 16 (Some (mkWrappingInt32 5)).
Definition some_bytes (n : nat) : list byte := replicate n Byte.x41.
Definition small_run (reorder : bool) (n fuel : nat) : outcome (bench * bool) :=
  main_loop (mem := word_over_read 0) reorder small_config (some_bytes n) 0 0 fuel.

(** What fits into one window arrives, in order or not, and both connections close. *)
Lemma benchmark_delivers reorder :
  match small_run reorder 16 20 with
  | Ok (s, ended) => ended = true /\ string_received s = some_bytes 16 /\ closing s = false
  | _ => False
  end.
Proof. destruct reorder; vm_compute; done. Qed.

(** The benchmark loses data: one byte more than a window, over an exchange that
    neither loses nor reorders anything, and the benchmark's own comparison fails:
    the stream of [y] ends without the last byte.  ([y] has sent its FIN before
    anything arrives and in [FIN_WAIT_2] drops the segment with this byte; then the
    FIN behind it ends the stream although the byte is missing.) *)
Theorem benchmark_loses_data :
  small_run false 17 20 = Throw (runtime_error "strings sent vs. received don't match").
Proof. vm_compute. done. Qed.

(** With more data it does not end: [x] has seen the FIN of [y], and in [CLOSE_WAIT]
    it looks at no acknowledgment. *)
Lemma benchmark_stalls :
  match small_run false 40 6 with
  | Ok (s, ended) => ended = false /\ state (b_x s) = official CLOSE_WAIT /\
      string_received s = some_bytes 16 /\ Buffer.size (bytes_to_send s) = 0 /\
      consecutive_retransmissions (_sender (b_x s)) = 3
  | _ => False
  end.
Proof. vm_compute. done. Qed.
