(* ===== verification/Owners.v ===== *)
(** * From owner to owner

    Two [TCPSpongeSocket]s that talk to each other: whatever the network does, each
    owner reads a prefix of what the other one writes, and is told of the end of the
    stream only after all of it.  The rules of each thread, as [SpongeSide] has them,
    meet the two-phase contract of [EventLoop]; the threads take their rounds in any
    order. *)

From S2P Require Import Prelude WrappingIntegers ByteStream StreamReassembler Buffer TCPHeader.
From S2P Require Import Address FileDescriptor EventLoop TCPSegment TCPConfig FdAdapter Socket SegmentSpec AdapterLink.
From S2P Require Import TCPReceiver TCPSendingWindow TCPSender TCPState TCPConnection ConnectionParts Encodable.
From S2P Require Import EndToEnd ConnectionInvariant Conversation ConnectionStreams TCPSpongeSocket SpongeSide.

Lemma ends_both {A} (E1 E2 : fault -> Prop) (c : outcome A) (P Q : A -> Prop) :
  ends E1 c P -> ends E2 c Q -> ends E2 c (fun a => P a /\ Q a).
Proof. by destruct c. Qed.

Section owners.
  Context {mem : OverRead} {total : TotalOverRead mem}.
  Context {A I O K : Type} {fa : FdAdapter A I O} {tr : Transport I O} {lk : FdAdapterLink A I O}.
  Context {dg : DatagramIO K I O} {pp : PipeIO K} {rs : Resolver}.
  Context (own taken given : K -> list byte) (inbox : K -> list I) (outbox : K -> list O).
  Context {net : SocketNetOk K I O own taken given inbox outbox}.

Notation Sponge := (TCPSpongeSocket A K).
Notation throws := (outside_fails (A := A) (I := I) (O := O) (K := K)).
Notation rules := (rules (I := I) (O := O)).

#[local] Instance owners_io : SocketIOOk K I O taken given := sn_io.

(** A descriptor that is polled for reading does not hang up before it is at its end. *)
Definition may_hup (r : Rule Sponge) : Prop := direction r = Out.

(** ** One round of one thread *)
Section one_round.
  Context (me peer : party) (sa sp da dp : Z) (x0 y : side) (w0 : Sponge).
  Context (Hme : party_ok me) (Hpeer : party_ok peer).

Notation running := (running (I := I) (O := O) own taken given me peer sa sp da dp x0 y).
Notation posted_or_listens := (posted_or_listens (I := I) outbox sa sp da dp).

(** What holds when [poll] is called: cancelling rule 2 is all that has happened. *)
Definition fresh (w : Sponge) : Prop := exists x,
  running w x /\ kernel w = kernel w0 /\ _datagram_adapter w = _datagram_adapter w0 /\
  count x = count x0 /\ sent x = sent x0 /\
  (forall seg, deliverable me peer (conn x0) seg -> deliverable me peer (conn x) seg).

(** What holds from then on *)
Definition settled (w : Sponge) : Prop := exists x,
  running w x /\ count x <= count x0 + 1 /\ inbox (kernel w) ⊆ inbox (kernel w0) /\
  posted_or_listens w (sent x).

Context (Hposted : posted (A := A) (I := I) outbox sa sp da dp (kernel w0) x0).
Context (Hnet : from_peer (A := A) (I := I) (O := O) inbox sa sp da dp y (kernel w0)).
Context (Hcount : count x0 < 2 ^ 64 - 1).
Context (Hdel : forall i a' seg, i ∈ inbox (kernel w0) -> FdAdapter.read (_datagram_adapter w0) i = Ok (a', Some seg) ->
  deliverable me peer (conn x0) seg).

Lemma fresh_settled w : fresh w -> settled w.
Proof.
  intros (x & Hr & Ek & Ea & Ec & Es & _). exists x. split; [done|]. split; [lia|]. rewrite Ek. split; [done|].
  right. by rewrite Ek, Es.
Qed.

Lemma running_conduit w x : running w x -> conduit taken given w.
Proof. intros [[? _ ? _ _ _ _ _ _] _ _ _]. by exists (conn x). Qed.

Lemma settled_conduit w : settled w -> conduit taken given w.
Proof. intros (x & Hr & _). by eapply running_conduit. Qed.

Lemma settled_local w x w' x' :
  running w' x' -> local_to inbox outbox w x w' x' -> count x <= count x0 + 1 ->
  inbox (kernel w) ⊆ inbox (kernel w0) -> posted_or_listens w (sent x) -> settled w'.
Proof.
  intros Hr [E1 E2 E3 E4 Hib] Hc Hi Hp. exists x'. split; [done|]. split; [lia|]. split; [by etrans|].
  unfold SpongeSide.posted_or_listens in *. by rewrite E3, E4, E2.
Qed.

Lemma rule2_cancel_fresh w : fresh w -> _eof (_thread_data w) = true -> ends throws (rule2_cancel w) fresh.
Proof.
  intros (x & Hr & Ek & Ea & Ec & Es & Hd) He.
  destruct (rule2_cancel_at _ _ _ _ _ _ _ _ _ _ _ _ _ Hme Hpeer _ _ Hr He) as (c' & -> & Hr' & Hd').
  exists (set_conn x c'). split_and!; try done. intros seg H. by apply Hd', Hd.
Qed.

(** The callbacks of the second loop *)
Lemma rule1_settled w : fresh w -> ends throws (rule1_callback w) settled.
Proof.
  intros (x & Hr & Ek & Ea & Ec & Es & Hd).
  eapply EventLoop.ends_mono.
  { apply (rule1_at own taken given inbox outbox me peer sa sp da dp x0 y Hme Hpeer w x Hr); rewrite ?Ek, ?Ea; try done.
    - unfold posted. by rewrite Es.
    - lia.
    - intros i a' seg Hi E. eapply Hd, Hdel; [exact Hi|exact E]. }
  intros w' (x' & Hr' & Hc & Hi & Hp). exists x'. split; [done|]. split; [lia|]. split; [by rewrite <- Ek|by right].
Qed.

Lemma rule2_settled w : settled w -> _outbound_shutdown w = false -> ends throws (rule2_callback w) settled.
Proof.
  intros (x & Hr & H) Hno. eapply EventLoop.ends_mono; [eapply (rule2_at own taken given inbox outbox me peer sa sp da dp x0 y); done|].
  intros w' (x' & Hr' & Hl). apply (settled_local w x w' x'); [done|done|apply H..].
Qed.

Lemma rule3_settled w : settled w -> ends throws (rule3_callback w) settled.
Proof.
  intros (x & Hr & H). eapply EventLoop.ends_mono; [eapply (rule3_at own taken given inbox outbox me peer sa sp da dp x0 y); done|].
  intros w' (x' & Hr' & Hl). apply (settled_local w x w' x'); [done|done|apply H..].
Qed.

Lemma rule4_settled w : settled w -> ends throws (rule4_callback w) settled.
Proof.
  intros (x & Hr & Hc & Hi & Hp). eapply EventLoop.ends_mono; [eapply (rule4_at own taken given inbox outbox me peer sa sp da dp x0 y); done|].
  intros w' (x' & Hr' & E & Hi' & Hp'). exists x'. split; [done|]. split; [lia|]. split; [by etrans|done].
Qed.

(** *** The contract of the event loop

    Rule 1 relies on being the first to run, rule 2 on its own flag. *)
Definition armed (_ : list (Rule Sponge)) (r : Rule Sponge) (w : Sponge) : Prop :=
  direction r = In -> match fd r with 0%nat => fresh w | _ => _outbound_shutdown w = false end.

Definition inv0 (_ : list (Rule Sponge)) : Sponge -> Prop := fresh.
Definition inv (_ : list (Rule Sponge)) : Sponge -> Prop := settled.

Lemma fresh_defunct w :
  fresh w -> defunct (mkRule 1 In rule2_callback rule2_interest rule2_cancel) w = true -> _eof (_thread_data w) = true.
Proof.
  intros (x & [[_ _ _ _ _ Ho _ _ _] _ _ _] & _). unfold defunct. cbn. by rewrite Ho, orb_false_r.
Qed.

Lemma rules_polled : Forall (polled inv0 armed throws) rules.
Proof.
  repeat constructor; unfold armed, inv0; cbn [fd direction callback interest cancel]; try done.
  - unfold rule2_interest. intros l w _ _ _ Hi _. apply andb_true_iff in Hi as [[_ Hi]%andb_true_iff _].
    by apply negb_true_iff in Hi.
  - intros pre post w Hf Hd. apply rule2_cancel_fresh; [done|by apply fresh_defunct].
Qed.

(** What the conduit says of a callback's count of services, with what is proved of it here *)
Lemma serves l r w (E : fault -> Prop) (P : Sponge -> Prop) :
  ends throws (callback r w) settled -> ends E (callback r w) P ->
  (forall w', P w' -> service_count r w' <> service_count r w \/ interest r w' = false) ->
  ends throws (callback r w) (fun w' => inv l w' /\
    (service_count r w' <> service_count r w \/ interest r w' = false)).
Proof.
  intros H1 H2 HP. eapply EventLoop.ends_mono; [exact (ends_both _ _ _ _ _ H2 H1)|].
  intros w' [? ?]. split; [done|by apply HP].
Qed.

Lemma rules_served : Forall (served inv armed may_hup throws) rules.
Proof.
  repeat constructor; unfold armed, may_hup; cbn [fd direction cancel]; try done;
    intros l w _ Hw Ha; pose proof (settled_conduit _ Hw) as Hc.
  - eapply serves; [by apply rule1_settled, Ha|by apply (rule1_ends taken given)|]. intros w' H. left. apply H.
  - eapply serves; [by apply rule2_settled, Ha|by apply (rule2_ends taken given); [|apply Ha]|].
    intros w' H. left. apply H.
  - eapply serves; [by apply rule3_settled|by apply (rule3_ends taken given)|]. intros w' H. left. apply H.
  - eapply serves; [by apply rule4_settled|by apply (rule4_ends taken given)|]. intros w' H. right. apply H.
Qed.

Lemma rules_contract : contract inv0 inv armed may_hup throws rules.
Proof.
  split; [apply rules_polled|apply rules_served|..].
  - repeat constructor; unfold steady, armed, inv0; cbn [fd direction cancel]; try done;
      intros pre post w w' _ Hf Hd Ha E Hi; try (injection E as <-; by apply Ha).
    assert (He : _eof (_thread_data w) = true) by (by apply fresh_defunct).
    exact (EventLoop.ends_eq _ _ _ _ (rule2_cancel_fresh _ Hf He) E).
  - repeat constructor; unfold armed, inv, may_hup; cbn [fd direction callback cancel]; try done.
    intros l w w' _ _ Hw Ha _ E Hd.
    pose proof (EventLoop.ends_eq _ _ _ _ (rule1_ends taken given _ (settled_conduit _ Hw)) E) as (_ & -> & _).
    by apply Ha.
Qed.

(** *** The rest of the round *)

(** The connection has not given up. *)
Definition calm (w : Sponge) : Prop :=
  forall c, _tcp w = Some c -> consecutive_retransmissions (_sender c) <= MAX_RETX_ATTEMPTS.

Lemma settled_abort w b : settled w -> settled (set_abort w b).
Proof. intros (x & [[] ? ? ?] & H). exists x. split; [constructor; [by constructor|done..]|exact H]. Qed.

(** Giving up throws nothing either. *)
Lemma tick_settled w c ms :
  settled w -> _tcp w = Some c -> 0 <= ms ->
  exists c', TCPConnection.tick c ms = Ok c' /\
    (consecutive_retransmissions (_sender c') <= MAX_RETX_ATTEMPTS ->
     settled (set_adapter (set_tcp w (Some c')) (FdAdapter.tick (_datagram_adapter w) ms))).
Proof.
  intros (x & Hr & Hc & Hi & Hp) Hw Hms.
  pose proof (sm_tcp _ _ _ _ _ _ _ _ _ _ _ (rn_sim _ _ _ _ _ _ _ _ _ _ _ _ _ Hr)) as Ex. simplify_eq.
  destruct (Z.leb_spec (consecutive_retransmissions (TCPSender.tick (_sender (conn x)) ms)) MAX_RETX_ATTEMPTS) as [Hn|Hn].
  - destruct (running_total _ _ _ _ _ _ _ _ _ _ _ Hme Hpeer _ _ Hr) as (_ & _ & _ & _ & _ & Ht).
    destruct (Ht ms Hms Hn) as (c' & E). exists c'. split; [done|]. intros _. exists (set_conn x c').
    split; [by eapply tick_at|]. split; [done|]. split; [done|].
    destruct (fl_tick (_datagram_adapter w) ms) as [_ El]. unfold SpongeSide.posted_or_listens in *. simpl. by rewrite El.
  - unfold TCPConnection.tick. cbv zeta. set (c1 := set_time _ _). set (g := in_state _ _ && _ && _).
    set (c2 := if g then _ else c1). assert (E1 : _sender c2 = _sender (conn x)) by (unfold c2; by destruct g).
    rewrite E1. cbn [set_sender _sender]. rewrite Z.gtb_ltb, (proj2 (Z.ltb_lt _ _) Hn).
    eexists. split; [reflexivity|]. intros H.
    change (consecutive_retransmissions (TCPSender.tick (_sender (conn x)) ms) <= MAX_RETX_ATTEMPTS) in H. lia.
Qed.

Lemma round_settled condition X rd :
  l_rules X `sublist_of` rules -> condition (l_world X) = true ->
  set_kernel (l_world X) (r_env rd (kernel (l_world X))) = w0 -> fresh w0 -> poll_fills may_hup (r_poll rd) ->
  ends throws (tcp_round (I := I) (O := O) condition X rd) (fun z => l_rules z.1 `sublist_of` rules /\
    (calm (l_world z.1) -> settled (l_world z.1))).
Proof.
  intros Hs Hcond Ew Hf Hpoll. unfold tcp_round. rewrite Hcond, Ew. cbn [negb]. cbv zeta.
  eapply EventLoop.ends_bind.
  { eapply (round_ends inv0 inv armed may_hup throws); [by apply ot_poll| | |exact Hf|exact Hpoll].
    - eapply contract_sublist; [exact Hs|apply rules_contract].
    - intros l w. apply fresh_settled. }
  intros [[ret rules1] w1] [Hw1 Hs1]. unfold inv in Hw1.
  set (w2 := if r_abort rd then _ else w1).
  assert (Hw2 : settled w2) by (unfold w2; case_bool; [by apply settled_abort|done]).
  assert (Hs2 : rules1 `sublist_of` rules) by (by etrans).
  case_bool; [by split|]. pose proof Hw2 as (x & Hr & _).
  pose proof (sm_tcp _ _ _ _ _ _ _ _ _ _ _ (rn_sim _ _ _ _ _ _ _ _ _ _ _ _ _ Hr)) as Ex. rewrite Ex.
  cbn [opt_value mbind outcome_bind]. case_bool; [|by split].
  destruct (tick_settled w2 (conn x) (u64 (r_now rd - l_base_time X)) Hw2 Ex) as (c' & E & Hc'); [apply u64_range|].
  rewrite E. cbn [mbind outcome_bind]. split; [done|]. intros Hcalm. apply Hc', Hcalm. done.
Qed.
End one_round.

(** ** Two threads *)

(** A party and the address of its adapter *)
Record host := mkHost { h_party : party; h_ip : Z; h_port : Z }.

Notation Thread := (loop_state (A := A) (K := K)).

(** What the network and the owner may do before a round of [X], while the peer's thread
    is at [Y]: bytes that were read or written stay so, and what lies in the inbox is a
    datagram of the peer, sent at any time, any number of times; the segment in it is one
    that [Conversation] lets the network deliver. *)
Record admissible (me peer : host) (X Y : Thread) (rd : round (K := K)) : Prop := {
  ad_own k : own (r_env rd k) = own k;
  ad_moved k : taken (r_env rd k) = taken k /\ given (r_env rd k) = given k /\ outbox (r_env rd k) = outbox k;
  ad_inbox i : i ∈ inbox (r_env rd (kernel (l_world X))) ->
    exists o, i = carry (ipv4_address (h_ip peer) (h_port peer)) o /\ o ∈ outbox (kernel (l_world Y));
  ad_poll : poll_fills may_hup (r_poll rd);
  ad_window c i a' seg : _tcp (l_world X) = Some c -> i ∈ inbox (r_env rd (kernel (l_world X))) ->
    FdAdapter.read (_datagram_adapter (l_world X)) i = Ok (a', Some seg) ->
    deliverable (h_party me) (h_party peer) c seg
}.

(** What must be so after the round: the connection has not given up, and a socket that
    still listens has sent nothing (its owner has not written yet). *)
Record went_on (X X' : Thread) : Prop := {
  wo_calm : calm (l_world X');
  wo_listens : listening (_datagram_adapter (l_world X')) = true ->
    outbox (kernel (l_world X')) = outbox (kernel (l_world X))
}.

Inductive turn (me peer : host) (X Y X' : Thread) : Prop :=
  | take_turn condition rd left_loop :
      admissible me peer X Y rd -> tcp_round (I := I) (O := O) condition X rd = Ok (X', left_loop) ->
      went_on X X' -> turn me peer X Y X'.

(** The threads take turns in any order. *)
Inductive turns (a b : host) : Thread * Thread -> Thread * Thread -> Prop :=
  | turn_left X Y X' : turn a b X Y X' -> turns a b (X, Y) (X', Y)
  | turn_right X Y Y' : turn b a Y X Y' -> turns a b (X, Y) (X, Y').

(** A socket that was just made; its owner is going to write the party's stream. *)
Record unused (me : host) (w : Sponge) : Prop := {
  un_tcp : _tcp w = None;
  un_eof : _eof (_thread_data w) = false;
  un_open : _closed (_thread_data w) = false;
  un_inbound : _inbound_shutdown w = false;
  un_outbound : _outbound_shutdown w = false;
  un_own : own (kernel w) = p_stream (h_party me);
  un_taken : taken (kernel w) = [];
  un_given : given (kernel w) = [];
  un_outbox : outbox (kernel w) = []
}.

(** It connects to the peer, or waits for it. *)
Inductive started (me peer : host) : Thread -> Prop :=
  | st_connect w c_ad l w' now :
      unused me w -> endpoints c_ad (h_ip me) (h_port me) (h_ip peer) (h_port peer) ->
      listening (_datagram_adapter w) = false ->
      connect_start (I := I) (O := O) [] w (p_cfg (h_party me)) (p_random (h_party me)) c_ad = Ok (l, w') ->
      started me peer (mkLoop l w' now)
  | st_listen w c_ad l w' now :
      unused me w -> source c_ad = ipv4_address (h_ip me) (h_port me) ->
      listen_start (I := I) (O := O) [] w (p_cfg (h_party me)) (p_random (h_party me)) c_ad = Ok (l, w') ->
      started me peer (mkLoop l w' now).

(** What the owner of [wy] learns of what the owner of [wx] writes. *)
Record hears (wx wy : Sponge) : Prop := {
  he_prefix : given (kernel wy) `prefix_of` own (kernel wx);
  he_end : _inbound_shutdown wy = true -> given (kernel wy) = own (kernel wx);
  he_acked cx cy : _tcp wx = Some cx -> _tcp wy = Some cy -> TCPSender.state (_sender cx) = TCPSender.FIN_ACKED ->
    input_ended (inbound_stream cy) = true /\
    exists buffered, peek_output (inbound_stream cy) (ByteStream.buffer_size (inbound_stream cy)) = Ok buffered /\
      given (kernel wy) ++ buffered = own (kernel wx)
}.

(** *** The invariant *)

(** The thread [X] is at the side [x] between two rounds. *)
Record thread_at (me peer : host) (X : Thread) (x : side) : Prop := {
  ta_rules : l_rules X `sublist_of` rules;
  ta_sim : sim (I := I) own taken given (h_party me) (h_party peer) (h_ip me) (h_port me) (h_ip peer) (h_port peer)
    (l_world X) x;
  ta_posted : posted (A := A) (I := I) outbox (h_ip me) (h_port me) (h_ip peer) (h_port peer) (kernel (l_world X)) x
}.

(** Thread [X] at [x] and its peer's at [y]; at most [n] segments have been given to either. *)
Record half (me peer : host) (n : Z) (X : Thread) (x y : side) : Prop := {
  ha_thread : thread_at me peer X x;
  ha_inv : side_inv (h_party me) (h_party peer) x y;
  ha_count : count x <= n
}.

Definition joint (a b : host) (n : Z) (S : Thread * Thread) : Prop :=
  exists x y, half a b n S.1 x y /\ half b a n S.2 y x.

Lemma joint_sym a b n X Y : joint a b n (X, Y) -> joint b a n (Y, X).
Proof. intros (x & y & ? & ?). by exists y, x. Qed.

Lemma half_mono me peer n n' X x y : n <= n' -> half me peer n X x y -> half me peer n' X x y.
Proof. intros ? []. constructor; [done..|lia]. Qed.

Lemma sent_grows (me peer : party) segs x x' : rtc (act me peer segs) x x' -> sent x ⊆ sent x'.
Proof.
  induction 1 as [|x x1 x' Hact _ IH]; [done|]. etrans; [|exact IH]. by destruct Hact; simpl; set_solver.
Qed.

(** The start of a round *)
Lemma round_starts me peer n X Y x y rd :
  half me peer n X x y -> half peer me n Y y x -> admissible me peer X Y rd ->
  let w0 := set_kernel (l_world X) (r_env rd (kernel (l_world X))) in
  fresh (h_party me) (h_party peer) (h_ip me) (h_port me) (h_ip peer) (h_port peer) x y w0 w0 /\
  posted (A := A) (I := I) outbox (h_ip me) (h_port me) (h_ip peer) (h_port peer) (kernel w0) x /\
  from_peer (A := A) (I := I) (O := O) inbox (h_ip me) (h_port me) (h_ip peer) (h_port peer) y (kernel w0).
Proof.
  intros [[Hs [S1 S2 S3 S4 S5 S6 S7 S8 S9] Hp] Hi Hc] [[_ _ Hpy] Hiy _] [A1 A2 A3 A4 A5]. cbv zeta.
  destruct (A2 (kernel (l_world X))) as (Et & Eg & Eo). split; [|split].
  - exists x. split; [|done]. constructor; [|done..]. constructor; simpl; rewrite ?A1, ?Et, ?Eg; try done.
    unfold carries in *. simpl. by rewrite Et, Eg.
  - unfold posted. cbn [set_kernel kernel]. by rewrite Eo.
  - intros i Hin. destruct (A3 i Hin) as (o & -> & Ho). exists o. split; [done|].
    unfold posted in Hpy. rewrite Forall_forall in Hpy. by apply Hpy.
Qed.

Lemma turn_ends me peer n X Y condition rd :
  party_ok (h_party me) -> party_ok (h_party peer) -> n < 2 ^ 64 - 1 ->
  joint me peer n (X, Y) -> admissible me peer X Y rd ->
  ends throws (tcp_round (I := I) (O := O) condition X rd) (fun z => went_on X z.1 -> joint me peer (n + 1) (z.1, Y)).
Proof.
  intros Hme Hpeer Hn (x & y & Hx & Hy) Had. destruct (round_starts _ _ _ _ _ _ _ _ Hx Hy Had) as (Hf & Hpo & Hfr).
  destruct (condition (l_world X)) eqn:Econd.
  2: { unfold tcp_round. rewrite Econd. intros _. exists x, y. split; (eapply half_mono; [|done]); lia. }
  eapply EventLoop.ends_mono.
  { eapply (round_settled _ _ _ _ _ _ x y _ Hme Hpeer Hpo Hfr); [..|exact Hf|apply Had]; try done.
    - pose proof (ha_count _ _ _ _ _ _ Hx). lia.
    - intros i a' seg Hi E. eapply (ad_window _ _ _ _ _ Had); [|exact Hi|exact E].
      apply (sm_tcp _ _ _ _ _ _ _ _ _ _ _ (ta_sim _ _ _ _ (ha_thread _ _ _ _ _ _ Hx))).
    - apply Hx. }
  intros [X' b] [Hs Hset] [Hcalm Hlis]. simpl in *. destruct (Hset Hcalm) as (x' & Hr & Hc & _ & Hp).
  destruct Hr as [Hsim Hrun Hx' Hy']. exists x', y. cbn [fst snd]. pose proof (ha_count _ _ _ _ _ _ Hx).
  split; constructor; [constructor; [done..|]|done|lia| |done|].
  - destruct Hp as [Hl|Hp]; [|exact Hp]. unfold posted. rewrite (Hlis Hl).
    eapply Forall_impl; [apply (ta_posted _ _ _ _ (ha_thread _ _ _ _ _ _ Hx))|].
    intros o. apply written_mono. by eapply sent_grows.
  - apply Hy.
  - pose proof (ha_count _ _ _ _ _ _ Hy). lia.
Qed.

(** *** The start *)

Lemma new_streams me : party_ok me -> streams [] false [] (TCPConnection.new (p_cfg me) (p_random me)).
Proof.
  intros [[H1 H2 _ _] _]. split.
  - exists (spec_new (send_capacity (p_cfg me))). split; [by apply rep_new|done].
  - exists (spec_new (recv_capacity (p_cfg me))). split; [|done]. apply rep_new. lia.
Qed.

Lemma connect_start_inv w cfg random c_ad l w' :
  _tcp w = None -> connect_start (I := I) (O := O) [] w cfg random c_ad = Ok (l, w') ->
  l = rules /\ exists c, TCPConnection.connect (TCPConnection.new cfg random) = Ok c /\
    w' = set_tcp (set_adapter (set_tcp w (Some (TCPConnection.new cfg random)))
      (set_config c_ad (_datagram_adapter w))) (Some c).
Proof.
  intros U E. unfold connect_start in E. rewrite U, bool_decide_eq_false_2 in E by (by intros [? ?]).
  unfold _initialize_TCP in E. revert E. generalize (TCPConnection.new cfg random) as c0. intros c0.
  destruct (Address.to_string _); [|done..]. cbn [mbind outcome_bind set_tcp set_adapter _tcp deref].
  destruct (TCPConnection.connect c0) as [c| |]; [|done..]. cbn [mbind outcome_bind].
  destruct (in_state _ _); [|done]. intros [= <- <-]. split; [done|]. by exists c.
Qed.

Lemma started_at me peer X :
  party_ok (h_party me) -> started me peer X ->
  exists x, thread_at me peer X x /\ count x = 0 /\
    (x = side_new (h_party me) \/ forall segs, act (h_party me) (h_party peer) segs (side_new (h_party me)) x).
Proof.
  intros Hme Hst. pose proof (new_streams _ Hme) as Hnew.
  pose proof (new_encodes (p_cfg (h_party me)) (p_random (h_party me)) ltac:(by destruct (po_cfg _ Hme))) as Henc.
  destruct Hst as [w c_ad l w' now [U1 U2 U3 U4 U5 U6 U7 U8 U9] Hep Hlis E|w c_ad l w' now [U1 U2 U3 U4 U5 U6 U7 U8 U9] Hsrc E].
  - apply connect_start_inv in E as (-> & c & Ec & ->); [|done].
    exists (set_conn (side_new (h_party me)) c). split; [|split; [done|right; intros; by apply act_connect]].
    destruct (fl_set_config (_datagram_adapter w) c_ad) as [F1 F2].
    constructor; [done| |unfold posted; simpl; by rewrite U9].
    constructor; simpl; rewrite ?U2, ?U4, ?U5, ?U7, ?U8; try done.
    + unfold carries. simpl. rewrite U7, U8, U5. exact (connect_streams _ _ _ _ Hnew _ Ec).
    + left. by rewrite F1, F2.
    + exact (connect_parts _ Henc _ Ec).
  - unfold listen_start in E. rewrite U1, bool_decide_eq_false_2 in E by (by intros [? ?]).
    unfold _initialize_TCP in E. injection E as <- <-.
    exists (side_new (h_party me)). split; [|split; [done|by left]].
    destruct (fl_set_config (_datagram_adapter w) c_ad) as [F1 F2].
    destruct (fl_set_listening (set_config c_ad (_datagram_adapter w)) true) as [G1 G2].
    constructor; [done| |unfold posted; simpl; by rewrite U9].
    constructor; simpl; rewrite ?U2, ?U4, ?U5, ?U7, ?U8; try done.
    + unfold carries. simpl. by rewrite U7, U8, U5.
    + right. by rewrite G1, G2, F1.
Qed.

Lemma joint_start a b X Y :
  party_ok (h_party a) -> party_ok (h_party b) -> started a b X -> started b a Y -> joint a b 0 (X, Y).
Proof.
  intros Ha Hb HX HY. destruct (started_at _ _ _ Ha HX) as (x & Hx & Ecx & Hax).
  destruct (started_at _ _ _ Hb HY) as (y & Hy & Ecy & Hay). exists x, y.
  assert (H1 : side_inv (h_party a) (h_party b) x (side_new (h_party b)) /\
    side_inv (h_party b) (h_party a) (side_new (h_party b)) x).
  { destruct Hax as [-> |Hax]; [by split; apply side_new_inv|].
    eapply act_inv; [done|done|by apply side_new_inv..|apply Hax]. }
  assert (H2 : side_inv (h_party b) (h_party a) y x /\ side_inv (h_party a) (h_party b) x y).
  { destruct H1. destruct Hay as [-> |Hay]; [by split|]. eapply act_inv; [done..|apply Hay]. }
  destruct H2 as [Hy' Hx']. split; cbn [fst snd]; constructor; (done || lia).
Qed.

(** Every state the threads reach *)
Lemma joint_reach a b n X Y X' Y' :
  party_ok (h_party a) -> party_ok (h_party b) -> started a b X -> started b a Y ->
  nsteps (turns a b) n (X, Y) (X', Y') -> Z.of_nat n < 2 ^ 64 - 1 -> joint a b (Z.of_nat n) (X', Y').
Proof.
  intros Ha Hb HX HY. revert X' Y'. induction n as [|n IH]; intros X' Y' Hn Hb'.
  { inversion Hn; subst. by apply joint_start. }
  apply nsteps_inv_r in Hn as ([X1 Y1] & Hn & Ht). specialize (IH _ _ Hn ltac:(lia)).
  replace (Z.of_nat (S n)) with (Z.of_nat n + 1) by lia.
  inversion Ht as [? ? ? Hturn|? ? ? Hturn]; subst; destruct Hturn as [condition rd left_loop Had E Hon].
  - pose proof (turn_ends _ _ (Z.of_nat n) _ _ condition _ Ha Hb ltac:(lia) IH Had) as H. rewrite E in H. by apply H.
  - apply joint_sym. pose proof (turn_ends _ _ (Z.of_nat n) _ _ condition _ Hb Ha ltac:(lia) (joint_sym _ _ _ _ _ IH) Had) as H.
    rewrite E in H. by apply H.
Qed.

Lemma joint_hears a b n X Y : joint a b n (X, Y) -> hears (l_world X) (l_world Y).
Proof.
  intros (x & y & [[_ Hx _] Hix _] & [[_ Hy _] Hiy _]). simpl in Hx, Hy.
  destruct (side_conveys _ _ _ _ Hix Hiy) as (buffered & Ep & Hpre & _ & Hack).
  destruct Hx as [X1 _ _ X4 _ _ _ _ _], Hy as [Y1 Y2 _ _ _ _ Y7 _ _]. constructor; rewrite ?X4, ?Y2.
  - etrans; [|exact Hpre]. by eexists.
  - exact Y7.
  - intros cx cy Ex Ey Hst. rewrite X1 in Ex. rewrite Y1 in Ey. simplify_eq. destruct (Hack Hst) as [H1 H2].
    split; [exact H2|]. by exists buffered.
Qed.

(** ** Properties *)

(** C3. From owner to owner: two sockets, of which each connects or listens, over
    adapters that keep the laws of [FdAdapterLink] and a network that loses, repeats and
    reorders datagrams, whose threads take rounds in any order while the owners write,
    read and end their streams: each owner has been given a prefix of what the other
    one writes, and all of it once it has been told that the stream is over; and when
    one connection counts its FIN as acknowledged, the other socket has every byte.
    A round is [admissible]: other threads keep what was read and written, the inbox
    holds datagrams of the peer whose segments are [deliverable] (inside the window, no
    empty FIN before the data, no window taken back), and a descriptor polled for
    reading does not hang up before its end; and the thread [went_on]: it has not given up, and
    a socket that still listens has sent nothing.  The read past the end of [_count]
    returns some word. *)
Theorem owners_conversation a b n X Y X' Y' :
  party_ok (h_party a) -> party_ok (h_party b) -> started a b X -> started b a Y ->
  nsteps (turns a b) n (X, Y) (X', Y') -> Z.of_nat n < 2 ^ 64 - 1 ->
  hears (l_world X') (l_world Y') /\ hears (l_world Y') (l_world X').
Proof.
  intros Ha Hb HX HY Hn Hl. pose proof (joint_reach _ _ _ _ _ _ _ Ha Hb HX HY Hn Hl) as H.
  split; [by eapply joint_hears|by eapply joint_hears, joint_sym].
Qed.

(** C4. The protocol never ends a thread: in every state two sockets reach as in
    [owners_conversation], an admissible round of either thread throws only if a system call fails, a
    polled descriptor is in error, the resolver cannot name the peer for a message, or a
    listening socket is made to send; and it is undefined only if a call on the socket
    or device below is, or the writing of an adapter that has no peer yet: never because of
    the connection, the loop, or the datagrams of the peer, and an adapter that has its
    peer never fails.  The read past the end of [_count], undefined in the source
    ([reassembler_over_read_iff]), is taken to return some word. *)
Theorem owners_undisturbed a b n X Y X' Y' condition rd :
  party_ok (h_party a) -> party_ok (h_party b) -> started a b X -> started b a Y ->
  nsteps (turns a b) n (X, Y) (X', Y') -> Z.of_nat n < 2 ^ 64 - 1 -> admissible a b X' Y' rd ->
  match tcp_round (I := I) (O := O) condition X' rd with
  | Ok _ => True
  | Throw e => outside_fails (A := A) (I := I) (O := O) (K := K) (Thrown e)
  | UB => undefined_below A I O K
  end.
Proof.
  intros Ha Hb HX HY Hn Hl Had. pose proof (joint_reach _ _ _ _ _ _ _ Ha Hb HX HY Hn Hl) as H.
  pose proof (turn_ends _ _ _ _ _ condition _ Ha Hb Hl H Had) as He.
  destruct (tcp_round _ _ _); [done|exact He|exact (outside_undefined He)].
Qed.
End owners.

(** ** A small exchange

    A kernel that is a pipe to the owner and two queues of UDP datagrams. *)
Record talk := mkTalk {
  t_left : list byte; t_taken : list byte; t_given : list byte;
  t_inbox : list received_datagram; t_outbox : list (Address * BufferList)
}.

Definition t_own (k : talk) : list byte := t_taken k ++ t_left k.

#[local] Existing Instance numeric_resolver.

#[local] Instance talk_io : DatagramIO talk received_datagram (Address * BufferList) := {|
  recv_dgram d k :=
    match t_inbox k with
    | [] => Throw (unix_error "recvfrom" 11)
    | i :: rest => Ok (register_read d, i, mkTalk (t_left k) (t_taken k) (t_given k) rest (t_outbox k))
    end;
  send_dgram d k o := Ok (register_write d, mkTalk (t_left k) (t_taken k) (t_given k) (t_inbox k) (t_outbox k ++ [o]))
|}.

#[local] Instance talk_pipe : PipeIO talk := {|
  pipe_read k n := (inr (ztake n (t_left k)),
    mkTalk (zdrop n (t_left k)) (t_taken k ++ ztake n (t_left k)) (t_given k) (t_inbox k) (t_outbox k));
  pipe_writev k vs := (inr (len (concat vs)),
    mkTalk (t_left k) (t_taken k) (t_given k ++ concat vs) (t_inbox k) (t_outbox k));
  pipe_shutdown k _ := (inr 0, k)
|}.

#[local] Instance talk_net :
  SocketNetOk talk received_datagram (Address * BufferList) t_own t_taken t_given t_inbox t_outbox.
Proof.
  split; [split| |..].
  - intros d k d' i k' E. cbn in E. destruct (t_inbox k); [done|]. by injection E as <- _ <-.
  - by intros d k o d' k' [= <- <-].
  - intros k n sys k' Hn [= <- <-]. split; [done|]. split; [|done]. rewrite len_ztake; lia.
  - intros k vs sys k' [= <- <-]. split; [done|]. split; [lia|]. cbn. by rewrite ztake_all by lia.
  - by intros k how sys k' [= <- <-].
  - intros k. by eexists.
  - intros d k d' i k' E. cbn in E. destruct (t_inbox k) eqn:Ei; [done|]. injection E as <- <- <-. cbn.
    split_and!; [by left|done|set_solver|done].
  - by intros d k o d' k' [= <- <-].
  - intros k n sys k' [= <- <-]. unfold t_own. cbn. rewrite <- app_assoc, ztake_zdrop. split_and!; try done.
    intros Hn [= E]. apply (f_equal (fun l => len l)) in E. rewrite len_ztake in E by lia.
    destruct (t_left k); [by rewrite app_nil_r|simpl in E; lia].
  - by intros k vs sys k' [= <- <-].
  - by intros k how sys k' [= <- <-].
Qed.

Notation Sock := (TCPSpongeSocket TCPOverUDPSocketAdapter talk).
Notation Talk := (loop_state (A := TCPOverUDPSocketAdapter) (K := talk)).
Notation talk_rules := (rules (mem := word_over_read 0) (A := TCPOverUDPSocketAdapter)
  (I := received_datagram) (O := Address * BufferList) (K := talk)).
Notation talk_round_of := (tcp_round (A := TCPOverUDPSocketAdapter)
  (I := received_datagram) (O := Address * BufferList) (K := talk) (fun _ => true)).

(** The network puts the datagrams [dgrams] into the inbox; [poll] finds the socket
    readable when there is one, the pipe when the owner has [written], and everything
    writable. *)
Definition hear (dgrams : list received_datagram) (k : talk) : talk :=
  mkTalk (t_left k) (t_taken k) (t_given k) dgrams (t_outbox k).
Definition ready (dgrams : list received_datagram) (written : bool) (p : pollfd) : Z :=
  if (events p =? POLLIN) && (if pfd p =? 7 then bool_decide (dgrams = []) else negb written) then 0 else events p.
Definition talk_round (dgrams : list received_datagram) (written : bool) (now : Z) : round (K := talk) :=
  mkRound (hear dgrams) (fun ps => inr (len ps, ready dgrams written <$> ps)) false now.

Lemma talk_poll {W} (may : Rule W -> Prop) dgrams written :
  poll_fills may (fun ps => inr (len ps, ready dgrams written <$> ps)).
Proof.
  intros ps. split; [by rewrite length_fmap|]. unfold set_revents. induction ps as [|p ps IH]; simpl; [done|].
  constructor; [|exact IH]. intros r _. unfold hung_up, ready. cbn [events revents].
  case_match; cbn; [done|]. unfold has. rewrite Z.land_diag.
  destruct (events p =? 0); cbn; [by rewrite !andb_false_r|by rewrite andb_false_r].
Qed.

(** A round played, and its outcome *)
Definition played (X : Talk) (rd : round (K := talk)) : Talk :=
  match talk_round_of X rd with Ok (X', _) => X' | _ => X end.

Notation admits := (admissible (I := received_datagram) (O := Address * BufferList) t_own t_taken t_given t_inbox t_outbox).
Notation talks := (turn (I := received_datagram) (O := Address * BufferList)
  t_own t_taken t_given t_inbox t_outbox).

Lemma played_turn me peer (X Y : Talk) rd :
  admits me peer X Y rd -> (match talk_round_of X rd with Ok _ => True | _ => False end) ->
  went_on t_outbox X (played X rd) -> talks me peer X Y (played X rd).
Proof.
  intros Had Hok Hon. unfold played in *. destruct (talk_round_of X rd) as [[X' b]| |] eqn:E; [|done..].
  by eapply take_turn.
Qed.

(** The [n]-th datagram the thread has sent *)
Definition dgram (h : host) (X : Talk) (n : nat) : list received_datagram :=
  match t_outbox (kernel (l_world X)) !! n with Some o => [carry (ipv4_address (h_ip h) (h_port h)) o] | None => [] end.

Lemma talk_admits me peer (X Y : Talk) dgrams written now :
  (dgrams = [] \/ exists n, dgrams = dgram peer Y n) ->
  (forall c i a' seg, _tcp (l_world X) = Some c -> i ∈ dgrams ->
     FdAdapter.read (_datagram_adapter (l_world X)) i = Ok (a', Some seg) ->
     deliverable (h_party me) (h_party peer) c seg) ->
  admits me peer X Y (talk_round dgrams written now).
Proof.
  intros Hd Hw. constructor; try done; [|apply talk_poll].
  intros i Hi. simpl in Hi. destruct Hd as [-> |[n ->]]; [by apply elem_of_nil in Hi|].
  unfold dgram in Hi. destruct (_ !! n) as [o|] eqn:Ho; [|by apply elem_of_nil in Hi].
  apply list_elem_of_singleton in Hi as ->. exists o. split; [done|]. by eapply list_elem_of_lookup_2.
Qed.

(** Alice at 10.0.0.2:9090 connects, writes three bytes and ends her stream; Bob, who
    listens at 10.0.0.1:80, reads them.  The bare acknowledgment of the handshake is lost. *)
Definition alice_host : host := mkHost alice 167772162 9090.
Definition bob_host : host := mkHost bob 167772161 80.
Definition bob_ad : FdAdapterConfig := mkFdAdapterConfig (ipv4_address 167772161 80) (ipv4_address 0 0) 0 0.

Definition talk_socket (data : list byte) (c : FdAdapterConfig) : Sock :=
  mkSponge (mkFDWrapper 8 false false 0 0) (mkFDWrapper 9 false false 0 0)
    (mkUDPAdapter (mkFdAdapterBase c false)) sample_socket None false false false false false
    (mkTalk data [] [] [] []).

Definition world_of (o : outcome (list (Rule Sock) * Sock)) (w : Sock) : Sock := match o with Ok (_, w) => w | _ => w end.

Definition alice_connects := connect_start (mem := word_over_read 0) (I := received_datagram) (O := Address * BufferList) []
  (talk_socket hi demo_peer) (p_cfg alice) 0 demo_peer.
Definition bob_listens := listen_start (mem := word_over_read 0) (I := received_datagram) (O := Address * BufferList) []
  (talk_socket [] bob_ad) (p_cfg bob) 0 bob_ad.

Definition alice_t0 := mkLoop talk_rules (world_of alice_connects (talk_socket hi demo_peer)) 0.
Definition bob_t0 := mkLoop talk_rules (world_of bob_listens (talk_socket [] bob_ad)) 0.

Definition alice_t1 := played alice_t0 (talk_round [] true 10).
Definition bob_t1 := played bob_t0 (talk_round (dgram alice_host alice_t1 0) false 10).
Definition bob_t2 := played bob_t1 (talk_round [] false 20).
Definition alice_t2 := played alice_t1 (talk_round (dgram bob_host bob_t2 0) true 20).
Definition alice_t3 := played alice_t2 (talk_round [] true 30).
Definition bob_t3 := played bob_t2 (talk_round (dgram alice_host alice_t3 2) false 30).
Definition bob_t4 := played bob_t3 (talk_round (dgram alice_host alice_t3 3) false 40).
Definition bob_t5 := played bob_t4 (talk_round [] false 50).

(** Bob has been given Alice's bytes and the end of her stream. *)
Example bob_has_heard :
  t_given (kernel (l_world bob_t5)) = hi /\ _inbound_shutdown (l_world bob_t5) = true.
Proof. by vm_compute. Qed.

Ltac talk_delivers :=
  let c := fresh "c" in let i := fresh "i" in let Ec := fresh "Ec" in let Hi := fresh "Hi" in let Er := fresh "Er" in
  intros c i ? ? Ec Hi Er; vm_compute in Ec; injection Ec as <-; vm_compute in Hi;
  (apply elem_of_nil in Hi; contradiction) ||
  (apply list_elem_of_singleton in Hi as ->; vm_compute in Er; injection Er as _ <-; say_deliverable).

Ltac talk_sent :=
  match goal with
  | |- [] = [] \/ _ => left; reflexivity
  | |- dgram _ _ ?n = [] \/ _ => right; exists n; reflexivity
  end.

Ltac talk_turn :=
  apply played_turn;
  [ apply talk_admits; [talk_sent | talk_delivers ]
  | by vm_compute
  | constructor; [intros ? E; vm_compute in E; injection E as <-; vm_compute; congruence | by vm_compute] ].

Lemma alice_turn1 : talks alice_host bob_host alice_t0 bob_t0 alice_t1.
Proof. talk_turn. Qed.
Lemma bob_turn1 : talks bob_host alice_host bob_t0 alice_t1 bob_t1.
Proof. talk_turn. Qed.
Lemma bob_turn2 : talks bob_host alice_host bob_t1 alice_t1 bob_t2.
Proof. talk_turn. Qed.
Lemma alice_turn2 : talks alice_host bob_host alice_t1 bob_t2 alice_t2.
Proof. talk_turn. Qed.
Lemma alice_turn3 : talks alice_host bob_host alice_t2 bob_t2 alice_t3.
Proof. talk_turn. Qed.
Lemma bob_turn3 : talks bob_host alice_host bob_t2 alice_t3 bob_t3.
Proof. talk_turn. Qed.
Lemma bob_turn4 : talks bob_host alice_host bob_t3 alice_t3 bob_t4.
Proof. talk_turn. Qed.
Lemma bob_turn5 : talks bob_host alice_host bob_t4 alice_t3 bob_t5.
Proof. talk_turn. Qed.

Notation starts := (started (mem := word_over_read 0) (I := received_datagram) (O := Address * BufferList)
  t_own t_taken t_given t_outbox).

Lemma alice_started : starts alice_host bob_host alice_t0.
Proof.
  apply (st_connect _ _ _ _ _ _ (talk_socket hi demo_peer) demo_peer); by constructor.
Qed.

Lemma bob_started : starts bob_host alice_host bob_t0.
Proof.
  apply (st_listen _ _ _ _ _ _ (talk_socket [] bob_ad) bob_ad); by constructor.
Qed.

Lemma talk_turns :
  nsteps (turns (I := received_datagram) (O := Address * BufferList) t_own t_taken t_given t_inbox t_outbox
    alice_host bob_host) 8 (alice_t0, bob_t0) (alice_t3, bob_t5).
Proof.
  do 8 (eapply nsteps_l; [first
    [ apply turn_left, alice_turn1 | apply turn_right, bob_turn1 | apply turn_right, bob_turn2
    | apply turn_left, alice_turn2 | apply turn_left, alice_turn3 | apply turn_right, bob_turn3
    | apply turn_right, bob_turn4 | apply turn_right, bob_turn5 ]|]). constructor.
Qed.

Lemma owners_conversation_witness :
  hears t_own t_given (l_world alice_t3) (l_world bob_t5) /\ hears t_own t_given (l_world bob_t5) (l_world alice_t3).
Proof.
  apply (owners_conversation (mem := word_over_read 0) t_own t_taken t_given t_inbox t_outbox alice_host bob_host 8
    alice_t0 bob_t0);
    [apply alice_ok | apply bob_ok | apply alice_started | apply bob_started | apply talk_turns | lia].
Defined.

(** Bob's acknowledgment of the FIN reaches Alice. *)
Lemma owners_undisturbed_witness :
  match talk_round_of alice_t3 (talk_round (dgram bob_host bob_t5 2) false 60) with
  | Ok _ => True
  | Throw e => outside_fails (A := TCPOverUDPSocketAdapter) (I := received_datagram) (O := Address * BufferList)
      (K := talk) (Thrown e)
  | UB => undefined_below TCPOverUDPSocketAdapter received_datagram (Address * BufferList) talk
  end.
Proof.
  apply (owners_undisturbed (mem := word_over_read 0) t_own t_taken t_given t_inbox t_outbox alice_host bob_host 8
    alice_t0 bob_t0 alice_t3 bob_t5);
    [apply alice_ok | apply bob_ok | apply alice_started | apply bob_started | apply talk_turns | lia |].
  apply talk_admits; [talk_sent | talk_delivers].
Defined.
